(** * Hand distance estimator (hand_estimation.py)

    A shallow embedding of [hand_estimation.py] and of the fragment of the
    Python runtime it relies on: binary64 floats, unbounded integers, the
    builtins [min], [max], [abs], [int], [float], [input], [print], and a
    one-file file system.  Floats are the IEEE 754 binary64 values of
    [SpecFloat] (precision 53, maximal exponent 1024). *)

From Stdlib Require Import ZArith List String Ascii Bool Lia.
From Stdlib Require Import Decimal DecimalString DecimalN.
From Stdlib Require Import SpecFloat.
From Stdlib Require QArith Qpower Lqa.
Import ListNotations.

Local Open Scope Z_scope.

(** ** Python runtime: exceptions and results *)

Module Py.

Inductive exn : Type :=
| ZeroDivisionError
| OverflowError
| ValueError
| IndexError
| EOFError.

Inductive result (A : Type) : Type :=
| Ok (a : A)
| Raise (e : exn).

Arguments Ok {A} a.
Arguments Raise {A} e.

Definition bind {A B : Type} (r : result A) (k : A -> result B) : result B :=
  match r with
  | Ok a => k a
  | Raise e => Raise e
  end.

Notation "x <- r ;; k" := (bind r (fun x => k))
  (at level 61, r at next level, right associativity).

Notation "' pat <- r ;; k" := (bind r (fun x => match x with pat => k end))
  (at level 61, pat pattern, r at next level, right associativity).

(** ** binary64 *)

Definition prec : Z := 53.
Definition emax : Z := 1024.

Definition float : Type := spec_float.

Definition fmul : float -> float -> float := SFmul prec emax.
Definition fsub : float -> float -> float := SFsub prec emax.
Definition fdiv : float -> float -> float := SFdiv prec emax.

(** The float nearest to the integer [z] (ties to even); infinite when the
    rounded value does not fit. *)
Definition fround_Z (z : Z) : float := binary_normalize prec emax z 0 false.

Definition is_zero (x : float) : bool :=
  match x with S754_zero _ => true | _ => false end.

Definition is_nan (x : float) : bool :=
  match x with S754_nan => true | _ => false end.

Definition is_finite (x : float) : bool :=
  match x with S754_zero _ | S754_finite _ _ _ => true | _ => false end.

(** Comparison of the magnitudes [m1 * 2^e1] and [m2 * 2^e2], after
    aligning both to the smaller exponent. *)
Definition cmp_mag (m1 : positive) (e1 : Z) (m2 : positive) (e2 : Z) : comparison :=
  let c := Z.min e1 e2 in
  Z.compare (Zpos m1 * 2 ^ (e1 - c)) (Zpos m2 * 2 ^ (e2 - c)).

(** IEEE 754 comparison of the values: [None] when unordered. *)
Definition fcompare (x y : float) : option comparison :=
  match x, y with
  | S754_nan, _ | _, S754_nan => None
  | S754_infinity s1, S754_infinity s2 =>
      Some (match s1, s2 with
            | true, false => Lt
            | false, true => Gt
            | _, _ => Eq
            end)
  | S754_infinity s, _ => Some (if s then Lt else Gt)
  | _, S754_infinity s => Some (if s then Gt else Lt)
  | S754_zero _, S754_zero _ => Some Eq
  | S754_zero _, S754_finite s _ _ => Some (if s then Gt else Lt)
  | S754_finite s _ _, S754_zero _ => Some (if s then Lt else Gt)
  | S754_finite s1 m1 e1, S754_finite s2 m2 e2 =>
      Some (match s1, s2 with
            | true, false => Lt
            | false, true => Gt
            | false, false => cmp_mag m1 e1 m2 e2
            | true, true => CompOpp (cmp_mag m1 e1 m2 e2)
            end)
  end.

Definition flt (x y : float) : bool :=
  match fcompare x y with Some Lt => true | _ => false end.

(** Exact comparison of a float with an integer, as [float.__lt__] and
    [float.__eq__] do for an [int] operand: no rounding of the integer. *)
Definition fcompare_Z (x : float) (z : Z) : option comparison :=
  match x with
  | S754_nan => None
  | S754_infinity s => Some (if s then Lt else Gt)
  | S754_zero _ => Some (Z.compare 0 z)
  | S754_finite s m e =>
      let c := Z.min e 0 in
      Some (Z.compare (cond_Zopp s (Zpos m) * 2 ^ (e - c)) (z * 2 ^ (0 - c)))
  end.

(** ** Numbers: [int] and [float] *)

Inductive num : Type :=
| Int (z : Z)
| Float (f : float).

(** [PyLong_AsDouble]: raises when the integer is too large for a float. *)
Definition float_of_int (z : Z) : result float :=
  match fround_Z z with
  | S754_infinity _ => Raise OverflowError
  | f => Ok f
  end.

Definition to_float (a : num) : result float :=
  match a with
  | Int z => float_of_int z
  | Float f => Ok f
  end.

Definition compare (a b : num) : option comparison :=
  match a, b with
  | Int x, Int y => Some (Z.compare x y)
  | Float x, Float y => fcompare x y
  | Float x, Int y => fcompare_Z x y
  | Int x, Float y => option_map CompOpp (fcompare_Z y x)
  end.

(** [a == b], [a < b], [a > b] *)
Definition eq (a b : num) : bool :=
  match compare a b with Some Eq => true | _ => false end.

Definition lt (a b : num) : bool :=
  match compare a b with Some Lt => true | _ => false end.

Definition gt (a b : num) : bool := lt b a.

(** [a * b] *)
Definition mul (a b : num) : result num :=
  match a, b with
  | Int x, Int y => Ok (Int (x * y))
  | _, _ =>
      x <- to_float a ;;
      y <- to_float b ;;
      Ok (Float (fmul x y))
  end.

(** [a - b] *)
Definition sub (a b : num) : result num :=
  match a, b with
  | Int x, Int y => Ok (Int (x - y))
  | _, _ =>
      x <- to_float a ;;
      y <- to_float b ;;
      Ok (Float (fsub x y))
  end.

(** The magnitude of an integer as an unrounded float operand. *)
Definition exact_Z (z : Z) : float :=
  match z with
  | Z0 => S754_zero false
  | Zpos p => S754_finite false p 0
  | Zneg p => S754_finite true p 0
  end.

(** [a / b] (true division).  Two integers are divided exactly and the
    quotient rounded once; otherwise both operands become floats first. *)
Definition truediv (a b : num) : result num :=
  match a, b with
  | Int x, Int y =>
      if y =? 0 then Raise ZeroDivisionError
      else
        match x with
        | Z0 => Ok (Float (S754_zero (y <? 0)))
        | _ =>
            match fdiv (exact_Z x) (exact_Z y) with
            | S754_infinity _ => Raise OverflowError
            | q => Ok (Float q)
            end
        end
  | _, _ =>
      x <- to_float a ;;
      y <- to_float b ;;
      if is_zero y then Raise ZeroDivisionError
      else Ok (Float (fdiv x y))
  end.

(** [int(x)] for a float: truncation toward zero. *)
Definition int_of_float (x : float) : result Z :=
  match x with
  | S754_nan => Raise ValueError
  | S754_infinity _ => Raise OverflowError
  | S754_zero _ => Ok 0
  | S754_finite s m e =>
      Ok (cond_Zopp s (if 0 <=? e then Zpos m * 2 ^ e else Zpos m / 2 ^ (- e)))
  end.

(** [int(a)] *)
Definition int (a : num) : result Z :=
  match a with
  | Int z => Ok z
  | Float f => int_of_float f
  end.

(** [min(xs)] and [max(xs)]: the first element, replaced by each later one
    that compares strictly below (above) the current choice. *)
Definition min (xs : list num) : result num :=
  match xs with
  | [] => Raise ValueError
  | x :: rest => Ok (fold_left (fun cur item => if lt item cur then item else cur) rest x)
  end.

Definition max (xs : list num) : result num :=
  match xs with
  | [] => Raise ValueError
  | x :: rest => Ok (fold_left (fun cur item => if gt item cur then item else cur) rest x)
  end.

(** A list comprehension whose element expression may raise. *)
Fixpoint comprehension {A B : Type} (f : A -> result B) (xs : list A) : result (list B) :=
  match xs with
  | [] => Ok []
  | a :: rest =>
      b <- f a ;;
      bs <- comprehension f rest ;;
      Ok (b :: bs)
  end.

(** [xs[i]] *)
Definition index {A : Type} (xs : list A) (i : nat) : result A :=
  match nth_error xs i with
  | Some a => Ok a
  | None => Raise IndexError
  end.

(** ** Text

    A [str] is a sequence of code points below 256. *)

Definition code (c : ascii) : Z := Z.of_N (N_of_ascii c).

(** The line feed that ends a line. *)
Definition LF : string := String "010"%char EmptyString.

(** [c.isspace()] *)
Definition is_space (c : ascii) : bool :=
  let n := code c in
  ((9 <=? n) && (n <=? 13)) || ((28 <=? n) && (n <=? 32)) || (n =? 133) || (n =? 160).

(** The white space that [float] skips around a number: the separators 28
    to 31 are not part of it. *)
Definition is_float_space (c : ascii) : bool :=
  let n := code c in
  ((9 <=? n) && (n <=? 13)) || (n =? 32) || (n =? 133) || (n =? 160).

Fixpoint lstrip_with (sp : ascii -> bool) (s : string) : string :=
  match s with
  | EmptyString => EmptyString
  | String c r => if sp c then lstrip_with sp r else s
  end.

Fixpoint rstrip_with (sp : ascii -> bool) (s : string) : string :=
  match s with
  | EmptyString => EmptyString
  | String c r =>
      match rstrip_with sp r with
      | EmptyString => if sp c then EmptyString else String c EmptyString
      | r' => String c r'
      end
  end.

(** [s.strip()] *)
Definition strip (s : string) : string := rstrip_with is_space (lstrip_with is_space s).

Definition lower_char (c : ascii) : ascii :=
  let n := code c in
  if ((65 <=? n) && (n <=? 90)) || ((192 <=? n) && (n <=? 222) && negb (n =? 215))
  then ascii_of_N (Z.to_N (n + 32))
  else c.

(** [s.lower()] *)
Fixpoint lower (s : string) : string :=
  match s with
  | EmptyString => EmptyString
  | String c r => String (lower_char c) (lower r)
  end.

(** *** [float(s)] for a string *)

Definition digit_val (c : ascii) : option Z :=
  let n := code c in
  if (48 <=? n) && (n <=? 57) then Some (n - 48) else None.

(** The rest of a digit part, after one digit: [(["_"] digit)*]. *)
Fixpoint digits_tail (s : string) : list Z * string :=
  match s with
  | EmptyString => ([], s)
  | String c r =>
      match digit_val c with
      | Some d => let (ds, r') := digits_tail r in (d :: ds, r')
      | None =>
          if (c =? "_")%char then
            match r with
            | String c' r2 =>
                match digit_val c' with
                | Some d => let (ds, r') := digits_tail r2 in (d :: ds, r')
                | None => ([], s)
                end
            | EmptyString => ([], s)
            end
          else ([], s)
      end
  end.

(** [digitpart ::= digit (["_"] digit)*] *)
Definition digitpart (s : string) : option (list Z * string) :=
  match s with
  | EmptyString => None
  | String c r =>
      match digit_val c with
      | Some d => let (ds, r') := digits_tail r in Some (d :: ds, r')
      | None => None
      end
  end.

(** [number ::= [digitpart] "." digitpart | digitpart ["."]]: the digits
    before and after the point. *)
Definition number (s : string) : option (list Z * list Z * string) :=
  match digitpart s with
  | Some (ip, r) =>
      match r with
      | String "."%char r1 =>
          match digitpart r1 with
          | Some (fp, r2) => Some (ip, fp, r2)
          | None => Some (ip, [], r1)
          end
      | _ => Some (ip, [], r)
      end
  | None =>
      match s with
      | String "."%char r1 =>
          match digitpart r1 with
          | Some (fp, r2) => Some ([], fp, r2)
          | None => None
          end
      | _ => None
      end
  end.

Definition Z_of_digits (ds : list Z) : Z :=
  fold_left (fun acc d => 10 * acc + d) ds 0.

Definition sign_prefix (s : string) : bool * string :=
  match s with
  | String "+"%char r => (false, r)
  | String "-"%char r => (true, r)
  | _ => (false, s)
  end.

(** [exponent ::= ("e" | "E") ["+" | "-"] digitpart], or nothing. *)
Definition exponent (s : string) : option (Z * string) :=
  match s with
  | String c r =>
      if ((c =? "e") || (c =? "E"))%char then
        let (neg, r1) := sign_prefix r in
        match digitpart r1 with
        | Some (ds, r2) => Some (cond_Zopp neg (Z_of_digits ds), r2)
        | None => None
        end
      else Some (0, s)
  | EmptyString => Some (0, s)
  end.

(** The float nearest to [(-1)^neg * D * 10^E] (ties to even), for [0 <= D]. *)
Definition float_of_decimal (neg : bool) (D E : Z) : float :=
  match D with
  | Zpos p =>
      if 0 <=? E then binary_normalize prec emax (cond_Zopp neg (D * 10 ^ E)) 0 false
      else fdiv (S754_finite neg p 0) (S754_finite false (Z.to_pos (10 ^ (- E))) 0)
  | _ => S754_zero neg
  end.

Definition float_of_string (s : string) : result float :=
  let (neg, r) := sign_prefix (rstrip_with is_float_space (lstrip_with is_float_space s)) in
  let l := lower r in
  if ((l =? "inf") || (l =? "infinity"))%string then Ok (S754_infinity neg)
  else if (l =? "nan")%string then Ok S754_nan
  else
    match number r with
    | Some (ip, fp, r1) =>
        match exponent r1 with
        | Some (ex, EmptyString) =>
            Ok (float_of_decimal neg (Z_of_digits (ip ++ fp)%list) (ex - Z.of_nat (List.length fp)))
        | _ => Raise ValueError
        end
    | None => Raise ValueError
    end.

(** *** [repr(x)] for a float

    The shortest decimal string that [float] reads back as [x]; among the
    strings of that length, the one nearest to [x]. *)

Definition float_eqb (x y : float) : bool :=
  match x, y with
  | S754_zero s1, S754_zero s2 => Bool.eqb s1 s2
  | S754_infinity s1, S754_infinity s2 => Bool.eqb s1 s2
  | S754_nan, S754_nan => true
  | S754_finite s1 m1 e1, S754_finite s2 m2 e2 =>
      Bool.eqb s1 s2 && (m1 =? m2)%positive && (e1 =? e2)
  | _, _ => false
  end.

(** Decimal digits of a non-negative integer, most significant first. *)
Definition decimal_digits (n : Z) : string :=
  NilEmpty.string_of_uint (N.to_uint (Z.to_N n)).

Fixpoint drop_trailing_zeros (ds : string) : string :=
  match ds with
  | EmptyString => EmptyString
  | String c r =>
      match drop_trailing_zeros r with
      | EmptyString => if (c =? "0")%char then EmptyString else String c EmptyString
      | r' => String c r'
      end
  end.

Fixpoint zeros (n : nat) : string :=
  match n with
  | O => EmptyString
  | S k => String "0"%char (zeros k)
  end.

Fixpoint take (n : nat) (s : string) : string :=
  match n, s with
  | S k, String c r => String c (take k r)
  | _, _ => EmptyString
  end.

Fixpoint drop (n : nat) (s : string) : string :=
  match n, s with
  | S k, String _ r => drop k r
  | _, _ => s
  end.

(** [str(z)] for an integer *)
Definition str_of_int (z : Z) : string :=
  match z with
  | Zneg p => String "-"%char (decimal_digits (Zpos p))
  | _ => decimal_digits z
  end.

(** Digits [ds] with the decimal point after the first [decpt] of them:
    positional notation for [-4 < decpt <= 16], exponent notation
    otherwise. *)
Definition format_repr (ds : string) (decpt : Z) : string :=
  if (decpt <=? -4) || (16 <? decpt) then
    let ex := decpt - 1 in
    let mant :=
      match ds with
      | String d0 (String d1 r) => String d0 (String "."%char (String d1 r))
      | _ => ds
      end in
    let exs := decimal_digits (Z.abs ex) in
    let sgn := if ex <? 0 then "-"%char else "+"%char in
    let exs2 := if Z.abs ex <? 10 then String "0"%char exs else exs in
    String.append mant (String "e"%char (String sgn exs2))
  else if decpt <=? 0 then
    ("0." ++ zeros (Z.to_nat (- decpt)) ++ ds)%string
  else if Z.of_nat (String.length ds) <=? decpt then
    (ds ++ zeros (Z.to_nat (decpt - Z.of_nat (String.length ds))) ++ ".0")%string
  else
    (take (Z.to_nat decpt) ds ++ "." ++ drop (Z.to_nat decpt) ds)%string.

(** The text of [(-1)^neg * D * 10^k]: the digits of [D] without trailing
    zeros, the point placed by [format_repr]. *)
Definition render (neg : bool) (D k : Z) : string :=
  let all := decimal_digits D in
  let body := format_repr (drop_trailing_zeros all) (Z.of_nat (String.length all) + k) in
  if neg then String "-"%char body else body.

(** [float] reads the text of [D * 10^k] back as [x]. *)
Definition reads_back (x : float) (neg : bool) (D k : Z) : bool :=
  match float_of_string (render neg D k) with
  | Ok y => float_eqb y x
  | Raise _ => false
  end.

(** The magnitude [m * 2^e] as a fraction. *)
Definition ratio (m : positive) (e : Z) : Z * Z :=
  if 0 <=? e then (Zpos m * 2 ^ e, 1) else (Zpos m, 2 ^ (- e)).

(** [10^E <= n / d] *)
Definition pow10_le (E n d : Z) : bool :=
  if 0 <=? E then d * 10 ^ E <=? n else d <=? n * 10 ^ (- E).

(** The largest [E], at most [hi], with [10^E <= n / d], searched downward. *)
Fixpoint floor_log10 (fuel : nat) (hi n d : Z) : Z :=
  match fuel with
  | O => hi
  | S f => if pow10_le hi n d then hi else floor_log10 f (hi - 1) n d
  end.

(** [floor ((n / d) / 10^k)] *)
Definition scaled_floor (n d k : Z) : Z :=
  if 0 <=? k then n / (d * 10 ^ k) else (n * 10 ^ (- k)) / d.

(** Comparison of [n / d] with the midpoint [(2 * lo + 1) / 2 * 10^k]. *)
Definition cmp_mid (n d lo k : Z) : comparison :=
  if 0 <=? k then Z.compare (2 * n) ((2 * lo + 1) * d * 10 ^ k)
  else Z.compare (2 * n * 10 ^ (- k)) ((2 * lo + 1) * d).

(** The nearest decimal to [n / d] with exponent [k] (ties to even). *)
Definition nearest (n d k : Z) : Z :=
  let lo := scaled_floor n d k in
  match cmp_mid n d lo k with
  | Lt => lo
  | Gt => lo + 1
  | Eq => if Z.even lo then lo else lo + 1
  end.

(** The [ndigits]-digit decimal that reads back as [x], if there is one:
    of the two decimals around [n / d], the nearer one that does. *)
Definition candidate (x : float) (neg : bool) (n d E : Z) (ndigits : Z) : option (Z * Z) :=
  let k := E - (ndigits - 1) in
  let lo := scaled_floor n d k in
  let hi := lo + 1 in
  match reads_back x neg lo k, reads_back x neg hi k with
  | true, true => Some (nearest n d k, k)
  | true, false => Some (lo, k)
  | false, true => Some (hi, k)
  | false, false => None
  end.

(** Seventeen digits are tried at most; they always suffice for a binary64
    value. *)
Fixpoint shortest (fuel : nat) (x : float) (neg : bool) (n d E : Z) (ndigits : Z) : Z * Z :=
  match fuel with
  | O => (nearest n d (E - 16), E - 16)
  | S f =>
      match candidate x neg n d E ndigits with
      | Some r => r
      | None => shortest f x neg n d E (ndigits + 1)
      end
  end.

Definition float_repr (x : float) : string :=
  match x with
  | S754_nan => "nan"%string
  | S754_infinity s => if s then "-inf"%string else "inf"%string
  | S754_zero s => if s then "-0.0"%string else "0.0"%string
  | S754_finite s m e =>
      let (n, d) := ratio m e in
      let E := floor_log10 700 340 n d in
      let (D, k) := shortest 17 x s n d E 1 in
      render s D k
  end.

(** [str(a)], the text an f-string substitutes for [{a}] *)
Definition str (a : num) : string :=
  match a with
  | Int z => str_of_int z
  | Float f => float_repr f
  end.

End Py.

Import Py.

(** ** Constants *)

(** [KNOWN_DISTANCE_FOR_CALIBRATION = 30.0] *)
Definition f30_0 : float := Eval vm_compute in fround_Z 30.

Definition KNOWN_DISTANCE_FOR_CALIBRATION : num := Float f30_0.

(** [CALIBRATION_FILE = "calibration_data.txt"], the one file of the
    modelled file system. *)
Definition CALIBRATION_FILE : string := "calibration_data.txt".

(** ** The hand-landmark model

    [mp.solutions.hands] is an external collaborator: a detection is a list
    of normalized landmarks, indexed by [HandLandmark]. *)

Record Landmark : Type := { x : float; y : float; z : float }.

Record LandmarkList : Type := { landmark : list Landmark }.

Definition WRIST : nat := 0.
Definition INDEX_FINGER_MCP : nat := 5.
Definition PINKY_MCP : nat := 17.

Definition BBox : Type := (Z * Z * Z * Z)%type.

(** ** Helper functions *)

(** The key palm points: [[wrist_pt, index_mcp_pt, pinky_mcp_pt]]. *)
Definition palm_points (hand_landmarks : LandmarkList) : result (list Landmark) :=
  let points := landmark hand_landmarks in
  wrist_pt <- index points WRIST ;;
  index_mcp_pt <- index points INDEX_FINGER_MCP ;;
  pinky_mcp_pt <- index points PINKY_MCP ;;
  Ok [wrist_pt; index_mcp_pt; pinky_mcp_pt].

(** [[p.x * image_width for p in ...]] and [[p.y * image_height for p in ...]] *)
Definition x_coords_of (pts : list Landmark) (image_width : Z) : result (list num) :=
  comprehension (fun p => mul (Float (x p)) (Int image_width)) pts.

Definition y_coords_of (pts : list Landmark) (image_height : Z) : result (list num) :=
  comprehension (fun p => mul (Float (y p)) (Int image_height)) pts.

(** [get_hand_details(hand_landmarks, image_width, image_height)] *)
Definition get_hand_details (hand_landmarks : LandmarkList) (image_width image_height : Z)
  : result (Z * BBox) :=
  pts <- palm_points hand_landmarks ;;
  x_coords <- x_coords_of pts image_width ;;
  y_coords <- y_coords_of pts image_height ;;
  x_min <- (m <- min x_coords ;; int m) ;;
  x_max <- (m <- max x_coords ;; int m) ;;
  y_min <- (m <- min y_coords ;; int m) ;;
  y_max <- (m <- max y_coords ;; int m) ;;
  let pixel_width := Z.abs (x_max - x_min) in
  Ok (pixel_width, (x_min, y_min, x_max, y_max)).

(** The horizontal span as the specification words it, on the pixel
    coordinates themselves: [max(x * width) - min(x * width)]. *)
Definition horizontal_span (hand_landmarks : LandmarkList) (image_width : Z) : result num :=
  pts <- palm_points hand_landmarks ;;
  x_coords <- x_coords_of pts image_width ;;
  hi <- max x_coords ;;
  lo <- min x_coords ;;
  sub hi lo.

(** [estimate_distance(known_width_cm, focal_length, pixel_width)] *)
Definition estimate_distance (known_width_cm focal_length pixel_width : num) : result num :=
  if Py.eq pixel_width (Int 0) then Ok (Int 0)
  else
    p <- mul known_width_cm focal_length ;;
    truediv p pixel_width.


(** ** The world the program runs in *)

(** What the program prints, one constructor per [print] or [input] prompt. *)
Inductive Msg : Type :=
| StartingCalibration            (* "--- Starting Calibration ---" *)
| PromptHandWidth                (* "Please enter your hand width in cm ..." *)
| EnterPositive                  (* "Please enter a positive number." *)
| InvalidNumber                  (* "Invalid input. Please enter a number." *)
| PlaceHand (distance : num)     (* "Please place your hand at a known distance of ... cm" *)
| EnsurePalm                     (* "Ensure your palm is facing the camera." *)
| PressC                         (* "Press 'c' to capture and calibrate." *)
| CalibrationSuccessful (focal_length : num)
| SavedTo (path : string)        (* "Saved to ..." *)
| CouldNotMeasure                (* "Could not measure hand width. Please try again." *)
| PromptChoice                   (* "Use previous calibration (y) or run new calibration (n)? [y/n]: " *)
| LoadedSuccessfully             (* "Loaded calibration data successfully." *)
| FileCorrupt                    (* "Calibration file is corrupt. Please recalibrate." *)
| InvalidChoice                  (* "Invalid choice. Please enter 'y' or 'n'." *)
| NoCalibrationFile              (* "No calibration file found." *)
| CouldNotObtain                 (* "Could not obtain calibration data. Exiting." *)
| StartingEstimation             (* "Starting distance estimation... Press 'q' to quit." *)
| ProgramFinished.               (* "Program finished." *)

(** What is drawn on a frame before it is shown. *)
Inductive Draw : Type :=
| Rectangle (bbox : BBox)
| PixelWidthText (pixel_width : Z)
| PlaceHandText
| Skeleton
| DistanceText (distance : num)
| TooCloseText (at_x at_y : Z).

Inductive Window : Type := CalibrationWindow | EstimatorWindow.

(** One iteration of a capture loop, as the camera, the landmark model and
    the keyboard present it. *)
Inductive CamEvent : Type :=
| NotOpened
| ReadFailed
| Frame (h w : Z) (hands : option LandmarkList) (key : Z).

Record World : Type := {
  stdin : list string;                       (* lines [input] will return *)
  stdout : list Msg;                         (* printed so far, oldest first *)
  calibration_file : option string;          (* content of CALIBRATION_FILE, if it exists *)
  camera : list CamEvent;                    (* loop iterations to come *)
  screen : list (Window * list Draw)         (* frames shown, oldest first *)
}.

Definition print (m : Msg) (w : World) : World :=
  {| stdin := stdin w; stdout := stdout w ++ [m];
     calibration_file := calibration_file w; camera := camera w; screen := screen w |}.

Definition set_stdin (l : list string) (w : World) : World :=
  {| stdin := l; stdout := stdout w;
     calibration_file := calibration_file w; camera := camera w; screen := screen w |}.

Definition set_camera (c : list CamEvent) (w : World) : World :=
  {| stdin := stdin w; stdout := stdout w;
     calibration_file := calibration_file w; camera := c; screen := screen w |}.

Definition write_file (content : string) (w : World) : World :=
  {| stdin := stdin w; stdout := stdout w;
     calibration_file := Some content; camera := camera w; screen := screen w |}.

Definition imshow (win : Window) (image : list Draw) (w : World) : World :=
  {| stdin := stdin w; stdout := stdout w;
     calibration_file := calibration_file w; camera := camera w;
     screen := screen w ++ [(win, image)] |}.

(** A run returns, raises, or is still looping when the modelled camera
    events are used up. *)
Inductive outcome (A : Type) : Type :=
| Returned (a : A) (w : World)
| Raised (e : exn) (w : World)
| Pending (w : World).

Arguments Returned {A} a w.
Arguments Raised {A} e w.
Arguments Pending {A} w.

Definition world_of {A : Type} (o : outcome A) : World :=
  match o with
  | Returned _ w | Raised _ w | Pending w => w
  end.

(** ** Files *)

(** [f.readline()] with universal newlines: the line with its terminator
    (as a line feed), and the rest of the file. *)
Fixpoint readline (s : string) : string * string :=
  match s with
  | EmptyString => (EmptyString, EmptyString)
  | String c r =>
      if (c =? "010")%char then (String "010"%char EmptyString, r)
      else if (c =? "013")%char then
        (String "010"%char EmptyString,
         match r with
         | String c' r' => if (c' =? "010")%char then r' else r
         | EmptyString => r
         end)
      else let (l, r') := readline r in (String c l, r')
  end.

(** The two [f.write] calls of [calibrate]. *)
Definition calibration_text (focal_length known_hand_width : num) : string :=
  ((str focal_length ++ LF) ++ (str known_hand_width ++ LF))%string.

(** The body of the [with open(CALIBRATION_FILE, "r")] block. *)
Definition read_calibration (content : string) : result (num * num) :=
  let (line1, rest) := readline content in
  focal_length <- float_of_string (strip line1) ;;
  let (line2, _) := readline rest in
  known_width <- float_of_string (strip line2) ;;
  Ok (Float focal_length, Float known_width).

(** ** Calibration *)

(** The first loop of [calibrate]: ask until a positive number is entered. *)
Fixpoint ask_hand_width (lines : list string) (w : World) : outcome float :=
  match lines with
  | [] => Raised EOFError (set_stdin [] (print PromptHandWidth w))
  | l :: rest =>
      let w1 := set_stdin rest (print PromptHandWidth w) in
      match float_of_string l with
      | Ok known_hand_width =>
          if gt (Float known_hand_width) (Int 0) then Returned known_hand_width w1
          else ask_hand_width rest (print EnterPositive w1)
      | Raise ValueError => ask_hand_width rest (print InvalidNumber w1)
      | Raise e => Raised e w1
      end
  end.

(** What the calibration loop draws on a frame. *)
Definition calibration_overlay (hands : option LandmarkList) (w h : Z) : result (list Draw) :=
  match hands with
  | Some hand_landmarks =>
      '(pixel_width, bbox) <- get_hand_details hand_landmarks w h ;;
      Ok [Rectangle bbox; PixelWidthText pixel_width; PlaceHandText]
  | None => Ok [PlaceHandText]
  end.

(** [ord('c')] and [ord('q')] *)
Definition ord_c : Z := 99.
Definition ord_q : Z := 113.

(** The effect of one loop iteration. *)
Inductive step (A : Type) : Type :=
| Continue (w : World)
| Break (a : A) (w : World)
| Throw (e : exn) (w : World).

Arguments Continue {A} w.
Arguments Break {A} a w.
Arguments Throw {A} e w.

Definition step_world {A : Type} (s : step A) : World :=
  match s with
  | Continue w | Break _ w | Throw _ w => w
  end.

(** [(pixel_width * KNOWN_DISTANCE_FOR_CALIBRATION) / known_hand_width] *)
Definition focal_length_of (pixel_width : Z) (known_hand_width : float) : result num :=
  p <- mul (Int pixel_width) KNOWN_DISTANCE_FOR_CALIBRATION ;;
  truediv p (Float known_hand_width).

(** The detection the capture acts on:
    [cv2.waitKey(5) & 0xFF == ord('c') and results.multi_hand_landmarks]. *)
Definition capture_request (key : Z) (hands : option LandmarkList) : option LandmarkList :=
  if Z.land key 255 =? ord_c then hands else None.

(** The body of the second loop of [calibrate]. *)
Definition capture_step (known_hand_width : float) (ev : CamEvent) (w : World) : step num :=
  match ev with
  | NotOpened | ReadFailed => Continue w
  | Frame h wd hands key =>
      match calibration_overlay hands wd h with
      | Raise e => Throw e w
      | Ok image =>
          let w1 := imshow CalibrationWindow image w in
          match capture_request key hands with
          | Some hand_landmarks =>
              match get_hand_details hand_landmarks wd h with
              | Raise e => Throw e w1
              | Ok (pixel_width, _) =>
                  if pixel_width >? 0 then
                    match focal_length_of pixel_width known_hand_width with
                    | Raise e => Throw e w1
                    | Ok focal_length =>
                        let w2 := write_file
                                    (calibration_text focal_length (Float known_hand_width)) w1 in
                        Break focal_length
                          (print (SavedTo CALIBRATION_FILE)
                             (print (CalibrationSuccessful focal_length) w2))
                    end
                  else Continue (print CouldNotMeasure w1)
              end
          | None => Continue w1
          end
      end
  end.

(** The second loop of [calibrate]: one camera event per iteration. *)
Fixpoint capture_loop (known_hand_width : float) (events : list CamEvent) (w : World)
  : outcome num :=
  match events with
  | [] => Pending w
  | ev :: rest =>
      match capture_step known_hand_width ev (set_camera rest w) with
      | Continue w' => capture_loop known_hand_width rest w'
      | Break focal_length w' => Returned focal_length w'
      | Throw e w' => Raised e w'
      end
  end.

(** [calibrate()] *)
Definition calibrate (w : World) : outcome (num * num) :=
  let w := print StartingCalibration w in
  match ask_hand_width (stdin w) w with
  | Returned known_hand_width w1 =>
      let w2 := print PressC (print EnsurePalm
                  (print (PlaceHand KNOWN_DISTANCE_FOR_CALIBRATION) w1)) in
      match capture_loop known_hand_width (camera w2) w2 with
      | Returned focal_length w3 => Returned (focal_length, Float known_hand_width) w3
      | Raised e w3 => Raised e w3
      | Pending w3 => Pending w3
      end
  | Raised e w1 => Raised e w1
  | Pending w1 => Pending w1
  end.

(** A Python value that may be [None]. *)
Inductive pyval : Type :=
| PyNone
| PyNum (n : num).

Definition is_None (v : pyval) : bool :=
  match v with PyNone => true | PyNum _ => false end.

Definition calibrate_values (w : World) : outcome (pyval * pyval) :=
  match calibrate w with
  | Returned (focal_length, known_hand_width) w1 =>
      Returned (PyNum focal_length, PyNum known_hand_width) w1
  | Raised e w1 => Raised e w1
  | Pending w1 => Pending w1
  end.

(** The [while True] loop of [get_calibration_data], entered when the
    calibration file exists with content [content]. *)
Fixpoint choice_loop (content : string) (lines : list string) (w : World)
  : outcome (pyval * pyval) :=
  match lines with
  | [] => Raised EOFError (set_stdin [] (print PromptChoice w))
  | l :: rest =>
      let w1 := set_stdin rest (print PromptChoice w) in
      let choice := lower l in
      if (choice =? "y")%string then
        match read_calibration content with
        | Ok (focal_length, known_width) =>
            Returned (PyNum focal_length, PyNum known_width) (print LoadedSuccessfully w1)
        | Raise ValueError | Raise IndexError =>
            calibrate_values (print FileCorrupt w1)
        | Raise e => Raised e w1
        end
      else if (choice =? "n")%string then calibrate_values w1
      else choice_loop content rest (print InvalidChoice w1)
  end.

(** [get_calibration_data()] *)
Definition get_calibration_data (w : World) : outcome (pyval * pyval) :=
  match calibration_file w with
  | Some content => choice_loop content (stdin w) w
  | None => calibrate_values (print NoCalibrationFile w)
  end.

(** ** The runtime loop *)

(** What [main] draws on a frame. *)
Definition runtime_overlay (focal_length known_hand_width : num)
    (hands : option LandmarkList) (w h : Z) : result (list Draw) :=
  match hands with
  | Some hand_landmarks =>
      '(pixel_width, bbox) <- get_hand_details hand_landmarks w h ;;
      if pixel_width >? 0 then
        distance <- estimate_distance known_hand_width focal_length (Int pixel_width) ;;
        Ok ([Skeleton; Rectangle bbox; DistanceText distance] ++
            (if lt distance (Int 60) then [TooCloseText (w / 2 - 200) (h / 2)] else []))
      else Ok [Skeleton; Rectangle bbox]
  | None => Ok []
  end.

(** The body of the [while cap.isOpened()] loop of [main]; [NotOpened]
    makes the loop condition false. *)
Definition runtime_step (focal_length known_hand_width : num) (ev : CamEvent) (w : World)
  : step unit :=
  match ev with
  | NotOpened => Break tt w
  | ReadFailed => Continue w
  | Frame h wd hands key =>
      match runtime_overlay focal_length known_hand_width hands wd h with
      | Raise e => Throw e w
      | Ok image =>
          let w1 := imshow EstimatorWindow image w in
          if Z.land key 255 =? ord_q then Break tt w1 else Continue w1
      end
  end.

Fixpoint runtime_loop (focal_length known_hand_width : num) (events : list CamEvent)
    (w : World) : outcome unit :=
  match events with
  | [] => Pending w
  | ev :: rest =>
      match runtime_step focal_length known_hand_width ev (set_camera rest w) with
      | Continue w' => runtime_loop focal_length known_hand_width rest w'
      | Break _ w' => Returned tt w'
      | Throw e w' => Raised e w'
      end
  end.

(** [main()] *)
Definition main (w : World) : outcome unit :=
  match get_calibration_data w with
  | Returned (focal_length, known_hand_width) w1 =>
      match focal_length, known_hand_width with
      | PyNum fl, PyNum kw =>
          let w2 := print StartingEstimation w1 in
          match runtime_loop fl kw (camera w2) w2 with
          | Returned _ w3 => Returned tt (print ProgramFinished w3)
          | o => o
          end
      | _, _ => Returned tt (print CouldNotObtain w1)
      end
  | Raised e w1 => Raised e w1
  | Pending w1 => Pending w1
  end.

(** ** Scenario values *)

Definition f8_0 : float := Eval vm_compute in fround_Z 8.
Definition f36_0 : float := Eval vm_compute in fround_Z 36.
Definition f60_0 : float := Eval vm_compute in fround_Z 60.
Definition f450_0 : float := Eval vm_compute in fround_Z 450.

(** The float [m * 2^e], rounded if need be. *)
Definition dyadic (m e : Z) : float := binary_normalize prec emax m e false.

Definition f0_25 : float := Eval vm_compute in dyadic 1 (-2).
Definition f0_5 : float := Eval vm_compute in dyadic 1 (-1).
Definition f120_625 : float := Eval vm_compute in dyadic 965 (-3).

Definition point (px py : float) : Landmark := {| x := px; y := py; z := S754_zero false |}.

(** A detection of 21 landmarks with the given wrist, index-finger MCP and
    pinky MCP, every other landmark at the image centre. *)
Definition hand_of (wrist index_mcp pinky_mcp : Landmark) : LandmarkList :=
  let c := point f0_5 f0_5 in
  {| landmark := [wrist; c; c; c; c; index_mcp; c; c; c; c; c;
                  c; c; c; c; c; c; pinky_mcp; c; c; c] |}.

(** Palms whose integer width is 120, 100, 60 and 0 pixels in a 640 x 480
    frame, and one whose pixel coordinates have a fractional part. *)
Definition hand_120 : LandmarkList :=
  hand_of (point f0_25 (dyadic 3 (-2))) (point (dyadic 7 (-4)) f0_5) (point (dyadic 5 (-4)) f0_5).

Definition hand_100 : LandmarkList :=
  hand_of (point f0_25 (dyadic 3 (-2))) (point (dyadic 13 (-5)) f0_5) (point (dyadic 5 (-4)) f0_5).

Definition hand_60 : LandmarkList :=
  hand_of (point f0_25 (dyadic 3 (-2))) (point (dyadic 11 (-5)) f0_5) (point (dyadic 5 (-4)) f0_5).

Definition hand_flat : LandmarkList :=
  hand_of (point f0_25 (dyadic 3 (-2))) (point f0_25 f0_5) (point f0_25 f0_5).

Definition hand_fractional : LandmarkList :=
  hand_of (point f0_25 (dyadic 3 (-2))) (point (dyadic 449 (-10)) f0_5) (point (dyadic 5 (-4)) f0_5).

(** A calibration session: the user enters 8.0, then presses [c] on a
    640 x 480 frame showing a palm 120 pixels wide. *)
Definition world_calibrating : World :=
  {| stdin := ["8.0"%string]; stdout := []; calibration_file := None;
     camera := [ReadFailed; Frame 480 640 None 99; Frame 480 640 (Some hand_120) 99];
     screen := [] |}.

(** A session that reuses the file written by [world_calibrating], then
    quits on the first frame. *)
Definition world_reusing : World :=
  {| stdin := ["maybe"%string; "Y"%string]; stdout := [];
     calibration_file := Some ("450.0" ++ LF ++ "8.0" ++ LF)%string;
     camera := [Frame 480 640 (Some hand_100) 113]; screen := [] |}.

(** Sessions whose calibration file is damaged: a non-numeric first line, a
    missing second line, an empty file. *)
Definition world_corrupt (content : string) : World :=
  {| stdin := ["y"%string; "8.0"%string]; stdout := [];
     calibration_file := Some content;
     camera := [Frame 480 640 (Some hand_120) 99]; screen := [] |}.

(** A session that reuses a calibration file holding negative numbers, and
    one in which the user enters [inf] as hand width. *)
Definition world_negative_file : World :=
  {| stdin := ["y"%string]; stdout := [];
     calibration_file := Some ("-1.0" ++ LF ++ "-2.0" ++ LF)%string;
     camera := []; screen := [] |}.

Definition world_infinite_width : World :=
  {| stdin := ["inf"%string]; stdout := []; calibration_file := None;
     camera := [Frame 480 640 (Some hand_120) 99]; screen := [] |}.

Definition f_minus_1 : float := Eval vm_compute in fround_Z (-1).
Definition f_minus_2 : float := Eval vm_compute in fround_Z (-2).

(** ** Vocabulary of the proofs *)

(** The shift applied by [shr_fexp] to mantissa [m] at exponent [e]. *)
Definition shift_of (m e : Z) : Z := Z.max (fexp prec emax (Zdigits2 m + e) - e) 0.

(** A finite float within the binary64 range: at most 53 mantissa bits and
    an exponent of at most 971. *)
Definition in_range (x : float) : Prop :=
  match x with
  | S754_finite _ m e => Zdigits2 (Zpos m) <= 53 /\ e <= 971
  | S754_nan => False
  | _ => True
  end.

(** The sign bit of a float that is not a NaN. *)
Definition has_sign (s : bool) (x : float) : Prop :=
  match x with
  | S754_zero s' | S754_infinity s' | S754_finite s' _ _ => s' = s
  | S754_nan => False
  end.

(** [x] is at least [2^(k-1)] in magnitude. *)
Definition mag_ge (k : Z) (x : float) : Prop :=
  match x with
  | S754_finite _ m e => k <= Zdigits2 (Zpos m) + e
  | S754_infinity _ => True
  | _ => False
  end.

(** [x <= y] on floats; false when either is a NaN. *)
Definition fle (x y : float) : bool :=
  match fcompare x y with Some Lt | Some Eq => true | _ => false end.

(** Position of a float on the extended line: the infinities apart, and a
    finite value as the integer [value * 2^(-c)], for [c] at most its
    exponent. *)
Definition cls (x : float) : Z :=
  match x with
  | S754_infinity true => -1
  | S754_infinity false => 1
  | _ => 0
  end.

Definition expo (x : float) : Z :=
  match x with S754_finite _ _ e => e | _ => 0 end.

Definition sval (c : Z) (x : float) : Z :=
  match x with
  | S754_finite s m e => cond_Zopp s (Zpos m * 2 ^ (e - c))
  | _ => 0
  end.

(** [i] is [x] with its fractional part dropped: it lies between 0 and [x],
    less than 1 away from [x]. *)
Definition truncation_of (x : float) (i : Z) : Prop :=
  match fcompare_Z x 0 with
  | Some Lt => i <= 0 /\ fcompare_Z x (i - 1) = Some Gt /\ fcompare_Z x i <> Some Gt
  | Some _ => 0 <= i /\ fcompare_Z x (i + 1) = Some Lt /\ fcompare_Z x i <> Some Lt
  | None => False
  end.

(** The running minimum and maximum of [min] and [max], on floats. *)
Definition fmin_step (cur item : float) : float := if flt item cur then item else cur.
Definition fmax_step (cur item : float) : float := if flt cur item then item else cur.

(** The two lines the load path parses. *)
Definition first_line (content : string) : string := strip (fst (readline content)).
Definition second_line (content : string) : string :=
  strip (fst (readline (snd (readline content)))).

(** [w'] is [w] after printing messages that all satisfy [P]. *)
Definition prints_only (P : Msg -> Prop) (w w' : World) : Prop :=
  exists ms, stdout w' = stdout w ++ ms /\ Forall P ms.

(** No character of [s] is white space (line ends included). *)
Fixpoint no_space (s : string) : bool :=
  match s with
  | EmptyString => true
  | String c r => negb (is_space c) && no_space r
  end.

(** *** Rounding a quotient

    The steps of [binary_round_aux], written on the quotient [A / B] that the
    shifted mantissa and its location stand for. *)

(** Where [A / B] lies between the integers around it. *)
Definition classify (rem B : Z) : location :=
  if rem =? 0 then loc_Exact else loc_Inexact (Z.compare (2 * rem) B).

(** [A / B] rounded to the nearest integer, ties to even. *)
Definition rnd (A B : Z) : Z := round_nearest_even (A / B) (classify (A mod B) B).

(** The float with mantissa [mr] at exponent [e1], renormalised. *)
Definition finish (s : bool) (mr e1 : Z) : float :=
  match mr / 2 ^ shift_of mr e1 with
  | Z0 => S754_zero s
  | Zpos p => if e1 + shift_of mr e1 <=? 971 then S754_finite s p (e1 + shift_of mr e1)
              else S754_infinity s
  | Zneg _ => S754_nan
  end.

(** The quotient [A / B] at exponent [ex], rounded to binary64. *)
Definition rounded (A B ex : Z) : float :=
  finish false (rnd A (B * 2 ^ shift_of (A / B) ex)) (ex + shift_of (A / B) ex).

(** The fraction [N / Dn] is within half a unit in the last place of
    [m * 2^e] on either side, and within a quarter below when [m * 2^e] is a
    power of two above the subnormal range. *)
Definition near (m : positive) (e N Dn : Z) : Prop :=
  let pe := 2 ^ Z.max e 0 in
  let pn := 2 ^ Z.max (- e) 0 in
  (2 * Zpos m - 1) * pe * Dn < 2 * N * pn /\
  2 * N * pn < (2 * Zpos m + 1) * pe * Dn /\
  (Zpos m = 2 ^ 52 -> -1074 < e -> (4 * Zpos m - 1) * pe * Dn < 4 * N * pn).

(** *** Digit strings *)

(** The value of a character read as a decimal digit. *)
Definition digit_of (c : ascii) : Z :=
  match digit_val c with Some d => d | None => 0 end.

Fixpoint all_digits (s : string) : bool :=
  match s with
  | EmptyString => true
  | String c r => match digit_val c with Some _ => all_digits r | None => false end
  end.

Fixpoint vals (s : string) : list Z :=
  match s with
  | EmptyString => []
  | String c r => digit_of c :: vals r
  end.

(** A digit part cannot extend into [s]. *)
Definition stops (s : string) : bool :=
  match s with
  | EmptyString => true
  | String c _ => match digit_val c with Some _ => false | None => negb (c =? "_")%char end
  end.

(** The value of the digits [ds] appended to the number [acc]. *)
Definition Zacc (acc : Z) (ds : list Z) : Z := fold_left (fun a d => 10 * a + d) ds acc.

(** *** Well-formed input and loop events *)

Definition f1_0 : float := Eval vm_compute in fround_Z 1.

(** [0 <= v <= 1]: a normalized image coordinate. *)
Definition normalized (v : float) : bool := fle (S754_zero false) v && fle v f1_0.

(** The three palm landmarks exist and their coordinates are normalized. *)
Definition palm_normalized (hand_landmarks : LandmarkList) : bool :=
  match palm_points hand_landmarks with
  | Ok pts => forallb (fun p => normalized (x p) && normalized (y p)) pts
  | Raise _ => false
  end.

(** An iteration whose frame has non-negative dimensions below [2^53] and
    whose detection, if any, has normalized palm landmarks. *)
Definition well_formed_event (ev : CamEvent) : bool :=
  match ev with
  | Frame h w hands _ =>
      (0 <=? h) && (h <? 2 ^ 53) && (0 <=? w) && (w <? 2 ^ 53) &&
      match hands with
      | Some hand_landmarks => palm_normalized hand_landmarks
      | None => true
      end
  | _ => true
  end.

(** What a run of [get_calibration_data] can end in, when the camera events
    to come are well formed. *)
Definition calibration_outcome (o : outcome (pyval * pyval)) : Prop :=
  match o with
  | Returned (a, b) w' =>
      (exists f k, a = PyNum (Float f) /\ b = PyNum (Float k)) /\
      forallb well_formed_event (camera w') = true
  | Raised e _ => e = EOFError
  | Pending _ => True
  end.

(** The iteration ends the runtime loop: the camera is closed, or the key
    pressed is [q]. *)
Definition quits (ev : CamEvent) : bool :=
  match ev with
  | NotOpened => true
  | ReadFailed => false
  | Frame _ _ _ key => Z.land key 255 =? ord_q
  end.

(** The iteration ends the capture loop: [c] is pressed on a frame with a
    detected hand whose pixel width is above 0. *)
Definition captures (ev : CamEvent) : bool :=
  match ev with
  | Frame h w (Some hand_landmarks) key =>
      (Z.land key 255 =? ord_c) &&
      match get_hand_details hand_landmarks w h with
      | Ok (pixel_width, _) => pixel_width >? 0
      | Raise _ => false
      end
  | _ => false
  end.

(** What the hand-width prompt answers to a line it does not accept;
    [None] for a line it accepts. *)
Definition width_rejection (l : string) : option Msg :=
  match float_of_string l with
  | Ok known_hand_width =>
      if gt (Float known_hand_width) (Int 0) then None else Some EnterPositive
  | Raise _ => Some InvalidNumber
  end.

(** What is printed while the lines [bad] are entered and rejected. *)
Definition width_reprompts (bad : list string) : list Msg :=
  flat_map (fun l => match width_rejection l with
                     | Some m => [PromptHandWidth; m]
                     | None => []
                     end) bad.

(** An answer to the reuse prompt that is neither [y] nor [n]. *)
Definition invalid_choice (l : string) : bool :=
  negb ((lower l =? "y")%string || (lower l =? "n")%string).

(** The world after the answers [bad] to the reuse prompt were rejected. *)
Definition after_invalid_choices (bad rest : list string) (w : World) : World :=
  {| stdin := rest;
     stdout := stdout w ++ flat_map (fun _ => [PromptChoice; InvalidChoice]) bad;
     calibration_file := calibration_file w; camera := camera w; screen := screen w |}.

(** The carriage return and line feed that end a line written on Windows. *)
Definition CRLF : string := String "013"%char LF.

(** No character of [s] ends a line. *)
Fixpoint no_newline (s : string) : bool :=
  match s with
  | EmptyString => true
  | String c r => negb (c =? "010")%char && negb (c =? "013")%char && no_newline r
  end.

(** A line terminator that [readline] reads as one line feed. *)
Definition line_end (nl : string) : bool := ((nl =? LF) || (nl =? CRLF))%string.

(** A detection like [hand_120] whose index-finger knuckle has no usable
    [x]. *)
Definition hand_nan_index : LandmarkList :=
  hand_of (point f0_25 (dyadic 3 (-2))) (point S754_nan f0_5) (point (dyadic 5 (-4)) f0_5).

(** *** Values as rationals *)

(** The value of a power of two and of a positive finite float, as
    rationals. *)
Definition Q2 (e : Z) : QArith_base.Q := QArith_base.Qpower (QArith_base.Qmake 2 1) e.
Definition Qvalue (m : positive) (e : Z) : QArith_base.Q :=
  QArith_base.Qmult (QArith_base.inject_Z (Zpos m)) (Q2 e).

(** The unit roundoff of binary64, [2^-53]. *)
Definition unit_roundoff : QArith_base.Q := QArith_base.Qmake 1 9007199254740992.

(** A hand width between [2^-900] and [2^900]. *)
Definition f_tiny : float := S754_finite false 4503599627370496 (-952).
Definition f_huge : float := S754_finite false 4503599627370496 848.
Definition ordinary (v : float) : bool := fle f_tiny v && fle v f_huge.

(** * Properties *)

(** ** Rounding to binary64 *)

Module Rounding.

Lemma emin_val : emin prec emax = -1074.
Proof. reflexivity. Qed.

Lemma fexp_val (e : Z) : fexp prec emax e = Z.max (e - 53) (-1074).
Proof. reflexivity. Qed.

Lemma digits2_pos_size (p : positive) : digits2_pos p = Pos.size p.
Proof. induction p; simpl; congruence. Qed.

Lemma Zdigits2_log2 (m : Z) : 0 < m -> Zdigits2 m = Z.log2 m + 1.
Proof.
  destruct m as [|p|p]; try lia. intros _. simpl.
  rewrite digits2_pos_size. destruct p; simpl; lia.
Qed.

Lemma Zdigits2_nonneg (m : Z) : 0 <= Zdigits2 m.
Proof. destruct m; simpl; lia. Qed.

Lemma Zdigits2_pos (m : Z) : 0 < m -> 0 < Zdigits2 m.
Proof. destruct m; simpl; lia. Qed.

Lemma Zdigits2_bounds (m : Z) : 0 < m -> 2 ^ (Zdigits2 m - 1) <= m < 2 ^ Zdigits2 m.
Proof.
  intros H. rewrite Zdigits2_log2 by assumption.
  replace (Z.log2 m + 1 - 1) with (Z.log2 m) by lia.
  replace (Z.log2 m + 1) with (Z.succ (Z.log2 m)) by lia.
  apply Z.log2_spec; assumption.
Qed.

Lemma Zdigits2_le (a b : Z) : 0 < a -> a <= b -> Zdigits2 a <= Zdigits2 b.
Proof.
  intros Ha Hab. rewrite !Zdigits2_log2 by lia.
  pose proof (Z.log2_le_mono a b Hab). lia.
Qed.

(** Digits of [m] from a power-of-two sandwich. *)
Lemma Zdigits2_unique (m d : Z) : 0 < d -> 2 ^ (d - 1) <= m < 2 ^ d -> Zdigits2 m = d.
Proof.
  intros Hd [H1 H2].
  assert (0 < m) by (pose proof (Z.pow_pos_nonneg 2 (d - 1)); lia).
  rewrite Zdigits2_log2 by assumption.
  assert (Z.log2 m = d - 1); [|lia].
  apply Z.log2_unique; [lia|]. replace (Z.succ (d - 1)) with d by lia. lia.
Qed.

Lemma Zdigits2_shift (m n : Z) :
  0 < m -> 0 <= n < Zdigits2 m -> Zdigits2 (m / 2 ^ n) = Zdigits2 m - n /\ 0 < m / 2 ^ n.
Proof.
  intros Hm Hn.
  pose proof (Zdigits2_bounds m Hm) as [Hlo Hhi].
  assert (Hp : 0 < 2 ^ n) by (apply Z.pow_pos_nonneg; lia).
  assert (E1 : 2 ^ (Zdigits2 m - 1) = 2 ^ (Zdigits2 m - n - 1) * 2 ^ n).
  { rewrite <- Z.pow_add_r by lia. f_equal. lia. }
  assert (E2 : 2 ^ Zdigits2 m = 2 ^ (Zdigits2 m - n) * 2 ^ n).
  { rewrite <- Z.pow_add_r by lia. f_equal. lia. }
  assert (L : 2 ^ (Zdigits2 m - n - 1) <= m / 2 ^ n).
  { apply Z.div_le_lower_bound; [assumption|]. rewrite Z.mul_comm. lia. }
  assert (U : m / 2 ^ n < 2 ^ (Zdigits2 m - n)).
  { apply Z.div_lt_upper_bound; [assumption|]. rewrite Z.mul_comm. lia. }
  assert (0 < 2 ^ (Zdigits2 m - n - 1)) by (apply Z.pow_pos_nonneg; lia).
  split; [|lia].
  apply Zdigits2_unique; [lia|]. split; [|assumption]. assumption.
Qed.

Lemma Zdigits2_shift_le (m n : Z) :
  0 <= m -> 0 <= n -> Zdigits2 (m / 2 ^ n) <= Z.max (Zdigits2 m - n) 0 /\ 0 <= m / 2 ^ n.
Proof.
  intros Hm Hn.
  assert (Hp : 0 < 2 ^ n) by (apply Z.pow_pos_nonneg; lia).
  assert (Hq : 0 <= m / 2 ^ n) by (apply Z.div_pos; lia).
  split; [|assumption].
  destruct (Z.eq_dec m 0) as [->|Hnz].
  { rewrite Z.div_0_l by lia. simpl. lia. }
  destruct (Z_lt_le_dec n (Zdigits2 m)) as [Hlt|Hge].
  - destruct (Zdigits2_shift m n) as [E _]; lia.
  - assert (m / 2 ^ n = 0).
    { apply Z.div_small. split; [lia|].
      pose proof (Zdigits2_bounds m ltac:(lia)) as [_ Hhi].
      pose proof (Z.pow_le_mono_r 2 (Zdigits2 m) n ltac:(lia) Hge). lia. }
    rewrite H. simpl. lia.
Qed.

(** *** Right shifts *)

Lemma shr_1_m (r : shr_record) : 0 <= shr_m r -> shr_m (shr_1 r) = shr_m r / 2.
Proof.
  destruct r as [m b c]. simpl. intros H.
  rewrite <- Z.div2_div.
  destruct m as [|[p|p|]|p]; simpl; try reflexivity; lia.
Qed.

Lemma iter_shr_1_m (p : positive) (r : shr_record) :
  0 <= shr_m r -> shr_m (iter_pos shr_1 p r) = shr_m r / 2 ^ Zpos p.
Proof.
  revert r. induction p as [p IH|p IH|]; intros r H; simpl iter_pos.
  - assert (H1 : 0 <= shr_m (shr_1 r)) by (rewrite shr_1_m by assumption; apply Z.div_pos; lia).
    assert (H2 : 0 <= shr_m (iter_pos shr_1 p (shr_1 r)))
      by (rewrite IH by assumption; apply Z.div_pos; [assumption|apply Z.pow_pos_nonneg; lia]).
    rewrite IH by assumption. rewrite IH by assumption. rewrite shr_1_m by assumption.
    rewrite !Z.div_div by (try apply Z.pow_pos_nonneg; lia).
    f_equal. replace (Zpos p~1) with (1 + Zpos p + Zpos p) by lia.
    rewrite !Z.pow_add_r by lia. change (2 ^ 1) with 2. ring.
  - assert (H2 : 0 <= shr_m (iter_pos shr_1 p r))
      by (rewrite IH by assumption; apply Z.div_pos; [assumption|apply Z.pow_pos_nonneg; lia]).
    rewrite IH by assumption. rewrite IH by assumption.
    rewrite !Z.div_div by (try apply Z.pow_pos_nonneg; lia).
    f_equal. replace (Zpos p~0) with (Zpos p + Zpos p) by lia.
    rewrite !Z.pow_add_r by lia. ring.
  - rewrite shr_1_m by assumption. reflexivity.
Qed.

Lemma shr_spec (r : shr_record) (e n : Z) :
  0 <= shr_m r ->
  shr_m (fst (shr r e n)) = shr_m r / 2 ^ Z.max n 0 /\ snd (shr r e n) = e + Z.max n 0.
Proof.
  intros H. destruct n as [|p|p]; simpl.
  - rewrite Z.div_1_r. split; [reflexivity|lia].
  - split; [apply iter_shr_1_m; assumption|reflexivity].
  - rewrite Z.div_1_r. split; [reflexivity|lia].
Qed.

Lemma shr_record_of_loc_m (m : Z) (l : location) : shr_m (shr_record_of_loc m l) = m.
Proof. destruct l as [|[]]; reflexivity. Qed.

Lemma round_nearest_even_cases (m : Z) (l : location) :
  round_nearest_even m l = m \/ round_nearest_even m l = m + 1.
Proof.
  destruct l as [|[]]; simpl; auto. destruct (Z.even m); auto.
Qed.

(** [binary_round_aux] as two shifts around one rounding step. *)
Lemma binary_round_aux_cases (s : bool) (mx ex : Z) (lx : location) :
  0 <= mx ->
  exists mr,
    (mr = mx / 2 ^ shift_of mx ex \/ mr = mx / 2 ^ shift_of mx ex + 1) /\
    let e1 := ex + shift_of mx ex in
    let m2 := mr / 2 ^ shift_of mr e1 in
    let e2 := e1 + shift_of mr e1 in
    binary_round_aux prec emax s mx ex lx =
      match m2 with
      | Z0 => S754_zero s
      | Zpos m => if e2 <=? emax - prec then S754_finite s m e2 else S754_infinity s
      | Zneg _ => S754_nan
      end.
Proof.
  intros Hmx. unfold binary_round_aux, shr_fexp.
  pose proof (shr_spec (shr_record_of_loc mx lx) ex
                (fexp prec emax (Zdigits2 mx + ex) - ex)) as S1.
  rewrite shr_record_of_loc_m in S1. specialize (S1 Hmx).
  destruct (shr (shr_record_of_loc mx lx) ex (fexp prec emax (Zdigits2 mx + ex) - ex))
    as [mrs' e'] eqn:E1.
  simpl in S1. destruct S1 as [S1m S1e]. fold (shift_of mx ex) in S1m, S1e.
  set (mr := round_nearest_even (shr_m mrs') (loc_of_shr_record mrs')).
  assert (Hmr : mr = mx / 2 ^ shift_of mx ex \/ mr = mx / 2 ^ shift_of mx ex + 1).
  { unfold mr. rewrite <- S1m. apply round_nearest_even_cases. }
  assert (Hmr0 : 0 <= mr).
  { assert (0 <= mx / 2 ^ shift_of mx ex).
    { apply Z.div_pos; [assumption|]. apply Z.pow_pos_nonneg; [lia|]. unfold shift_of. lia. }
    lia. }
  pose proof (shr_spec (shr_record_of_loc mr loc_Exact) e'
                (fexp prec emax (Zdigits2 mr + e') - e')) as S2.
  rewrite shr_record_of_loc_m in S2. specialize (S2 Hmr0).
  destruct (shr (shr_record_of_loc mr loc_Exact) e' (fexp prec emax (Zdigits2 mr + e') - e'))
    as [mrs'' e''] eqn:E2.
  simpl in S2. destruct S2 as [S2m S2e]. fold (shift_of mr e') in S2m, S2e.
  exists mr. split; [assumption|]. cbv zeta.
  rewrite <- S1e, <- S2e, <- S2m. reflexivity.
Qed.

Lemma shift_of_nonneg (m e : Z) : 0 <= shift_of m e.
Proof. unfold shift_of. lia. Qed.

Lemma shift_of_lower (m e : Z) : Zdigits2 m - 53 <= shift_of m e.
Proof. unfold shift_of. rewrite fexp_val. lia. Qed.

(** A rounded value is a zero, an infinity or a finite float in range, with
    the sign asked for. *)
Lemma binary_round_aux_in_range (s : bool) (mx ex : Z) (lx : location) :
  0 <= mx ->
  in_range (binary_round_aux prec emax s mx ex lx) /\
  has_sign s (binary_round_aux prec emax s mx ex lx).
Proof.
  intros Hmx.
  destruct (binary_round_aux_cases s mx ex lx Hmx) as (mr & Hmr & E). cbv zeta in E.
  rewrite E. clear E.
  assert (Hq : 0 <= mx / 2 ^ shift_of mx ex).
  { apply Z.div_pos; [assumption|]. apply Z.pow_pos_nonneg; [lia|apply shift_of_nonneg]. }
  assert (Hmr0 : 0 <= mr) by lia.
  set (e1 := ex + shift_of mx ex).
  destruct (Zdigits2_shift_le mr (shift_of mr e1) Hmr0 (shift_of_nonneg _ _)) as [Hd Hn].
  pose proof (shift_of_lower mr e1).
  change (emax - prec) with 971.
  destruct (mr / 2 ^ shift_of mr e1) as [|m|m] eqn:Em.
  - simpl. auto.
  - destruct (e1 + shift_of mr e1 <=? 971) eqn:El; simpl; [|auto].
    apply Z.leb_le in El.
    simpl in Hd. split; [split|]; [lia|lia|reflexivity].
  - lia.
Qed.

(** A value above the subnormal threshold does not round to zero, and
    rounding does not decrease its binade. *)
Lemma binary_round_aux_mag (s : bool) (mx ex : Z) (lx : location) :
  0 < mx -> -1074 < Zdigits2 mx + ex ->
  mag_ge (Zdigits2 mx + ex) (binary_round_aux prec emax s mx ex lx).
Proof.
  intros Hmx Hmag.
  destruct (binary_round_aux_cases s mx ex lx ltac:(lia)) as (mr & Hmr & E). cbv zeta in E.
  rewrite E. clear E.
  assert (Hs1 : 0 <= shift_of mx ex < Zdigits2 mx).
  { unfold shift_of. rewrite fexp_val. pose proof (Zdigits2_pos mx Hmx). lia. }
  destruct (Zdigits2_shift mx (shift_of mx ex) Hmx Hs1) as [Hd1 Hp1].
  set (m1 := mx / 2 ^ shift_of mx ex) in *.
  set (e1 := ex + shift_of mx ex).
  assert (Hmr0 : 0 < mr) by lia.
  assert (Hdr : Zdigits2 m1 <= Zdigits2 mr) by (apply Zdigits2_le; lia).
  assert (Hs2 : 0 <= shift_of mr e1 < Zdigits2 mr).
  { unfold shift_of, e1. rewrite fexp_val. pose proof (Zdigits2_pos mr Hmr0). lia. }
  destruct (Zdigits2_shift mr (shift_of mr e1) Hmr0 Hs2) as [Hd2 Hp2].
  change (emax - prec) with 971.
  destruct (mr / 2 ^ shift_of mr e1) as [|m|m] eqn:Em; try lia.
  destruct (e1 + shift_of mr e1 <=? 971); unfold mag_ge; [|exact I].
  unfold e1 in *. lia.
Qed.

(** An aligned value below [2^1023] does not overflow. *)
Lemma binary_round_aux_finite (s : bool) (mx ex : Z) (lx : location) :
  0 < mx -> ex <= fexp prec emax (Zdigits2 mx + ex) -> Zdigits2 mx + ex <= 1023 ->
  is_finite (binary_round_aux prec emax s mx ex lx) = true.
Proof.
  intros Hmx Hal Hmag.
  destruct (binary_round_aux_cases s mx ex lx ltac:(lia)) as (mr & Hmr & E). cbv zeta in E.
  rewrite E. clear E.
  rewrite fexp_val in Hal.
  assert (Hs1 : shift_of mx ex = Z.max (Zdigits2 mx + ex - 53) (-1074) - ex).
  { unfold shift_of. rewrite fexp_val. lia. }
  pose proof (shift_of_nonneg mx ex) as Hn1.
  destruct (Zdigits2_shift_le mx (shift_of mx ex) ltac:(lia) Hn1) as [Hd1 Hq1].
  set (m1 := mx / 2 ^ shift_of mx ex) in *.
  set (e1 := ex + shift_of mx ex).
  assert (Hmr0 : 0 <= mr) by lia.
  assert (Hdr : Zdigits2 mr <= 54).
  { destruct (Z.eq_dec mr 0) as [->|]; [simpl; lia|].
    assert (Hb : mr <= 2 ^ 53).
    { destruct (Z.eq_dec m1 0) as [Hz|Hz]; [rewrite Hz in Hmr; lia|].
      pose proof (Zdigits2_bounds m1 ltac:(lia)) as [_ Hu].
      assert (Zdigits2 m1 <= 53) by lia.
      pose proof (Z.pow_le_mono_r 2 (Zdigits2 m1) 53 ltac:(lia) H). lia. }
    transitivity (Zdigits2 (2 ^ 53)); [apply Zdigits2_le; lia|]. vm_compute. discriminate. }
  assert (Hs2 : e1 + shift_of mr e1 <= 971).
  { unfold shift_of. rewrite fexp_val. unfold e1. lia. }
  change (emax - prec) with 971.
  destruct (mr / 2 ^ shift_of mr e1) as [|m|m] eqn:Em; try reflexivity.
  - apply Z.leb_le in Hs2. rewrite Hs2. reflexivity.
  - pose proof (shift_of_nonneg mr e1).
    assert (0 <= mr / 2 ^ shift_of mr e1)
      by (apply Z.div_pos; [lia|apply Z.pow_pos_nonneg; lia]).
    lia.
Qed.

(** *** Alignment *)

Lemma pos_iter_xO (m d : positive) : Zpos (Pos.iter xO m d) = Zpos m * 2 ^ Zpos d.
Proof.
  induction d as [|d IH] using Pos.peano_ind.
  - simpl. lia.
  - rewrite Pos.iter_succ, Pos2Z.inj_xO, IH, Pos2Z.inj_succ, Z.pow_succ_r by lia. ring.
Qed.

Lemma Zdigits2_mul_pow2 (m d : Z) : 0 < m -> 0 <= d -> Zdigits2 (m * 2 ^ d) = Zdigits2 m + d.
Proof.
  intros Hm Hd. pose proof (Zdigits2_bounds m Hm) as [Hl Hu].
  pose proof (Zdigits2_pos m Hm).
  assert (Hp : 0 < 2 ^ d) by (apply Z.pow_pos_nonneg; lia).
  apply Zdigits2_unique; [lia|].
  replace (Zdigits2 m + d - 1) with (Zdigits2 m - 1 + d) by lia.
  rewrite !Z.pow_add_r by lia. split; nia.
Qed.

Lemma shl_align_spec (mx : positive) (ex ex' : Z) :
  Zpos (fst (shl_align mx ex ex')) = Zpos mx * 2 ^ (ex - Z.min ex ex') /\
  snd (shl_align mx ex ex') = Z.min ex ex' /\
  Zdigits2 (Zpos (fst (shl_align mx ex ex'))) + snd (shl_align mx ex ex')
    = Zdigits2 (Zpos mx) + ex.
Proof.
  unfold shl_align. destruct (ex' - ex) as [|d|d] eqn:E; cbn [fst snd].
  - replace (Z.min ex ex') with ex by lia. rewrite Z.sub_diag. simpl (2 ^ 0). lia.
  - replace (Z.min ex ex') with ex by lia. rewrite Z.sub_diag. simpl (2 ^ 0). lia.
  - assert (Hm : Z.min ex ex' = ex') by lia. rewrite Hm.
    assert (Hd : ex - ex' = Zpos d) by lia. rewrite Hd.
    rewrite pos_iter_xO. split; [reflexivity|split; [reflexivity|]].
    rewrite Zdigits2_mul_pow2 by lia. lia.
Qed.

(** [binary_round]: sign, range, binade and finiteness of the result. *)
Lemma binary_round_props (s : bool) (mx : positive) (ex : Z) :
  in_range (binary_round prec emax s mx ex) /\
  has_sign s (binary_round prec emax s mx ex) /\
  (-1074 < Zdigits2 (Zpos mx) + ex ->
   mag_ge (Zdigits2 (Zpos mx) + ex) (binary_round prec emax s mx ex)) /\
  (Zdigits2 (Zpos mx) + ex <= 1023 -> is_finite (binary_round prec emax s mx ex) = true).
Proof.
  unfold binary_round.
  pose proof (shl_align_spec mx ex (fexp prec emax (Zpos (digits2_pos mx) + ex)))
    as (Hm & He & Hd).
  destruct (shl_align mx ex (fexp prec emax (Zpos (digits2_pos mx) + ex))) as [mz ez].
  cbn [fst snd] in *.
  destruct (binary_round_aux_in_range s (Zpos mz) ez loc_Exact ltac:(lia)) as [Hr Hs].
  split; [assumption|]. split; [assumption|]. split.
  - intros Hmag. rewrite <- Hd. apply binary_round_aux_mag; lia.
  - intros Hmag. apply binary_round_aux_finite; [lia| |lia].
    rewrite Hd. change (Zdigits2 (Zpos mx)) with (Zpos (digits2_pos mx)). lia.
Qed.

(** *** Integers as floats *)

Lemma fround_Z_nonzero (z : Z) :
  z <> 0 ->
  in_range (fround_Z z) /\ has_sign (z <? 0) (fround_Z z) /\ mag_ge (Zdigits2 z) (fround_Z z).
Proof.
  intros Hz. unfold fround_Z, binary_normalize.
  destruct z as [|p|p]; [congruence| |].
  - destruct (binary_round_props false p 0) as (H1 & H2 & H3 & _).
    split; [assumption|]. split; [assumption|].
    rewrite Z.add_0_r in H3. apply H3. pose proof (Zdigits2_pos (Zpos p)). lia.
  - destruct (binary_round_props true p 0) as (H1 & H2 & H3 & _).
    split; [assumption|]. split; [assumption|].
    rewrite Z.add_0_r in H3. apply H3. pose proof (Zdigits2_pos (Zpos p)). simpl in *. lia.
Qed.

Lemma fround_Z_not_zero (z : Z) : z <> 0 -> is_zero (fround_Z z) = false.
Proof.
  intros Hz. destruct (fround_Z_nonzero z Hz) as (_ & _ & H).
  destruct (fround_Z z); simpl in *; try reflexivity; contradiction.
Qed.

Lemma fround_Z_finite (z : Z) : Z.abs z < 2 ^ 1023 -> is_finite (fround_Z z) = true.
Proof.
  intros Hz. unfold fround_Z, binary_normalize.
  assert (D : forall p, Zpos p < 2 ^ 1023 -> Zdigits2 (Zpos p) + 0 <= 1023).
  { intros p Hp. pose proof (Zdigits2_bounds (Zpos p) ltac:(lia)) as [Hl _].
    destruct (Z_le_gt_dec (Zdigits2 (Zpos p)) 1023); [lia|].
    pose proof (Z.pow_le_mono_r 2 1023 (Zdigits2 (Zpos p) - 1) ltac:(lia) ltac:(lia)). lia. }
  destruct z as [|p|p]; [reflexivity| |].
  - apply binary_round_props. apply D. lia.
  - apply binary_round_props. apply D. lia.
Qed.

Lemma float_of_int_not_zero (z : Z) (f : float) :
  float_of_int z = Ok f -> is_zero f = true -> z = 0.
Proof.
  unfold float_of_int. intros H Hf.
  destruct (Z.eq_dec z 0) as [|Hz]; [assumption|].
  pose proof (fround_Z_not_zero z Hz) as Hn.
  destruct (fround_Z z); inversion H; subst; simpl in *; congruence.
Qed.

(** *** Products and quotients *)

Lemma mag_ge_le (k k' : Z) (x : float) : k <= k' -> mag_ge k' x -> mag_ge k x.
Proof. destruct x; simpl; auto. lia. Qed.

Lemma Zdigits2_lower (m k : Z) : 0 < m -> 2 ^ (k - 1) <= m -> k <= Zdigits2 m.
Proof.
  intros Hm H. pose proof (Zdigits2_bounds m Hm) as [_ Hu].
  pose proof (Zdigits2_pos m Hm).
  destruct (Z_le_gt_dec k (Zdigits2 m)); [assumption|].
  pose proof (Z.pow_le_mono_r 2 (Zdigits2 m) (k - 1) ltac:(lia) ltac:(lia)). lia.
Qed.

Lemma Zdigits2_mul_lower (a b : Z) :
  0 < a -> 0 < b -> Zdigits2 a + Zdigits2 b - 1 <= Zdigits2 (a * b).
Proof.
  intros Ha Hb.
  pose proof (Zdigits2_bounds a Ha) as [La _]. pose proof (Zdigits2_bounds b Hb) as [Lb _].
  pose proof (Zdigits2_pos a Ha). pose proof (Zdigits2_pos b Hb).
  apply Zdigits2_lower; [nia|].
  replace (Zdigits2 a + Zdigits2 b - 1 - 1) with ((Zdigits2 a - 1) + (Zdigits2 b - 1)) by lia.
  rewrite Z.pow_add_r by lia.
  assert (0 < 2 ^ (Zdigits2 a - 1)) by (apply Z.pow_pos_nonneg; lia).
  assert (0 < 2 ^ (Zdigits2 b - 1)) by (apply Z.pow_pos_nonneg; lia).
  nia.
Qed.

Lemma Zdigits2_div_lower (a b : Z) :
  0 < a -> 0 < b -> Zdigits2 b < Zdigits2 a ->
  Zdigits2 a - Zdigits2 b <= Zdigits2 (a / b) /\ 0 < a / b.
Proof.
  intros Ha Hb Hd.
  pose proof (Zdigits2_bounds a Ha) as [La _]. pose proof (Zdigits2_bounds b Hb) as [_ Ub].
  pose proof (Zdigits2_pos b Hb).
  assert (Hq : 2 ^ (Zdigits2 a - Zdigits2 b - 1) <= a / b).
  { apply Z.div_le_lower_bound; [assumption|].
    assert (0 < 2 ^ (Zdigits2 a - Zdigits2 b - 1)) by (apply Z.pow_pos_nonneg; lia).
    assert (E : 2 ^ (Zdigits2 a - 1) = 2 ^ Zdigits2 b * 2 ^ (Zdigits2 a - Zdigits2 b - 1)).
    { rewrite <- Z.pow_add_r by lia. f_equal. lia. }
    nia. }
  assert (0 < 2 ^ (Zdigits2 a - Zdigits2 b - 1)) by (apply Z.pow_pos_nonneg; lia).
  split; [|lia]. apply Zdigits2_lower; lia.
Qed.

Lemma fmul_finite (sx sy : bool) (mx my : positive) (ex ey : Z) :
  let r := fmul (S754_finite sx mx ex) (S754_finite sy my ey) in
  in_range r /\ has_sign (xorb sx sy) r /\
  (-1074 < Zdigits2 (Zpos mx) + ex + (Zdigits2 (Zpos my) + ey) - 1 ->
   mag_ge (Zdigits2 (Zpos mx) + ex + (Zdigits2 (Zpos my) + ey) - 1) r).
Proof.
  cbv zeta. unfold fmul, SFmul.
  destruct (binary_round_aux_in_range (xorb sx sy) (Zpos (mx * my)) (ex + ey) loc_Exact
              ltac:(lia)) as [Hr Hs].
  split; [assumption|]. split; [assumption|]. intros Hmag.
  pose proof (Zdigits2_mul_lower (Zpos mx) (Zpos my) ltac:(lia) ltac:(lia)) as Hd.
  rewrite <- Pos2Z.inj_mul in Hd.
  eapply mag_ge_le; [|apply binary_round_aux_mag; [lia|]]; lia.
Qed.

Lemma div_core_nonneg (m1 e1 m2 e2 : Z) :
  0 < m1 -> 0 < m2 ->
  0 <= fst (fst (SFdiv_core_binary prec emax m1 e1 m2 e2)).
Proof.
  intros H1 H2. unfold SFdiv_core_binary.
  set (s := e1 - e2 - _).
  set (m' := match s with Z0 => m1 | Zpos _ => Z.shiftl m1 s | Zneg _ => 0 end).
  assert (Hm : 0 <= m').
  { unfold m'. destruct s; try lia. apply Z.shiftl_nonneg. lia. }
  pose proof (Z.div_pos m' m2 Hm H2) as Hq. unfold Z.div in Hq.
  destruct (Z.div_eucl m' m2) as [q r]. exact Hq.
Qed.

Lemma div_core_mag (m1 e1 m2 e2 : Z) :
  0 < m1 -> 0 < m2 -> -1074 < Zdigits2 m1 + e1 - (Zdigits2 m2 + e2) ->
  let '(q, e', _) := SFdiv_core_binary prec emax m1 e1 m2 e2 in
  0 < q /\ Zdigits2 m1 + e1 - (Zdigits2 m2 + e2) <= Zdigits2 q + e'.
Proof.
  intros H1 H2 HX. unfold SFdiv_core_binary.
  set (X := Zdigits2 m1 + e1 - (Zdigits2 m2 + e2)) in *.
  set (e' := Z.min (fexp prec emax X) (e1 - e2)).
  set (s := e1 - e2 - e').
  assert (Hs : 0 <= s) by (unfold s, e'; lia).
  set (m' := match s with Z0 => m1 | Zpos _ => Z.shiftl m1 s | Zneg _ => 0 end).
  assert (Em : m' = m1 * 2 ^ s).
  { unfold m'. destruct s as [|p|p]; [simpl; lia| |lia].
    apply Z.shiftl_mul_pow2. lia. }
  assert (Dm : Zdigits2 m' = Zdigits2 m1 + s) by (rewrite Em; apply Zdigits2_mul_pow2; lia).
  assert (Pm : 0 < m') by (rewrite Em; pose proof (Z.pow_pos_nonneg 2 s); nia).
  assert (Hd : Zdigits2 m2 < Zdigits2 m').
  { rewrite Dm. unfold s, e'. rewrite fexp_val. unfold X in *. lia. }
  destruct (Zdigits2_div_lower m' m2 Pm H2 Hd) as [Hq Hp].
  unfold Z.div in Hq, Hp. destruct (Z.div_eucl m' m2) as [q r].
  split; [assumption|]. unfold s in Dm. unfold X. lia.
Qed.

Lemma fdiv_finite (sx sy : bool) (mx my : positive) (ex ey : Z) :
  let r := fdiv (S754_finite sx mx ex) (S754_finite sy my ey) in
  in_range r /\ has_sign (xorb sx sy) r /\
  (-1074 < Zdigits2 (Zpos mx) + ex - (Zdigits2 (Zpos my) + ey) ->
   mag_ge (Zdigits2 (Zpos mx) + ex - (Zdigits2 (Zpos my) + ey)) r).
Proof.
  cbv zeta. unfold fdiv, SFdiv.
  pose proof (div_core_nonneg (Zpos mx) ex (Zpos my) ey ltac:(lia) ltac:(lia)) as Hn.
  pose proof (div_core_mag (Zpos mx) ex (Zpos my) ey ltac:(lia) ltac:(lia)) as Hm.
  destruct (SFdiv_core_binary prec emax (Zpos mx) ex (Zpos my) ey) as [[q e'] l].
  cbn [fst] in Hn.
  destruct (binary_round_aux_in_range (xorb sx sy) q e' l Hn) as [Hr Hs].
  split; [assumption|]. split; [assumption|]. intros HX.
  destruct (Hm HX) as [Hq Hd].
  eapply mag_ge_le; [exact Hd|]. apply binary_round_aux_mag; lia.
Qed.

End Rounding.

(** ** The distance estimator *)

Lemma to_float_raises (a : num) (e : exn) : to_float a = Raise e -> e = OverflowError.
Proof.
  destruct a as [z|f]; simpl; [|discriminate].
  unfold float_of_int. destruct (fround_Z z); intros H; inversion H; reflexivity.
Qed.

Lemma mul_raises (a b : num) (e : exn) : mul a b = Raise e -> e = OverflowError.
Proof.
  unfold mul. intros H.
  destruct a as [x|x], b as [y|y]; try discriminate;
    unfold bind in H;
    repeat match type of H with
           | match to_float ?a with _ => _ end = _ =>
               let E := fresh "E" in
               destruct (to_float a) eqn:E; [|inversion H; subst; eapply to_float_raises; eassumption]
           end; discriminate.
Qed.

Lemma eq_zero_float (y : float) : Py.eq (Float y) (Int 0) = is_zero y.
Proof.
  unfold Py.eq, compare, fcompare_Z.
  destruct y as [s|s| |s m e]; try reflexivity; try (destruct s; reflexivity).
  cbn [is_zero]. rewrite Z.mul_0_l.
  assert (H : 0 < 2 ^ (e - Z.min e 0)) by (apply Z.pow_pos_nonneg; lia).
  destruct s; simpl cond_Zopp.
  - assert (Z.neg m * 2 ^ (e - Z.min e 0) < 0) by nia.
    destruct (Z.compare_spec (Z.neg m * 2 ^ (e - Z.min e 0)) 0); try reflexivity; lia.
  - assert (0 < Z.pos m * 2 ^ (e - Z.min e 0)) by nia.
    destruct (Z.compare_spec (Z.pos m * 2 ^ (e - Z.min e 0)) 0); try reflexivity; lia.
Qed.

Lemma eq_zero_int (y : Z) : Py.eq (Int y) (Int 0) = (y =? 0).
Proof.
  unfold Py.eq, compare. destruct (Z.compare_spec y 0), (Z.eqb_spec y 0); try reflexivity; lia.
Qed.

(** A division raises [ZeroDivisionError] only for a divisor equal to zero. *)
Lemma truediv_zero_division (a b : num) :
  truediv a b = Raise ZeroDivisionError -> Py.eq b (Int 0) = true.
Proof.
  unfold truediv. intros H.
  assert (F : forall x y,
             (x' <- to_float x ;; y' <- to_float y ;;
              if is_zero y' then Raise ZeroDivisionError else Ok (Float (fdiv x' y')))
             = Raise ZeroDivisionError -> Py.eq y (Int 0) = true).
  { clear. intros x y H. unfold bind in H.
    destruct (to_float x) as [x'|e] eqn:Ex;
      [|inversion H; subst; apply to_float_raises in Ex; discriminate].
    destruct (to_float y) as [y'|e] eqn:Ey;
      [|inversion H; subst; apply to_float_raises in Ey; discriminate].
    destruct (is_zero y') eqn:Z; [|discriminate].
    destruct y as [z|f]; simpl in Ey.
    - rewrite (Rounding.float_of_int_not_zero z y' Ey Z). reflexivity.
    - inversion Ey; subst. rewrite eq_zero_float. assumption. }
  destruct a as [x|x], b as [y|y]; try (apply (F _ _ H)).
  rewrite eq_zero_int. destruct (y =? 0); [reflexivity|].
  destruct x; [discriminate| |];
    destruct (fdiv _ _); discriminate.
Qed.

(** C1. [estimate_distance] returns 0 when [pixel_width == 0]; otherwise it
    returns [(known_width_cm * focal_length) / pixel_width], computed by one
    float multiplication and one float division; it never raises
    [ZeroDivisionError].  For float parameters and a non-zero integer pixel
    width below [2^1023] the quotient is always produced. *)
Theorem estimate_distance_correct (known_width_cm focal_length pixel_width : num) :
  (Py.eq pixel_width (Int 0) = true ->
   estimate_distance known_width_cm focal_length pixel_width = Ok (Int 0)) /\
  (Py.eq pixel_width (Int 0) = false ->
   estimate_distance known_width_cm focal_length pixel_width
   = (p <- mul known_width_cm focal_length ;; truediv p pixel_width)) /\
  estimate_distance known_width_cm focal_length pixel_width <> Raise ZeroDivisionError /\
  (forall k f pw,
     known_width_cm = Float k -> focal_length = Float f -> pixel_width = Int pw ->
     pw <> 0 -> Z.abs pw < 2 ^ 1023 ->
     estimate_distance known_width_cm focal_length pixel_width
     = Ok (Float (fdiv (fmul k f) (fround_Z pw)))).
Proof.
  unfold estimate_distance. repeat split.
  - intros ->. reflexivity.
  - intros ->. reflexivity.
  - destruct (Py.eq pixel_width (Int 0)) eqn:E; [discriminate|].
    intros H. unfold bind in H.
    destruct (mul known_width_cm focal_length) as [p|e] eqn:M.
    + apply truediv_zero_division in H. congruence.
    + inversion H; subst. apply mul_raises in M. discriminate.
  - intros k f pw -> -> -> Hnz Hlt.
    rewrite eq_zero_int. destruct (Z.eqb_spec pw 0); [contradiction|].
    cbn [mul to_float bind truediv]. unfold float_of_int.
    pose proof (Rounding.fround_Z_finite pw Hlt) as Hf.
    pose proof (Rounding.fround_Z_not_zero pw Hnz) as Hz.
    destruct (fround_Z pw) eqn:Ef; simpl in Hf, Hz; try discriminate; reflexivity.
Qed.

Lemma estimate_distance_correct_witness :
  estimate_distance (Float f8_0) (Float f450_0) (Float (S754_zero true)) = Ok (Int 0) /\
  estimate_distance (Float f8_0) (Float f450_0) (Int 100) = Ok (Float f36_0).
Proof.
  split.
  - apply (proj1 (estimate_distance_correct _ _ _)). reflexivity.
  - rewrite (proj2 (proj2 (proj2 (estimate_distance_correct _ _ _))) f8_0 f450_0 100);
      [vm_compute; reflexivity|reflexivity|reflexivity|reflexivity|discriminate|reflexivity].
Defined.

(** ** Order and truncation of floats *)

Module Order.

Lemma pow2_pos (n : Z) : 0 <= n -> 0 < 2 ^ n.
Proof. intros. apply Z.pow_pos_nonneg; lia. Qed.

Lemma pow2_split (a b : Z) : 0 <= a -> 0 <= b -> 2 ^ (a + b) = 2 ^ a * 2 ^ b.
Proof. intros. apply Z.pow_add_r; assumption. Qed.

(** Magnitudes compare the same at every common alignment. *)
Lemma cmp_mag_at (c : Z) (m1 : positive) (e1 : Z) (m2 : positive) (e2 : Z) :
  c <= e1 -> c <= e2 ->
  cmp_mag m1 e1 m2 e2 = Z.compare (Zpos m1 * 2 ^ (e1 - c)) (Zpos m2 * 2 ^ (e2 - c)).
Proof.
  intros H1 H2. unfold cmp_mag. set (c0 := Z.min e1 e2).
  replace (e1 - c) with ((e1 - c0) + (c0 - c)) by lia.
  replace (e2 - c) with ((e2 - c0) + (c0 - c)) by lia.
  rewrite !pow2_split by lia. rewrite !Z.mul_assoc.
  apply Zmult_compare_compat_r. pose proof (pow2_pos (c0 - c)). lia.
Qed.

Lemma sval_sign (c : Z) (s : bool) (m : positive) (e : Z) :
  c <= e -> if s then sval c (S754_finite s m e) < 0 else 0 < sval c (S754_finite s m e).
Proof.
  intros H. pose proof (pow2_pos (e - c) ltac:(lia)).
  destruct s; cbn [sval cond_Zopp]; nia.
Qed.

(** [fcompare] is the lexicographic comparison of class and aligned value. *)
Lemma fcompare_key (c : Z) (x y : float) :
  is_nan x = false -> is_nan y = false -> c <= expo x -> c <= expo y ->
  fcompare x y =
    Some (if cls x =? cls y then Z.compare (sval c x) (sval c y)
          else Z.compare (cls x) (cls y)).
Proof.
  intros Nx Ny Hx Hy.
  destruct x as [sx|sx| |sx mx ex], y as [sy|sy| |sy my ey]; try discriminate;
    cbn [expo] in Hx, Hy;
    try (destruct sx; reflexivity); try (destruct sy; reflexivity);
    try (destruct sx, sy; reflexivity).
  - pose proof (sval_sign c sy my ey Hy) as S. cbn [fcompare cls]. simpl (0 =? 0).
    cbv iota. cbn [sval] in *. f_equal.
    destruct sy; [symmetry; apply Z.compare_gt_iff|symmetry; apply Z.compare_lt_iff]; lia.
  - pose proof (sval_sign c sx mx ex Hx) as S. cbn [fcompare cls]. simpl (0 =? 0).
    cbv iota. cbn [sval] in *. f_equal.
    destruct sx; [symmetry; apply Z.compare_lt_iff|symmetry; apply Z.compare_gt_iff]; lia.
  - pose proof (sval_sign c sx mx ex Hx) as Sx.
    pose proof (sval_sign c sy my ey Hy) as Sy.
    cbn [fcompare cls]. simpl (0 =? 0). cbv iota. f_equal.
    rewrite (cmp_mag_at c) by assumption.
    cbn [sval] in *.
    destruct sx, sy; cbn [cond_Zopp] in *.
    + rewrite Z.compare_opp. symmetry. apply Z.compare_antisym.
    + symmetry. apply Z.compare_lt_iff. lia.
    + symmetry. apply Z.compare_gt_iff. lia.
    + reflexivity.
Qed.

Lemma fle_key (c : Z) (x y : float) :
  is_nan x = false -> is_nan y = false -> c <= expo x -> c <= expo y ->
  fle x y = true <-> (cls x < cls y \/ (cls x = cls y /\ sval c x <= sval c y)).
Proof.
  intros Nx Ny Hx Hy. unfold fle. rewrite (fcompare_key c) by assumption.
  destruct (Z.eqb_spec (cls x) (cls y)) as [E|E].
  - destruct (Z.compare_spec (sval c x) (sval c y)); split; intros; try discriminate;
      try reflexivity; lia.
  - destruct (Z.compare_spec (cls x) (cls y)); split; intros; try discriminate;
      try reflexivity; lia.
Qed.

Lemma flt_key (c : Z) (x y : float) :
  is_nan x = false -> is_nan y = false -> c <= expo x -> c <= expo y ->
  flt x y = true <-> (cls x < cls y \/ (cls x = cls y /\ sval c x < sval c y)).
Proof.
  intros Nx Ny Hx Hy. unfold flt. rewrite (fcompare_key c) by assumption.
  destruct (Z.eqb_spec (cls x) (cls y)) as [E|E].
  - destruct (Z.compare_spec (sval c x) (sval c y)); split; intros; try discriminate;
      try reflexivity; lia.
  - destruct (Z.compare_spec (cls x) (cls y)); split; intros; try discriminate;
      try reflexivity; lia.
Qed.

Lemma fle_not_nan (x y : float) : fle x y = true -> is_nan x = false /\ is_nan y = false.
Proof.
  unfold fle. destruct x as [| | |], y as [| | |]; simpl; intros H;
    try discriminate; split; reflexivity.
Qed.

Lemma flt_not_nan (x y : float) : flt x y = true -> is_nan x = false /\ is_nan y = false.
Proof.
  unfold flt. destruct x as [| | |], y as [| | |]; simpl; intros H;
    try discriminate; split; reflexivity.
Qed.

Lemma fle_refl (x : float) : is_nan x = false -> fle x x = true.
Proof.
  intros N. apply (fle_key (expo x)); try assumption; try lia.
Qed.

Lemma flt_fle (x y : float) : flt x y = true -> fle x y = true.
Proof.
  intros H. destruct (flt_not_nan _ _ H) as [Nx Ny].
  set (c := Z.min (expo x) (expo y)).
  apply (flt_key c) in H; try assumption; try lia.
  apply (fle_key c); try assumption; lia.
Qed.

Lemma fle_trans (x y z : float) : fle x y = true -> fle y z = true -> fle x z = true.
Proof.
  intros H1 H2.
  destruct (fle_not_nan _ _ H1) as [Nx Ny]. destruct (fle_not_nan _ _ H2) as [_ Nz].
  set (c := Z.min (expo x) (Z.min (expo y) (expo z))).
  apply (fle_key c) in H1; try assumption; try lia.
  apply (fle_key c) in H2; try assumption; try lia.
  apply (fle_key c); try assumption; lia.
Qed.

(** On canonical floats [fcompare] is the comparison of [SpecFloat]. *)
Lemma fcompare_SFcompare (x y : float) :
  valid_binary prec emax x = true -> valid_binary prec emax y = true ->
  fcompare x y = SFcompare x y.
Proof.
  destruct x as [sx|sx| |sx mx ex], y as [sy|sy| |sy my ey]; try reflexivity;
    try (destruct sx, sy; reflexivity).
  cbn [valid_binary]. unfold bounded, canonical_mantissa. intros Hx Hy.
  apply andb_true_iff in Hx, Hy. destruct Hx as [Hx _], Hy as [Hy _].
  apply Z.eqb_eq in Hx, Hy. rewrite Rounding.fexp_val in Hx, Hy.
  change (Zpos (digits2_pos mx)) with (Zdigits2 (Zpos mx)) in Hx.
  change (Zpos (digits2_pos my)) with (Zdigits2 (Zpos my)) in Hy.
  pose proof (Rounding.Zdigits2_bounds (Zpos mx) ltac:(lia)) as [Lx Ux].
  pose proof (Rounding.Zdigits2_bounds (Zpos my) ltac:(lia)) as [Ly Uy].
  assert (C : cmp_mag mx ex my ey
              = match ex ?= ey with
                | Lt => Lt
                | Gt => Gt
                | Eq => Pos.compare_cont Eq mx my
                end).
  { unfold cmp_mag. destruct (Z.compare_spec ex ey) as [E|E|E].
    - subst. rewrite Z.min_id, Z.sub_diag. rewrite !Z.mul_1_r. reflexivity.
    - replace (Z.min ex ey) with ex by lia. rewrite Z.sub_diag, Z.mul_1_r.
      apply Z.compare_lt_iff.
      assert (Dy : Zdigits2 (Zpos my) = 53) by lia.
      assert (Dx : Zdigits2 (Zpos mx) <= 53) by lia.
      rewrite Dy in Ly. change (2 ^ (53 - 1)) with (2 ^ 52) in Ly.
      pose proof (Z.pow_le_mono_r 2 (Zdigits2 (Zpos mx)) 53 ltac:(lia) Dx).
      pose proof (Z.pow_le_mono_r 2 1 (ey - ex) ltac:(lia) ltac:(lia)) as P.
      change (2 ^ 1) with 2 in P. change (2 ^ 53) with (2 * 2 ^ 52) in *. nia.
    - replace (Z.min ex ey) with ey by lia. rewrite Z.sub_diag, Z.mul_1_r.
      apply Z.compare_gt_iff.
      assert (Dx : Zdigits2 (Zpos mx) = 53) by lia.
      assert (Dy : Zdigits2 (Zpos my) <= 53) by lia.
      rewrite Dx in Lx. change (2 ^ (53 - 1)) with (2 ^ 52) in Lx.
      pose proof (Z.pow_le_mono_r 2 (Zdigits2 (Zpos my)) 53 ltac:(lia) Dy).
      pose proof (Z.pow_le_mono_r 2 1 (ex - ey) ltac:(lia) ltac:(lia)) as P.
      change (2 ^ 1) with 2 in P. change (2 ^ 53) with (2 * 2 ^ 52) in *. nia. }
  cbn [fcompare SFcompare]. rewrite C.
  destruct sx, sy; try reflexivity.
  destruct (ex ?= ey); reflexivity.
Qed.

(** *** Minimum and maximum *)

Lemma fold_fmin_nan (rest : list float) :
  fold_left fmin_step rest S754_nan = S754_nan.
Proof.
  induction rest as [|a rest IH]; [reflexivity|]. simpl.
  assert (E : fmin_step S754_nan a = S754_nan)
    by (unfold fmin_step, flt; destruct a; reflexivity).
  rewrite E. exact IH.
Qed.

(** The running minimum never exceeds the running maximum. *)
Lemma fold_min_le_max (rest : list float) (mn mx : float) :
  fle mn mx = true ->
  fle (fold_left fmin_step rest mn) (fold_left fmax_step rest mx) = true.
Proof.
  revert mn mx. induction rest as [|a rest IH]; intros mn mx H; [exact H|].
  simpl. apply IH. unfold fmin_step, fmax_step.
  destruct (flt a mn) eqn:E1, (flt mx a) eqn:E2.
  - apply fle_refl. apply (flt_not_nan _ _ E1).
  - apply fle_trans with mn; [apply flt_fle; assumption|assumption].
  - apply fle_trans with mx; [assumption|apply flt_fle; assumption].
  - assumption.
Qed.

(** *** Truncation *)

Lemma int_of_float_sval (c : Z) (x : float) (i : Z) :
  c <= 0 -> c <= expo x -> int_of_float x = Ok i -> i = Z.quot (sval c x) (2 ^ (- c)).
Proof.
  intros Hc Hx H. pose proof (pow2_pos (- c) ltac:(lia)) as Hp.
  destruct x as [s|s| |s m e]; try discriminate; simpl in H; inversion H; subst; clear H.
  - simpl. rewrite Z.quot_0_l by lia. reflexivity.
  - cbn [expo] in Hx. cbn [sval].
    assert (Q : (Zpos m * 2 ^ (e - c)) / 2 ^ (- c)
                = if 0 <=? e then Zpos m * 2 ^ e else Zpos m / 2 ^ (- e)).
    { destruct (Z.leb_spec 0 e).
      - replace (e - c) with (e + (- c)) by lia. rewrite pow2_split by lia.
        rewrite Z.mul_assoc. apply Z.div_mul. lia.
      - replace (- c) with ((- e) + (e - c)) by lia. rewrite pow2_split by lia.
        pose proof (pow2_pos (- e) ltac:(lia)). pose proof (pow2_pos (e - c) ltac:(lia)).
        apply Z.div_mul_cancel_r; lia. }
    pose proof (pow2_pos (e - c) ltac:(lia)).
    destruct s; cbn [cond_Zopp].
    + rewrite Z.quot_opp_l by lia. rewrite Z.quot_div_nonneg by nia. rewrite Q. reflexivity.
    + rewrite Z.quot_div_nonneg by nia. rewrite Q. reflexivity.
Qed.

(** [int] is monotone. *)
Lemma int_of_float_mono (x y : float) (i j : Z) :
  fle x y = true -> int_of_float x = Ok i -> int_of_float y = Ok j -> i <= j.
Proof.
  intros H Hi Hj. destruct (fle_not_nan _ _ H) as [Nx Ny].
  set (c := Z.min 0 (Z.min (expo x) (expo y))).
  apply (fle_key c) in H; try assumption; try lia.
  rewrite (int_of_float_sval c x i), (int_of_float_sval c y j); try assumption; try lia.
  assert (cls x = 0) by (destruct x as [|[]| |]; try discriminate; reflexivity).
  assert (cls y = 0) by (destruct y as [|[]| |]; try discriminate; reflexivity).
  apply Z.quot_le_mono; [apply pow2_pos|]; lia.
Qed.

Lemma cond_Zopp_mul (s : bool) (a b : Z) : cond_Zopp s a * b = cond_Zopp s (a * b).
Proof. destruct s; simpl; lia. Qed.

Lemma fcompare_Z_sval (s : bool) (m : positive) (e z : Z) :
  fcompare_Z (S754_finite s m e) z
  = Some (Z.compare (sval (Z.min e 0) (S754_finite s m e)) (z * 2 ^ (- Z.min e 0))).
Proof.
  unfold fcompare_Z. cbv zeta. rewrite cond_Zopp_mul. reflexivity.
Qed.

(** [int] drops the fractional part. *)
Lemma int_of_float_truncates (x : float) (i : Z) :
  int_of_float x = Ok i -> truncation_of x i.
Proof.
  intros H. unfold truncation_of.
  destruct x as [s|s| |s m e]; try discriminate.
  - simpl in H. inversion H; subst. simpl. repeat split; try lia; discriminate.
  - set (c := Z.min e 0).
    assert (Hi : i = Z.quot (sval c (S754_finite s m e)) (2 ^ (- c)))
      by (apply int_of_float_sval; [lia|simpl; lia|assumption]).
    pose proof (pow2_pos (- c) ltac:(lia)) as Hp.
    pose proof (sval_sign c s m e ltac:(lia)) as Hs.
    rewrite !fcompare_Z_sval. fold c.
    set (V := sval c (S754_finite s m e)) in *. set (D := 2 ^ (- c)) in *.
    rewrite Z.mul_0_l.
    destruct s.
    + assert (E : (V ?= 0) = Lt) by (apply Z.compare_lt_iff; lia). rewrite E.
      pose proof (Z.mul_pred_quot_lt V D ltac:(lia) Hp).
      pose proof (Z.mul_quot_ge V D ltac:(lia) ltac:(lia)).
      rewrite <- Hi in *.
      split; [nia|]. split.
      * f_equal. apply Z.compare_gt_iff. unfold Z.pred in *. lia.
      * intros F. assert (F' : (V ?= i * D) = Gt) by congruence.
        rewrite Z.compare_gt_iff in F'. lia.
    + assert (E : (V ?= 0) = Gt) by (apply Z.compare_gt_iff; lia). rewrite E.
      pose proof (Z.mul_succ_quot_gt V D ltac:(lia) Hp).
      pose proof (Z.mul_quot_le V D ltac:(lia) ltac:(lia)).
      rewrite <- Hi in *.
      split; [nia|]. split.
      * f_equal. apply Z.compare_lt_iff. unfold Z.succ in *. lia.
      * intros F. assert (F' : (V ?= i * D) = Lt) by congruence.
        rewrite Z.compare_lt_iff in F'. lia.
Qed.

End Order.

(** ** The geometry extractor *)

Lemma bind_Ok {A B : Type} (r : result A) (k : A -> result B) (b : B) :
  bind r k = Ok b -> exists a, r = Ok a /\ k a = Ok b.
Proof. destruct r as [a|e]; simpl; [eauto|discriminate]. Qed.

Lemma mul_float_int (px : float) (size : Z) (r : num) :
  mul (Float px) (Int size) = Ok r ->
  exists fs, float_of_int size = Ok fs /\ r = Float (fmul px fs).
Proof.
  cbn [mul to_float bind]. destruct (float_of_int size) as [fs|e]; [|discriminate].
  intros H. inversion H. eauto.
Qed.

(** Three pixel coordinates along one axis. *)
Lemma coords3 (f : Landmark -> float) (p0 p1 p2 : Landmark) (size : Z) (l : list num) :
  comprehension (fun p => mul (Float (f p)) (Int size)) [p0; p1; p2] = Ok l ->
  exists fs, float_of_int size = Ok fs /\
             l = map Float [fmul (f p0) fs; fmul (f p1) fs; fmul (f p2) fs].
Proof.
  cbn [comprehension]. intros H.
  apply bind_Ok in H. destruct H as (a & Ha & H).
  apply bind_Ok in H. destruct H as (l1 & H1 & H). inversion H; subst; clear H.
  apply bind_Ok in H1. destruct H1 as (b & Hb & H).
  apply bind_Ok in H. destruct H as (l2 & H2 & H). inversion H; subst; clear H.
  apply bind_Ok in H2. destruct H2 as (c & Hc & H). inversion H; subst; clear H.
  apply mul_float_int in Ha, Hb, Hc.
  destruct Ha as (fs & Hs & ->). destruct Hb as (fs' & Hs' & ->). destruct Hc as (fs'' & Hs'' & ->).
  assert (fs' = fs) by congruence. assert (fs'' = fs) by congruence. subst fs' fs''.
  exists fs. split; [assumption|reflexivity].
Qed.

Lemma min_floats (f0 : float) (fs : list float) :
  Py.min (map Float (f0 :: fs)) = Ok (Float (fold_left fmin_step fs f0)).
Proof.
  cbn [Py.min map]. f_equal. revert f0.
  induction fs as [|a fs IH]; intros f0; [reflexivity|].
  cbn [map fold_left]. rewrite <- IH. f_equal.
  unfold fmin_step, lt, flt, compare. destruct (fcompare a f0) as [[]|]; reflexivity.
Qed.

Lemma max_floats (f0 : float) (fs : list float) :
  Py.max (map Float (f0 :: fs)) = Ok (Float (fold_left fmax_step fs f0)).
Proof.
  cbn [Py.max map]. f_equal. revert f0.
  induction fs as [|a fs IH]; intros f0; [reflexivity|].
  cbn [map fold_left]. rewrite <- IH. f_equal.
  unfold fmax_step, gt, lt, flt, compare. destruct (fcompare f0 a) as [[]|]; reflexivity.
Qed.

(** The truncated minimum is at most the truncated maximum. *)
Lemma int_min_le_int_max (f0 : float) (fs : list float) (lo hi : Z) :
  (m <- Py.min (map Float (f0 :: fs)) ;; int m) = Ok lo ->
  (m <- Py.max (map Float (f0 :: fs)) ;; int m) = Ok hi ->
  lo <= hi /\
  truncation_of (fold_left fmin_step fs f0) lo /\
  truncation_of (fold_left fmax_step fs f0) hi.
Proof.
  rewrite min_floats, max_floats. cbn [bind int]. intros Hlo Hhi.
  split; [|split; apply Order.int_of_float_truncates; assumption].
  assert (N : is_nan f0 = false).
  { destruct f0; try reflexivity. rewrite Order.fold_fmin_nan in Hlo. discriminate. }
  apply (Order.int_of_float_mono _ _ _ _
           (Order.fold_min_le_max fs f0 f0 (Order.fle_refl f0 N)) Hlo Hhi).
Qed.

(** What a successful call of [get_hand_details] has computed. *)
Lemma get_hand_details_inv (lm : LandmarkList) (w h pw x_min y_min x_max y_max : Z) :
  get_hand_details lm w h = Ok (pw, (x_min, y_min, x_max, y_max)) ->
  exists p0 p5 p17 fw fh,
    palm_points lm = Ok [p0; p5; p17] /\
    float_of_int w = Ok fw /\ float_of_int h = Ok fh /\
    let xs := [fmul (x p0) fw; fmul (x p5) fw; fmul (x p17) fw] in
    let ys := [fmul (y p0) fh; fmul (y p5) fh; fmul (y p17) fh] in
    x_coords_of [p0; p5; p17] w = Ok (map Float xs) /\
    y_coords_of [p0; p5; p17] h = Ok (map Float ys) /\
    (m <- Py.min (map Float xs) ;; int m) = Ok x_min /\
    (m <- Py.max (map Float xs) ;; int m) = Ok x_max /\
    (m <- Py.min (map Float ys) ;; int m) = Ok y_min /\
    (m <- Py.max (map Float ys) ;; int m) = Ok y_max /\
    pw = Z.abs (x_max - x_min).
Proof.
  unfold get_hand_details. intros H.
  apply bind_Ok in H. destruct H as (pts & Hpts & H).
  assert (P : exists p0 p5 p17, pts = [p0; p5; p17]).
  { unfold palm_points in Hpts.
    apply bind_Ok in Hpts. destruct Hpts as (p0 & _ & Hpts).
    apply bind_Ok in Hpts. destruct Hpts as (p5 & _ & Hpts).
    apply bind_Ok in Hpts. destruct Hpts as (p17 & _ & Hpts).
    inversion Hpts. eauto. }
  destruct P as (p0 & p5 & p17 & ->).
  apply bind_Ok in H. destruct H as (xs & Hxs & H).
  apply bind_Ok in H. destruct H as (ys & Hys & H).
  pose proof Hxs as Hxs'. pose proof Hys as Hys'.
  apply coords3 in Hxs'. destruct Hxs' as (fw & Hfw & ->).
  apply coords3 in Hys'. destruct Hys' as (fh & Hfh & ->).
  apply bind_Ok in H. destruct H as (a & Ha & H).
  apply bind_Ok in H. destruct H as (b & Hb & H).
  apply bind_Ok in H. destruct H as (c & Hc & H).
  apply bind_Ok in H. destruct H as (d & Hd & H).
  inversion H; subst; clear H.
  exists p0, p5, p17, fw, fh. cbv zeta. repeat split; assumption.
Qed.

(** [get_hand_details] returns whenever the three palm landmarks exist, the
    frame dimensions convert to floats, and the minimum and maximum pixel
    coordinates are finite. *)
Lemma get_hand_details_returns (lm : LandmarkList) (w h : Z) (p0 p5 p17 : Landmark)
    (fw fh : float) :
  palm_points lm = Ok [p0; p5; p17] ->
  float_of_int w = Ok fw -> float_of_int h = Ok fh ->
  (forall p, In p [p0; p5; p17] ->
     is_finite (fmul (x p) fw) = true /\ is_finite (fmul (y p) fh) = true) ->
  exists pw bbox, get_hand_details lm w h = Ok (pw, bbox).
Proof.
  intros Hp Hw Hh Hfin. unfold get_hand_details. rewrite Hp. cbn [bind].
  unfold x_coords_of, y_coords_of. cbn [comprehension mul to_float bind].
  rewrite Hw, Hh. cbn [bind].
  change [Float (fmul (x p0) fw); Float (fmul (x p5) fw); Float (fmul (x p17) fw)]
    with (map Float [fmul (x p0) fw; fmul (x p5) fw; fmul (x p17) fw]).
  change [Float (fmul (y p0) fh); Float (fmul (y p5) fh); Float (fmul (y p17) fh)]
    with (map Float [fmul (y p0) fh; fmul (y p5) fh; fmul (y p17) fh]).
  rewrite !min_floats, !max_floats. cbn [bind int fold_left].
  assert (F : forall a b c, is_finite a = true -> is_finite b = true -> is_finite c = true ->
              (exists i, int_of_float (fmin_step (fmin_step a b) c) = Ok i) /\
              (exists i, int_of_float (fmax_step (fmax_step a b) c) = Ok i)).
  { clear. intros a b c Ha Hb Hc.
    assert (I : forall v, is_finite v = true -> exists i, int_of_float v = Ok i).
    { intros [| | |] Hv; try discriminate; simpl; eauto. }
    split; apply I; unfold fmin_step, fmax_step;
      repeat match goal with |- context [if ?t then _ else _] => destruct t end; assumption. }
  destruct (Hfin p0 ltac:(simpl; auto)) as [X0 Y0].
  destruct (Hfin p5 ltac:(simpl; auto)) as [X5 Y5].
  destruct (Hfin p17 ltac:(simpl; auto)) as [X17 Y17].
  destruct (F _ _ _ X0 X5 X17) as [(a & Ha) (b & Hb)].
  destruct (F _ _ _ Y0 Y5 Y17) as [(c & Hc) (d & Hd)].
  rewrite Ha, Hb, Hc, Hd. cbn [bind]. eauto.
Qed.

(** C5, as the code has it.  The pixel width returned by [get_hand_details]
    is non-negative and equals [x_max - x_min], the span of the truncated
    pixel coordinates [int(max(x * width)) - int(min(x * width))] over the
    three palm landmarks; it is the width of the bounding box. *)
Theorem pixel_width_is_integer_span
    (lm : LandmarkList) (w h pw x_min y_min x_max y_max : Z) :
  get_hand_details lm w h = Ok (pw, (x_min, y_min, x_max, y_max)) ->
  0 <= pw /\
  pw = x_max - x_min /\
  exists pts x_coords lo hi,
    palm_points lm = Ok pts /\ x_coords_of pts w = Ok x_coords /\
    Py.min x_coords = Ok lo /\ Py.max x_coords = Ok hi /\
    int lo = Ok x_min /\ int hi = Ok x_max.
Proof.
  intros H. apply get_hand_details_inv in H.
  destruct H as (p0 & p5 & p17 & fw & fh & Hp & Hw & Hh & H). cbv zeta in H.
  destruct H as (Hxs & Hys & Hxmin & Hxmax & Hymin & Hymax & Hpw).
  destruct (int_min_le_int_max _ _ _ _ Hxmin Hxmax) as (Hle & _ & _).
  split; [lia|]. split; [lia|].
  apply bind_Ok in Hxmin, Hxmax.
  destruct Hxmin as (lo & Hlo & Hilo). destruct Hxmax as (hi & Hhi & Hihi).
  exists [p0; p5; p17], (map Float [fmul (x p0) fw; fmul (x p5) fw; fmul (x p17) fw]), lo, hi.
  repeat split; assumption.
Qed.

Lemma pixel_width_is_integer_span_witness :
  0 <= 120 /\ 120 = 280 - 160 /\
  exists pts x_coords lo hi,
    palm_points hand_fractional = Ok pts /\ x_coords_of pts 640 = Ok x_coords /\
    Py.min x_coords = Ok lo /\ Py.max x_coords = Ok hi /\
    int lo = Ok 160 /\ int hi = Ok 280.
Proof.
  apply (pixel_width_is_integer_span hand_fractional 640 480 120 160 240 280 360).
  vm_compute. reflexivity.
Defined.

(** C5, as the specification words it, fails: with pixel coordinates 160.0
    and 280.625 the span of the coordinates is 120.625, the returned pixel
    width is 120. *)
Lemma pixel_width_not_float_span :
  get_hand_details hand_fractional 640 480 = Ok (120, (160, 240, 280, 360)) /\
  horizontal_span hand_fractional 640 = Ok (Float f120_625) /\
  Py.eq (Int 120) (Float f120_625) = false.
Proof. vm_compute. repeat split; reflexivity. Qed.

(** C6.  The bounding box returned by [get_hand_details] is made of the
    minimum and maximum pixel coordinates with their fractional parts
    dropped (truncation toward zero), and [x_min <= x_max] and
    [y_min <= y_max].  A box is returned whenever the three palm landmarks
    exist, the frame dimensions convert to floats and the pixel coordinates
    are finite. *)
Theorem bounding_box_truncated_and_ordered (lm : LandmarkList) (w h : Z) :
  (forall pw x_min y_min x_max y_max,
     get_hand_details lm w h = Ok (pw, (x_min, y_min, x_max, y_max)) ->
     x_min <= x_max /\ y_min <= y_max /\
     exists pts x_coords y_coords lox hix loy hiy,
       palm_points lm = Ok pts /\
       x_coords_of pts w = Ok x_coords /\ y_coords_of pts h = Ok y_coords /\
       Py.min x_coords = Ok (Float lox) /\ Py.max x_coords = Ok (Float hix) /\
       Py.min y_coords = Ok (Float loy) /\ Py.max y_coords = Ok (Float hiy) /\
       truncation_of lox x_min /\ truncation_of hix x_max /\
       truncation_of loy y_min /\ truncation_of hiy y_max) /\
  (forall p0 p5 p17 fw fh,
     palm_points lm = Ok [p0; p5; p17] ->
     float_of_int w = Ok fw -> float_of_int h = Ok fh ->
     (forall p, In p [p0; p5; p17] ->
        is_finite (fmul (x p) fw) = true /\ is_finite (fmul (y p) fh) = true) ->
     exists pw bbox, get_hand_details lm w h = Ok (pw, bbox)).
Proof.
  split.
  - intros pw x_min y_min x_max y_max H. apply get_hand_details_inv in H.
    destruct H as (p0 & p5 & p17 & fw & fh & Hp & Hw & Hh & H). cbv zeta in H.
    destruct H as (Hxs & Hys & Hxmin & Hxmax & Hymin & Hymax & Hpw).
    destruct (int_min_le_int_max _ _ _ _ Hxmin Hxmax) as (Hx & Tx1 & Tx2).
    destruct (int_min_le_int_max _ _ _ _ Hymin Hymax) as (Hy & Ty1 & Ty2).
    split; [assumption|]. split; [assumption|].
    exists [p0; p5; p17].
    exists (map Float [fmul (x p0) fw; fmul (x p5) fw; fmul (x p17) fw]).
    exists (map Float [fmul (y p0) fh; fmul (y p5) fh; fmul (y p17) fh]).
    do 4 eexists.
    split; [assumption|]. split; [assumption|]. split; [assumption|].
    split; [apply min_floats|]. split; [apply max_floats|].
    split; [apply min_floats|]. split; [apply max_floats|].
    repeat split; assumption.
  - intros p0 p5 p17 fw fh. apply get_hand_details_returns.
Qed.

Lemma bounding_box_truncated_and_ordered_witness :
  get_hand_details hand_fractional 640 480 = Ok (120, (160, 240, 280, 360)) /\
  160 <= 280 /\ 240 <= 360 /\
  truncation_of f120_625 120.
Proof.
  split; [vm_compute; reflexivity|].
  destruct (proj1 (bounding_box_truncated_and_ordered hand_fractional 640 480)
              120 160 240 280 360 ltac:(vm_compute; reflexivity)) as (Hx & Hy & _).
  split; [exact Hx|]. split; [exact Hy|].
  apply Order.int_of_float_truncates. vm_compute. reflexivity.
Defined.

(** ** The runtime loop *)

Lemma get_hand_details_nonneg (lm : LandmarkList) (w h pw : Z) (bbox : BBox) :
  get_hand_details lm w h = Ok (pw, bbox) -> 0 <= pw.
Proof.
  destruct bbox as [[[x_min y_min] x_max] y_max]. intros H.
  apply get_hand_details_inv in H.
  destruct H as (p0 & p5 & p17 & fw & fh & _ & _ & _ & H). cbv zeta in H.
  destruct H as (_ & _ & _ & _ & _ & _ & ->). lia.
Qed.

(** C7.  On a frame with a detected hand of pixel width above 0 whose
    distance is estimated, the frame shown carries the distance, and the
    "Too Close" warning exactly when the distance is strictly below 60.
    With focal length 450.0 and hand width 8.0, a pixel width of 100 gives
    36.0 and the warning, a pixel width of 60 gives 60.0 and no warning. *)
Theorem proximity_warning_below_60 :
  (forall (focal_length known_hand_width : num) (hl : LandmarkList) (w h key pw : Z)
          (bbox : BBox) (distance : num) (wd : World),
     get_hand_details hl w h = Ok (pw, bbox) ->
     0 < pw ->
     estimate_distance known_hand_width focal_length (Int pw) = Ok distance ->
     exists image,
       runtime_overlay focal_length known_hand_width (Some hl) w h = Ok image /\
       screen (step_world (runtime_step focal_length known_hand_width
                             (Frame h w (Some hl) key) wd))
       = screen wd ++ [(EstimatorWindow, image)] /\
       In (DistanceText distance) image /\
       ((exists at_x at_y, In (TooCloseText at_x at_y) image)
        <-> lt distance (Int 60) = true)) /\
  (get_hand_details hand_100 640 480 = Ok (100, (160, 240, 260, 360)) /\
   estimate_distance (Float f8_0) (Float f450_0) (Int 100) = Ok (Float f36_0) /\
   runtime_overlay (Float f450_0) (Float f8_0) (Some hand_100) 640 480
   = Ok [Skeleton; Rectangle (160, 240, 260, 360); DistanceText (Float f36_0);
         TooCloseText 120 240]) /\
  (get_hand_details hand_60 640 480 = Ok (60, (160, 240, 220, 360)) /\
   estimate_distance (Float f8_0) (Float f450_0) (Int 60) = Ok (Float f60_0) /\
   runtime_overlay (Float f450_0) (Float f8_0) (Some hand_60) 640 480
   = Ok [Skeleton; Rectangle (160, 240, 220, 360); DistanceText (Float f60_0)]).
Proof.
  split; [|split; vm_compute; repeat split; reflexivity].
  intros fl kw hl w h key pw bbox d wd Hd Hpw Hest.
  assert (E : runtime_overlay fl kw (Some hl) w h
              = Ok ([Skeleton; Rectangle bbox; DistanceText d] ++
                    (if lt d (Int 60) then [TooCloseText (w / 2 - 200) (h / 2)] else []))).
  { unfold runtime_overlay. rewrite Hd. cbn [bind].
    destruct (Z.gtb_spec pw 0); [|lia]. rewrite Hest. reflexivity. }
  eexists. split; [exact E|]. split.
  - unfold runtime_step. rewrite E. destruct (Z.land key 255 =? ord_q); reflexivity.
  - split; [simpl; auto|].
    destruct (lt d (Int 60)); simpl; split.
    + reflexivity.
    + intros _. exists (w / 2 - 200), (h / 2). auto.
    + intros (ax & ay & [F|[F|[F|[]]]]); discriminate.
    + discriminate.
Qed.

Lemma proximity_warning_below_60_witness :
  exists image,
    runtime_overlay (Float f450_0) (Float f8_0) (Some hand_100) 640 480 = Ok image /\
    In (DistanceText (Float f36_0)) image /\
    ((exists at_x at_y, In (TooCloseText at_x at_y) image)
     <-> lt (Float f36_0) (Int 60) = true).
Proof.
  destruct (proj1 proximity_warning_below_60 (Float f450_0) (Float f8_0) hand_100
              640 480 (-1) 100 (160, 240, 260, 360) (Float f36_0)
              {| stdin := []; stdout := []; calibration_file := None;
                 camera := []; screen := [] |}
              ltac:(vm_compute; reflexivity) ltac:(reflexivity) ltac:(vm_compute; reflexivity))
    as (image & H1 & _ & H2 & H3).
  exists image. repeat split; try assumption; apply H3.
Defined.

(** ** The calibration capture loop *)

Lemma app_one_not_self {A : Type} (l : list A) (a : A) : l <> l ++ [a].
Proof.
  intros H. apply (f_equal (@List.length A)) in H. rewrite length_app in H. simpl in H. lia.
Qed.

Lemma app_two_not_one {A : Type} (l : list A) (a b c : A) : (l ++ [a]) ++ [b] <> l ++ [c].
Proof.
  intros H. apply (f_equal (@List.length A)) in H. rewrite !length_app in H. simpl in H. lia.
Qed.

(** C10.  A capture keypress on a frame without a detected hand has no
    effect besides showing the frame: nothing is printed, nothing is
    written, no focal length is produced, and the loop goes on to the next
    frame.  "Could not measure hand width" is what an iteration prints
    exactly when the capture key is pressed on a frame with a detected hand
    whose pixel width is 0. *)
Theorem capture_without_hand_ignored (known_hand_width : float) :
  (forall h wd key w,
     capture_step known_hand_width (Frame h wd None key) w
     = Continue (imshow CalibrationWindow [PlaceHandText] w)) /\
  (forall h wd key rest w,
     capture_loop known_hand_width (Frame h wd None key :: rest) w
     = capture_loop known_hand_width rest
         (imshow CalibrationWindow [PlaceHandText] (set_camera rest w))) /\
  (forall ev w,
     stdout (step_world (capture_step known_hand_width ev w)) = stdout w ++ [CouldNotMeasure]
     <-> exists h wd hl key bbox,
           ev = Frame h wd (Some hl) key /\ Z.land key 255 = ord_c /\
           get_hand_details hl wd h = Ok (0, bbox)).
Proof.
  assert (S1 : forall h wd key w,
             capture_step known_hand_width (Frame h wd None key) w
             = Continue (imshow CalibrationWindow [PlaceHandText] w)).
  { intros. unfold capture_step, calibration_overlay, capture_request.
    destruct (Z.land key 255 =? ord_c); reflexivity. }
  split; [exact S1|]. split.
  - intros. cbn [capture_loop]. rewrite S1. reflexivity.
  - intros ev w. split.
    + intros H. destruct ev as [| |h wd hands key]; cbn [capture_step step_world] in H;
        try (cbn [step_world stdout imshow] in H; apply app_one_not_self in H; contradiction).
      unfold capture_request in H.
      destruct (calibration_overlay hands wd h) as [image|e];
        [|cbn [step_world stdout imshow] in H; apply app_one_not_self in H; contradiction].
      destruct (Z.eqb_spec (Z.land key 255) ord_c) as [Hk|Hk];
        [|cbn [step_world stdout imshow] in H; apply app_one_not_self in H; contradiction].
      destruct hands as [hl|];
        [|cbn [step_world stdout imshow] in H; apply app_one_not_self in H; contradiction].
      destruct (get_hand_details hl wd h) as [[pw bbox]|e] eqn:Hd;
        [|cbn [step_world stdout imshow] in H; apply app_one_not_self in H; contradiction].
      destruct (Z.gtb_spec pw 0) as [Hp|Hp].
      * destruct (focal_length_of pw known_hand_width) as [fl|e];
          [|cbn [step_world stdout imshow] in H; apply app_one_not_self in H; contradiction].
        cbn [step_world print stdout write_file imshow] in H.
        apply app_two_not_one in H. contradiction.
      * pose proof (get_hand_details_nonneg _ _ _ _ _ Hd).
        assert (pw = 0) by lia. subst pw. exists h, wd, hl, key, bbox. auto.
    + intros (h & wd & hl & key & bbox & -> & Hk & Hd).
      unfold capture_step, calibration_overlay, capture_request.
      rewrite Hd. cbn [bind]. rewrite Hk, Z.eqb_refl, Hd. reflexivity.
Qed.

Lemma capture_without_hand_ignored_witness :
  capture_step f8_0 (Frame 480 640 None 99) world_calibrating
  = Continue (imshow CalibrationWindow [PlaceHandText] world_calibrating) /\
  stdout (step_world (capture_step f8_0 (Frame 480 640 (Some hand_flat) 99) world_calibrating))
  = stdout world_calibrating ++ [CouldNotMeasure].
Proof.
  split.
  - apply (proj1 (capture_without_hand_ignored f8_0)).
  - apply (proj2 (proj2 (capture_without_hand_ignored f8_0))).
    exists 480, 640, hand_flat, 99, (160, 240, 160, 360).
    split; [reflexivity|]. split; [reflexivity|]. vm_compute. reflexivity.
Defined.

(** ** Calibration *)

Lemma float_of_int_finite (z : Z) : Z.abs z < 2 ^ 1023 -> float_of_int z = Ok (fround_Z z).
Proof.
  intros H. unfold float_of_int. pose proof (Rounding.fround_Z_finite z H) as F.
  destruct (fround_Z z); try reflexivity; discriminate.
Qed.

Lemma gt_zero_not_zero (kw : float) : gt (Float kw) (Int 0) = true -> is_zero kw = false.
Proof. destruct kw; try reflexivity. discriminate. Qed.

Lemma ask_hand_width_returned (lines : list string) (w w1 : World) (kw : float) :
  ask_hand_width lines w = Returned kw w1 ->
  gt (Float kw) (Int 0) = true /\
  calibration_file w1 = calibration_file w /\ camera w1 = camera w.
Proof.
  revert w. induction lines as [|l rest IH]; intros w H; [discriminate|].
  cbn [ask_hand_width] in H.
  destruct (float_of_string l) as [v|[]] eqn:E; try discriminate.
  - destruct (gt (Float v) (Int 0)) eqn:G.
    + inversion H; subst. auto.
    + apply IH in H. exact H.
  - apply IH in H. exact H.
Qed.

Lemma capture_step_break (kw : float) (ev : CamEvent) (w w' : World) (fl : num) :
  capture_step kw ev w = Break fl w' ->
  exists h wd hl key pw bbox,
    ev = Frame h wd (Some hl) key /\ Z.land key 255 = ord_c /\
    get_hand_details hl wd h = Ok (pw, bbox) /\ 0 < pw /\
    focal_length_of pw kw = Ok fl /\
    calibration_file w' = Some (calibration_text fl (Float kw)).
Proof.
  intros H. destruct ev as [| |h wd hands key]; try discriminate.
  cbn [capture_step] in H. unfold capture_request in H.
  destruct (calibration_overlay hands wd h) as [image|e]; [|discriminate].
  destruct (Z.eqb_spec (Z.land key 255) ord_c) as [Hk|Hk]; [|discriminate].
  destruct hands as [hl|]; [|discriminate].
  destruct (get_hand_details hl wd h) as [[pw bbox]|e] eqn:Hd; [|discriminate].
  destruct (Z.gtb_spec pw 0) as [Hp|Hp]; [|discriminate].
  destruct (focal_length_of pw kw) as [f|e] eqn:Hf; [|discriminate].
  inversion H; subst. exists h, wd, hl, key, pw, bbox. repeat split; auto.
Qed.

Lemma capture_loop_returned (kw : float) (events : list CamEvent) (w w' : World) (fl : num) :
  capture_loop kw events w = Returned fl w' ->
  exists pw, 0 < pw /\ focal_length_of pw kw = Ok fl /\
             calibration_file w' = Some (calibration_text fl (Float kw)).
Proof.
  revert w. induction events as [|ev rest IH]; intros w H; [discriminate|].
  cbn [capture_loop] in H.
  destruct (capture_step kw ev (set_camera rest w)) as [w1|f w1|e w1] eqn:S.
  - apply IH in H. exact H.
  - inversion H; subst. apply capture_step_break in S.
    destruct S as (h & wd & hl & key & pw & bbox & _ & _ & _ & Hp & Hf & Hc). eauto.
  - discriminate.
Qed.

Lemma calibrate_returned (w w' : World) (fl kwv : num) :
  calibrate w = Returned (fl, kwv) w' ->
  exists kw pw,
    kwv = Float kw /\ gt (Float kw) (Int 0) = true /\ 0 < pw /\
    focal_length_of pw kw = Ok fl /\
    calibration_file w' = Some (calibration_text fl (Float kw)).
Proof.
  unfold calibrate. intros H.
  destruct (ask_hand_width _ _) as [kw w1|e w1|w1] eqn:A; try discriminate.
  destruct (capture_loop kw _ _) as [f w3|e w3|w3] eqn:L; try discriminate.
  inversion H; subst. apply ask_hand_width_returned in A. destruct A as (G & _).
  apply capture_loop_returned in L. destruct L as (pw & Hp & Hf & Hc).
  exists kw, pw. auto.
Qed.

(** C2.  The focal length computed at a capture is
    [(pixel_width * 30.0) / known_hand_width]: one float multiplication of
    the pixel width by 30.0 and one float division by the hand width.  That
    value and the hand width are written to the calibration file, and every
    pair that [calibrate] returns was computed this way from a pixel width
    above 0 and a hand width above 0.  A pixel width of 120 and a hand width
    of 8.0 give 450.0, and the file then reads "450.0", "8.0". *)
Theorem calibrate_focal_length :
  (forall kw pw,
     0 < pw -> pw < 2 ^ 1023 -> gt (Float kw) (Int 0) = true ->
     focal_length_of pw kw = Ok (Float (fdiv (fmul (fround_Z pw) f30_0) kw))) /\
  (forall kw h wd hl key w pw bbox fl,
     Z.land key 255 = ord_c ->
     get_hand_details hl wd h = Ok (pw, bbox) -> 0 < pw ->
     focal_length_of pw kw = Ok fl ->
     exists w',
       capture_step kw (Frame h wd (Some hl) key) w = Break fl w' /\
       calibration_file w' = Some (calibration_text fl (Float kw))) /\
  (forall w fl kwv w',
     calibrate w = Returned (fl, kwv) w' ->
     exists kw pw,
       kwv = Float kw /\ gt (Float kw) (Int 0) = true /\ 0 < pw /\
       focal_length_of pw kw = Ok fl /\
       calibration_file w' = Some (calibration_text fl (Float kw))) /\
  (focal_length_of 120 f8_0 = Ok (Float f450_0) /\
   exists w',
     calibrate world_calibrating = Returned (Float f450_0, Float f8_0) w' /\
     calibration_file w'
     = Some ("450.0" ++ LF ++ "8.0" ++ LF)%string).
Proof.
  split; [|split; [|split]].
  - intros kw pw Hp Hlt G. unfold focal_length_of. cbn [mul KNOWN_DISTANCE_FOR_CALIBRATION to_float].
    rewrite float_of_int_finite by lia. cbn [bind truediv to_float].
    rewrite (gt_zero_not_zero kw G). reflexivity.
  - intros kw h wd hl key w pw bbox fl Hk Hd Hp Hf.
    unfold capture_step, calibration_overlay, capture_request.
    rewrite Hd. cbn [bind]. rewrite Hk, Z.eqb_refl, Hd.
    destruct (Z.gtb_spec pw 0); [|lia]. rewrite Hf.
    eexists. split; reflexivity.
  - intros w fl kwv w'. apply calibrate_returned.
  - split; [vm_compute; reflexivity|].
    eexists. split; vm_compute; reflexivity.
Qed.

Lemma calibrate_focal_length_witness :
  focal_length_of 120 f8_0 = Ok (Float (fdiv (fmul (fround_Z 120) f30_0) f8_0)) /\
  exists w',
    capture_step f8_0 (Frame 480 640 (Some hand_120) 99) world_calibrating
    = Break (Float f450_0) w' /\
    calibration_file w' = Some (calibration_text (Float f450_0) (Float f8_0)).
Proof.
  split.
  - apply (proj1 calibrate_focal_length); [reflexivity|reflexivity|vm_compute; reflexivity].
  - apply (proj1 (proj2 calibrate_focal_length) f8_0 480 640 hand_120 99 world_calibrating
             120 (160, 240, 280, 360));
      [reflexivity|vm_compute; reflexivity|reflexivity|vm_compute; reflexivity].
Defined.

(** ** What a run prints *)

Section Printing.

Variable P : Msg -> Prop.

Lemma prints_only_refl (w : World) : prints_only P w w.
Proof. exists []. rewrite app_nil_r. auto. Qed.

Lemma prints_only_trans (w1 w2 w3 : World) :
  prints_only P w1 w2 -> prints_only P w2 w3 -> prints_only P w1 w3.
Proof.
  intros (a & Ea & Fa) (b & Eb & Fb). exists (a ++ b).
  rewrite Eb, Ea, app_assoc. split; [reflexivity|]. apply Forall_app; auto.
Qed.

Lemma prints_only_print (w w1 : World) (m : Msg) :
  P m -> prints_only P w w1 -> prints_only P w (print m w1).
Proof.
  intros Hm H. apply prints_only_trans with w1; [assumption|].
  exists [m]. split; [reflexivity|auto].
Qed.

Lemma prints_only_same (w w1 w2 : World) :
  stdout w2 = stdout w1 -> prints_only P w w1 -> prints_only P w w2.
Proof.
  intros E (a & Ea & Fa). exists a. rewrite E. auto.
Qed.

End Printing.

(** Goals [prints_only P w w'] where [w'] is [w] under prints and updates. *)
Ltac prints :=
  repeat first
    [ apply prints_only_refl
    | assumption
    | apply prints_only_print; [try discriminate; auto|]
    | apply (fun P w w1 l => prints_only_same P w w1 (set_stdin l w1) eq_refl)
    | apply (fun P w w1 c => prints_only_same P w w1 (set_camera c w1) eq_refl)
    | apply (fun P w w1 t => prints_only_same P w w1 (write_file t w1) eq_refl)
    | apply (fun P w w1 win i => prints_only_same P w w1 (imshow win i w1) eq_refl) ].

Lemma prints_only_In (P : Msg -> Prop) (m : Msg) (w w' : World) :
  ~ P m -> prints_only P w w' -> ~ In m (stdout w) -> ~ In m (stdout w').
Proof.
  intros Hm (ms & E & F) Hn Hin. rewrite E in Hin. apply in_app_or in Hin.
  destruct Hin as [Hin|Hin]; [auto|]. rewrite Forall_forall in F. apply Hm, F, Hin.
Qed.

Section CalibrationPrints.

(** Any property of messages that holds of what the calibration code
    prints. *)
Variable P : Msg -> Prop.
Hypothesis P_calibration : forall m, m <> CouldNotObtain -> P m.

Lemma ask_hand_width_prints (lines : list string) (w0 w : World) :
  prints_only P w0 w -> prints_only P w0 (world_of (ask_hand_width lines w)).
Proof.
  revert w. induction lines as [|l rest IH]; intros w H; cbn [ask_hand_width].
  - cbn [world_of]. prints. apply P_calibration; discriminate.
  - assert (H1 : prints_only P w0 (set_stdin rest (print PromptHandWidth w)))
      by (prints; apply P_calibration; discriminate).
    destruct (float_of_string l) as [v|[]]; try exact H1.
    + destruct (gt (Float v) (Int 0)); [exact H1|].
      apply IH. prints. apply P_calibration; discriminate.
    + apply IH. prints. apply P_calibration; discriminate.
Qed.

Lemma capture_step_prints (kw : float) (ev : CamEvent) (w0 w : World) :
  prints_only P w0 w -> prints_only P w0 (step_world (capture_step kw ev w)).
Proof.
  intros H. destruct ev as [| |h wd hands key]; cbn [capture_step step_world]; try exact H.
  destruct (calibration_overlay hands wd h); [|exact H].
  destruct (capture_request key hands); [|cbn [step_world]; prints].
  destruct (get_hand_details _ _ _) as [[pw bbox]|]; [|cbn [step_world]; prints].
  destruct (pw >? 0).
  - destruct (focal_length_of pw kw); cbn [step_world]; prints;
      apply P_calibration; discriminate.
  - cbn [step_world]. prints. apply P_calibration; discriminate.
Qed.

Lemma capture_loop_prints (kw : float) (events : list CamEvent) (w0 w : World) :
  prints_only P w0 w -> prints_only P w0 (world_of (capture_loop kw events w)).
Proof.
  revert w. induction events as [|ev rest IH]; intros w H; cbn [capture_loop]; [exact H|].
  assert (S : prints_only P w0 (step_world (capture_step kw ev (set_camera rest w))))
    by (apply capture_step_prints; prints).
  destruct (capture_step kw ev (set_camera rest w)); cbn [step_world] in S;
    [apply IH; exact S|exact S|exact S].
Qed.

Lemma calibrate_prints (w0 w : World) :
  prints_only P w0 w -> prints_only P w0 (world_of (calibrate w)).
Proof.
  intros H. unfold calibrate.
  assert (A : prints_only P w0
                (world_of (ask_hand_width (stdin (print StartingCalibration w))
                             (print StartingCalibration w))))
    by (apply ask_hand_width_prints; prints; apply P_calibration; discriminate).
  destruct (ask_hand_width _ _) as [kw w1|e w1|w1]; cbn [world_of] in A; try exact A.
  match goal with
  | |- context [capture_loop kw ?evs ?w2] =>
      assert (L : prints_only P w0 (world_of (capture_loop kw evs w2)))
        by (apply capture_loop_prints; prints; apply P_calibration; discriminate);
      destruct (capture_loop kw evs w2); exact L
  end.
Qed.

Lemma calibrate_values_prints (w0 w : World) :
  prints_only P w0 w -> prints_only P w0 (world_of (calibrate_values w)).
Proof.
  intros H. unfold calibrate_values. pose proof (calibrate_prints w0 w H) as C.
  destruct (calibrate w) as [[fl kw] w1|e w1|w1]; exact C.
Qed.

Lemma choice_loop_prints (content : string) (lines : list string) (w0 w : World) :
  prints_only P w0 w -> prints_only P w0 (world_of (choice_loop content lines w)).
Proof.
  revert w. induction lines as [|l rest IH]; intros w H; cbn [choice_loop].
  - cbn [world_of]. prints. apply P_calibration; discriminate.
  - assert (H1 : prints_only P w0 (set_stdin rest (print PromptChoice w)))
      by (prints; apply P_calibration; discriminate).
    destruct (lower l =? "y")%string.
    + destruct (read_calibration content) as [[fl kw]|[]]; cbn [world_of];
        try exact H1;
        try (apply calibrate_values_prints);
        prints; apply P_calibration; discriminate.
    + destruct (lower l =? "n")%string.
      * apply calibrate_values_prints. exact H1.
      * apply IH. prints. apply P_calibration; discriminate.
Qed.

Lemma get_calibration_data_prints (w0 w : World) :
  prints_only P w0 w -> prints_only P w0 (world_of (get_calibration_data w)).
Proof.
  intros H. unfold get_calibration_data. destruct (calibration_file w).
  - apply choice_loop_prints. exact H.
  - apply calibrate_values_prints. prints. apply P_calibration; discriminate.
Qed.

Lemma runtime_loop_prints (fl kw : num) (events : list CamEvent) (w0 w : World) :
  prints_only P w0 w -> prints_only P w0 (world_of (runtime_loop fl kw events w)).
Proof.
  revert w. induction events as [|ev rest IH]; intros w H; cbn [runtime_loop]; [exact H|].
  destruct ev as [| |h wd hands key]; cbn [runtime_step world_of].
  - prints.
  - apply IH. prints.
  - destruct (runtime_overlay fl kw hands wd h); cbn [world_of]; [|prints].
    destruct (Z.land key 255 =? ord_q); cbn [world_of]; [prints|apply IH; prints].
Qed.

End CalibrationPrints.

(** ** Obtaining the calibration data *)

Lemma calibrate_values_returned (w w' : World) (a b : pyval) :
  calibrate_values w = Returned (a, b) w' ->
  exists fl kw, a = PyNum fl /\ b = PyNum kw /\ calibrate w = Returned (fl, kw) w'.
Proof.
  unfold calibrate_values. destruct (calibrate w) as [[fl kw] w1|e w1|w1]; try discriminate.
  intros H. inversion H; subst. eauto.
Qed.

Lemma choice_loop_returned (content : string) (lines : list string) (w w' : World)
    (a b : pyval) :
  choice_loop content lines w = Returned (a, b) w' ->
  is_None a = false /\ is_None b = false.
Proof.
  revert w. induction lines as [|l rest IH]; intros w H; [discriminate|].
  cbn [choice_loop] in H.
  destruct (lower l =? "y")%string.
  - destruct (read_calibration content) as [[fl kw]|[]]; try discriminate;
      try (apply calibrate_values_returned in H; destruct H as (? & ? & -> & -> & _); auto).
    inversion H; subst; auto.
  - destruct (lower l =? "n")%string.
    + apply calibrate_values_returned in H. destruct H as (? & ? & -> & -> & _). auto.
    + apply IH in H. exact H.
Qed.

Lemma get_calibration_data_returned (w w' : World) (a b : pyval) :
  get_calibration_data w = Returned (a, b) w' ->
  is_None a = false /\ is_None b = false.
Proof.
  unfold get_calibration_data. destruct (calibration_file w) as [content|].
  - apply choice_loop_returned.
  - intros H. apply calibrate_values_returned in H. destruct H as (? & ? & -> & -> & _). auto.
Qed.

(** C9.  Whenever [get_calibration_data] returns, neither component of the
    pair is [None]; so [main] never prints "Could not obtain calibration
    data".  Without a calibration file, or when the user declines the
    previous calibration, the result is that of running [calibrate]. *)
Theorem calibration_data_never_None :
  (forall w a b w',
     get_calibration_data w = Returned (a, b) w' ->
     is_None a = false /\ is_None b = false) /\
  (forall w,
     ~ In CouldNotObtain (stdout w) -> ~ In CouldNotObtain (stdout (world_of (main w)))) /\
  (forall w,
     calibration_file w = None ->
     get_calibration_data w = calibrate_values (print NoCalibrationFile w)) /\
  (forall w content l rest,
     calibration_file w = Some content -> stdin w = l :: rest -> lower l = "n"%string ->
     get_calibration_data w = calibrate_values (set_stdin rest (print PromptChoice w))).
Proof.
  split; [|split; [|split]].
  - intros w a b w'. apply get_calibration_data_returned.
  - intros w. apply (prints_only_In (fun m => m <> CouldNotObtain)); [auto|].
    unfold main.
    pose proof (get_calibration_data_prints (fun m => m <> CouldNotObtain)
                  (fun m H => H) w w (prints_only_refl _ w)) as G.
    destruct (get_calibration_data w) as [[a b] w1|e w1|w1] eqn:E;
      cbn [world_of] in G |- *; try exact G.
    apply get_calibration_data_returned in E. destruct E as [Ha Hb].
    destruct a as [|fl]; [discriminate|]. destruct b as [|kw]; [discriminate|].
    pose proof (runtime_loop_prints (fun m => m <> CouldNotObtain) fl kw
                  (camera (print StartingEstimation w1)) w (print StartingEstimation w1)
                  ltac:(prints)) as R.
    destruct (runtime_loop fl kw _ _) as [[] w3|e w3|w3]; cbn [world_of] in R |- *;
      try exact R. prints.
  - intros w H. unfold get_calibration_data. rewrite H. reflexivity.
  - intros w content l rest Hf Hs Hl. unfold get_calibration_data. rewrite Hf, Hs.
    cbn [choice_loop]. rewrite Hl. reflexivity.
Qed.

Lemma calibration_data_never_None_witness :
  exists a b w',
    get_calibration_data world_reusing = Returned (a, b) w' /\
    is_None a = false /\ is_None b = false /\
    ~ In CouldNotObtain (stdout (world_of (main world_reusing))).
Proof.
  assert (E : exists w', get_calibration_data world_reusing
                         = Returned (PyNum (Float f450_0), PyNum (Float f8_0)) w')
    by (eexists; vm_compute; reflexivity).
  destruct E as (w' & E).
  exists (PyNum (Float f450_0)), (PyNum (Float f8_0)), w'.
  split; [exact E|].
  destruct (proj1 calibration_data_never_None world_reusing _ _ _ E) as [Ha Hb].
  split; [exact Ha|]. split; [exact Hb|].
  apply (proj1 (proj2 calibration_data_never_None)). simpl. auto.
Defined.

(** ** Damaged calibration files *)

Lemma float_of_string_raises (s : string) (e : exn) :
  float_of_string s = Raise e -> e = ValueError.
Proof.
  unfold float_of_string. destruct (sign_prefix _) as [neg r].
  destruct ((lower r =? "inf") || (lower r =? "infinity"))%string; [discriminate|].
  destruct (lower r =? "nan")%string; [discriminate|].
  destruct (number r) as [[[ip fp] r1]|]; [|intros H; inversion H; reflexivity].
  destruct (exponent r1) as [[ex [|c t]]|]; intros H; inversion H; reflexivity.
Qed.

Lemma read_calibration_lines (content : string) :
  read_calibration content =
    (focal_length <- float_of_string (first_line content) ;;
     known_width <- float_of_string (second_line content) ;;
     Ok (Float focal_length, Float known_width)).
Proof.
  unfold read_calibration, first_line, second_line.
  destruct (readline content) as [line1 rest]. cbn [fst snd].
  destruct (float_of_string (strip line1)); [|reflexivity]. cbn [bind].
  destruct (readline rest) as [line2 rest']. reflexivity.
Qed.

(** C4.  When the first or the second line of the calibration file does not
    parse as a float -- a missing second line and an empty file included --
    answering [y] does not raise: [get_calibration_data] reports the file as
    corrupt and its outcome is that of running [calibrate]. *)
Theorem corrupt_file_recalibrates :
  (forall w content l rest,
     calibration_file w = Some content -> stdin w = l :: rest -> lower l = "y"%string ->
     (forall v, float_of_string (first_line content) <> Ok v) \/
     (forall v, float_of_string (second_line content) <> Ok v) ->
     get_calibration_data w
     = calibrate_values (print FileCorrupt (set_stdin rest (print PromptChoice w)))) /\
  (forall v, float_of_string (first_line EmptyString) <> Ok v) /\
  (forall v, float_of_string (second_line ("450.0" ++ LF)) <> Ok v) /\
  (forall v, float_of_string (first_line ("abc" ++ LF ++ "8.0" ++ LF)) <> Ok v).
Proof.
  split; [|repeat split; intros v; vm_compute; discriminate].
  intros w content l rest Hf Hs Hl Hbad.
  unfold get_calibration_data. rewrite Hf, Hs. cbn [choice_loop]. rewrite Hl.
  cbn [String.eqb Ascii.eqb Bool.eqb]. rewrite read_calibration_lines.
  destruct (float_of_string (first_line content)) as [a|e] eqn:E1.
  - destruct Hbad as [H|H]; [exfalso; apply (H a); reflexivity|].
    destruct (float_of_string (second_line content)) as [b|e] eqn:E2;
      [exfalso; apply (H b); reflexivity|].
    apply float_of_string_raises in E2. subst. reflexivity.
  - apply float_of_string_raises in E1. subst. reflexivity.
Qed.

Lemma corrupt_file_recalibrates_witness :
  get_calibration_data (world_corrupt ("450.0" ++ LF))
  = calibrate_values
      (print FileCorrupt (set_stdin ["8.0"%string] (print PromptChoice (world_corrupt ("450.0" ++ LF))))) /\
  exists w',
    get_calibration_data (world_corrupt ("450.0" ++ LF))
    = Returned (PyNum (Float f450_0), PyNum (Float f8_0)) w'.
Proof.
  split.
  - apply (proj1 corrupt_file_recalibrates (world_corrupt ("450.0" ++ LF)) ("450.0" ++ LF)%string
             "y"%string ["8.0"%string]); try reflexivity.
    right. intros v. vm_compute. discriminate.
  - eexists. vm_compute. reflexivity.
Defined.

(** ** Positivity of calibration records *)

Lemma float_of_decimal_in_range (neg : bool) (D E : Z) : in_range (float_of_decimal neg D E).
Proof.
  unfold float_of_decimal. destruct D as [|p|p]; try exact I.
  destruct (0 <=? E).
  - unfold binary_normalize.
    destruct (cond_Zopp neg (Zpos p * 10 ^ E)); [exact I| |]; apply Rounding.binary_round_props.
  - apply Rounding.fdiv_finite.
Qed.

Lemma float_of_string_in_range (s : string) (f : float) :
  float_of_string s = Ok f -> is_nan f = false -> in_range f.
Proof.
  unfold float_of_string. destruct (sign_prefix _) as [neg r].
  destruct ((lower r =? "inf") || (lower r =? "infinity"))%string;
    [intros H; inversion H; subst; intros _; exact I|].
  destruct (lower r =? "nan")%string; [intros H; inversion H; subst; discriminate|].
  destruct (number r) as [[[ip fp] r1]|]; [|discriminate].
  destruct (exponent r1) as [[ex [|c t]]|]; try discriminate.
  intros H _. inversion H; subst. apply float_of_decimal_in_range.
Qed.

Lemma ask_hand_width_in_range (lines : list string) (w w1 : World) (kw : float) :
  ask_hand_width lines w = Returned kw w1 -> is_nan kw = false -> in_range kw.
Proof.
  revert w. induction lines as [|l rest IH]; intros w H N; [discriminate|].
  cbn [ask_hand_width] in H.
  destruct (float_of_string l) as [v|[]] eqn:E; try discriminate.
  - destruct (gt (Float v) (Int 0)).
    + inversion H; subst. apply (float_of_string_in_range _ _ E N).
    + eapply IH; eassumption.
  - eapply IH; eassumption.
Qed.

Lemma positive_float_gt (f : float) (k : Z) :
  has_sign false f -> mag_ge k f -> gt (Float f) (Int 0) = true.
Proof.
  destruct f as [s|s| |s m e]; simpl; try contradiction.
  - intros -> _. reflexivity.
  - intros -> _. unfold gt, lt, compare, fcompare_Z. cbn [cond_Zopp option_map].
    rewrite Z.mul_0_l.
    assert (0 < 2 ^ (e - Z.min e 0)) by (apply Z.pow_pos_nonneg; lia).
    assert (E : (Z.pos m * 2 ^ (e - Z.min e 0) ?= 0) = Gt) by (apply Z.compare_gt_iff; nia).
    rewrite E. reflexivity.
Qed.

Lemma gt_zero_finite (kw : float) :
  gt (Float kw) (Int 0) = true -> is_finite kw = true ->
  exists m e, kw = S754_finite false m e.
Proof.
  destruct kw as [s|s| |s m e]; try discriminate.
  intros H _. destruct s; [|eauto].
  unfold gt, lt, compare, fcompare_Z in H. cbn [cond_Zopp option_map] in H.
  rewrite Z.mul_0_l in H.
  assert (0 < 2 ^ (e - Z.min e 0)) by (apply Z.pow_pos_nonneg; lia).
  assert (E : (- Z.pos m * 2 ^ (e - Z.min e 0) ?= 0) = Lt) by (apply Z.compare_lt_iff; nia).
  rewrite E in H. discriminate.
Qed.

(** A focal length computed from a pixel width above 0 and a finite hand
    width above 0 is above 0. *)
Lemma focal_length_positive (pw : Z) (kw : float) (fl : num) :
  0 < pw -> gt (Float kw) (Int 0) = true -> is_finite kw = true -> in_range kw ->
  focal_length_of pw kw = Ok fl -> gt fl (Int 0) = true.
Proof.
  intros Hpw G F R H.
  destruct (gt_zero_finite kw G F) as (mk & ek & ->). destruct R as [Rd Re].
  unfold focal_length_of in H. cbn [mul KNOWN_DISTANCE_FOR_CALIBRATION to_float bind] in H.
  destruct (float_of_int pw) as [pf|] eqn:Ep; [|discriminate].
  cbn [bind truediv to_float is_zero] in H. inversion H; subst; clear H.
  destruct (Rounding.fround_Z_nonzero pw ltac:(lia)) as (_ & Sp & Mp).
  assert (Hs : (pw <? 0) = false) by (apply Z.ltb_ge; lia). rewrite Hs in Sp.
  pose proof (Rounding.Zdigits2_pos pw Hpw) as Dp.
  unfold float_of_int in Ep.
  destruct (fround_Z pw) as [s|s| |s m e]; cbn [has_sign mag_ge] in Sp, Mp;
    try contradiction; try discriminate.
  inversion Ep; subst pf. subst s.
  destruct (Rounding.fmul_finite false false m 8444249301319680 e (-48)) as (_ & Sa & Ma).
  change (fmul (S754_finite false m e) (S754_finite false 8444249301319680 (-48)))
    with (fmul (S754_finite false m e) f30_0) in Sa, Ma.
  change (Zdigits2 (Zpos 8444249301319680)) with 53 in Ma.
  specialize (Ma ltac:(lia)).
  destruct (fmul (S754_finite false m e) f30_0) as [s|s| |s ma ea];
    cbn [has_sign mag_ge] in Sa, Ma; try contradiction; subst s.
  - reflexivity.
  - destruct (Rounding.fdiv_finite false false ma mk ea ek) as (_ & Sq & Mq).
    change (Zpos (digits2_pos mk)) with (Zdigits2 (Zpos mk)) in Rd.
    specialize (Mq ltac:(lia)).
    eapply positive_float_gt; eassumption.
Qed.

Lemma calibrate_positive (w w' : World) (fl kwv : num) :
  calibrate w = Returned (fl, kwv) w' ->
  exists kw, kwv = Float kw /\ gt (Float kw) (Int 0) = true /\
             (is_finite kw = true -> gt fl (Int 0) = true).
Proof.
  unfold calibrate. intros H.
  destruct (ask_hand_width _ _) as [kw w1|e w1|w1] eqn:A; try discriminate.
  destruct (capture_loop kw _ _) as [f w3|e w3|w3] eqn:L; try discriminate.
  inversion H; subst.
  pose proof (ask_hand_width_returned _ _ _ _ A) as (G & _).
  assert (N : is_nan kw = false) by (destruct kw; try reflexivity; discriminate).
  pose proof (ask_hand_width_in_range _ _ _ _ A N) as R.
  apply capture_loop_returned in L. destruct L as (pw & Hp & Hf & _).
  exists kw. split; [reflexivity|]. split; [assumption|].
  intros F. eapply focal_length_positive; eassumption.
Qed.

(** C8, as the code has it.  A record returned by [calibrate] has a hand
    width above 0 and a focal length computed from a pixel width above 0,
    which is above 0 whenever the hand width is finite.  A record loaded
    from an existing calibration file is the two parsed floats, returned
    without any check of their sign. *)
Theorem calibrated_record_positive :
  (forall w fl kwv w',
     calibrate w = Returned (fl, kwv) w' ->
     gt kwv (Int 0) = true /\
     exists kw pw,
       kwv = Float kw /\ 0 < pw /\ focal_length_of pw kw = Ok fl /\
       (is_finite kw = true -> gt fl (Int 0) = true)) /\
  (forall w content l rest fl kw,
     calibration_file w = Some content -> stdin w = l :: rest -> lower l = "y"%string ->
     read_calibration content = Ok (fl, kw) ->
     get_calibration_data w
     = Returned (PyNum fl, PyNum kw)
         (print LoadedSuccessfully (set_stdin rest (print PromptChoice w)))).
Proof.
  split.
  - intros w fl kwv w' H.
    destruct (calibrate_positive _ _ _ _ H) as (kw & -> & G & P).
    split; [assumption|].
    destruct (calibrate_returned _ _ _ _ H) as (kw' & pw & E & _ & Hp & Hf & _).
    inversion E; subst kw'. exists kw, pw. auto.
  - intros w content l rest fl kw Hf Hs Hl Hr.
    unfold get_calibration_data. rewrite Hf, Hs. cbn [choice_loop]. rewrite Hl.
    cbn [String.eqb Ascii.eqb Bool.eqb]. rewrite Hr. reflexivity.
Qed.

Lemma calibrated_record_positive_witness :
  gt (Float f8_0) (Int 0) = true /\ gt (Float f450_0) (Int 0) = true.
Proof.
  assert (E : exists w', calibrate world_calibrating = Returned (Float f450_0, Float f8_0) w')
    by (eexists; vm_compute; reflexivity).
  destruct E as (w' & E).
  destruct (proj1 calibrated_record_positive _ _ _ _ E) as (G & kw & pw & Ek & _ & _ & P).
  split; [exact G|]. apply P. inversion Ek. reflexivity.
Defined.

(** C8, as the specification words it, fails twice: a calibration file
    holding [-1.0] and [-2.0] is loaded as it is, and a hand width entered
    as [inf] is accepted and gives the focal length 0.0. *)
Lemma calibration_record_not_positive :
  (exists w',
     get_calibration_data world_negative_file
     = Returned (PyNum (Float f_minus_1), PyNum (Float f_minus_2)) w') /\
  gt (Float f_minus_1) (Int 0) = false /\ gt (Float f_minus_2) (Int 0) = false /\
  (exists w',
     calibrate world_infinite_width
     = Returned (Float (S754_zero false), Float (S754_infinity false)) w') /\
  gt (Float (S754_zero false)) (Int 0) = false.
Proof.
  split; [eexists; vm_compute; reflexivity|].
  split; [reflexivity|]. split; [reflexivity|].
  split; [eexists; vm_compute; reflexivity|reflexivity].
Qed.

(** ** The calibration file *)

Module Text.

Lemma append_assoc (a b c : string) : ((a ++ b) ++ c)%string = (a ++ (b ++ c))%string.
Proof. induction a as [|x a IH]; [reflexivity|]. simpl. rewrite IH. reflexivity. Qed.

Lemma no_space_app (a b : string) : no_space (a ++ b) = no_space a && no_space b.
Proof.
  induction a as [|c a IH]; [reflexivity|]. simpl. rewrite IH, andb_assoc. reflexivity.
Qed.

Lemma no_space_uint (u : Decimal.uint) : no_space (NilEmpty.string_of_uint u) = true.
Proof. induction u; simpl; auto. Qed.

Lemma no_space_decimal_digits (n : Z) : no_space (decimal_digits n) = true.
Proof. apply no_space_uint. Qed.

Lemma no_space_drop_trailing_zeros (s : string) :
  no_space s = true -> no_space (drop_trailing_zeros s) = true.
Proof.
  induction s as [|c s IH]; [reflexivity|]. simpl. intros H.
  apply andb_true_iff in H. destruct H as [Hc Hs]. specialize (IH Hs).
  destruct (drop_trailing_zeros s).
  - destruct (c =? "0")%char; simpl; [reflexivity|]. rewrite Hc. reflexivity.
  - simpl in *. rewrite Hc. exact IH.
Qed.

Lemma no_space_zeros (n : nat) : no_space (zeros n) = true.
Proof. induction n; simpl; auto. Qed.

Lemma no_space_take (n : nat) (s : string) : no_space s = true -> no_space (take n s) = true.
Proof.
  revert s. induction n as [|n IH]; intros [|c s]; simpl; auto.
  intros H. apply andb_true_iff in H. destruct H as [Hc Hs]. rewrite Hc. simpl. auto.
Qed.

Lemma no_space_drop (n : nat) (s : string) : no_space s = true -> no_space (drop n s) = true.
Proof.
  revert s. induction n as [|n IH]; intros [|c s]; simpl; auto.
  intros H. apply andb_true_iff in H. destruct H as [Hc Hs]. auto.
Qed.

Lemma no_space_format_repr (ds : string) (decpt : Z) :
  no_space ds = true -> no_space (format_repr ds decpt) = true.
Proof.
  intros H. unfold format_repr.
  destruct ((decpt <=? -4) || (16 <? decpt)).
  - rewrite no_space_app. apply andb_true_iff. split.
    + destruct ds as [|d0 [|d1 r]]; exact H.
    + pose proof (no_space_decimal_digits (Z.abs (decpt - 1))) as D.
      destruct (decpt - 1 <? 0), (Z.abs (decpt - 1) <? 10); simpl; exact D.
  - destruct (decpt <=? 0).
    + rewrite !no_space_app, no_space_zeros, H. reflexivity.
    + destruct (Z.of_nat (String.length ds) <=? decpt).
      * rewrite !no_space_app, no_space_zeros, H. reflexivity.
      * rewrite !no_space_app, no_space_take, no_space_drop by assumption. reflexivity.
Qed.

(** The text of a float has no white space in it. *)
Lemma no_space_float_repr (x : float) : no_space (float_repr x) = true.
Proof.
  destruct x as [[]|[]| |s m e]; try reflexivity.
  unfold float_repr. destruct (ratio m e) as [n d].
  destruct (shortest 17 _ s n d _ 1) as [D k]. unfold render.
  assert (H := no_space_format_repr (drop_trailing_zeros (decimal_digits D))
                 (Z.of_nat (String.length (decimal_digits D)) + k)
                 (no_space_drop_trailing_zeros _ (no_space_decimal_digits D))).
  destruct s; [simpl; exact H|exact H].
Qed.

Lemma readline_line (s rest : string) :
  no_space s = true -> readline (s ++ LF ++ rest) = ((s ++ LF)%string, rest).
Proof.
  change (LF ++ rest)%string with (String "010"%char rest).
  induction s as [|c s IH]; [reflexivity|]. cbn [append readline no_space]. intros H.
  apply andb_true_iff in H. destruct H as [Hc Hs]. rewrite (IH Hs).
  assert (N1 : (c =? "010")%char = false).
  { destruct (Ascii.eqb_spec c "010"%char) as [->|]; [discriminate|reflexivity]. }
  assert (N2 : (c =? "013")%char = false).
  { destruct (Ascii.eqb_spec c "013"%char) as [->|]; [discriminate|reflexivity]. }
  rewrite N1, N2. reflexivity.
Qed.

Lemma lstrip_no_space (s t : string) : no_space s = true -> s <> EmptyString ->
  lstrip_with is_space (s ++ t) = (s ++ t)%string.
Proof.
  destruct s as [|c s]; [congruence|]. simpl. intros H _.
  apply andb_true_iff in H. destruct H as [Hc _].
  apply negb_true_iff in Hc. rewrite Hc. reflexivity.
Qed.

Lemma rstrip_no_space (s : string) : no_space s = true -> rstrip_with is_space (s ++ LF) = s.
Proof.
  induction s as [|c s IH]; [reflexivity|]. cbn [append rstrip_with no_space]. intros H.
  apply andb_true_iff in H. destruct H as [Hc Hs]. rewrite (IH Hs).
  apply negb_true_iff in Hc. rewrite Hc. destruct s; reflexivity.
Qed.

Lemma strip_line (s : string) : no_space s = true -> strip (s ++ LF) = s.
Proof.
  intros H. unfold strip. destruct s as [|c s]; [reflexivity|].
  rewrite lstrip_no_space by (assumption || discriminate).
  apply rstrip_no_space. assumption.
Qed.

End Text.

(** ** Rounding to a given float *)

Module Exact.
Import Rounding Order.

Lemma loc_of_shr_record_of_loc (m : Z) (l : location) :
  loc_of_shr_record (shr_record_of_loc m l) = l.
Proof. destruct l as [|[]]; reflexivity. Qed.

(** One right shift keeps the record in step with the quotient [A / B]. *)
Lemma shr_1_classify (r : shr_record) (A B : Z) :
  0 <= A -> 0 < B ->
  shr_m r = A / B -> loc_of_shr_record r = classify (A mod B) B ->
  shr_m (shr_1 r) = A / (2 * B) /\
  loc_of_shr_record (shr_1 r) = classify (A mod (2 * B)) (2 * B).
Proof.
  intros HA HB Hm Hl.
  pose proof (Z.div_mod A B ltac:(lia)) as E.
  pose proof (Z.mod_pos_bound A B HB) as Hr.
  assert (Hq : 0 <= A / B) by (apply Z.div_pos; lia).
  assert (H2 : A / (2 * B) = (A / B) / 2).
  { rewrite (Z.mul_comm 2 B). rewrite Z.div_div by lia. reflexivity. }
  assert (Hm2 : A mod (2 * B) = ((A / B) mod 2) * B + A mod B).
  { pose proof (Z.div_mod (A / B) 2 ltac:(lia)) as E2.
    pose proof (Z.mod_pos_bound (A / B) 2 ltac:(lia)) as Hr2.
    symmetry. apply (Z.mod_unique A (2 * B) ((A / B) / 2)); [left; nia|nia]. }
  split.
  - rewrite shr_1_m by lia. rewrite Hm, H2. reflexivity.
  - rewrite Hm2. clear H2 Hm2.
    destruct r as [m rb sb]. cbn [shr_m] in Hm. subst m.
    set (q := A / B) in *. set (rem := A mod B) in *.
    assert (Hs : orb rb sb = negb (rem =? 0)).
    { unfold classify in Hl. destruct (rem =? 0), rb, sb; simpl in *; try reflexivity;
        try discriminate; destruct (2 * rem ?= B); discriminate. }
    assert (Hodd : q mod 2 = if Z.odd q then 1 else 0).
    { rewrite Zmod_odd. reflexivity. }
    assert (Step : shr_1 {| shr_m := q; shr_r := rb; shr_s := sb |}
                   = {| shr_m := q / 2; shr_r := Z.odd q; shr_s := orb rb sb |}).
    { rewrite <- Z.div2_div. destruct q as [|[p|p|]|p]; try reflexivity; lia. }
    rewrite Step, Hs, Hodd. unfold classify.
    destruct (Z.odd q); destruct (Z.eqb_spec rem 0) as [Z0|NZ]; cbn [negb loc_of_shr_record].
    + subst rem. rewrite Z0 in *. replace (1 * B + 0) with B by lia.
      destruct (Z.eqb_spec B 0); [lia|]. rewrite Z.compare_refl. reflexivity.
    + destruct (Z.eqb_spec (1 * B + rem) 0); [lia|].
      assert (C : (2 * (1 * B + rem) ?= 2 * B) = Gt) by (apply Z.compare_gt_iff; lia).
      rewrite C. reflexivity.
    + rewrite Z0. simpl. reflexivity.
    + destruct (Z.eqb_spec (0 * B + rem) 0); [lia|].
      assert (C : (2 * (0 * B + rem) ?= 2 * B) = Lt) by (apply Z.compare_lt_iff; lia).
      rewrite C. reflexivity.
Qed.

Lemma iter_shr_1_classify (p : positive) (r : shr_record) (A B : Z) :
  0 <= A -> 0 < B ->
  shr_m r = A / B -> loc_of_shr_record r = classify (A mod B) B ->
  shr_m (iter_pos shr_1 p r) = A / (B * 2 ^ Zpos p) /\
  loc_of_shr_record (iter_pos shr_1 p r) = classify (A mod (B * 2 ^ Zpos p)) (B * 2 ^ Zpos p).
Proof.
  intros HA. revert r B.
  induction p as [p IH|p IH|]; intros r B HB Hm Hl; simpl iter_pos.
  - destruct (shr_1_classify r A B HA HB Hm Hl) as [M1 L1].
    assert (P : 0 < 2 ^ Zpos p) by (apply Z.pow_pos_nonneg; lia).
    destruct (IH _ (2 * B) ltac:(lia) M1 L1) as [M2 L2].
    destruct (IH _ (2 * B * 2 ^ Zpos p) ltac:(nia) M2 L2) as [M3 L3].
    replace (B * 2 ^ Zpos p~1) with (2 * B * 2 ^ Zpos p * 2 ^ Zpos p); [auto|].
    replace (Zpos p~1) with (1 + Zpos p + Zpos p) by lia.
    rewrite !Z.pow_add_r by lia. change (2 ^ 1) with 2. ring.
  - assert (P : 0 < 2 ^ Zpos p) by (apply Z.pow_pos_nonneg; lia).
    destruct (IH _ B HB Hm Hl) as [M2 L2].
    destruct (IH _ (B * 2 ^ Zpos p) ltac:(nia) M2 L2) as [M3 L3].
    replace (B * 2 ^ Zpos p~0) with (B * 2 ^ Zpos p * 2 ^ Zpos p); [auto|].
    replace (Zpos p~0) with (Zpos p + Zpos p) by lia.
    rewrite !Z.pow_add_r by lia. ring.
  - destruct (shr_1_classify r A B HA HB Hm Hl) as [M1 L1].
    replace (B * 2 ^ 1) with (2 * B) by (change (2 ^ 1) with 2; ring). auto.
Qed.

Lemma shr_classify (r : shr_record) (e n A B : Z) :
  0 <= A -> 0 < B ->
  shr_m r = A / B -> loc_of_shr_record r = classify (A mod B) B ->
  shr_m (fst (shr r e n)) = A / (B * 2 ^ Z.max n 0) /\
  loc_of_shr_record (fst (shr r e n))
  = classify (A mod (B * 2 ^ Z.max n 0)) (B * 2 ^ Z.max n 0) /\
  snd (shr r e n) = e + Z.max n 0.
Proof.
  intros HA HB Hm Hl. destruct n as [|p|p]; cbn [shr fst snd].
  - simpl (Z.max 0 0). rewrite Z.pow_0_r, Z.mul_1_r. repeat split; auto. lia.
  - replace (Z.max (Zpos p) 0) with (Zpos p) by lia.
    destruct (iter_shr_1_classify p r A B HA HB Hm Hl). auto.
  - replace (Z.max (Zneg p) 0) with 0 by lia. rewrite Z.pow_0_r, Z.mul_1_r.
    repeat split; auto. lia.
Qed.

(** [binary_round_aux] rounds the quotient it is given once. *)
Lemma binary_round_aux_rounds (s : bool) (mx ex : Z) (l : location) (A B : Z) :
  0 <= A -> 0 < B -> mx = A / B -> l = classify (A mod B) B ->
  binary_round_aux prec emax s mx ex l
  = finish s (rnd A (B * 2 ^ shift_of mx ex)) (ex + shift_of mx ex).
Proof.
  intros HA HB Hm Hl. unfold binary_round_aux, shr_fexp.
  pose proof (shr_classify (shr_record_of_loc mx l) ex
                (fexp prec emax (Zdigits2 mx + ex) - ex) A B HA HB) as S1.
  rewrite shr_record_of_loc_m, loc_of_shr_record_of_loc in S1.
  specialize (S1 Hm Hl). fold (shift_of mx ex) in S1.
  destruct (shr (shr_record_of_loc mx l) ex (fexp prec emax (Zdigits2 mx + ex) - ex))
    as [mrs' e'].
  cbn [fst snd] in S1. destruct S1 as (M1 & L1 & E1).
  assert (R : round_nearest_even (shr_m mrs') (loc_of_shr_record mrs')
              = rnd A (B * 2 ^ shift_of mx ex)).
  { unfold rnd. rewrite M1, L1. reflexivity. }
  rewrite R. set (mr := rnd A (B * 2 ^ shift_of mx ex)).
  assert (Hmr : 0 <= mr).
  { unfold mr, rnd.
    assert (0 <= A / (B * 2 ^ shift_of mx ex)).
    { apply Z.div_pos; [assumption|]. pose proof (shift_of_nonneg mx ex).
      pose proof (Z.pow_pos_nonneg 2 (shift_of mx ex)). nia. }
    destruct (round_nearest_even_cases (A / (B * 2 ^ shift_of mx ex))
                (classify (A mod (B * 2 ^ shift_of mx ex)) (B * 2 ^ shift_of mx ex))); lia. }
  pose proof (shr_spec (shr_record_of_loc mr loc_Exact) e'
                (fexp prec emax (Zdigits2 mr + e') - e')) as S2.
  rewrite shr_record_of_loc_m in S2. specialize (S2 Hmr). fold (shift_of mr e') in S2.
  destruct (shr (shr_record_of_loc mr loc_Exact) e' (fexp prec emax (Zdigits2 mr + e') - e'))
    as [mrs'' e''].
  cbn [fst snd] in S2. destruct S2 as [M2 E2].
  unfold finish. rewrite <- E1, <- E2, <- M2. reflexivity.
Qed.

(** A canonical float: its exponent is the one its magnitude calls for. *)
Lemma valid_finite (s : bool) (m : positive) (e : Z) :
  valid_binary prec emax (S754_finite s m e) = true ->
  e = Z.max (Zdigits2 (Zpos m) + e - 53) (-1074) /\ e <= 971.
Proof.
  cbn [valid_binary]. unfold bounded, canonical_mantissa. intros H.
  apply andb_true_iff in H. destruct H as [H1 H2].
  apply Z.eqb_eq in H1. apply Z.leb_le in H2. rewrite fexp_val in H1.
  change (Zpos (digits2_pos m)) with (Zdigits2 (Zpos m)) in H1.
  change (emax - prec) with 971 in H2. lia.
Qed.

Lemma pow2_le (a b : Z) : 0 <= a <= b -> 2 ^ a <= 2 ^ b.
Proof. intros. apply Z.pow_le_mono_r; lia. Qed.

Lemma Zdigits2_upper (m k : Z) : 0 < m -> m < 2 ^ k -> 0 <= k -> Zdigits2 m <= k.
Proof.
  intros Hm H Hk. pose proof (Zdigits2_bounds m Hm) as [Hl _].
  destruct (Z_le_gt_dec (Zdigits2 m) k); [assumption|].
  pose proof (pow2_le k (Zdigits2 m - 1) ltac:(lia)). lia.
Qed.

(** Rounding a quotient that lies within half a unit of [m] gives [m]. *)
Lemma rnd_within (A B m : Z) :
  0 < B -> (2 * m - 1) * B < 2 * A < (2 * m + 1) * B -> rnd A B = m.
Proof.
  intros HB [H1 H2]. unfold rnd, classify.
  pose proof (Z.div_mod A B ltac:(lia)) as E.
  pose proof (Z.mod_pos_bound A B HB) as Hr.
  set (q := A / B) in *. set (r := A mod B) in *.
  assert (Hq : q = m \/ q = m - 1) by nia.
  destruct Hq as [-> | ->].
  - destruct (Z.eqb_spec r 0); [reflexivity|].
    assert (C : (2 * r ?= B) = Lt) by (apply Z.compare_lt_iff; nia).
    rewrite C. reflexivity.
  - destruct (Z.eqb_spec r 0); [nia|].
    assert (C : (2 * r ?= B) = Gt) by (apply Z.compare_gt_iff; nia).
    rewrite C. simpl. lia.
Qed.

Lemma finish_canonical (s : bool) (m : positive) (e : Z) :
  valid_binary prec emax (S754_finite s m e) = true ->
  finish s (Zpos m) e = S754_finite s m e.
Proof.
  intros V. destruct (valid_finite s m e V) as [He Hb].
  unfold finish.
  assert (S0 : shift_of (Zpos m) e = 0) by (unfold shift_of; rewrite fexp_val; lia).
  rewrite S0, Z.pow_0_r, Z.div_1_r, Z.add_0_r.
  apply Z.leb_le in Hb. rewrite Hb. reflexivity.
Qed.

(** The quotient [A / B] at exponent [ex], when it is within half a unit in
    the last place of a canonical float (a quarter, just below a power of
    two), rounds to that float. *)
Lemma finish_rnd_canonical (s : bool) (m : positive) (e : Z) (A B ex mx : Z) :
  valid_binary prec emax (S754_finite s m e) = true ->
  0 < B -> mx = A / B -> 1 <= mx -> ex <= fexp prec emax (Zdigits2 mx + ex) ->
  (2 * Zpos m - 1) * 2 ^ (e - Z.min ex e) * B < 2 * A * 2 ^ (ex - Z.min ex e)
    < (2 * Zpos m + 1) * 2 ^ (e - Z.min ex e) * B ->
  (Zpos m = 2 ^ 52 -> -1074 < e ->
   (4 * Zpos m - 1) * 2 ^ (e - Z.min ex e) * B < 4 * A * 2 ^ (ex - Z.min ex e)) ->
  finish s (rnd A (B * 2 ^ shift_of mx ex)) (ex + shift_of mx ex) = S754_finite s m e.
Proof.
  intros V HB Hmx H1 Hal [Ilo Ihi] Iq.
  destruct (valid_finite s m e V) as [He Hb].
  pose proof (Zdigits2_bounds (Zpos m) ltac:(lia)) as [Lm Um].
  pose proof (Zdigits2_pos (Zpos m) ltac:(lia)) as Dm.
  set (dm := Zdigits2 (Zpos m)) in *.
  assert (Hdm : dm <= 53) by lia.
  assert (Um53 : Zpos m < 2 ^ 53).
  { pose proof (pow2_le dm 53 ltac:(lia)). lia. }
  pose proof (Zdigits2_bounds mx ltac:(lia)) as [Lx Ux].
  pose proof (Zdigits2_pos mx ltac:(lia)) as Dx.
  set (d := Zdigits2 mx) in *.
  rewrite fexp_val in Hal.
  assert (HA : 0 <= A).
  { destruct (Z_lt_le_dec A 0) as [N|]; [|assumption].
    pose proof (Z.div_lt_upper_bound A B 0 HB ltac:(lia)). lia. }
  pose proof (Z.div_mod A B ltac:(lia)) as EA.
  pose proof (Z.mod_pos_bound A B HB) as RA.
  rewrite <- Hmx in EA.
  (* the exponent of the quotient is at most that of the float *)
  assert (Hex : ex <= e).
  { destruct (Z_le_gt_dec ex e) as [|G]; [assumption|exfalso].
    replace (Z.min ex e) with e in Ihi by lia. rewrite Z.sub_diag, Z.pow_0_r in Ihi.
    assert (D53 : 53 <= d) by lia.
    pose proof (pow2_le 52 (d - 1) ltac:(lia)) as P1.
    pose proof (pow2_le 1 (ex - e) ltac:(lia)) as P2. change (2 ^ 1) with 2 in P2.
    change (2 ^ 53) with (2 * 2 ^ 52) in Um53. nia. }
  replace (Z.min ex e) with ex in * by lia.
  rewrite Z.sub_diag, Z.pow_0_r, Z.mul_1_r in Ilo, Ihi.
  assert (Iq' : Zpos m = 2 ^ 52 -> -1074 < e -> (4 * Zpos m - 1) * 2 ^ (e - ex) * B < 4 * A).
  { intros a b. specialize (Iq a b). rewrite Z.sub_diag, Z.pow_0_r, Z.mul_1_r in Iq. exact Iq. }
  clear Iq.
  set (t := e - ex) in *.
  pose proof (pow2_pos t ltac:(lia)) as PT. set (T := 2 ^ t) in *.
  assert (S1 : shift_of mx ex = Z.max (d + ex - 53) (-1074) - ex).
  { unfold shift_of. rewrite fexp_val. fold d. lia. }
  (* the quotient is below 2^(dm + t) *)
  assert (Hup : d + ex <= dm + e).
  { assert (mx < 2 ^ (dm + t)).
    { rewrite Z.pow_add_r by lia. fold T. nia. }
    pose proof (Zdigits2_upper mx (dm + t) ltac:(lia) H ltac:(lia)). fold d in H0. lia. }
  destruct (Z_lt_le_dec (Z.max (d + ex - 53) (-1074)) e) as [Low|Same].
  - (* just below a power of two *)
    assert (N : -1074 < e) by lia.
    assert (D53 : dm = 53) by lia.
    assert (Dle : d <= 52 + t) by lia.
    assert (M52 : Zpos m = 2 ^ 52).
    { pose proof (pow2_le d (52 + t) ltac:(lia)) as P.
      rewrite Z.pow_add_r in P by lia. fold T in P.
      rewrite D53 in Lm. change (2 ^ (53 - 1)) with (2 ^ 52) in Lm.
      assert (2 * A < 2 * 2 ^ 52 * T * B) by nia.
      assert (2 * Zpos m - 1 < 2 * 2 ^ 52) by nia. lia. }
    specialize (Iq' M52 N).
    assert (t1 : 1 <= t) by lia.
    assert (ET : T = 2 * 2 ^ (t - 1)).
    { unfold T. replace t with (1 + (t - 1)) at 1 by lia.
      rewrite Z.pow_add_r by lia. reflexivity. }
    pose proof (pow2_pos (t - 1) ltac:(lia)) as PT'. set (T' := 2 ^ (t - 1)) in *.
    assert (Dge : 52 + t <= d).
    { apply Zdigits2_lower; [lia|].
      replace (52 + t - 1) with (51 + t) by lia. rewrite Z.pow_add_r by lia. fold T.
      change (2 ^ 52) with (2 * 2 ^ 51) in M52. rewrite M52 in Iq'.
      assert (4 * (mx + 1) * B > (4 * (2 * 2 ^ 51) - 1) * T * B) by nia.
      assert (4 * (mx + 1) > (8 * 2 ^ 51 - 1) * T) by nia.
      nia. }
    assert (Dd : d = 52 + t) by lia.
    assert (S1' : shift_of mx ex = t - 1) by lia.
    rewrite S1'. fold T'.
    assert (R : rnd A (B * T') = 2 ^ 53).
    { apply rnd_within; [nia|]. rewrite M52 in Iq'. rewrite ET in Iq'.
      assert (mx < 2 ^ (52 + t)) by (rewrite <- Dd; exact Ux).
      rewrite Z.pow_add_r in H by lia. fold T in H. rewrite ET in H.
      change (2 ^ 53) with (2 * 2 ^ 52). split; nia. }
    rewrite R. unfold finish.
    assert (S2 : shift_of (2 ^ 53) (ex + (t - 1)) = 1).
    { unfold shift_of. rewrite fexp_val. change (Zdigits2 (2 ^ 53)) with 54. lia. }
    rewrite S2. change (2 ^ 53 / 2 ^ 1) with (2 ^ 52). rewrite <- M52.
    replace (ex + (t - 1) + 1) with e by lia.
    apply Z.leb_le in Hb. rewrite Hb. reflexivity.
  - (* the same exponent *)
    assert (S1' : shift_of mx ex = t) by lia.
    rewrite S1'. fold T.
    assert (R : rnd A (B * T) = Zpos m) by (apply rnd_within; [nia|split; nia]).
    rewrite R. replace (ex + t) with e by lia.
    apply finish_canonical. exact V.
Qed.

(** A quotient below one at the bottom of the exponent range. *)
Lemma finish_rnd_tiny (s : bool) (m : positive) (e : Z) (A B ex : Z) :
  valid_binary prec emax (S754_finite s m e) = true ->
  0 < B -> 0 <= A -> A / B = 0 -> ex <= fexp prec emax (Zdigits2 0 + ex) ->
  (2 * Zpos m - 1) * 2 ^ (e - Z.min ex e) * B < 2 * A * 2 ^ (ex - Z.min ex e)
    < (2 * Zpos m + 1) * 2 ^ (e - Z.min ex e) * B ->
  finish s (rnd A (B * 2 ^ shift_of 0 ex)) (ex + shift_of 0 ex) = S754_finite s m e.
Proof.
  intros V HB HA Hq Hal [Ilo Ihi].
  destruct (valid_finite s m e V) as [He Hb].
  pose proof (Zdigits2_bounds (Zpos m) ltac:(lia)) as [Lm Um].
  pose proof (Zdigits2_pos (Zpos m) ltac:(lia)) as Dm.
  set (dm := Zdigits2 (Zpos m)) in *.
  rewrite fexp_val in Hal. simpl (Zdigits2 0) in Hal.
  assert (Hex : ex <= -1074) by lia.
  replace (Z.min ex e) with ex in * by lia.
  rewrite Z.sub_diag, Z.pow_0_r, Z.mul_1_r in Ilo, Ihi.
  assert (AB : A < B).
  { pose proof (Z.div_mod A B ltac:(lia)). pose proof (Z.mod_pos_bound A B HB).
    rewrite Hq in H. lia. }
  pose proof (pow2_pos (e - ex) ltac:(lia)) as PT.
  assert (E74 : e = -1074).
  { destruct (Z.eq_dec e (-1074)); [assumption|exfalso].
    assert (D53 : dm = 53) by lia. rewrite D53 in Lm.
    change (2 ^ (53 - 1)) with (2 ^ 52) in Lm. nia. }
  assert (S1 : shift_of 0 ex = e - ex).
  { unfold shift_of. rewrite fexp_val. simpl (Zdigits2 0). lia. }
  rewrite S1.
  assert (R : rnd A (B * 2 ^ (e - ex)) = Zpos m) by (apply rnd_within; [nia|split; nia]).
  rewrite R. replace (ex + (e - ex)) with e by lia.
  apply finish_canonical. exact V.
Qed.

Lemma new_location_classify (B r : Z) :
  0 < B -> 0 <= r < B -> new_location B r = classify r B.
Proof.
  intros HB Hr. unfold new_location, new_location_even, new_location_odd, classify.
  destruct (Z.even B) eqn:Ev; destruct (Z.eqb_spec r 0); try reflexivity.
  f_equal.
  assert (Od : Z.odd B = true) by (rewrite <- Z.negb_even, Ev; reflexivity).
  apply Z.odd_spec in Od. destruct Od as [j Hj].
  destruct (Z.compare_spec (2 * r + 1) B) as [E|L|G];
    symmetry; [apply Z.compare_lt_iff|apply Z.compare_lt_iff|apply Z.compare_gt_iff]; lia.
Qed.

Lemma near_scaled (m : positive) (e N Dn c : Z) :
  near m e N Dn -> 0 < Dn -> c <= e -> c <= 0 ->
  (2 * Zpos m - 1) * 2 ^ (e - c) * Dn < 2 * (N * 2 ^ (- c))
    < (2 * Zpos m + 1) * 2 ^ (e - c) * Dn /\
  (Zpos m = 2 ^ 52 -> -1074 < e -> (4 * Zpos m - 1) * 2 ^ (e - c) * Dn < 4 * (N * 2 ^ (- c))).
Proof.
  intros (H1 & H2 & H3) HD Hc Hc0.
  set (j := Z.min e 0 - c).
  assert (Hj : 0 <= j) by (unfold j; lia).
  pose proof (pow2_pos j Hj) as PJ.
  assert (E1 : 2 ^ (e - c) = 2 ^ Z.max e 0 * 2 ^ j).
  { rewrite <- Z.pow_add_r by lia. f_equal. unfold j. lia. }
  assert (E2 : 2 ^ (- c) = 2 ^ Z.max (- e) 0 * 2 ^ j).
  { rewrite <- Z.pow_add_r by lia. f_equal. unfold j. lia. }
  rewrite E1, E2.
  pose proof (pow2_pos (Z.max e 0) ltac:(lia)). pose proof (pow2_pos (Z.max (- e) 0) ltac:(lia)).
  set (pe := 2 ^ Z.max e 0) in *. set (pn := 2 ^ Z.max (- e) 0) in *. set (J := 2 ^ j) in *.
  split; [split; nia|]. intros a b. specialize (H3 a b). nia.
Qed.

(** An integer within half a unit in the last place of a canonical float
    converts to that float. *)
Lemma binary_round_near (s : bool) (m p : positive) (e : Z) :
  valid_binary prec emax (S754_finite s m e) = true ->
  near m e (Zpos p) 1 ->
  binary_round prec emax s p 0 = S754_finite s m e.
Proof.
  intros V Hn. unfold binary_round.
  pose proof (shl_align_spec p 0 (fexp prec emax (Zpos (digits2_pos p) + 0))) as (Hm & He & Hd).
  destruct (shl_align p 0 (fexp prec emax (Zpos (digits2_pos p) + 0))) as [mz ez].
  cbn [fst snd] in *.
  rewrite (binary_round_aux_rounds s (Zpos mz) ez loc_Exact (Zpos mz) 1);
    [|lia|lia|rewrite Z.div_1_r; reflexivity|rewrite Z.mod_1_r; reflexivity].
  assert (Hez : ez <= 0) by lia.
  assert (Hal : ez <= fexp prec emax (Zdigits2 (Zpos mz) + ez)).
  { rewrite Hd. change (Zdigits2 (Zpos p)) with (Zpos (digits2_pos p)). lia. }
  assert (Hez' : ez <= e).
  { destruct (valid_finite s m e V) as [Hv Hb]. rewrite fexp_val in He.
    destruct Hn as (_ & H2 & _). cbv zeta in H2.
    destruct (Z_le_gt_dec ez e); [assumption|exfalso].
    assert (E0 : e < 0) by lia.
    replace (Z.max e 0) with 0 in H2 by lia. replace (Z.max (- e) 0) with (- e) in H2 by lia.
    rewrite Z.pow_0_r in H2.
    pose proof (Zdigits2_bounds (Zpos m) ltac:(lia)) as [_ Um].
    pose proof (Zdigits2_pos (Zpos m) ltac:(lia)) as Dm.
    pose proof (pow2_le (Zdigits2 (Zpos m)) 53 ltac:(lia)) as P53.
    pose proof (Zdigits2_bounds (Zpos p) ltac:(lia)) as [Lp _].
    pose proof (Zdigits2_pos (Zpos p) ltac:(lia)) as Dp.
    change (Zpos (digits2_pos p)) with (Zdigits2 (Zpos p)) in *.
    set (dp := Zdigits2 (Zpos p)) in *.
    assert (B : Zpos p * 2 ^ (- e) < 2 ^ 53) by nia.
    assert (B' : 2 ^ (dp - 1) * 2 ^ (- e) < 2 ^ 53).
    { pose proof (pow2_pos (- e) ltac:(lia)). nia. }
    rewrite <- Z.pow_add_r in B' by lia.
    apply Z.pow_lt_mono_r_iff in B'; lia. }
  replace (Z.min 0 (fexp prec emax (Zpos (digits2_pos p) + 0))) with ez in Hm by lia.
  destruct (near_scaled m e (Zpos p) 1 ez Hn ltac:(lia) Hez' Hez) as [I Q].
  replace (0 - ez) with (- ez) in Hm by lia. rewrite <- Hm in I, Q.
  apply finish_rnd_canonical; try assumption; try lia.
  - rewrite Z.div_1_r. reflexivity.
  - replace (Z.min ez e) with ez by lia. rewrite Z.sub_diag, Z.pow_0_r. lia.
  - intros a b. specialize (Q a b). replace (Z.min ez e) with ez by lia.
    rewrite Z.sub_diag, Z.pow_0_r. lia.
Qed.

Lemma div_core_spec (m1 m2 : Z) :
  0 < m1 -> 0 < m2 ->
  SFdiv_core_binary prec emax m1 0 m2 0 =
  let e' := Z.min (fexp prec emax (Zdigits2 m1 + 0 - (Zdigits2 m2 + 0))) (0 - 0) in
  ((m1 * 2 ^ (- e')) / m2, e', classify ((m1 * 2 ^ (- e')) mod m2) m2).
Proof.
  intros H1 H2. unfold SFdiv_core_binary. cbv zeta.
  set (e' := Z.min _ (0 - 0)).
  assert (He : e' <= 0) by (unfold e'; lia).
  set (m' := match 0 - 0 - e' with Z0 => m1 | Zpos _ => Z.shiftl m1 (0 - 0 - e') | Zneg _ => 0 end).
  assert (Em : m' = m1 * 2 ^ (- e')).
  { unfold m'. replace (0 - 0 - e') with (- e') by lia.
    destruct (- e') as [|j|j] eqn:Ej; [simpl; lia| |lia].
    apply Z.shiftl_mul_pow2. lia. }
  rewrite <- Em.
  assert (Pm : 0 <= m') by (rewrite Em; pose proof (pow2_pos (- e') ltac:(lia)); nia).
  pose proof (Z.mod_pos_bound m' m2 H2) as Hr.
  unfold Z.div, Z.modulo in *. destruct (Z.div_eucl m' m2) as [q r].
  rewrite new_location_classify by assumption. reflexivity.
Qed.

(** A fraction within half a unit in the last place of a canonical float
    divides to that float. *)
Lemma fdiv_near (s : bool) (m p q : positive) (e : Z) :
  valid_binary prec emax (S754_finite s m e) = true ->
  near m e (Zpos p) (Zpos q) ->
  fdiv (S754_finite s p 0) (S754_finite false q 0) = S754_finite s m e.
Proof.
  intros V Hn. unfold fdiv, SFdiv.
  rewrite (div_core_spec (Zpos p) (Zpos q)) by lia. cbv zeta.
  set (X := Zdigits2 (Zpos p) + 0 - (Zdigits2 (Zpos q) + 0)).
  set (ex := Z.min (fexp prec emax X) (0 - 0)).
  replace (xorb s false) with s by (destruct s; reflexivity).
  assert (Hex : ex <= 0) by (unfold ex; lia).
  pose proof (pow2_pos (- ex) ltac:(lia)) as PE.
  set (A := Zpos p * 2 ^ (- ex)) in *.
  assert (HA : 0 < A) by (unfold A; nia).
  rewrite (binary_round_aux_rounds s (A / Zpos q) ex _ A (Zpos q));
    [|lia|lia|reflexivity|reflexivity].
  pose proof (Z.div_pos A (Zpos q) ltac:(lia) ltac:(lia)) as Hq.
  assert (Hal : ex <= fexp prec emax (Zdigits2 (A / Zpos q) + ex)).
  { assert (FX : fexp prec emax X = Z.max (X - 53) (-1074)) by apply fexp_val.
    destruct (Z_le_gt_dec (X - 53) (-1074)) as [Lo|Hi].
    - rewrite fexp_val. unfold ex. lia.
    - assert (DA : Zdigits2 A = Zdigits2 (Zpos p) + - ex)
        by (unfold A; apply Zdigits2_mul_pow2; lia).
      assert (Hd : Zdigits2 (Zpos q) < Zdigits2 A) by (rewrite DA; unfold ex, X in *; lia).
      destruct (Zdigits2_div_lower A (Zpos q) HA ltac:(lia) Hd) as [Hl _].
      rewrite !fexp_val. unfold ex. rewrite FX. unfold X in *. lia. }
  destruct (valid_finite s m e V) as [Hv Hb].
  set (c := Z.min ex e).
  destruct (near_scaled m e (Zpos p) (Zpos q) c Hn ltac:(lia) ltac:(unfold c; lia)
              ltac:(unfold c; lia)) as [I Q].
  assert (EA : A * 2 ^ (ex - c) = Zpos p * 2 ^ (- c)).
  { unfold A. rewrite <- Z.mul_assoc, <- Z.pow_add_r by (unfold c; lia).
    do 2 f_equal. lia. }
  destruct (Z.eq_dec (A / Zpos q) 0) as [Z0|NZ].
  - rewrite Z0 in *. apply finish_rnd_tiny; try assumption; try lia.
    fold c. replace (2 * A * 2 ^ (ex - c)) with (2 * (Zpos p * 2 ^ (- c))) by (rewrite <- EA; ring). lia.
  - apply finish_rnd_canonical; try assumption; try lia; try reflexivity.
    + fold c. replace (2 * A * 2 ^ (ex - c)) with (2 * (Zpos p * 2 ^ (- c))) by (rewrite <- EA; ring). lia.
    + fold c. intros a b. specialize (Q a b).
      replace (4 * A * 2 ^ (ex - c)) with (4 * (Zpos p * 2 ^ (- c))) by (rewrite <- EA; ring). lia.
Qed.

(** The decimal reader returns a canonical float whenever the decimal lies
    strictly inside that float's rounding interval. *)
Lemma float_of_decimal_near (s : bool) (m : positive) (e D k : Z) :
  valid_binary prec emax (S754_finite s m e) = true ->
  0 < D ->
  near m e (D * 10 ^ Z.max k 0) (10 ^ Z.max (- k) 0) ->
  float_of_decimal s D k = S754_finite s m e.
Proof.
  intros V HD Hn. unfold float_of_decimal.
  destruct D as [|p|p]; try lia.
  destruct (Z.leb_spec 0 k) as [K|K].
  - replace (Z.max k 0) with k in Hn by lia. replace (Z.max (- k) 0) with 0 in Hn by lia.
    rewrite Z.pow_0_r in Hn.
    assert (P : 0 < Zpos p * 10 ^ k) by (pose proof (Z.pow_pos_nonneg 10 k); nia).
    destruct (Zpos p * 10 ^ k) as [|v|v] eqn:Ev; try lia.
    unfold binary_normalize. destruct s; cbn [cond_Zopp Z.opp];
      apply binary_round_near; assumption.
  - replace (Z.max k 0) with 0 in Hn by lia. replace (Z.max (- k) 0) with (- k) in Hn by lia.
    rewrite Z.pow_0_r, Z.mul_1_r in Hn.
    apply fdiv_near; [assumption|].
    rewrite Z2Pos.id by (apply Z.pow_pos_nonneg; lia). exact Hn.
Qed.

End Exact.

(** ** Seventeen significant digits *)

Module Shortest.
Import Rounding Order Exact.

Lemma pow10_pos (k : Z) : 0 <= k -> 0 < 10 ^ k.
Proof. intros. apply Z.pow_pos_nonneg; lia. Qed.

Lemma ratio_spec (m : positive) (e : Z) :
  ratio m e = (Zpos m * 2 ^ Z.max e 0, 2 ^ Z.max (- e) 0).
Proof.
  unfold ratio. destruct (Z.leb_spec 0 e).
  - replace (Z.max e 0) with e by lia. replace (Z.max (- e) 0) with 0 by lia. reflexivity.
  - replace (Z.max e 0) with 0 by lia. replace (Z.max (- e) 0) with (- e) by lia.
    rewrite Z.pow_0_r, Z.mul_1_r. reflexivity.
Qed.

Lemma scaled_floor_spec (n d k : Z) :
  scaled_floor n d k = (n * 10 ^ Z.max (- k) 0) / (d * 10 ^ Z.max k 0).
Proof.
  unfold scaled_floor. destruct (Z.leb_spec 0 k).
  - replace (Z.max k 0) with k by lia. replace (Z.max (- k) 0) with 0 by lia.
    rewrite Z.pow_0_r, Z.mul_1_r. reflexivity.
  - replace (Z.max k 0) with 0 by lia. replace (Z.max (- k) 0) with (- k) by lia.
    rewrite Z.pow_0_r, Z.mul_1_r. reflexivity.
Qed.

Lemma cmp_mid_spec (n d lo k : Z) :
  cmp_mid n d lo k =
  Z.compare (2 * (n * 10 ^ Z.max (- k) 0)) ((2 * lo + 1) * (d * 10 ^ Z.max k 0)).
Proof.
  unfold cmp_mid. destruct (Z.leb_spec 0 k).
  - replace (Z.max k 0) with k by lia. replace (Z.max (- k) 0) with 0 by lia.
    rewrite Z.pow_0_r, Z.mul_1_r. f_equal. ring.
  - replace (Z.max k 0) with 0 by lia. replace (Z.max (- k) 0) with (- k) by lia.
    rewrite Z.pow_0_r, Z.mul_1_r. f_equal. ring.
Qed.

(** The nearest decimal is within half a unit of its last digit. *)
Lemma nearest_spec (n d k : Z) :
  0 <= n -> 0 < d ->
  let X := n * 10 ^ Z.max (- k) 0 in
  let Y := d * 10 ^ Z.max k 0 in
  let D := nearest n d k in
  (D = scaled_floor n d k \/ D = scaled_floor n d k + 1) /\
  2 * X - Y <= 2 * (D * Y) <= 2 * X + Y.
Proof.
  intros Hn Hd X Y D. subst D. unfold nearest.
  rewrite cmp_mid_spec, scaled_floor_spec. fold X Y.
  pose proof (pow10_pos (Z.max k 0) ltac:(lia)).
  assert (HY : 0 < Y) by (unfold Y; nia).
  pose proof (Z.div_mod X Y ltac:(lia)) as E.
  pose proof (Z.mod_pos_bound X Y HY) as B.
  set (lo := X / Y) in *.
  destruct (Z.compare_spec (2 * X) ((2 * lo + 1) * Y)) as [C|C|C];
    [destruct (Z.even lo)| |]; (split; [auto|nia]).
Qed.

Lemma pow10_le_scaled (E n d : Z) :
  0 <= n -> 0 < d -> pow10_le E n d = true ->
  10 ^ 16 * (d * 10 ^ Z.max (E - 16) 0) <= n * 10 ^ Z.max (- (E - 16)) 0.
Proof.
  intros Hn Hd H. unfold pow10_le in H.
  destruct (Z.leb_spec 0 E) as [P|P].
  - apply Z.leb_le in H. destruct (Z_le_gt_dec 16 E) as [K|K].
    + replace (Z.max (E - 16) 0) with (E - 16) by lia.
      replace (Z.max (- (E - 16)) 0) with 0 by lia. rewrite Z.pow_0_r, Z.mul_1_r.
      replace E with (16 + (E - 16)) in H at 1 by lia.
      rewrite Z.pow_add_r in H by lia. lia.
    + replace (Z.max (E - 16) 0) with 0 by lia.
      replace (Z.max (- (E - 16)) 0) with (16 - E) by lia. rewrite Z.pow_0_r, Z.mul_1_r.
      assert (S : 10 ^ 16 = 10 ^ E * 10 ^ (16 - E)).
      { rewrite <- Z.pow_add_r by lia. f_equal. lia. }
      rewrite S. pose proof (pow10_pos (16 - E) ltac:(lia)). nia.
  - apply Z.leb_le in H.
    replace (Z.max (E - 16) 0) with 0 by lia.
    replace (Z.max (- (E - 16)) 0) with (- E + 16) by lia. rewrite Z.pow_0_r, Z.mul_1_r.
    rewrite Z.pow_add_r by lia. nia.
Qed.

(** The search ends on a power of ten that is at most the value. *)
Lemma floor_log10_sound (fuel : nat) (hi n d : Z) :
  pow10_le (floor_log10 fuel hi n d) n d = true \/
  floor_log10 fuel hi n d = hi - Z.of_nat fuel.
Proof.
  revert hi. induction fuel as [|f IH]; intros hi.
  - right. simpl. lia.
  - cbn [floor_log10]. destruct (pow10_le hi n d) eqn:P.
    + left. exact P.
    + destruct (IH (hi - 1)) as [H|H]; [left; exact H|right]. rewrite H. lia.
Qed.

Lemma floor_log10_le (s : bool) (m : positive) (e : Z) :
  valid_binary prec emax (S754_finite s m e) = true ->
  let (n, d) := ratio m e in
  pow10_le (floor_log10 700 340 n d) n d = true.
Proof.
  intros V. rewrite ratio_spec.
  destruct (floor_log10_sound 700 340 (Zpos m * 2 ^ Z.max e 0) (2 ^ Z.max (- e) 0)) as [H|H];
    [exact H|].
  rewrite H. change (340 - Z.of_nat 700) with (-360).
  unfold pow10_le. change (0 <=? -360) with false. cbv iota. apply Z.leb_le.
  destruct (valid_finite s m e V) as [He _].
  pose proof (pow2_le (Z.max (- e) 0) 1074 ltac:(lia)) as P.
  pose proof (pow2_pos (Z.max e 0) ltac:(lia)).
  assert (Q : 2 ^ 1074 <= 10 ^ (- -360)) by (apply Z.leb_le; vm_compute; reflexivity).
  nia.
Qed.

(** Seventeen significant digits, correctly rounded, lie strictly inside the
    rounding interval of the float they were taken from. *)
Lemma nearest_near (s : bool) (m : positive) (e E : Z) :
  valid_binary prec emax (S754_finite s m e) = true ->
  let n := fst (ratio m e) in
  let d := snd (ratio m e) in
  pow10_le E n d = true ->
  let k := E - 16 in
  let D := nearest n d k in
  0 < D /\ near m e (D * 10 ^ Z.max k 0) (10 ^ Z.max (- k) 0).
Proof.
  intros V n d P k D. subst D n d. rewrite ratio_spec in *. cbn [fst snd] in *.
  set (D := nearest _ _ k).
  destruct (valid_finite s m e V) as [He Hb].
  pose proof (pow2_pos (Z.max e 0) ltac:(lia)) as Ppe.
  pose proof (pow2_pos (Z.max (- e) 0) ltac:(lia)) as Ppn.
  set (pe := 2 ^ Z.max e 0) in *. set (pn := 2 ^ Z.max (- e) 0) in *.
  pose proof (pow10_pos (Z.max k 0) ltac:(lia)) as Pp.
  pose proof (pow10_pos (Z.max (- k) 0) ltac:(lia)) as Pq.
  pose proof (pow10_le_scaled E (Zpos m * pe) pn ltac:(nia) Ppn P) as S.
  destruct (nearest_spec (Zpos m * pe) pn k ltac:(nia) Ppn) as [C B].
  fold k in S. fold D in C, B. cbv zeta in B.
  rewrite scaled_floor_spec in C.
  set (p10 := 10 ^ Z.max k 0) in *. set (q10 := 10 ^ Z.max (- k) 0) in *.
  set (X := Zpos m * pe * q10) in *. set (Y := pn * p10) in *.
  assert (HY : 0 < Y) by (unfold Y; nia).
  assert (Hm : Zpos m < 2 ^ 53).
  { pose proof (Zdigits2_bounds (Zpos m) ltac:(lia)) as [_ Um].
    pose proof (Zdigits2_pos (Zpos m) ltac:(lia)).
    pose proof (pow2_le (Zdigits2 (Zpos m)) 53 ltac:(lia)). lia. }
  set (W := pe * q10).
  assert (HW : 0 < W) by (unfold W; nia).
  assert (EX : X = Zpos m * W) by (unfold X, W; ring).
  assert (T53 : 2 ^ 53 < 10 ^ 16) by (apply Z.ltb_lt; vm_compute; reflexivity).
  assert (YW : Y < W) by nia.
  assert (Lo : 10 ^ 16 <= X / Y) by (apply Z.div_le_lower_bound; lia).
  split; [assert (0 < 10 ^ 16) by (apply pow10_pos; lia); lia|].
  unfold near. cbv zeta. fold pe pn p10 q10.
  replace ((2 * Zpos m - 1) * pe * q10) with (2 * X - W) by (unfold X, W; ring).
  replace ((2 * Zpos m + 1) * pe * q10) with (2 * X + W) by (unfold X, W; ring).
  replace ((4 * Zpos m - 1) * pe * q10) with (4 * X - W) by (unfold X, W; ring).
  replace (2 * (D * p10) * pn) with (2 * (D * Y)) by (unfold Y; ring).
  replace (4 * (D * p10) * pn) with (4 * (D * Y)) by (unfold Y; ring).
  split; [lia|]. split; [lia|]. intros M _.
  rewrite M in EX.
  assert (T : 2 * 2 ^ 52 = 2 ^ 53) by reflexivity.
  assert (2 * Y < W) by nia. lia.
Qed.

End Shortest.

(** ** Digit strings *)

Module Digits.

Lemma append_nil (s : string) : (s ++ EmptyString)%string = s.
Proof. induction s as [|c s IH]; [reflexivity|]. cbn [append]. rewrite IH. reflexivity. Qed.

Lemma length_app (a b : string) :
  String.length (a ++ b) = (String.length a + String.length b)%nat.
Proof. induction a as [|c a IH]; [reflexivity|]. cbn [append String.length]. rewrite IH. reflexivity. Qed.

Lemma all_digits_app (a b : string) : all_digits (a ++ b) = all_digits a && all_digits b.
Proof.
  induction a as [|c a IH]; [reflexivity|]. cbn [append all_digits].
  destruct (digit_val c); [exact IH|reflexivity].
Qed.

Lemma vals_app (a b : string) : vals (a ++ b) = (vals a ++ vals b)%list.
Proof. induction a as [|c a IH]; [reflexivity|]. cbn [append vals]. rewrite IH. reflexivity. Qed.

Lemma vals_length (s : string) : List.length (vals s) = String.length s.
Proof. induction s as [|c s IH]; [reflexivity|]. cbn [vals List.length String.length]. rewrite IH. reflexivity. Qed.

Lemma digits_tail_app (ds rest : string) :
  all_digits ds = true -> stops rest = true -> digits_tail (ds ++ rest) = (vals ds, rest).
Proof.
  intros H S. induction ds as [|c ds IH].
  - cbn [append vals]. destruct rest as [|c r]; [reflexivity|].
    cbn [stops] in S. cbn [digits_tail]. destruct (digit_val c); [discriminate|].
    destruct (c =? "_")%char; [discriminate|reflexivity].
  - cbn [append vals all_digits digits_tail] in *. unfold digit_of.
    destruct (digit_val c); [|discriminate]. rewrite (IH H). reflexivity.
Qed.

Lemma digitpart_app (ds rest : string) :
  all_digits ds = true -> ds <> EmptyString -> stops rest = true ->
  digitpart (ds ++ rest) = Some (vals ds, rest).
Proof.
  intros H N S. destruct ds as [|c ds]; [contradiction|].
  cbn [append vals all_digits digitpart] in *. unfold digit_of.
  destruct (digit_val c); [|discriminate]. rewrite (digits_tail_app ds rest H S). reflexivity.
Qed.

Lemma digitpart_all (ds : string) :
  all_digits ds = true -> ds <> EmptyString -> digitpart ds = Some (vals ds, EmptyString).
Proof.
  intros H N. rewrite <- (append_nil ds) at 1. apply digitpart_app; auto.
Qed.

(** *** Values *)

Lemma Zacc_app (acc : Z) (a b : list Z) : Zacc acc (a ++ b) = Zacc (Zacc acc a) b.
Proof. unfold Zacc. apply fold_left_app. Qed.

Lemma Zacc_shift (acc : Z) (b : list Z) :
  Zacc acc b = acc * 10 ^ Z.of_nat (List.length b) + Zacc 0 b.
Proof.
  revert acc. induction b as [|d b IH]; intros acc.
  - cbn. lia.
  - change (Zacc acc (d :: b)) with (Zacc (10 * acc + d) b).
    change (Zacc 0 (d :: b)) with (Zacc (10 * 0 + d) b).
    rewrite (IH (10 * acc + d)), (IH (10 * 0 + d)).
    cbn [List.length]. rewrite Nat2Z.inj_succ, Z.pow_succ_r by lia. ring.
Qed.

Lemma Z_of_digits_app (a b : list Z) :
  Z_of_digits (a ++ b) = Z_of_digits a * 10 ^ Z.of_nat (List.length b) + Z_of_digits b.
Proof.
  change (Zacc 0 (a ++ b) = Zacc 0 a * 10 ^ Z.of_nat (List.length b) + Zacc 0 b).
  rewrite Zacc_app. apply Zacc_shift.
Qed.

Lemma all_digits_zeros (n : nat) : all_digits (zeros n) = true.
Proof. induction n as [|n IH]; [reflexivity|exact IH]. Qed.

Lemma length_zeros (n : nat) : String.length (zeros n) = n.
Proof. induction n as [|n IH]; [reflexivity|]. cbn [zeros String.length]. rewrite IH. reflexivity. Qed.

Lemma Z_of_digits_zeros (n : nat) : Z_of_digits (vals (zeros n)) = 0.
Proof. induction n as [|n IH]; [reflexivity|exact IH]. Qed.

Lemma Z_of_digits_zeros_l (n : nat) (l : list Z) :
  Z_of_digits (vals (zeros n) ++ l) = Z_of_digits l.
Proof. rewrite Z_of_digits_app, Z_of_digits_zeros. lia. Qed.

Lemma Z_of_digits_zeros_r (n : nat) (l : list Z) :
  Z_of_digits (l ++ vals (zeros n)) = Z_of_digits l * 10 ^ Z.of_nat n.
Proof. rewrite Z_of_digits_app, Z_of_digits_zeros, vals_length, length_zeros. lia. Qed.

(** *** The digits of an integer *)

Lemma all_digits_uint (u : Decimal.uint) : all_digits (NilEmpty.string_of_uint u) = true.
Proof. induction u; [reflexivity|exact IHu..]. Qed.

Lemma Zacc_uint (u : Decimal.uint) (acc : positive) :
  Zacc (Zpos acc) (vals (NilEmpty.string_of_uint u)) = Zpos (Pos.of_uint_acc u acc).
Proof.
  revert acc. induction u as [|u IH|u IH|u IH|u IH|u IH|u IH|u IH|u IH|u IH|u IH]; intros acc;
    [reflexivity|..];
    cbn [NilEmpty.string_of_uint vals Pos.of_uint_acc];
    match goal with
    | |- Zacc ?a (digit_of ?c :: ?l) = _ =>
        let v := eval vm_compute in (digit_of c) in
        change (Zacc a (digit_of c :: l)) with (Zacc (10 * a + v) l)
    end;
    rewrite <- IH; f_equal; lia.
Qed.

Lemma Zacc_uint_0 (u : Decimal.uint) :
  Zacc 0 (vals (NilEmpty.string_of_uint u)) = Z.of_N (Pos.of_uint u).
Proof.
  induction u as [|u IH|u IH|u IH|u IH|u IH|u IH|u IH|u IH|u IH|u IH];
    [reflexivity|exact IH|..];
    cbn [NilEmpty.string_of_uint vals Pos.of_uint];
    match goal with
    | |- Zacc ?a (digit_of ?c :: ?l) = _ =>
        let v := eval vm_compute in (10 * a + digit_of c) in
        change (Zacc a (digit_of c :: l)) with (Zacc v l)
    end;
    rewrite Zacc_uint; reflexivity.
Qed.

Lemma all_digits_decimal_digits (n : Z) : all_digits (decimal_digits n) = true.
Proof. apply all_digits_uint. Qed.

Lemma Z_of_digits_decimal_digits (n : Z) :
  0 <= n -> Z_of_digits (vals (decimal_digits n)) = n.
Proof.
  intros H. unfold decimal_digits.
  change (Zacc 0 (vals (NilEmpty.string_of_uint (N.to_uint (Z.to_N n)))) = n).
  rewrite Zacc_uint_0. change (Pos.of_uint (N.to_uint (Z.to_N n))) with (N.of_uint (N.to_uint (Z.to_N n))).
  rewrite DecimalN.Unsigned.of_to. lia.
Qed.

Lemma decimal_digits_nonempty (n : Z) : 0 < n -> decimal_digits n <> EmptyString.
Proof.
  intros H E. pose proof (Z_of_digits_decimal_digits n ltac:(lia)) as V.
  rewrite E in V. cbn in V. lia.
Qed.

(** *** Trailing zeros *)

Lemma drop_trailing_zeros_spec (ds : string) :
  exists j : nat, ds = (drop_trailing_zeros ds ++ zeros j)%string.
Proof.
  induction ds as [|c r [j IH]]; [exists O; reflexivity|].
  cbn [drop_trailing_zeros]. destruct (drop_trailing_zeros r) as [|c' r'] eqn:E.
  - cbn [append] in IH. destruct (Ascii.eqb_spec c "0"%char) as [C|C].
    + exists (S j). subst c. rewrite IH. reflexivity.
    + exists j. rewrite IH. reflexivity.
  - exists j. cbn [append]. rewrite IH at 1. reflexivity.
Qed.

(** *** Prefixes and suffixes *)

Lemma take_drop (n : nat) (s : string) : (take n s ++ drop n s)%string = s.
Proof.
  revert s. induction n as [|n IH]; intros s; [reflexivity|].
  destruct s as [|c r]; [reflexivity|]. cbn [take drop append]. rewrite IH. reflexivity.
Qed.

Lemma length_take (n : nat) (s : string) :
  (n <= String.length s)%nat -> String.length (take n s) = n.
Proof.
  revert s. induction n as [|n IH]; intros s H; [reflexivity|].
  destruct s as [|c r]; cbn [String.length] in *; [lia|].
  cbn [take String.length]. rewrite IH by lia. reflexivity.
Qed.

End Digits.

(** ** Reading what [repr] prints *)

Module Parse.
Import Digits.

(** A text that starts with a digit has no sign and names no special value. *)
Lemma digit_head (c : ascii) (r : string) :
  digit_val c <> None ->
  sign_prefix (String c r) = (false, String c r) /\
  (lower_char c =? "i")%char = false /\ (lower_char c =? "n")%char = false /\
  is_float_space c = false.
Proof.
  intros H.
  destruct c as [[] [] [] [] [] [] [] []];
    try (exfalso; apply H; vm_compute; reflexivity);
    repeat split; vm_compute; reflexivity.
Qed.

Lemma float_space_is_space (c : ascii) : is_float_space c = true -> is_space c = true.
Proof.
  destruct c as [[] [] [] [] [] [] [] []]; vm_compute; intros H; (exact H || reflexivity).
Qed.

Lemma rstrip_float_space (s : string) :
  no_space s = true -> rstrip_with is_float_space s = s.
Proof.
  induction s as [|c s IH]; [reflexivity|]. cbn [no_space rstrip_with]. intros H.
  apply andb_true_iff in H. destruct H as [Hc Hs]. rewrite (IH Hs).
  destruct s; [|reflexivity].
  destruct (is_float_space c) eqn:F; [|reflexivity].
  apply float_space_is_space in F. rewrite F in Hc. discriminate.
Qed.

(** Reading a text made of a number and an exponent. *)
Lemma float_of_string_number (neg : bool) (c : ascii) (r : string)
    (ip fp : list Z) (r1 : string) (ex : Z) :
  digit_val c <> None -> no_space (String c r) = true ->
  number (String c r) = Some (ip, fp, r1) ->
  exponent r1 = Some (ex, EmptyString) ->
  float_of_string (if neg then String "-"%char (String c r) else String c r) =
  Ok (float_of_decimal neg (Z_of_digits (ip ++ fp)%list) (ex - Z.of_nat (List.length fp))).
Proof.
  intros Hd Hs Hn He.
  destruct (digit_head c r Hd) as (S1 & Li & Ln & Fs).
  unfold float_of_string.
  assert (St : rstrip_with is_float_space
                 (lstrip_with is_float_space (if neg then String "-"%char (String c r) else String c r))
               = if neg then String "-"%char (String c r) else String c r).
  { destruct neg.
    - change (lstrip_with is_float_space (String "-"%char (String c r)))
        with (String "-"%char (String c r)).
      apply rstrip_float_space. exact Hs.
    - cbn [lstrip_with]. rewrite Fs. apply rstrip_float_space. exact Hs. }
  rewrite St.
  assert (Sp : sign_prefix (if neg then String "-"%char (String c r) else String c r)
               = (neg, String c r)).
  { destruct neg; [reflexivity|exact S1]. }
  rewrite Sp. cbv zeta. cbn [lower].
  assert (E1 : (String (lower_char c) (lower r) =? "inf")%string = false).
  { cbn [String.eqb]. rewrite Li. reflexivity. }
  assert (E2 : (String (lower_char c) (lower r) =? "infinity")%string = false).
  { cbn [String.eqb]. rewrite Li. reflexivity. }
  assert (E3 : (String (lower_char c) (lower r) =? "nan")%string = false).
  { cbn [String.eqb]. rewrite Ln. reflexivity. }
  rewrite E1, E2, E3. cbn [orb]. rewrite Hn, He. reflexivity.
Qed.

Lemma number_point (I F rest : string) :
  all_digits I = true -> I <> EmptyString ->
  all_digits F = true -> F <> EmptyString -> stops rest = true ->
  number (I ++ String "."%char (F ++ rest)) = Some (vals I, vals F, rest).
Proof.
  intros HI NI HF NF S. unfold number.
  rewrite (digitpart_app I (String "."%char (F ++ rest)) HI NI eq_refl). cbv beta iota.
  rewrite (digitpart_app F rest HF NF S). reflexivity.
Qed.

Lemma number_point_end (I F : string) :
  all_digits I = true -> I <> EmptyString ->
  all_digits F = true -> F <> EmptyString ->
  number (I ++ String "."%char F) = Some (vals I, vals F, EmptyString).
Proof.
  intros HI NI HF NF. rewrite <- (append_nil F) at 1.
  apply number_point; auto.
Qed.

Lemma number_exp (I t : string) :
  all_digits I = true -> I <> EmptyString ->
  number (I ++ String "e"%char t) = Some (vals I, [], String "e"%char t).
Proof.
  intros HI NI. unfold number.
  rewrite (digitpart_app I (String "e"%char t) HI NI eq_refl). reflexivity.
Qed.

Lemma exponent_text (ex : Z) :
  ex <> 0 ->
  exponent (String "e"%char
              (String (if ex <? 0 then "-"%char else "+"%char)
                 (if Z.abs ex <? 10 then String "0"%char (decimal_digits (Z.abs ex))
                  else decimal_digits (Z.abs ex)))) = Some (ex, EmptyString).
Proof.
  intros N.
  set (exs2 := if Z.abs ex <? 10 then _ else _).
  assert (A : all_digits exs2 = true).
  { unfold exs2. destruct (Z.abs ex <? 10); [|apply all_digits_decimal_digits].
    change (all_digits (decimal_digits (Z.abs ex)) = true). apply all_digits_decimal_digits. }
  assert (NE : exs2 <> EmptyString).
  { unfold exs2. destruct (Z.abs ex <? 10); [discriminate|].
    apply decimal_digits_nonempty. lia. }
  assert (V : Z_of_digits (vals exs2) = Z.abs ex).
  { unfold exs2. destruct (Z.abs ex <? 10).
    - change (Z_of_digits (vals (decimal_digits (Z.abs ex))) = Z.abs ex).
      apply Z_of_digits_decimal_digits. lia.
    - apply Z_of_digits_decimal_digits. lia. }
  unfold exponent. change (("e" =? "e")%char || ("e" =? "E")%char) with true. cbv iota.
  destruct (Z.ltb_spec ex 0) as [L|L].
  - cbv iota. change (sign_prefix (String "-"%char exs2)) with (true, exs2). cbv beta iota.
    rewrite (digitpart_all exs2 A NE), V. cbn [cond_Zopp]. f_equal. f_equal. lia.
  - cbv iota. change (sign_prefix (String "+"%char exs2)) with (false, exs2). cbv beta iota.
    rewrite (digitpart_all exs2 A NE), V. cbn [cond_Zopp]. f_equal. f_equal. lia.
Qed.

Lemma all_digits_head (c : ascii) (r : string) :
  all_digits (String c r) = true -> digit_val c <> None /\ all_digits r = true.
Proof. cbn [all_digits]. destruct (digit_val c); [split; [discriminate|assumption]|discriminate]. Qed.

Lemma all_digits_take (n : nat) (s : string) : all_digits s = true -> all_digits (take n s) = true.
Proof.
  intros H. rewrite <- (take_drop n s), all_digits_app in H.
  apply andb_true_iff in H. tauto.
Qed.

Lemma all_digits_drop (n : nat) (s : string) : all_digits s = true -> all_digits (drop n s) = true.
Proof.
  intros H. rewrite <- (take_drop n s), all_digits_app in H.
  apply andb_true_iff in H. tauto.
Qed.

(** What [float] finds in each layout of [format_repr]: the digits [ds],
    possibly followed by zeros, and an exponent that puts the point after
    the first [decpt] of them. *)
Lemma format_repr_parse (ds : string) (decpt : Z) :
  all_digits ds = true -> ds <> EmptyString ->
  exists c r ip fp r1 ex b,
    format_repr ds decpt = String c r /\ digit_val c <> None /\
    number (String c r) = Some (ip, fp, r1) /\ exponent r1 = Some (ex, EmptyString) /\
    0 <= b /\ Z_of_digits (ip ++ fp)%list = Z_of_digits (vals ds) * 10 ^ b /\
    b + (ex - Z.of_nat (List.length fp)) = decpt - Z.of_nat (String.length ds).
Proof.
  intros A NE. destruct ds as [|d0 rest]; [contradiction|clear NE].
  destruct (all_digits_head d0 rest A) as [H0 Hrest].
  unfold format_repr.
  destruct ((decpt <=? -4) || (16 <? decpt)) eqn:C1.
  - (* exponent notation *)
    assert (Nex : decpt - 1 <> 0).
    { apply orb_true_iff in C1. destruct C1 as [C|C]; [apply Z.leb_le in C|apply Z.ltb_lt in C]; lia. }
    cbv zeta. set (tail := String "e"%char _).
    assert (Et : exponent tail = Some (decpt - 1, EmptyString)) by (apply exponent_text; exact Nex).
    destruct rest as [|d1 r].
    + exists d0, tail, (vals (String d0 EmptyString)), [], tail, (decpt - 1), 0.
      split; [reflexivity|]. split; [assumption|].
      split; [apply (number_exp (String d0 EmptyString)); [assumption|discriminate]|].
      split; [assumption|]. split; [lia|].
      split; [rewrite app_nil_r, Z.pow_0_r; lia|]. cbn [List.length String.length]. lia.
    + exists d0, (String "."%char (String d1 r ++ tail)), (vals (String d0 EmptyString)),
        (vals (String d1 r)), tail, (decpt - 1), 0.
      split; [reflexivity|]. split; [assumption|].
      split.
      { apply (number_point (String d0 EmptyString) (String d1 r) tail);
          [cbn [all_digits]; destruct (digit_val d0); [reflexivity|contradiction]
          |discriminate|assumption|discriminate|reflexivity]. }
      split; [assumption|]. split; [lia|].
      split; [rewrite Z.pow_0_r, Z.mul_1_r; reflexivity|].
      rewrite vals_length. cbn [String.length]. lia.
  - apply orb_false_iff in C1. destruct C1 as [C1 C2].
    apply Z.leb_gt in C1. apply Z.ltb_ge in C2.
    set (ds := String d0 rest) in *.
    destruct (Z.leb_spec decpt 0) as [C3|C3].
    + (* 0.000ddd *)
      set (F := (zeros (Z.to_nat (- decpt)) ++ ds)%string).
      exists "0"%char, (String "."%char F), (vals (String "0"%char EmptyString)), (vals F),
        EmptyString, 0, 0.
      split; [reflexivity|]. split; [discriminate|].
      split.
      { apply (number_point_end (String "0"%char EmptyString) F); try reflexivity; try discriminate.
        - unfold F. rewrite all_digits_app, all_digits_zeros. exact A.
        - unfold F, ds. destruct (zeros _); discriminate. }
      split; [reflexivity|]. split; [lia|].
      split.
      { unfold F. rewrite vals_app. change (vals (String "0"%char EmptyString)) with [0].
        rewrite Z.pow_0_r, Z.mul_1_r.
        change (Z_of_digits ([0] ++ vals (zeros (Z.to_nat (- decpt))) ++ vals ds)%list)
          with (Z_of_digits (vals (zeros (Z.to_nat (- decpt))) ++ vals ds)%list).
        apply Z_of_digits_zeros_l. }
      rewrite vals_length. unfold F. rewrite length_app, length_zeros. lia.
    + destruct (Z.leb_spec (Z.of_nat (String.length ds)) decpt) as [C4|C4].
      * (* ddd000.0 *)
        set (j := Z.to_nat (decpt - Z.of_nat (String.length ds))).
        exists d0, (rest ++ zeros j ++ ".0")%string, (vals (ds ++ zeros j)), [0], EmptyString, 0,
          (Z.of_nat j + 1).
        split; [reflexivity|]. split; [assumption|].
        split.
        { change (String d0 (rest ++ zeros j ++ ".0")) with (ds ++ zeros j ++ ".0")%string.
          rewrite <- Text.append_assoc.
          apply (number_point_end (ds ++ zeros j) (String "0"%char EmptyString));
            try reflexivity; try discriminate.
          rewrite all_digits_app, all_digits_zeros, A. reflexivity. }
        split; [reflexivity|]. split; [lia|].
        split.
        { rewrite Z_of_digits_app, vals_app, Z_of_digits_zeros_r.
          change (Z.of_nat (List.length [0])) with 1. change (Z_of_digits [0]) with 0.
          rewrite Z.pow_add_r by lia. ring. }
        cbn [List.length]. unfold j. lia.
      * (* ddd.ddd *)
        set (n := Z.to_nat decpt).
        assert (Hn : (0 < n < String.length ds)%nat) by (unfold n; lia).
        assert (Tk : take n ds = String d0 (take (pred n) rest)).
        { destruct n; [lia|reflexivity]. }
        assert (Ld : String.length (drop n ds) = (String.length ds - n)%nat).
        { pose proof (f_equal String.length (take_drop n ds)) as E.
          rewrite length_app, length_take in E by lia. lia. }
        exists d0, (take (pred n) rest ++ "." ++ drop n ds)%string, (vals (take n ds)),
          (vals (drop n ds)), EmptyString, 0, 0.
        split; [rewrite Tk; reflexivity|]. split; [assumption|].
        split.
        { change (String d0 (take (pred n) rest ++ "." ++ drop n ds))
            with (String d0 (take (pred n) rest) ++ String "."%char (drop n ds))%string.
          rewrite <- Tk.
          apply number_point_end.
          - apply all_digits_take. exact A.
          - rewrite Tk. discriminate.
          - apply all_digits_drop. exact A.
          - intros E. rewrite E in Ld. cbn [String.length] in Ld. lia. }
        split; [reflexivity|]. split; [lia|].
        split; [rewrite <- vals_app, take_drop, Z.pow_0_r; lia|].
        rewrite vals_length, Ld. unfold n. lia.
Qed.

End Parse.

(** ** [float(repr(x)) == x] *)

Module Repr.
Import Rounding Order Exact Shortest Digits Parse.

Lemma near_scale (m : positive) (e N Dn N' Dn' : Z) :
  0 < Dn -> 0 < Dn' -> N' * Dn = N * Dn' -> near m e N Dn -> near m e N' Dn'.
Proof.
  intros HD HD' E (H1 & H2 & H3). unfold near. cbv zeta.
  pose proof (pow2_pos (Z.max e 0) ltac:(lia)). pose proof (pow2_pos (Z.max (- e) 0) ltac:(lia)).
  set (pe := 2 ^ Z.max e 0) in *. set (pn := 2 ^ Z.max (- e) 0) in *.
  assert (L : forall a b : Z, a * Dn < b * N * pn -> a * Dn' < b * N' * pn).
  { intros a b H4. apply (Z.mul_lt_mono_pos_r Dn); [assumption|].
    replace (b * N' * pn * Dn) with (b * (N' * Dn) * pn) by ring. rewrite E.
    replace (a * Dn' * Dn) with (a * Dn * Dn') by ring.
    replace (b * (N * Dn') * pn) with (b * N * pn * Dn') by ring.
    apply Z.mul_lt_mono_pos_r; assumption. }
  assert (U : forall a b : Z, b * N * pn < a * Dn -> b * N' * pn < a * Dn').
  { intros a b H4. apply (Z.mul_lt_mono_pos_r Dn); [assumption|].
    replace (b * N' * pn * Dn) with (b * (N' * Dn) * pn) by ring. rewrite E.
    replace (a * Dn' * Dn) with (a * Dn * Dn') by ring.
    replace (b * (N * Dn') * pn) with (b * N * pn * Dn') by ring.
    apply Z.mul_lt_mono_pos_r; assumption. }
  split; [apply L; exact H1|]. split; [apply U; exact H2|].
  intros a b. apply L. apply H3; assumption.
Qed.

(** Two decimals [V * 10^(a + k)] and [V * 10^(b + k')] of equal exponent sum
    name the same fraction. *)
Lemma decimal_same (V a k b k' : Z) :
  0 <= a -> 0 <= b -> a + k = b + k' ->
  V * 10 ^ b * 10 ^ Z.max k' 0 * 10 ^ Z.max (- k) 0 =
  V * 10 ^ a * 10 ^ Z.max k 0 * 10 ^ Z.max (- k') 0.
Proof.
  intros Ha Hb E. rewrite <- !Z.mul_assoc, <- !Z.pow_add_r by lia. do 2 f_equal. lia.
Qed.

Lemma float_eqb_refl (x : float) : float_eqb x x = true.
Proof.
  destruct x as [s|s| |s m e]; cbn [float_eqb]; try apply Bool.eqb_reflx; try reflexivity.
  rewrite Bool.eqb_reflx, Pos.eqb_refl, Z.eqb_refl. reflexivity.
Qed.

Lemma float_eqb_eq (x y : float) : float_eqb x y = true -> x = y.
Proof.
  destruct x as [s|s| |s m e], y as [s'|s'| |s' m' e']; cbn [float_eqb]; try discriminate;
    intros H; try reflexivity.
  - apply Bool.eqb_prop in H. congruence.
  - apply Bool.eqb_prop in H. congruence.
  - apply andb_true_iff in H. destruct H as [H He]. apply andb_true_iff in H.
    destruct H as [Hs Hm]. apply Bool.eqb_prop in Hs. apply Pos.eqb_eq in Hm.
    apply Z.eqb_eq in He. congruence.
Qed.

(** The text of a decimal inside the rounding interval of a canonical float
    reads back as that float. *)
Lemma float_of_string_render (s : bool) (m : positive) (e D k : Z) :
  valid_binary prec emax (S754_finite s m e) = true ->
  0 < D ->
  near m e (D * 10 ^ Z.max k 0) (10 ^ Z.max (- k) 0) ->
  float_of_string (render s D k) = Ok (S754_finite s m e).
Proof.
  intros V HD Hn. unfold render. cbv zeta.
  destruct (drop_trailing_zeros_spec (decimal_digits D)) as [j Hj].
  set (ds := drop_trailing_zeros (decimal_digits D)) in *.
  pose proof (all_digits_decimal_digits D) as A. rewrite Hj, all_digits_app in A.
  apply andb_true_iff in A. destruct A as [A _].
  pose proof (Z_of_digits_decimal_digits D ltac:(lia)) as Val.
  rewrite Hj, vals_app, Z_of_digits_zeros_r in Val.
  assert (NE : ds <> EmptyString).
  { intros E. rewrite E in Val. cbn in Val. lia. }
  assert (Len : Z.of_nat (String.length (decimal_digits D)) = Z.of_nat (String.length ds) + Z.of_nat j).
  { rewrite Hj at 1. rewrite length_app, length_zeros. lia. }
  destruct (format_repr_parse ds (Z.of_nat (String.length (decimal_digits D)) + k) A NE)
    as (c & r & ip & fp & r1 & ex & b & Ef & Hc & Hnum & Hex & Hb & Hv & Hk).
  rewrite Ef.
  assert (NS : no_space (String c r) = true).
  { rewrite <- Ef. apply Text.no_space_format_repr.
    apply Text.no_space_drop_trailing_zeros, Text.no_space_decimal_digits. }
  rewrite (float_of_string_number s c r ip fp r1 ex Hc NS Hnum Hex). f_equal.
  rewrite Hv.
  set (Vd := Z_of_digits (vals ds)) in *.
  assert (HV : 0 < Vd).
  { pose proof (Z.pow_pos_nonneg 10 (Z.of_nat j) ltac:(lia) ltac:(lia)). nia. }
  pose proof (Z.pow_pos_nonneg 10 b ltac:(lia) Hb) as Pb.
  apply float_of_decimal_near; [assumption|nia|].
  eapply near_scale; [| |
    |exact Hn]; try (apply Z.pow_pos_nonneg; lia).
  rewrite <- Val.
  apply decimal_same; lia.
Qed.

(** Seventeen digits always read back. *)
Lemma reads_back_nearest (s : bool) (m : positive) (e E : Z) :
  valid_binary prec emax (S754_finite s m e) = true ->
  let n := fst (ratio m e) in
  let d := snd (ratio m e) in
  pow10_le E n d = true ->
  reads_back (S754_finite s m e) s (nearest n d (E - 16)) (E - 16) = true.
Proof.
  intros V n d P.
  destruct (nearest_near s m e E V P) as [HD Hn]. fold n d in HD, Hn.
  unfold reads_back. rewrite (float_of_string_render s m e _ _ V HD Hn).
  apply float_eqb_refl.
Qed.

Lemma candidate_sound (x : float) (neg : bool) (n d E nd D k : Z) :
  0 <= n -> 0 < d ->
  candidate x neg n d E nd = Some (D, k) -> reads_back x neg D k = true.
Proof.
  intros Hn Hd. unfold candidate. cbv zeta.
  destruct (nearest_spec n d (E - (nd - 1)) Hn Hd) as [C _].
  destruct (reads_back x neg (scaled_floor n d (E - (nd - 1))) (E - (nd - 1))) eqn:R1;
    destruct (reads_back x neg (scaled_floor n d (E - (nd - 1)) + 1) (E - (nd - 1))) eqn:R2;
    intros H; inversion H; subst; try assumption.
  destruct C as [C|C]; rewrite C; assumption.
Qed.

Lemma candidate_17 (s : bool) (m : positive) (e E : Z) :
  valid_binary prec emax (S754_finite s m e) = true ->
  let n := fst (ratio m e) in
  let d := snd (ratio m e) in
  pow10_le E n d = true ->
  candidate (S754_finite s m e) s n d E 17 <> None.
Proof.
  intros V n d P.
  pose proof (reads_back_nearest s m e E V P) as R. fold n d in R.
  assert (Hn : 0 <= n /\ 0 < d).
  { unfold n, d. rewrite ratio_spec. cbn [fst snd].
    pose proof (pow2_pos (Z.max e 0) ltac:(lia)). pose proof (pow2_pos (Z.max (- e) 0) ltac:(lia)).
    split; nia. }
  destruct (nearest_spec n d (E - 16) (proj1 Hn) (proj2 Hn)) as [C _].
  unfold candidate. cbv zeta. change (E - (17 - 1)) with (E - 16).
  destruct C as [C|C]; rewrite C in R; rewrite R;
    [|destruct (reads_back _ s (scaled_floor n d (E - 16)) (E - 16))]; try discriminate.
  destruct (reads_back _ s (scaled_floor n d (E - 16) + 1) (E - 16)); discriminate.
Qed.

Lemma shortest_sound (x : float) (neg : bool) (n d E : Z) (fuel : nat) (nd : Z) :
  0 <= n -> 0 < d ->
  candidate x neg n d E 17 <> None ->
  nd <= 17 -> Z.of_nat fuel + nd = 18 ->
  reads_back x neg (fst (shortest fuel x neg n d E nd)) (snd (shortest fuel x neg n d E nd)) = true.
Proof.
  intros Hn Hd H17. revert nd. induction fuel as [|f IH]; intros nd Hle Hsum; [lia|].
  cbn [shortest]. destruct (candidate x neg n d E nd) as [[D k]|] eqn:C.
  - cbn [fst snd]. eapply candidate_sound; eassumption.
  - apply IH; [|lia]. destruct (Z.eq_dec nd 17) as [->|]; [contradiction|lia].
Qed.

(** [float(repr(x)) == x], bit for bit, for every binary64 value. *)
Lemma float_repr_round_trip (x : float) :
  valid_binary prec emax x = true -> float_of_string (float_repr x) = Ok x.
Proof.
  intros V. destruct x as [s|s| |s m e].
  - destruct s; vm_compute; reflexivity.
  - destruct s; vm_compute; reflexivity.
  - vm_compute; reflexivity.
  - unfold float_repr.
    pose proof (floor_log10_le s m e V) as P.
    assert (Hn : 0 <= fst (ratio m e) /\ 0 < snd (ratio m e)).
    { rewrite ratio_spec. cbn [fst snd].
      pose proof (pow2_pos (Z.max e 0) ltac:(lia)). pose proof (pow2_pos (Z.max (- e) 0) ltac:(lia)).
      split; nia. }
    pose proof (candidate_17 s m e) as C. cbv zeta in C.
    destruct (ratio m e) as [n d]. cbn [fst snd] in *.
    specialize (C (floor_log10 700 340 n d) V P).
    pose proof (shortest_sound (S754_finite s m e) s n d (floor_log10 700 340 n d) 17 1
                  (proj1 Hn) (proj2 Hn) C ltac:(lia) ltac:(lia)) as R.
    destruct (shortest 17 (S754_finite s m e) s n d (floor_log10 700 340 n d) 1) as [D k].
    cbn [fst snd] in R. unfold reads_back in R.
    destruct (float_of_string (render s D k)) as [y|ex]; [|discriminate].
    apply float_eqb_eq in R. congruence.
Qed.

End Repr.

(** ** Canonical results *)

Module Canonical.
Import Rounding Order Exact.

Lemma finish_valid (s : bool) (mr e1 : Z) :
  0 <= mr -> (0 < mr -> e1 <= fexp prec emax (Zdigits2 mr + e1)) ->
  valid_binary prec emax (finish s mr e1) = true.
Proof.
  intros H0 Hal. unfold finish.
  destruct (Z.eq_dec mr 0) as [->|N].
  - rewrite Z.div_0_l by (pose proof (pow2_pos (shift_of 0 e1) (shift_of_nonneg _ _)); lia).
    reflexivity.
  - specialize (Hal ltac:(lia)).
    assert (S1 : shift_of mr e1 = fexp prec emax (Zdigits2 mr + e1) - e1)
      by (unfold shift_of; lia).
    destruct (Z_lt_ge_dec (shift_of mr e1) (Zdigits2 mr)) as [Lt|Ge].
    + destruct (Zdigits2_shift mr (shift_of mr e1) ltac:(lia) ltac:(lia)) as [Hd Hp].
      destruct (mr / 2 ^ shift_of mr e1) as [|p|p] eqn:E; try lia.
      destruct (e1 + shift_of mr e1 <=? 971) eqn:B; [|reflexivity].
      cbn [valid_binary]. unfold bounded, canonical_mantissa.
      change (Zpos (digits2_pos p)) with (Zdigits2 (Zpos p)).
      change (emax - prec) with 971. rewrite B, andb_true_r.
      apply Z.eqb_eq. rewrite Hd.
      replace (Zdigits2 mr - shift_of mr e1 + (e1 + shift_of mr e1)) with (Zdigits2 mr + e1) by lia.
      lia.
    + pose proof (Zdigits2_bounds mr ltac:(lia)) as [_ U].
      pose proof (Zdigits2_pos mr ltac:(lia)).
      pose proof (pow2_le (Zdigits2 mr) (shift_of mr e1) ltac:(lia)).
      rewrite Z.div_small by lia. reflexivity.
Qed.

(** Rounding an aligned mantissa gives a canonical float. *)
Lemma binary_round_aux_valid (s : bool) (mx ex : Z) (lx : location) :
  0 <= mx -> ex <= fexp prec emax (Zdigits2 mx + ex) ->
  valid_binary prec emax (binary_round_aux prec emax s mx ex lx) = true.
Proof.
  intros Hmx Hal.
  destruct (binary_round_aux_cases s mx ex lx Hmx) as (mr & Hmr & E). cbv zeta in E.
  rewrite E. clear E. change (emax - prec) with 971.
  change (valid_binary prec emax (finish s mr (ex + shift_of mx ex)) = true).
  assert (S1 : shift_of mx ex = fexp prec emax (Zdigits2 mx + ex) - ex)
    by (unfold shift_of; lia).
  pose proof (pow2_pos (shift_of mx ex) (shift_of_nonneg _ _)) as P.
  assert (Hq : 0 <= mx / 2 ^ shift_of mx ex) by (apply Z.div_pos; lia).
  apply finish_valid; [lia|]. intros Hr.
  rewrite S1. replace (ex + (fexp prec emax (Zdigits2 mx + ex) - ex))
    with (fexp prec emax (Zdigits2 mx + ex)) by lia.
  rewrite !fexp_val.
  destruct (Z.eq_dec mx 0) as [->|N].
  - simpl (Zdigits2 0) in *. rewrite fexp_val in Hal.
    pose proof (Zdigits2_pos mr Hr). lia.
  - destruct (Z_lt_ge_dec (shift_of mx ex) (Zdigits2 mx)) as [Lt|Ge].
    + destruct (Zdigits2_shift mx (shift_of mx ex) ltac:(lia) ltac:(lia)) as [Hd Hp].
      assert (Zdigits2 (mx / 2 ^ shift_of mx ex) <= Zdigits2 mr)
        by (apply Zdigits2_le; lia).
      rewrite fexp_val in S1. lia.
    + pose proof (Zdigits2_pos mr Hr). rewrite fexp_val in S1. lia.
Qed.

Lemma binary_normalize_valid (z : Z) :
  valid_binary prec emax (binary_normalize prec emax z 0 false) = true.
Proof.
  assert (R : forall s p, valid_binary prec emax (binary_round prec emax s p 0) = true).
  { intros s p. unfold binary_round.
    pose proof (shl_align_spec p 0 (fexp prec emax (Zpos (digits2_pos p) + 0))) as (Hm & He & Hd).
    destruct (shl_align p 0 (fexp prec emax (Zpos (digits2_pos p) + 0))) as [mz ez].
    cbn [fst snd] in *. apply binary_round_aux_valid; [lia|].
    rewrite Hd. change (Zdigits2 (Zpos p)) with (Zpos (digits2_pos p)). lia. }
  destruct z as [|p|p]; [reflexivity|apply R|apply R].
Qed.

(** The exponent a quotient is computed at is aligned. *)
Lemma div_core_aligned (m1 m2 : positive) (e1 e2 : Z) :
  let '(q, e', _) := SFdiv_core_binary prec emax (Zpos m1) e1 (Zpos m2) e2 in
  0 <= q /\ e' <= fexp prec emax (Zdigits2 q + e').
Proof.
  pose proof (div_core_nonneg (Zpos m1) e1 (Zpos m2) e2 ltac:(lia) ltac:(lia)) as Hn.
  pose proof (div_core_mag (Zpos m1) e1 (Zpos m2) e2 ltac:(lia) ltac:(lia)) as Hm.
  assert (He : snd (fst (SFdiv_core_binary prec emax (Zpos m1) e1 (Zpos m2) e2))
               <= fexp prec emax (Zdigits2 (Zpos m1) + e1 - (Zdigits2 (Zpos m2) + e2))).
  { unfold SFdiv_core_binary. cbv zeta.
    destruct (Z.div_eucl _ _) as [q r]. cbn [fst snd]. lia. }
  destruct (SFdiv_core_binary prec emax (Zpos m1) e1 (Zpos m2) e2) as [[q e'] l].
  cbn [fst snd] in *. split; [assumption|].
  rewrite fexp_val in *.
  destruct (Z_le_gt_dec (Zdigits2 (Zpos m1) + e1 - (Zdigits2 (Zpos m2) + e2)) (-1074)) as [Lo|Hi].
  - lia.
  - destruct (Hm ltac:(lia)) as [_ Hd]. lia.
Qed.

(** Every quotient is a canonical float. *)
Lemma fdiv_valid (x y : float) : valid_binary prec emax (fdiv x y) = true.
Proof.
  destruct x as [sx|sx| |sx mx ex], y as [sy|sy| |sy my ey]; try reflexivity.
  unfold fdiv, SFdiv.
  pose proof (div_core_aligned mx my ex ey) as H.
  destruct (SFdiv_core_binary prec emax (Zpos mx) ex (Zpos my) ey) as [[q e'] l].
  destruct H as [Hq Hal]. apply binary_round_aux_valid; assumption.
Qed.

Lemma float_of_decimal_valid (neg : bool) (D k : Z) :
  valid_binary prec emax (float_of_decimal neg D k) = true.
Proof.
  unfold float_of_decimal. destruct D as [|p|p]; try reflexivity.
  destruct (0 <=? k); [|apply fdiv_valid].
  unfold binary_normalize.
  destruct (cond_Zopp neg (Zpos p * 10 ^ k)) as [|v|v] eqn:E; [reflexivity| |].
  - exact (binary_normalize_valid (Zpos v)).
  - exact (binary_normalize_valid (Zneg v)).
Qed.

(** Every float that [float] returns for a text is canonical. *)
Lemma float_of_string_valid (s : string) (y : float) :
  float_of_string s = Ok y -> valid_binary prec emax y = true.
Proof.
  unfold float_of_string.
  destruct (sign_prefix _) as [neg r].
  destruct ((lower r =? "inf") || (lower r =? "infinity"))%string;
    [intros H; inversion H; reflexivity|].
  destruct (lower r =? "nan")%string; [intros H; inversion H; reflexivity|].
  destruct (number r) as [[[ip fp] r1]|]; [|discriminate].
  destruct (exponent r1) as [[ex [|c t]]|]; try discriminate.
  intros H. inversion H. apply float_of_decimal_valid.
Qed.

End Canonical.

(** ** Round trip of the calibration record *)

Lemma ask_hand_width_valid (lines : list string) (w w1 : World) (kw : float) :
  ask_hand_width lines w = Returned kw w1 -> valid_binary prec emax kw = true.
Proof.
  revert w. induction lines as [|l rest IH]; intros w H; [discriminate|].
  cbn [ask_hand_width] in H.
  destruct (float_of_string l) as [v|[]] eqn:E; try discriminate.
  - destruct (gt (Float v) (Int 0)).
    + inversion H; subst. eapply Canonical.float_of_string_valid. exact E.
    + eapply IH. exact H.
  - eapply IH. exact H.
Qed.

Lemma focal_length_valid (pw : Z) (kw : float) (fl : num) :
  focal_length_of pw kw = Ok fl ->
  exists f, fl = Float f /\ valid_binary prec emax f = true.
Proof.
  unfold focal_length_of. cbn [mul KNOWN_DISTANCE_FOR_CALIBRATION to_float bind].
  destruct (float_of_int pw) as [pf|]; [|discriminate].
  cbn [bind truediv to_float]. destruct (is_zero kw); [discriminate|].
  intros H. inversion H. eexists. split; [reflexivity|apply Canonical.fdiv_valid].
Qed.

(** The two numbers a calibration writes are canonical binary64 values. *)
Lemma calibrate_writes_canonical (w w' : World) (fl kwv : num) :
  calibrate w = Returned (fl, kwv) w' ->
  exists f kw,
    fl = Float f /\ kwv = Float kw /\
    valid_binary prec emax f = true /\ valid_binary prec emax kw = true /\
    calibration_file w' = Some (calibration_text (Float f) (Float kw)).
Proof.
  unfold calibrate. intros H.
  destruct (ask_hand_width _ _) as [kw w1|e w1|w1] eqn:A; try discriminate.
  destruct (capture_loop kw _ _) as [f w3|e w3|w3] eqn:L; try discriminate.
  inversion H; subst. apply ask_hand_width_valid in A.
  apply capture_loop_returned in L. destruct L as (pw & _ & Hf & Hc).
  destruct (focal_length_valid pw kw fl Hf) as (f & -> & Vf).
  exists f, kw. auto.
Qed.

(** The load path on the text of a record: each line goes through [repr]
    and [float] once; the line structure and the stripping lose nothing. *)
Lemma read_calibration_text (fl kw : float) :
  read_calibration (calibration_text (Float fl) (Float kw))
  = (a <- float_of_string (float_repr fl) ;;
     b <- float_of_string (float_repr kw) ;;
     Ok (Float a, Float b)).
Proof.
  rewrite read_calibration_lines.
  unfold first_line, second_line, calibration_text. cbn [str].
  replace ((float_repr fl ++ LF) ++ float_repr kw ++ LF)%string
    with (float_repr fl ++ LF ++ (float_repr kw ++ LF ++ EmptyString))%string.
  2:{ rewrite Text.append_assoc. reflexivity. }
  rewrite Text.readline_line by apply Text.no_space_float_repr. cbn [fst snd].
  rewrite Text.readline_line by apply Text.no_space_float_repr. cbn [fst].
  rewrite !Text.strip_line by apply Text.no_space_float_repr. reflexivity.
Qed.

Lemma read_calibration_exact (fl kw : float) :
  valid_binary prec emax fl = true -> valid_binary prec emax kw = true ->
  read_calibration (calibration_text (Float fl) (Float kw)) = Ok (Float fl, Float kw).
Proof.
  intros Vf Vk. rewrite read_calibration_text.
  rewrite (Repr.float_repr_round_trip fl Vf), (Repr.float_repr_round_trip kw Vk). reflexivity.
Qed.

(** C3.  Writing a calibration record and reading it back gives the same
    pair, bit for bit: for every pair of binary64 values, the load path
    applied to the two lines written for them returns that pair; the file
    that a completed calibration leaves behind reads back as the pair the
    calibration returned; and a later session that answers [y] gets that
    pair from [get_calibration_data]. *)
Theorem calibration_file_round_trip :
  (forall focal_length known_hand_width_cm : float,
     valid_binary prec emax focal_length = true ->
     valid_binary prec emax known_hand_width_cm = true ->
     read_calibration (calibration_text (Float focal_length) (Float known_hand_width_cm))
     = Ok (Float focal_length, Float known_hand_width_cm)) /\
  (forall (w w' : World) (focal_length known_hand_width : num),
     calibrate w = Returned (focal_length, known_hand_width) w' ->
     exists content,
       calibration_file w' = Some content /\
       read_calibration content = Ok (focal_length, known_hand_width)) /\
  (forall (w w' later : World) (focal_length known_hand_width : num) l rest,
     calibrate w = Returned (focal_length, known_hand_width) w' ->
     calibration_file later = calibration_file w' ->
     stdin later = l :: rest -> lower l = "y"%string ->
     get_calibration_data later
     = Returned (PyNum focal_length, PyNum known_hand_width)
         (print LoadedSuccessfully (set_stdin rest (print PromptChoice later)))).
Proof.
  split; [exact read_calibration_exact|]. split.
  - intros w w' fl kwv H.
    destruct (calibrate_writes_canonical w w' fl kwv H) as (f & kw & -> & -> & Vf & Vk & Hc).
    eexists. split; [exact Hc|]. apply read_calibration_exact; assumption.
  - intros w w' later fl kwv l rest H Hf Hs Hl.
    destruct (calibrate_writes_canonical w w' fl kwv H) as (f & kw & -> & -> & Vf & Vk & Hc).
    unfold get_calibration_data. rewrite Hf, Hc, Hs. cbn [choice_loop]. rewrite Hl.
    cbn [String.eqb Ascii.eqb Bool.eqb].
    rewrite (read_calibration_exact f kw Vf Vk). reflexivity.
Qed.

Lemma calibration_file_round_trip_witness :
  read_calibration (calibration_text (Float f450_0) (Float f120_625))
  = Ok (Float f450_0, Float f120_625) /\
  (exists content,
     calibration_file (world_of (calibrate world_calibrating)) = Some content /\
     read_calibration content = Ok (Float f450_0, Float f8_0)) /\
  get_calibration_data
    (print InvalidChoice (set_stdin ["Y"%string] (print PromptChoice world_reusing)))
  = Returned (PyNum (Float f450_0), PyNum (Float f8_0))
      (print LoadedSuccessfully
         (set_stdin [] (print PromptChoice
            (print InvalidChoice (set_stdin ["Y"%string] (print PromptChoice world_reusing)))))).
Proof.
  split; [|split].
  - apply (proj1 calibration_file_round_trip f450_0 f120_625); reflexivity.
  - apply (proj1 (proj2 calibration_file_round_trip) world_calibrating
             (world_of (calibrate world_calibrating)) (Float f450_0) (Float f8_0)).
    vm_compute. reflexivity.
  - apply (proj2 (proj2 calibration_file_round_trip) world_calibrating
             (world_of (calibrate world_calibrating))
             (print InvalidChoice (set_stdin ["Y"%string] (print PromptChoice world_reusing)))
             (Float f450_0) (Float f8_0) "Y"%string []);
      vm_compute; reflexivity.
Defined.

(** * Further properties of the code *)

(** ** Pixel coordinates inside the frame *)

Module Bounds.
Import Rounding Order Exact.

Lemma rnd_le (A B N : Z) : 0 <= A -> 0 < B -> A <= N * B -> rnd A B <= N.
Proof.
  intros HA HB H. unfold rnd, classify.
  pose proof (Z.div_mod A B ltac:(lia)) as E.
  pose proof (Z.mod_pos_bound A B HB) as Hr.
  set (q := A / B) in *. set (r := A mod B) in *.
  destruct (Z.eqb_spec r 0) as [R0|R0].
  - cbn [round_nearest_even]. nia.
  - assert (q < N) by nia.
    destruct (round_nearest_even_cases q (loc_Inexact (2 * r ?= B))); lia.
Qed.

Lemma rnd_nonneg (A B : Z) : 0 <= A -> 0 < B -> 0 <= rnd A B.
Proof.
  intros HA HB. unfold rnd.
  pose proof (Z.div_pos A B HA HB).
  destruct (round_nearest_even_cases (A / B) (classify (A mod B) B)); lia.
Qed.

(** A mantissa whose value is at most the integer [N] renormalises to a
    float whose integer part is between 0 and [N]. *)
Lemma finish_le (mr e1 N : Z) :
  0 <= mr -> 0 <= N < 2 ^ 53 ->
  mr * 2 ^ (e1 - Z.min e1 0) <= N * 2 ^ (- Z.min e1 0) ->
  exists i, int_of_float (finish false mr e1) = Ok i /\ 0 <= i <= N.
Proof.
  intros Hmr HN H. unfold finish.
  pose proof (shift_of_nonneg mr e1) as Hs.
  pose proof (pow2_pos (shift_of mr e1) Hs) as Ps.
  pose proof (Z.div_pos mr (2 ^ shift_of mr e1) Hmr Ps) as Hq.
  pose proof (Z.mul_div_le mr (2 ^ shift_of mr e1) Ps) as Hd.
  destruct (mr / 2 ^ shift_of mr e1) as [|p|p] eqn:Em; [exists 0; split; [reflexivity|lia]| |lia].
  assert (Hmr1 : 0 < mr) by nia.
  pose proof (Zdigits2_bounds mr Hmr1) as [Lm _].
  pose proof (Zdigits2_pos mr Hmr1) as Dm.
  assert (T53 : 2 ^ 53 = 9007199254740992) by reflexivity.
  (* the magnitude of [mr * 2^e1] is at most 53 *)
  assert (Mag : Zdigits2 mr + e1 <= 53).
  { destruct (Z_le_gt_dec e1 0) as [E|E].
    - replace (Z.min e1 0) with e1 in H by lia. rewrite Z.sub_diag, Z.pow_0_r, Z.mul_1_r in H.
      pose proof (pow2_pos (- e1) ltac:(lia)) as P1.
      assert (B : 2 ^ (Zdigits2 mr - 1) < 2 ^ 53 * 2 ^ (- e1)) by nia.
      rewrite <- Z.pow_add_r in B by lia. apply Z.pow_lt_mono_r_iff in B; lia.
    - replace (Z.min e1 0) with 0 in H by lia. rewrite Z.sub_0_r, Z.pow_0_r, Z.mul_1_r in H.
      pose proof (pow2_pos e1 ltac:(lia)) as P1.
      assert (B : 2 ^ (Zdigits2 mr - 1) * 2 ^ e1 < 2 ^ 53) by nia.
      rewrite <- Z.pow_add_r in B by lia. apply Z.pow_lt_mono_r_iff in B; lia. }
  assert (S2 : shift_of mr e1 = Z.max (Z.max (Zdigits2 mr + e1 - 53) (-1074) - e1) 0)
    by (unfold shift_of; rewrite fexp_val; reflexivity).
  assert (E2 : e1 + shift_of mr e1 <= 971).
  { destruct (Z_le_gt_dec e1 0) as [E|E]; [lia|].
    replace (Z.min e1 0) with 0 in H by lia. rewrite Z.sub_0_r, Z.pow_0_r, Z.mul_1_r in H.
    assert (e1 < 53).
    { destruct (Z_lt_ge_dec e1 53); [assumption|].
      pose proof (pow2_le 53 e1 ltac:(lia)). nia. }
    lia. }
  apply Z.leb_le in E2. rewrite E2.
  set (sh := shift_of mr e1) in *. set (e2 := e1 + sh).
  cbn [int_of_float cond_Zopp].
  destruct (Z.leb_spec 0 e2) as [P2|P2].
  - eexists. split; [reflexivity|].
    pose proof (pow2_pos e2 P2) as Pe. split; [nia|].
    destruct (Z_le_gt_dec e1 0) as [E|E].
    + replace (Z.min e1 0) with e1 in H by lia. rewrite Z.sub_diag, Z.pow_0_r, Z.mul_1_r in H.
      pose proof (pow2_pos (- e1) ltac:(lia)) as P1.
      assert (Sp : 2 ^ sh = 2 ^ e2 * 2 ^ (- e1)).
      { rewrite <- Z.pow_add_r by lia. f_equal. unfold e2. lia. }
      rewrite Sp in Hd. nia.
    + replace (Z.min e1 0) with 0 in H by lia. rewrite Z.sub_0_r, Z.pow_0_r, Z.mul_1_r in H.
      assert (Sp : 2 ^ e2 = 2 ^ e1 * 2 ^ sh).
      { rewrite <- Z.pow_add_r by lia. reflexivity. }
      rewrite Sp. nia.
  - eexists. split; [reflexivity|].
    pose proof (pow2_pos (- e2) ltac:(lia)) as Pe.
    split; [apply Z.div_pos; lia|].
    replace (Z.min e1 0) with e1 in H by lia. rewrite Z.sub_diag, Z.pow_0_r, Z.mul_1_r in H.
    assert (Sp : 2 ^ (- e1) = 2 ^ (- e2) * 2 ^ sh).
    { rewrite <- Z.pow_add_r by lia. f_equal. unfold e2. lia. }
    rewrite Sp in H.
    assert (Zpos p <= N * 2 ^ (- e2)) by nia.
    apply Z.div_le_upper_bound; [lia|]. lia.
Qed.

(** Rounding a value that is at most the integer [N] gives a float whose
    integer part is between 0 and [N]. *)
Lemma round_below (mx ex N : Z) :
  0 <= mx -> 0 <= N < 2 ^ 53 ->
  mx * 2 ^ (ex - Z.min ex 0) <= N * 2 ^ (- Z.min ex 0) ->
  exists i, int_of_float (binary_round_aux prec emax false mx ex loc_Exact) = Ok i /\ 0 <= i <= N.
Proof.
  intros Hmx HN H.
  rewrite (binary_round_aux_rounds false mx ex loc_Exact mx 1);
    [|lia|lia|rewrite Z.div_1_r; reflexivity|rewrite Z.mod_1_r; reflexivity].
  rewrite Z.mul_1_l.
  pose proof (shift_of_nonneg mx ex) as Hs.
  pose proof (pow2_pos (shift_of mx ex) Hs) as Ps.
  set (sh := shift_of mx ex) in *.
  apply finish_le; [apply rnd_nonneg; lia|assumption|].
  destruct (Z.eq_dec mx 0) as [->|NZ].
  { unfold rnd. rewrite Z.div_0_l, Zmod_0_l by lia. cbn. 
    pose proof (pow2_pos (- Z.min (ex + sh) 0) ltac:(lia)). nia. }
  assert (Hmx1 : 0 < mx) by lia.
  pose proof (Zdigits2_bounds mx Hmx1) as [Lm _].
  pose proof (Zdigits2_pos mx Hmx1) as Dm.
  assert (S1 : sh = Z.max (Z.max (Zdigits2 mx + ex - 53) (-1074) - ex) 0)
    by (unfold sh, shift_of; rewrite fexp_val; reflexivity).
  destruct (Z_le_gt_dec ex 0) as [E|E].
  - replace (Z.min ex 0) with ex in H by lia. rewrite Z.sub_diag, Z.pow_0_r, Z.mul_1_r in H.
    pose proof (pow2_pos (- ex) ltac:(lia)) as P1.
    assert (Mag : Zdigits2 mx + ex <= 53).
    { assert (B : 2 ^ (Zdigits2 mx - 1) < 2 ^ 53 * 2 ^ (- ex)) by nia.
      rewrite <- Z.pow_add_r in B by lia. apply Z.pow_lt_mono_r_iff in B; lia. }
    assert (E1 : ex + sh <= 0) by lia.
    replace (Z.min (ex + sh) 0) with (ex + sh) by lia.
    rewrite Z.sub_diag, Z.pow_0_r, Z.mul_1_r.
    apply rnd_le; [lia|lia|].
    rewrite <- Z.mul_assoc, <- Z.pow_add_r by lia.
    replace (- (ex + sh) + sh) with (- ex) by lia. exact H.
  - replace (Z.min ex 0) with 0 in H by lia. rewrite Z.sub_0_r, Z.pow_0_r, Z.mul_1_r in H.
    pose proof (pow2_pos ex ltac:(lia)) as P1.
    assert (Mag : Zdigits2 mx + ex <= 53).
    { assert (B : 2 ^ (Zdigits2 mx - 1) * 2 ^ ex < 2 ^ 53) by nia.
      rewrite <- Z.pow_add_r in B by lia. apply Z.pow_lt_mono_r_iff in B; lia. }
    assert (S0 : sh = 0) by lia.
    rewrite S0, Z.pow_0_r, Z.add_0_r.
    replace (rnd mx 1) with mx.
    2:{ unfold rnd. rewrite Z.div_1_r, Z.mod_1_r. reflexivity. }
    replace (Z.min ex 0) with 0 by lia. rewrite Z.sub_0_r, Z.pow_0_r, Z.mul_1_r. exact H.
Qed.

End Bounds.

Module Pixels.
Import Rounding Order Exact Bounds.

(** An integer below [2^53] converts to the float of that value. *)
Lemma fround_Z_small (w : Z) :
  0 < w < 2 ^ 53 ->
  exists mw ew, fround_Z w = S754_finite false mw ew /\ ew <= 0 /\ Zpos mw = w * 2 ^ (- ew).
Proof.
  intros [H0 H1].
  pose proof (Zdigits2_bounds w H0) as [Lw Uw].
  pose proof (Zdigits2_pos w H0) as Dw.
  assert (D53 : Zdigits2 w <= 53) by (apply Zdigits2_upper; lia).
  set (e := Zdigits2 w - 53).
  pose proof (pow2_pos (- e) ltac:(unfold e; lia)) as Pe.
  assert (Pm : 0 < w * 2 ^ (- e)) by nia.
  destruct (w * 2 ^ (- e)) as [|m|m] eqn:Em; try lia.
  assert (Dm : Zdigits2 (Zpos m) = 53).
  { rewrite <- Em, Zdigits2_mul_pow2 by (unfold e; lia). unfold e. lia. }
  assert (V : valid_binary prec emax (S754_finite false m e) = true).
  { cbn [valid_binary]. unfold bounded, canonical_mantissa.
    change (Zpos (digits2_pos m)) with (Zdigits2 (Zpos m)). rewrite Dm, fexp_val.
    change (emax - prec) with 971. apply andb_true_iff. split.
    - apply Z.eqb_eq. unfold e. lia.
    - apply Z.leb_le. unfold e. lia. }
  exists m, e. split; [|split; [unfold e; lia|symmetry; exact Em]].
  destruct w as [|p|p]; try lia.
  unfold fround_Z, binary_normalize. apply binary_round_near; [exact V|].
  unfold near. cbv zeta.
  replace (Z.max e 0) with 0 by (unfold e; lia).
  replace (Z.max (- e) 0) with (- e) by (unfold e; lia).
  rewrite Z.pow_0_r. lia.
Qed.

(** What [normalized] says of a float: a zero, or a positive finite value
    of at most 1. *)
Lemma normalized_cases (v : float) :
  normalized v = true ->
  (exists s, v = S754_zero s) \/
  (exists m e, v = S754_finite false m e /\
               Zpos m * 2 ^ (e - Z.min e 0) <= 2 ^ (- Z.min e 0)).
Proof.
  unfold normalized. intros H. apply andb_true_iff in H. destruct H as [H0 H1].
  destruct v as [s|s| |s m e]; try discriminate.
  - left. exists s. reflexivity.
  - destruct s; try discriminate.
  - destruct s; try discriminate. right. exists m, e. split; [reflexivity|].
    unfold fle, f1_0 in H1. cbn [fcompare] in H1.
    rewrite (cmp_mag_at (Z.min e (-52)) m e 4503599627370496 (-52)) in H1 by lia.
    set (c := Z.min e (-52)) in *.
    assert (L : Zpos m * 2 ^ (e - c) <= 4503599627370496 * 2 ^ (-52 - c)).
    { destruct (Z.compare_spec (Zpos m * 2 ^ (e - c)) (4503599627370496 * 2 ^ (-52 - c)));
        try lia; discriminate. }
    change 4503599627370496 with (2 ^ 52) in L.
    rewrite <- Z.pow_add_r in L by (unfold c; lia).
    replace (52 + (-52 - c)) with (- c) in L by lia.
    set (c0 := Z.min e 0).
    assert (S1 : 2 ^ (e - c) = 2 ^ (e - c0) * 2 ^ (c0 - c)).
    { rewrite <- Z.pow_add_r by (unfold c, c0; lia). f_equal. lia. }
    assert (S2 : 2 ^ (- c) = 2 ^ (- c0) * 2 ^ (c0 - c)).
    { rewrite <- Z.pow_add_r by (unfold c, c0; lia). f_equal. lia. }
    rewrite S1, S2 in L.
    pose proof (pow2_pos (c0 - c) ltac:(unfold c, c0; lia)).
    pose proof (pow2_pos (e - c0) ltac:(unfold c0; lia)).
    pose proof (pow2_pos (- c0) ltac:(unfold c0; lia)). nia.
Qed.

(** A normalized coordinate times a frame dimension below [2^53] is a pixel
    coordinate whose integer part lies in the frame. *)
Lemma pixel_coordinate (v : float) (w : Z) :
  normalized v = true -> 0 <= w < 2 ^ 53 ->
  float_of_int w = Ok (fround_Z w) /\
  exists i, int_of_float (fmul v (fround_Z w)) = Ok i /\ 0 <= i <= w.
Proof.
  intros Hv Hw. split.
  { apply float_of_int_finite.
    assert (2 ^ 53 < 2 ^ 1023) by (apply Z.pow_lt_mono_r; lia). lia. }
  destruct (Z.eq_dec w 0) as [->|NZ].
  { destruct (normalized_cases v Hv) as [[s ->]|(m & e & -> & _)];
      exists 0; split; try reflexivity; lia. }
  destruct (fround_Z_small w ltac:(lia)) as (mw & ew & -> & Hew & Emw).
  destruct (normalized_cases v Hv) as [[s ->]|(m & e & -> & Hm)].
  { exists 0. split; [reflexivity|lia]. }
  unfold fmul, SFmul. cbn [xorb].
  apply round_below; [lia|lia|].
  rewrite Pos2Z.inj_mul, Emw.
  set (c0 := Z.min e 0) in *. set (c := Z.min (e + ew) 0).
  set (b := c0 + ew).
  assert (Hb : b <= c) by (unfold b, c, c0; lia).
  pose proof (pow2_pos (- ew) ltac:(lia)) as P1.
  pose proof (pow2_pos (e - c0) ltac:(unfold c0; lia)) as P2.
  pose proof (pow2_pos (- c0) ltac:(unfold c0; lia)) as P3.
  pose proof (pow2_pos (c - b) ltac:(lia)) as P4.
  pose proof (pow2_pos (e + ew - c) ltac:(unfold c; lia)) as P5.
  pose proof (pow2_pos (- c) ltac:(unfold c; lia)) as P6.
  assert (S1 : 2 ^ (e - c0) = 2 ^ (e + ew - c) * 2 ^ (c - b)).
  { rewrite <- Z.pow_add_r by (unfold c; lia). f_equal. unfold b. lia. }
  assert (S2 : 2 ^ (- ew) * 2 ^ (- c0) = 2 ^ (- c) * 2 ^ (c - b)).
  { rewrite <- !Z.pow_add_r by (unfold c, c0; lia). f_equal. unfold b. lia. }
  rewrite S1 in Hm.
  assert (G : Zpos m * (w * 2 ^ (- ew)) * 2 ^ (e + ew - c) * 2 ^ (c - b)
              <= w * 2 ^ (- c) * 2 ^ (c - b)).
  { replace (w * 2 ^ (- c) * 2 ^ (c - b)) with (w * (2 ^ (- ew) * 2 ^ (- c0))) by (rewrite S2; ring).
    replace (Zpos m * (w * 2 ^ (- ew)) * 2 ^ (e + ew - c) * 2 ^ (c - b))
      with (w * 2 ^ (- ew) * (Zpos m * (2 ^ (e + ew - c) * 2 ^ (c - b)))) by ring.
    rewrite <- Z.mul_assoc. apply Z.mul_le_mono_nonneg_l; [lia|].
    apply Z.mul_le_mono_nonneg_l; lia. }
  apply Z.mul_le_mono_pos_r in G; [exact G|exact P4].
Qed.

Lemma fold_fmin_In (rest : list float) (f0 : float) :
  In (fold_left fmin_step rest f0) (f0 :: rest).
Proof.
  revert f0. induction rest as [|a rest IH]; intros f0; [left; reflexivity|].
  cbn [fold_left]. destruct (IH (fmin_step f0 a)) as [E|I].
  - rewrite <- E. unfold fmin_step. destruct (flt a f0); [right; left|left]; reflexivity.
  - right. right. exact I.
Qed.

Lemma fold_fmax_In (rest : list float) (f0 : float) :
  In (fold_left fmax_step rest f0) (f0 :: rest).
Proof.
  revert f0. induction rest as [|a rest IH]; intros f0; [left; reflexivity|].
  cbn [fold_left]. destruct (IH (fmax_step f0 a)) as [E|I].
  - rewrite <- E. unfold fmax_step. destruct (flt f0 a); [right; left|left]; reflexivity.
  - right. right. exact I.
Qed.

End Pixels.

Lemma palm_points_three (lm : LandmarkList) (pts : list Landmark) :
  palm_points lm = Ok pts -> exists p0 p5 p17, pts = [p0; p5; p17].
Proof.
  unfold palm_points. intros H.
  apply bind_Ok in H. destruct H as (p0 & _ & H).
  apply bind_Ok in H. destruct H as (p5 & _ & H).
  apply bind_Ok in H. destruct H as (p17 & _ & H).
  inversion H. eauto.
Qed.

Lemma int_of_float_finite (v : float) (i : Z) : int_of_float v = Ok i -> is_finite v = true.
Proof. destruct v; try discriminate; reflexivity. Qed.

(** The truncated extremes of three pixel coordinates that lie in
    [0, size] lie there too. *)
Lemma extremes_in_frame (a b c : float) (size lo hi : Z) :
  (forall v, In v [a; b; c] -> exists i, int_of_float v = Ok i /\ 0 <= i <= size) ->
  (m <- Py.min (map Float [a; b; c]) ;; int m) = Ok lo ->
  (m <- Py.max (map Float [a; b; c]) ;; int m) = Ok hi ->
  0 <= lo /\ lo <= hi /\ hi <= size.
Proof.
  intros H Hlo Hhi.
  destruct (int_min_le_int_max a [b; c] lo hi Hlo Hhi) as [Hle _].
  rewrite min_floats in Hlo. rewrite max_floats in Hhi. cbn [bind int] in Hlo, Hhi.
  destruct (H _ (Pixels.fold_fmin_In [b; c] a)) as (i & Hi & Bi).
  destruct (H _ (Pixels.fold_fmax_In [b; c] a)) as (j & Hj & Bj).
  rewrite Hi in Hlo. rewrite Hj in Hhi. inversion Hlo; inversion Hhi; subst. lia.
Qed.

(** Normalized palm landmarks in a frame of dimensions below [2^53]:
    [get_hand_details] returns a box inside the frame. *)
Lemma get_hand_details_in_frame (lm : LandmarkList) (w h : Z) :
  palm_normalized lm = true -> 0 <= w < 2 ^ 53 -> 0 <= h < 2 ^ 53 ->
  exists pw x_min y_min x_max y_max,
    get_hand_details lm w h = Ok (pw, (x_min, y_min, x_max, y_max)) /\
    0 <= x_min /\ x_min <= x_max /\ x_max <= w /\
    0 <= y_min /\ y_min <= y_max /\ y_max <= h /\
    pw = Z.abs (x_max - x_min).
Proof.
  intros Hn Hw Hh. unfold palm_normalized in Hn.
  destruct (palm_points lm) as [pts|] eqn:Hp; [|discriminate].
  destruct (palm_points_three lm pts Hp) as (p0 & p5 & p17 & ->).
  assert (N : forall p, In p [p0; p5; p17] -> normalized (x p) = true /\ normalized (y p) = true).
  { intros p Hin. rewrite forallb_forall in Hn. apply andb_true_iff. apply Hn. exact Hin. }
  assert (X : forall p, In p [p0; p5; p17] ->
              exists i, int_of_float (fmul (x p) (fround_Z w)) = Ok i /\ 0 <= i <= w).
  { intros p Hin. apply Pixels.pixel_coordinate; [apply N; exact Hin|exact Hw]. }
  assert (Y : forall p, In p [p0; p5; p17] ->
              exists i, int_of_float (fmul (y p) (fround_Z h)) = Ok i /\ 0 <= i <= h).
  { intros p Hin. apply Pixels.pixel_coordinate; [apply N; exact Hin|exact Hh]. }
  destruct (Pixels.pixel_coordinate (x p0) w (proj1 (N p0 ltac:(simpl; auto))) Hw) as [Fw _].
  destruct (Pixels.pixel_coordinate (x p0) h (proj1 (N p0 ltac:(simpl; auto))) Hh) as [Fh _].
  destruct (get_hand_details_returns lm w h p0 p5 p17 _ _ Hp Fw Fh) as (pw & bbox & R).
  { intros p Hin. destruct (X p Hin) as (i & Hi & _). destruct (Y p Hin) as (j & Hj & _).
    split; eapply int_of_float_finite; eassumption. }
  destruct bbox as [[[x_min y_min] x_max] y_max].
  exists pw, x_min, y_min, x_max, y_max. split; [exact R|].
  destruct (get_hand_details_inv lm w h pw x_min y_min x_max y_max R)
    as (q0 & q5 & q17 & fw & fh & Hq & Hfw & Hfh & HH).
  cbv zeta in HH. destruct HH as (_ & _ & Xlo & Xhi & Ylo & Yhi & Epw).
  assert (q0 = p0 /\ q5 = p5 /\ q17 = p17) by (rewrite Hp in Hq; inversion Hq; auto).
  destruct H as (-> & -> & ->).
  assert (fw = fround_Z w) by congruence. assert (fh = fround_Z h) by congruence. subst fw fh.
  assert (A : 0 <= x_min /\ x_min <= x_max /\ x_max <= w).
  { eapply extremes_in_frame; [|exact Xlo|exact Xhi].
    intros v [<-|[<-|[<-|[]]]]; apply X; simpl; auto. }
  assert (B : 0 <= y_min /\ y_min <= y_max /\ y_max <= h).
  { eapply extremes_in_frame; [|exact Ylo|exact Yhi].
    intros v [<-|[<-|[<-|[]]]]; apply Y; simpl; auto. }
  repeat split; solve [lia | exact Epw].
Qed.

(** X1.  For a detection whose three palm landmarks have normalized
    coordinates, in a frame of non-negative dimensions below [2^53],
    [get_hand_details] returns, the bounding box lies inside the frame, and
    the pixel width is the box width, at most the image width. *)
Theorem bounding_box_within_frame (lm : LandmarkList) (w h : Z) :
  palm_normalized lm = true -> 0 <= w < 2 ^ 53 -> 0 <= h < 2 ^ 53 ->
  exists pw x_min y_min x_max y_max,
    get_hand_details lm w h = Ok (pw, (x_min, y_min, x_max, y_max)) /\
    0 <= x_min /\ x_min <= x_max /\ x_max <= w /\
    0 <= y_min /\ y_min <= y_max /\ y_max <= h /\
    pw = x_max - x_min /\ pw <= w.
Proof.
  intros Hn Hw Hh.
  destruct (get_hand_details_in_frame lm w h Hn Hw Hh)
    as (pw & x_min & y_min & x_max & y_max & R & A1 & A2 & A3 & B1 & B2 & B3 & E).
  exists pw, x_min, y_min, x_max, y_max.
  split; [exact R|]. repeat split; lia.
Qed.

Lemma bounding_box_within_frame_witness :
  exists pw x_min y_min x_max y_max,
    get_hand_details hand_fractional 640 480 = Ok (pw, (x_min, y_min, x_max, y_max)) /\
    0 <= x_min /\ x_min <= x_max /\ x_max <= 640 /\
    0 <= y_min /\ y_min <= y_max /\ y_max <= 480 /\
    pw = x_max - x_min /\ pw <= 640.
Proof.
  apply (bounding_box_within_frame hand_fractional 640 480);
    [vm_compute; reflexivity|split; [lia|reflexivity]|split; [lia|reflexivity]].
Defined.

Lemma pow2_53_1023 : 2 ^ 53 < 2 ^ 1023.
Proof. apply Z.pow_lt_mono_r; lia. Qed.

Lemma well_formed_frame (h w : Z) (hl : LandmarkList) (key : Z) :
  well_formed_event (Frame h w (Some hl) key) = true ->
  exists pw bbox, get_hand_details hl w h = Ok (pw, bbox) /\ 0 <= pw < 2 ^ 53.
Proof.
  cbn [well_formed_event]. intros H.
  apply andb_true_iff in H. destruct H as [H Hn].
  apply andb_true_iff in H. destruct H as [H Hw2].
  apply andb_true_iff in H. destruct H as [H Hw1].
  apply andb_true_iff in H. destruct H as [Hh1 Hh2].
  apply Z.leb_le in Hh1, Hw1. apply Z.ltb_lt in Hh2, Hw2.
  destruct (get_hand_details_in_frame hl w h Hn ltac:(lia) ltac:(lia))
    as (pw & a & b & c & d & R & B).
  exists pw, (a, b, c, d). split; [exact R|lia].
Qed.

Lemma focal_length_of_returns (pw : Z) (kw : float) :
  0 < pw < 2 ^ 1023 -> gt (Float kw) (Int 0) = true ->
  exists f, focal_length_of pw kw = Ok (Float f).
Proof.
  intros Hp G. unfold focal_length_of. cbn [mul KNOWN_DISTANCE_FOR_CALIBRATION to_float bind].
  rewrite float_of_int_finite by lia. cbn [bind truediv to_float].
  rewrite (gt_zero_not_zero kw G). eauto.
Qed.

Lemma estimate_distance_returns (k f : float) (pw : Z) :
  0 < pw < 2 ^ 1023 ->
  estimate_distance (Float k) (Float f) (Int pw)
  = Ok (Float (fdiv (fmul k f) (fround_Z pw))).
Proof.
  intros Hp. unfold estimate_distance. rewrite eq_zero_int.
  destruct (Z.eqb_spec pw 0); [lia|].
  cbn [mul to_float bind truediv]. rewrite float_of_int_finite by lia. cbn [bind].
  rewrite Rounding.fround_Z_not_zero by lia. reflexivity.
Qed.

(** *** The capture loop *)

Lemma capture_step_camera (kw : float) (ev : CamEvent) (w : World) :
  camera (step_world (capture_step kw ev w)) = camera w.
Proof.
  destruct ev as [| |h wd hands key]; try reflexivity. cbn [capture_step].
  destruct (calibration_overlay hands wd h); [|reflexivity].
  destruct (capture_request key hands); [|reflexivity].
  destruct (get_hand_details l wd h) as [[pw bb]|]; [|reflexivity].
  destruct (pw >? 0); [|reflexivity].
  destruct (focal_length_of pw kw); reflexivity.
Qed.

Lemma capture_step_no_throw (kw : float) (ev : CamEvent) (w w' : World) (e : exn) :
  well_formed_event ev = true -> gt (Float kw) (Int 0) = true ->
  capture_step kw ev w <> Throw e w'.
Proof.
  intros W G. destruct ev as [| |h wd hands key]; try discriminate. cbn [capture_step].
  destruct hands as [hl|].
  - destruct (well_formed_frame h wd hl key W) as (pw & bbox & R & B).
    unfold calibration_overlay. rewrite R. cbn [bind].
    unfold capture_request. destruct (Z.land key 255 =? ord_c); [|discriminate].
    rewrite R. destruct (Z.gtb_spec pw 0) as [P|P]; [|discriminate].
    pose proof pow2_53_1023.
    destruct (focal_length_of_returns pw kw ltac:(lia) G) as (f & ->). discriminate.
  - cbn [calibration_overlay]. unfold capture_request.
    destruct (Z.land key 255 =? ord_c); discriminate.
Qed.

Lemma capture_loop_no_raise (kw : float) (events : list CamEvent) (w : World) :
  forallb well_formed_event events = true -> gt (Float kw) (Int 0) = true ->
  match capture_loop kw events w with
  | Returned _ w' => forallb well_formed_event (camera w') = true
  | Raised _ _ => False
  | Pending _ => True
  end.
Proof.
  intros W G. revert w W. induction events as [|ev rest IH]; intros w W; [exact I|].
  cbn [forallb] in W. apply andb_true_iff in W. destruct W as [We Wr].
  cbn [capture_loop].
  pose proof (capture_step_camera kw ev (set_camera rest w)) as C.
  pose proof (capture_step_no_throw kw ev (set_camera rest w)) as T.
  destruct (capture_step kw ev (set_camera rest w)) as [w1|f w1|e w1]; cbn [step_world] in C.
  - apply IH. exact Wr.
  - rewrite C. exact Wr.
  - exact (T w1 e We G eq_refl).
Qed.

Lemma ask_hand_width_raised (lines : list string) (w w' : World) (e : exn) :
  ask_hand_width lines w = Raised e w' -> e = EOFError.
Proof.
  revert w. induction lines as [|l rest IH]; intros w H.
  - inversion H. reflexivity.
  - cbn [ask_hand_width] in H.
    destruct (float_of_string l) as [v|ex] eqn:E.
    + destruct (gt (Float v) (Int 0)); [discriminate|]. eapply IH. exact H.
    + apply float_of_string_raises in E. subst ex. eapply IH. exact H.
Qed.

Lemma calibrate_no_crash (w : World) :
  forallb well_formed_event (camera w) = true ->
  match calibrate w with
  | Returned _ w' => forallb well_formed_event (camera w') = true
  | Raised e _ => e = EOFError
  | Pending _ => True
  end.
Proof.
  intros W. unfold calibrate.
  destruct (ask_hand_width _ _) as [kw w1|e w1|w1] eqn:A; [|eapply ask_hand_width_raised; exact A|exact I].
  destruct (ask_hand_width_returned _ _ _ _ A) as (G & _ & C).
  match goal with
  | |- context [capture_loop kw ?evs ?w2] =>
      assert (Wc : forallb well_formed_event evs = true)
        by (cbn [camera print]; rewrite C; exact W);
      pose proof (capture_loop_no_raise kw evs w2 Wc G) as L;
      destruct (capture_loop kw evs w2); [exact L|contradiction|exact I]
  end.
Qed.

(** *** The runtime loop *)

Lemma runtime_step_camera (fl kw : num) (ev : CamEvent) (w : World) :
  camera (step_world (runtime_step fl kw ev w)) = camera w.
Proof.
  destruct ev as [| |h wd hands key]; try reflexivity. cbn [runtime_step].
  destruct (runtime_overlay fl kw hands wd h); [|reflexivity].
  destruct (Z.land key 255 =? ord_q); reflexivity.
Qed.

Lemma runtime_step_no_throw (fl kw : float) (ev : CamEvent) (w w' : World) (e : exn) :
  well_formed_event ev = true ->
  runtime_step (Float fl) (Float kw) ev w <> Throw e w'.
Proof.
  intros W. destruct ev as [| |h wd hands key]; try discriminate. cbn [runtime_step].
  destruct hands as [hl|].
  - destruct (well_formed_frame h wd hl key W) as (pw & bbox & R & B).
    unfold runtime_overlay. rewrite R. cbn [bind].
    pose proof pow2_53_1023.
    destruct (Z.gtb_spec pw 0) as [P|P].
    + rewrite estimate_distance_returns by lia. cbn [bind].
      destruct (Z.land key 255 =? ord_q); discriminate.
    + destruct (Z.land key 255 =? ord_q); discriminate.
  - cbn [runtime_overlay]. destruct (Z.land key 255 =? ord_q); discriminate.
Qed.

Lemma runtime_loop_no_raise (fl kw : float) (events : list CamEvent) (w w' : World) (e : exn) :
  forallb well_formed_event events = true ->
  runtime_loop (Float fl) (Float kw) events w <> Raised e w'.
Proof.
  revert w. induction events as [|ev rest IH]; intros w W; [discriminate|].
  cbn [forallb] in W. apply andb_true_iff in W. destruct W as [We Wr].
  cbn [runtime_loop].
  pose proof (runtime_step_no_throw fl kw ev (set_camera rest w)) as T.
  destruct (runtime_step (Float fl) (Float kw) ev (set_camera rest w)) as [w1|f w1|e1 w1].
  - apply IH. exact Wr.
  - discriminate.
  - intros _. exact (T w1 e1 We eq_refl).
Qed.

(** *** Obtaining the calibration data *)

Lemma read_calibration_raised (content : string) (e : exn) :
  read_calibration content = Raise e -> e = ValueError.
Proof.
  rewrite read_calibration_lines. intros H.
  destruct (float_of_string (first_line content)) as [a|ex] eqn:A.
  - cbn [bind] in H. destruct (float_of_string (second_line content)) as [b|ex] eqn:B.
    + discriminate.
    + cbn [bind] in H. inversion H; subst. eapply float_of_string_raises. exact B.
  - cbn [bind] in H. inversion H; subst. eapply float_of_string_raises. exact A.
Qed.

Lemma read_calibration_floats (content : string) (a b : num) :
  read_calibration content = Ok (a, b) -> exists f k, a = Float f /\ b = Float k.
Proof.
  rewrite read_calibration_lines. intros H.
  apply bind_Ok in H. destruct H as (f & _ & H).
  apply bind_Ok in H. destruct H as (k & _ & H). inversion H. eauto.
Qed.

Lemma calibrate_values_outcome (w : World) :
  forallb well_formed_event (camera w) = true -> calibration_outcome (calibrate_values w).
Proof.
  intros W. unfold calibrate_values.
  pose proof (calibrate_no_crash w W) as C.
  destruct (calibrate w) as [[fl kwv] w1|e w1|w1] eqn:E; cbn [calibration_outcome]; auto.
  split; [|exact C].
  destruct (calibrate_writes_canonical w w1 fl kwv E) as (f & k & -> & -> & _). eauto.
Qed.

Lemma choice_loop_outcome (content : string) (lines : list string) (w : World) :
  forallb well_formed_event (camera w) = true ->
  calibration_outcome (choice_loop content lines w).
Proof.
  revert w. induction lines as [|l rest IH]; intros w W; [reflexivity|].
  cbn [choice_loop].
  destruct (lower l =? "y")%string.
  - destruct (read_calibration content) as [[a b]|e] eqn:R.
    + cbn [calibration_outcome]. split; [|exact W].
      destruct (read_calibration_floats content a b R) as (f & k & -> & ->). eauto.
    + apply read_calibration_raised in R. subst e. apply calibrate_values_outcome. exact W.
  - destruct (lower l =? "n")%string; [apply calibrate_values_outcome; exact W|].
    apply IH. exact W.
Qed.

Lemma get_calibration_data_outcome (w : World) :
  forallb well_formed_event (camera w) = true ->
  calibration_outcome (get_calibration_data w).
Proof.
  intros W. unfold get_calibration_data.
  destruct (calibration_file w);
    [apply choice_loop_outcome|apply calibrate_values_outcome]; exact W.
Qed.

(** X15.  When every camera event to come is well formed (frame dimensions
    below [2^53], normalized palm landmarks), the only exception [main] and
    [calibrate] can end in is the [EOFError] of [input] at the end of the
    input: no frame makes them raise. *)
Theorem main_raises_only_at_end_of_input (w : World) :
  forallb well_formed_event (camera w) = true ->
  (forall e w', main w = Raised e w' -> e = EOFError) /\
  (forall e w', calibrate w = Raised e w' -> e = EOFError).
Proof.
  intros W. split.
  - intros e w' H. unfold main in H.
    pose proof (get_calibration_data_outcome w W) as G.
    destruct (get_calibration_data w) as [[a b] w1|e1 w1|w1]; cbn [calibration_outcome] in G.
    + destruct G as [(f & k & -> & ->) C].
      pose proof (runtime_loop_no_raise f k (camera (print StartingEstimation w1))
                    (print StartingEstimation w1)) as R.
      destruct (runtime_loop (Float f) (Float k) _ _) as [u w3|e3 w3|w3]; try discriminate.
      exfalso. exact (R w3 e3 C eq_refl).
    + inversion H; subst. reflexivity.
    + discriminate.
  - intros e w' H. pose proof (calibrate_no_crash w W) as C. rewrite H in C. exact C.
Qed.

Lemma main_raises_only_at_end_of_input_witness :
  (forall e w', main world_calibrating = Raised e w' -> e = EOFError) /\
  (forall e w', calibrate world_calibrating = Raised e w' -> e = EOFError).
Proof.
  apply (main_raises_only_at_end_of_input world_calibrating). vm_compute. reflexivity.
Defined.

(** ** What the runtime loop does to the world *)

Lemma runtime_step_effects (fl kw : num) (ev : CamEvent) (w : World) :
  let w' := step_world (runtime_step fl kw ev w) in
  stdin w' = stdin w /\ stdout w' = stdout w /\
  calibration_file w' = calibration_file w /\
  exists frames, screen w' = screen w ++ frames /\ (List.length frames <= 1)%nat /\
                 Forall (fun f => fst f = EstimatorWindow) frames.
Proof.
  cbv zeta.
  assert (Z0 : exists frames, screen w = screen w ++ frames /\ (List.length frames <= 1)%nat /\
                 Forall (fun f : Window * list Draw => fst f = EstimatorWindow) frames).
  { exists []. rewrite app_nil_r. repeat split; auto. }
  destruct ev as [| |h wd hands key]; cbn [runtime_step step_world]; auto.
  destruct (runtime_overlay fl kw hands wd h) as [image|e]; cbn [step_world]; auto.
  assert (Z1 : exists frames, screen (imshow EstimatorWindow image w) = screen w ++ frames /\
                 (List.length frames <= 1)%nat /\
                 Forall (fun f : Window * list Draw => fst f = EstimatorWindow) frames).
  { exists [(EstimatorWindow, image)]. repeat split; auto. }
  destruct (Z.land key 255 =? ord_q); cbn [step_world]; auto.
Qed.

Lemma runtime_loop_silent (fl kw : num) (events : list CamEvent) (w : World) :
  let w' := world_of (runtime_loop fl kw events w) in
  stdin w' = stdin w /\ stdout w' = stdout w /\ calibration_file w' = calibration_file w.
Proof.
  cbv zeta. revert w. induction events as [|ev rest IH]; intros w; [auto|].
  cbn [runtime_loop].
  destruct (runtime_step_effects fl kw ev (set_camera rest w)) as (S1 & S2 & S3 & _).
  cbv zeta in *. cbn [stdin stdout calibration_file set_camera] in S1, S2, S3.
  destruct (runtime_step fl kw ev (set_camera rest w)) as [w1|u w1|e w1];
    cbn [step_world world_of] in *; auto.
  destruct (IH w1) as (I1 & I2 & I3). repeat split; congruence.
Qed.

(** X12.  The runtime loop only shows frames: whatever its outcome, it has
    printed nothing, read no input and left the calibration file as it was,
    and what it added to the screen is at most one frame per camera event,
    each in the estimator window. *)
Theorem runtime_loop_only_shows_frames (fl kw : num) (events : list CamEvent) (w : World) :
  let w' := world_of (runtime_loop fl kw events w) in
  stdin w' = stdin w /\ stdout w' = stdout w /\
  calibration_file w' = calibration_file w /\
  exists frames, screen w' = screen w ++ frames /\
                 (List.length frames <= List.length events)%nat /\
                 Forall (fun f => fst f = EstimatorWindow) frames.
Proof.
  cbv zeta. destruct (runtime_loop_silent fl kw events w) as (S1 & S2 & S3).
  repeat (split; [assumption|]). clear S1 S2 S3.
  revert w. induction events as [|ev rest IH]; intros w.
  - exists []. cbn [runtime_loop world_of]. rewrite app_nil_r. repeat split; auto.
  - cbn [runtime_loop].
    destruct (runtime_step_effects fl kw ev (set_camera rest w)) as (_ & _ & _ & fr & S4 & L4 & F4).
    cbn [screen set_camera] in S4.
    destruct (runtime_step fl kw ev (set_camera rest w)) as [w1|u w1|e w1];
      cbn [step_world world_of] in *;
      try (exists fr; repeat split; auto; cbn [List.length]; lia).
    destruct (IH w1) as (fr' & I4 & L5 & F5).
    exists (fr ++ fr'). rewrite I4, S4, app_assoc. repeat split.
    + rewrite length_app. cbn [List.length]. lia.
    + apply Forall_app. auto.
Qed.

(** X13.  The runtime loop returns at the first event that quits (camera
    closed, or [q] pressed), after events that do not; the events after it
    are left unread.  It is still looping at the end of the modelled events
    only if none of them quits. *)
Theorem runtime_loop_stops_at_quit (fl kw : num) (events : list CamEvent) (w : World) :
  match runtime_loop fl kw events w with
  | Returned _ w' =>
      exists pre ev, events = pre ++ ev :: camera w' /\
                     forallb (fun e => negb (quits e)) pre = true /\ quits ev = true
  | Pending _ => forallb (fun e => negb (quits e)) events = true
  | Raised _ _ => True
  end.
Proof.
  revert w. induction events as [|ev rest IH]; intros w; [reflexivity|].
  cbn [runtime_loop].
  pose proof (runtime_step_camera fl kw ev (set_camera rest w)) as C.
  assert (Q : match runtime_step fl kw ev (set_camera rest w) with
              | Continue _ => quits ev = false
              | Break _ _ => quits ev = true
              | Throw _ _ => True
              end).
  { destruct ev as [| |h wd hands key]; cbn [runtime_step quits]; auto.
    destruct (runtime_overlay fl kw hands wd h); auto.
    destruct (Z.land key 255 =? ord_q); reflexivity. }
  destruct (runtime_step fl kw ev (set_camera rest w)) as [w1|u w1|e w1];
    cbn [step_world] in C.
  - specialize (IH w1). destruct (runtime_loop fl kw rest w1) as [u w'|e w'|w'].
    + destruct IH as (pre & ev' & E & F & Qe). exists (ev :: pre), ev'.
      rewrite E at 1. cbn [forallb Datatypes.app]. rewrite Q, F. auto.
    + exact I.
    + cbn [forallb]. rewrite Q, IH. reflexivity.
  - exists [], ev. rewrite C. auto.
  - exact I.
Qed.

(** X14.  What [main] prints after the calibration data is obtained:
    "Starting distance estimation", then nothing per frame, then "Program
    finished." when the loop ends; a run that is still looping or raised in
    the loop has printed only the former. *)
Theorem main_messages (w : World) (a b : pyval) (w1 : World) :
  get_calibration_data w = Returned (a, b) w1 ->
  match main w with
  | Returned _ w' => stdout w' = stdout w1 ++ [StartingEstimation; ProgramFinished]
  | Raised _ w' | Pending w' => stdout w' = stdout w1 ++ [StartingEstimation]
  end.
Proof.
  intros G. unfold main. rewrite G.
  destruct (get_calibration_data_returned w w1 a b G) as [Ha Hb].
  destruct a as [|fl]; [discriminate|]. destruct b as [|kw]; [discriminate|].
  destruct (runtime_loop_silent fl kw (camera (print StartingEstimation w1))
              (print StartingEstimation w1)) as (_ & S & _).
  cbn [stdout print] in S.
  destruct (runtime_loop fl kw _ _) as [u w3|e w3|w3]; cbn [world_of] in S.
  - cbn [stdout print]. rewrite S, <- app_assoc. reflexivity.
  - exact S.
  - exact S.
Qed.

Lemma main_messages_witness :
  match main world_reusing with
  | Returned _ w' =>
      stdout w' = stdout (world_of (get_calibration_data world_reusing))
                  ++ [StartingEstimation; ProgramFinished]
  | Raised _ w' | Pending w' =>
      stdout w' = stdout (world_of (get_calibration_data world_reusing))
                  ++ [StartingEstimation]
  end.
Proof.
  apply (main_messages world_reusing (PyNum (Float f450_0)) (PyNum (Float f8_0))
           (world_of (get_calibration_data world_reusing))).
  vm_compute. reflexivity.
Defined.

(** ** What a calibration leaves behind *)

Lemma capture_step_file (kw : float) (ev : CamEvent) (w : World) :
  match capture_step kw ev w with
  | Continue w' | Throw _ w' => calibration_file w' = calibration_file w
  | Break fl w' =>
      calibration_file w' = Some (calibration_text fl (Float kw)) /\
      exists ms, stdout w' = stdout w ++ ms ++ [CalibrationSuccessful fl; SavedTo CALIBRATION_FILE]
  end.
Proof.
  destruct ev as [| |h wd hands key]; try reflexivity. cbn [capture_step].
  destruct (calibration_overlay hands wd h); [|reflexivity].
  destruct (capture_request key hands); [|reflexivity].
  destruct (get_hand_details l wd h) as [[pw bb]|]; [|reflexivity].
  destruct (pw >? 0); [|reflexivity].
  destruct (focal_length_of pw kw); [|reflexivity].
  split; [reflexivity|]. exists []. cbn [stdout print write_file imshow Datatypes.app].
  rewrite <- app_assoc. reflexivity.
Qed.

Lemma capture_step_stdout (kw : float) (ev : CamEvent) (w : World) :
  exists ms, stdout (step_world (capture_step kw ev w)) = stdout w ++ ms.
Proof.
  destruct ev as [| |h wd hands key]; try (exists []; rewrite app_nil_r; reflexivity).
  cbn [capture_step].
  destruct (calibration_overlay hands wd h); [|exists []; rewrite app_nil_r; reflexivity].
  destruct (capture_request key hands); [|exists []; rewrite app_nil_r; reflexivity].
  destruct (get_hand_details l wd h) as [[pw bb]|]; [|exists []; rewrite app_nil_r; reflexivity].
  destruct (pw >? 0); [|exists [CouldNotMeasure]; reflexivity].
  destruct (focal_length_of pw kw) as [f|]; [|exists []; rewrite app_nil_r; reflexivity].
  exists [CalibrationSuccessful f; SavedTo CALIBRATION_FILE].
  cbn [step_world stdout print write_file imshow]. rewrite <- app_assoc. reflexivity.
Qed.

Lemma capture_loop_file (kw : float) (events : list CamEvent) (w : World) :
  match capture_loop kw events w with
  | Returned fl w' =>
      calibration_file w' = Some (calibration_text fl (Float kw)) /\
      exists ms, stdout w' = stdout w ++ ms ++ [CalibrationSuccessful fl; SavedTo CALIBRATION_FILE]
  | Raised _ w' | Pending w' => calibration_file w' = calibration_file w
  end.
Proof.
  revert w. induction events as [|ev rest IH]; intros w; [reflexivity|].
  cbn [capture_loop].
  pose proof (capture_step_file kw ev (set_camera rest w)) as F.
  pose proof (capture_step_stdout kw ev (set_camera rest w)) as [m1 S].
  destruct (capture_step kw ev (set_camera rest w)) as [w1|f w1|e w1];
    cbn [step_world calibration_file stdout set_camera] in *.
  - specialize (IH w1). destruct (capture_loop kw rest w1) as [fl w'|e w'|w'].
    + destruct IH as [I1 (ms & I2)]. split; [exact I1|].
      exists (m1 ++ ms). rewrite I2, S, <- !app_assoc. reflexivity.
    + congruence.
    + congruence.
  - exact F.
  - exact F.
Qed.

Lemma ask_hand_width_stdout (lines : list string) (w : World) :
  exists ms, stdout (world_of (ask_hand_width lines w)) = stdout w ++ ms.
Proof.
  revert w. induction lines as [|l rest IH]; intros w; cbn [ask_hand_width].
  - exists [PromptHandWidth]. reflexivity.
  - assert (N : forall m, exists ms,
               stdout (world_of (ask_hand_width rest
                                   (print m (set_stdin rest (print PromptHandWidth w)))))
               = stdout w ++ ms).
    { intros m. destruct (IH (print m (set_stdin rest (print PromptHandWidth w)))) as [ms E].
      exists ([PromptHandWidth; m] ++ ms). rewrite E. cbn [stdout print set_stdin].
      rewrite <- !app_assoc. reflexivity. }
    destruct (float_of_string l) as [v|[]]; cbn [world_of];
      try (exists [PromptHandWidth]; reflexivity); try apply N.
    destruct (gt (Float v) (Int 0)); cbn [world_of]; [exists [PromptHandWidth]; reflexivity|apply N].
Qed.

Lemma ask_hand_width_file (lines : list string) (w : World) :
  calibration_file (world_of (ask_hand_width lines w)) = calibration_file w.
Proof.
  revert w. induction lines as [|l rest IH]; intros w; cbn [ask_hand_width]; [reflexivity|].
  destruct (float_of_string l) as [v|[]]; cbn [world_of]; try reflexivity;
    try (rewrite IH; reflexivity).
  destruct (gt (Float v) (Int 0)); cbn [world_of]; [reflexivity|rewrite IH; reflexivity].
Qed.

(** X9.  [calibrate] writes the calibration file only when it succeeds: a
    calibration that returns has left the two lines of the pair it returns
    in the file and printed "Calibration successful" and "Saved to
    calibration_data.txt" last; a calibration that raised or is still
    waiting for a capture has left the file as it was. *)
Theorem calibrate_writes_on_success_only (w : World) :
  match calibrate w with
  | Returned (fl, kw) w' =>
      calibration_file w' = Some (calibration_text fl kw) /\
      exists ms, stdout w' = stdout w ++ ms ++ [CalibrationSuccessful fl; SavedTo CALIBRATION_FILE]
  | Raised _ w' | Pending w' => calibration_file w' = calibration_file w
  end.
Proof.
  unfold calibrate.
  pose proof (ask_hand_width_file (stdin (print StartingCalibration w))
                (print StartingCalibration w)) as AF.
  pose proof (ask_hand_width_stdout (stdin (print StartingCalibration w))
                (print StartingCalibration w)) as [m1 AS].
  destruct (ask_hand_width _ _) as [kw w1|e w1|w1]; cbn [world_of] in AF, AS;
    cbn [calibration_file print] in AF; try exact AF.
  match goal with
  | |- context [capture_loop kw ?evs ?w2] =>
      pose proof (capture_loop_file kw evs w2) as L; destruct (capture_loop kw evs w2)
  end; cbn [calibration_file print] in L.
  - destruct L as [L1 (ms & L2)]. split; [exact L1|].
    cbn [stdout print] in L2, AS.
    exists ([StartingCalibration] ++ m1 ++ [PlaceHand KNOWN_DISTANCE_FOR_CALIBRATION; EnsurePalm; PressC] ++ ms).
    rewrite L2, AS, <- !app_assoc. reflexivity.
  - congruence.
  - congruence.
Qed.

(** X7.  The capture loop returns at the first event that captures ([c]
    pressed on a detected hand of pixel width above 0), after events that
    do not, and leaves the later events unread; it is still waiting at the
    end of the modelled events only if none of them captures. *)
Theorem capture_loop_stops_at_capture (kw : float) (events : list CamEvent) (w : World) :
  match capture_loop kw events w with
  | Returned _ w' =>
      exists pre ev, events = pre ++ ev :: camera w' /\
                     forallb (fun e => negb (captures e)) pre = true /\ captures ev = true
  | Pending _ => forallb (fun e => negb (captures e)) events = true
  | Raised _ _ => True
  end.
Proof.
  revert w. induction events as [|ev rest IH]; intros w; [reflexivity|].
  cbn [capture_loop].
  pose proof (capture_step_camera kw ev (set_camera rest w)) as C.
  assert (Q : match capture_step kw ev (set_camera rest w) with
              | Continue _ => captures ev = false
              | Break _ _ => captures ev = true
              | Throw _ _ => True
              end).
  { destruct ev as [| |h wd hands key]; cbn [capture_step captures]; auto.
    destruct (calibration_overlay hands wd h); [|exact I].
    unfold capture_request.
    destruct hands as [hl|]; [|destruct (Z.land key 255 =? ord_c); reflexivity].
    destruct (Z.land key 255 =? ord_c); [|reflexivity]. cbn [andb].
    destruct (get_hand_details hl wd h) as [[pw bb]|]; [|exact I].
    destruct (pw >? 0); [|reflexivity].
    destruct (focal_length_of pw kw); [reflexivity|exact I]. }
  destruct (capture_step kw ev (set_camera rest w)) as [w1|f w1|e w1];
    cbn [step_world] in C.
  - specialize (IH w1). destruct (capture_loop kw rest w1) as [u w'|e w'|w'].
    + destruct IH as (pre & ev' & E & F & Qe). exists (ev :: pre), ev'.
      rewrite E at 1. cbn [forallb Datatypes.app]. rewrite Q, F. auto.
    + exact I.
    + cbn [forallb]. rewrite Q, IH. reflexivity.
  - exists [], ev. rewrite C. auto.
  - exact I.
Qed.

(** ** The prompts *)

Lemma ask_hand_width_skips (bad rest : list string) (w : World) :
  Forall (fun l => width_rejection l <> None) bad ->
  exists w1,
    ask_hand_width (bad ++ rest) w = ask_hand_width rest w1 /\
    stdout w1 = stdout w ++ width_reprompts bad /\
    calibration_file w1 = calibration_file w /\ camera w1 = camera w /\ screen w1 = screen w.
Proof.
  intros F. revert w. induction F as [|l bad Hl F IH]; intros w.
  - exists w. cbn [Datatypes.app width_reprompts flat_map]. rewrite app_nil_r. auto.
  - cbn [Datatypes.app ask_hand_width]. unfold width_rejection in Hl.
    assert (N : forall m, width_rejection l = Some m ->
              exists w1,
                ask_hand_width (bad ++ rest) (print m (set_stdin (bad ++ rest) (print PromptHandWidth w)))
                = ask_hand_width rest w1 /\
                stdout w1 = stdout w ++ width_reprompts (l :: bad) /\
                calibration_file w1 = calibration_file w /\ camera w1 = camera w /\
                screen w1 = screen w).
    { intros m Hm.
      destruct (IH (print m (set_stdin (bad ++ rest) (print PromptHandWidth w))))
        as (w1 & E & S & C1 & C2 & C3).
      exists w1. split; [exact E|]. split; [|auto].
      rewrite S. unfold width_reprompts. cbn [flat_map]. rewrite Hm.
      cbn [stdout print set_stdin]. rewrite <- !app_assoc. reflexivity. }
    unfold width_rejection in N.
    destruct (float_of_string l) as [v|e] eqn:E.
    + destruct (gt (Float v) (Int 0)); [contradiction|]. apply N. reflexivity.
    + apply float_of_string_raises in E. subst e. apply N. reflexivity.
Qed.

(** X6.  The hand-width prompt returns the first line that parses as a float
    above 0.  Each line before it costs one prompt and one notice
    ("Please enter a positive number." for a number that is not above 0,
    "Invalid input." for a text that is no number); the lines after it are
    left unread.  When every line is rejected, the prompt ends in the
    [EOFError] of [input]. *)
Theorem hand_width_prompt (bad : list string) (w : World) :
  Forall (fun l => width_rejection l <> None) bad ->
  (forall good rest kw,
     float_of_string good = Ok kw -> gt (Float kw) (Int 0) = true ->
     exists w',
       ask_hand_width (bad ++ good :: rest) w = Returned kw w' /\
       stdin w' = rest /\
       stdout w' = stdout w ++ width_reprompts bad ++ [PromptHandWidth]) /\
  (exists w',
     ask_hand_width bad w = Raised EOFError w' /\
     stdout w' = stdout w ++ width_reprompts bad ++ [PromptHandWidth]).
Proof.
  intros F. split.
  - intros good rest kw Hg Hp.
    destruct (ask_hand_width_skips bad (good :: rest) w F) as (w1 & E & S & _).
    rewrite E. cbn [ask_hand_width]. rewrite Hg, Hp.
    eexists. split; [reflexivity|]. split; [reflexivity|].
    cbn [stdout set_stdin print]. rewrite S, <- app_assoc. reflexivity.
  - destruct (ask_hand_width_skips bad [] w F) as (w1 & E & S & _).
    rewrite app_nil_r in E. rewrite E. cbn [ask_hand_width].
    eexists. split; [reflexivity|].
    cbn [stdout set_stdin print]. rewrite S, <- app_assoc. reflexivity.
Qed.

Lemma hand_width_prompt_witness :
  exists w',
    ask_hand_width (["abc"; "-3"; "0"; "nan"]%string ++ "8.0"%string :: ["y"%string])
      world_calibrating
    = Returned f8_0 w' /\
    stdin w' = ["y"%string] /\
    stdout w' = stdout world_calibrating
                ++ [PromptHandWidth; InvalidNumber; PromptHandWidth; EnterPositive;
                    PromptHandWidth; EnterPositive; PromptHandWidth; EnterPositive]
                ++ [PromptHandWidth].
Proof.
  apply (proj1 (hand_width_prompt ["abc"; "-3"; "0"; "nan"]%string world_calibrating
                  ltac:(repeat constructor; vm_compute; discriminate))
           "8.0"%string ["y"%string] f8_0); vm_compute; reflexivity.
Defined.

Lemma choice_loop_skips (content : string) (bad rest : list string) (w : World) :
  forallb invalid_choice bad = true ->
  choice_loop content (bad ++ rest) w
  = choice_loop content rest
      {| stdin := match bad with [] => stdin w | _ => rest end;
         stdout := stdout w ++ flat_map (fun _ => [PromptChoice; InvalidChoice]) bad;
         calibration_file := calibration_file w; camera := camera w; screen := screen w |}.
Proof.
  revert w. induction bad as [|l bad IH]; intros w F.
  - cbn [Datatypes.app flat_map]. rewrite app_nil_r. destruct w; reflexivity.
  - cbn [forallb] in F. apply andb_true_iff in F. destruct F as [Fl Fb].
    unfold invalid_choice in Fl. apply negb_true_iff, orb_false_iff in Fl.
    destruct Fl as [Fy Fn].
    cbn [Datatypes.app choice_loop]. rewrite Fy, Fn. rewrite (IH _ Fb).
    f_equal. cbn [stdin stdout calibration_file camera screen print set_stdin flat_map].
    rewrite <- !app_assoc. destruct bad; reflexivity.
Qed.

(** X10.  The reuse prompt skips every answer that is neither [y] nor [n]
    (in either case of letter): each costs one prompt and one "Invalid
    choice" notice, and the run goes on as [get_calibration_data] does from
    the first answer after them. *)
Theorem reuse_prompt_skips_invalid (bad rest : list string) (w : World) (content : string) :
  calibration_file w = Some content -> stdin w = bad ++ rest ->
  forallb invalid_choice bad = true ->
  get_calibration_data w = get_calibration_data (after_invalid_choices bad rest w).
Proof.
  intros Hf Hs F. unfold get_calibration_data at 1.
  rewrite Hf, Hs, (choice_loop_skips content bad rest w F).
  unfold get_calibration_data, after_invalid_choices. cbn [calibration_file stdin].
  rewrite Hf. destruct bad as [|l bad]; [|reflexivity].
  cbn [Datatypes.app] in Hs. rewrite Hs. reflexivity.
Qed.

Lemma reuse_prompt_skips_invalid_witness :
  get_calibration_data world_reusing
  = get_calibration_data (after_invalid_choices ["maybe"%string] ["Y"%string] world_reusing).
Proof.
  apply (reuse_prompt_skips_invalid ["maybe"%string] ["Y"%string] world_reusing
           ("450.0" ++ LF ++ "8.0" ++ LF)%string); reflexivity.
Defined.

(** ** The sign of the estimated distance *)

Lemma gt_zero_cases (kw : float) :
  gt (Float kw) (Int 0) = true ->
  kw = S754_infinity false \/ exists m e, kw = S754_finite false m e.
Proof.
  intros G. destruct kw as [s|s| |s m e]; try discriminate.
  - destruct s; [discriminate|]. left. reflexivity.
  - right. apply (gt_zero_finite _ G). reflexivity.
Qed.

Lemma has_sign_nonnegative (d : float) :
  has_sign false d -> is_nan d = false /\ lt (Float d) (Int 0) = false.
Proof.
  destruct d as [s|s| |s m e]; cbn [has_sign]; intros H; try contradiction; subst s;
    split; try reflexivity.
  unfold lt. cbn [compare fcompare_Z cond_Zopp].
  pose proof (Order.pow2_pos (e - Z.min e 0) ltac:(lia)).
  destruct (Z.compare_spec (Zpos m * 2 ^ (e - Z.min e 0)) (0 * 2 ^ (0 - Z.min e 0)));
    try reflexivity. nia.
Qed.

(** X5.  With a hand width and a focal length above 0 and a pixel width
    from 1 to below [2^1023], [estimate_distance] returns a float that is
    neither negative nor a NaN (it can be 0.0 or infinite when the product
    or the quotient leaves the binary64 range). *)
Theorem distance_is_nonnegative (k f : float) (pw : Z) :
  gt (Float k) (Int 0) = true -> gt (Float f) (Int 0) = true -> 0 < pw < 2 ^ 1023 ->
  exists d,
    estimate_distance (Float k) (Float f) (Int pw) = Ok (Float d) /\
    is_nan d = false /\ lt (Float d) (Int 0) = false.
Proof.
  intros Gk Gf Hp. rewrite estimate_distance_returns by exact Hp.
  eexists. split; [reflexivity|]. apply has_sign_nonnegative.
  destruct (Rounding.fround_Z_nonzero pw ltac:(lia)) as (_ & Sp & _).
  pose proof (Rounding.fround_Z_finite pw ltac:(lia)) as Fp.
  pose proof (Rounding.fround_Z_not_zero pw ltac:(lia)) as Zp.
  assert (Hs : (pw <? 0) = false) by (apply Z.ltb_ge; lia). rewrite Hs in Sp.
  destruct (fround_Z pw) as [s|s| |s mw ew]; try discriminate.
  cbn [has_sign] in Sp. subst s.
  assert (P : has_sign false (fmul k f)).
  { destruct (gt_zero_cases k Gk) as [->|(mk & ek & ->)];
      destruct (gt_zero_cases f Gf) as [->|(mf & ef & ->)]; try reflexivity.
    destruct (Rounding.fmul_finite false false mk mf ek ef) as (_ & S & _). exact S. }
  destruct (fmul k f) as [s|s| |s mp ep]; cbn [has_sign] in P; try contradiction; subst s;
    try reflexivity.
  destruct (Rounding.fdiv_finite false false mp mw ep ew) as (_ & S & _). exact S.
Qed.

Lemma distance_is_nonnegative_witness :
  exists d,
    estimate_distance (Float f8_0) (Float f450_0) (Int 100) = Ok (Float d) /\
    is_nan d = false /\ lt (Float d) (Int 0) = false.
Proof.
  apply (distance_is_nonnegative f8_0 f450_0 100); [reflexivity|reflexivity|].
  split; [lia|reflexivity].
Defined.

(** ** The landmarks that are read *)

Lemma index_nth_error {A : Type} (xs : list A) (i : nat) :
  index xs i = match nth_error xs i with Some a => Ok a | None => Raise IndexError end.
Proof. reflexivity. Qed.

Lemma get_hand_details_coordinates (lm lm' : LandmarkList) (w h : Z)
    (p0 p5 p17 q0 q5 q17 : Landmark) :
  palm_points lm = Ok [p0; p5; p17] -> palm_points lm' = Ok [q0; q5; q17] ->
  (x p0, y p0) = (x q0, y q0) -> (x p5, y p5) = (x q5, y q5) ->
  (x p17, y p17) = (x q17, y q17) ->
  get_hand_details lm w h = get_hand_details lm' w h.
Proof.
  intros H H' E0 E5 E17. unfold get_hand_details. rewrite H, H'. cbn [bind].
  unfold x_coords_of, y_coords_of. cbn [comprehension].
  inversion E0. inversion E5. inversion E17.
  repeat match goal with E : x _ = x _ |- _ => rewrite E; clear E end.
  repeat match goal with E : y _ = y _ |- _ => rewrite E; clear E end.
  reflexivity.
Qed.

(** X2.  [get_hand_details] reads the [x] and [y] of the landmarks 0, 5 and
    17 and nothing else: two detections that agree there (whether the
    landmark exists, and its [x] and [y] if it does) give the same result,
    whatever their other landmarks and their depths [z]. *)
Theorem get_hand_details_reads_palm_only (lm lm' : LandmarkList) (w h : Z) :
  (forall i, In i [WRIST; INDEX_FINGER_MCP; PINKY_MCP] ->
     option_map (fun p => (x p, y p)) (nth_error (landmark lm) i)
     = option_map (fun p => (x p, y p)) (nth_error (landmark lm') i)) ->
  get_hand_details lm w h = get_hand_details lm' w h.
Proof.
  intros H.
  pose proof (H WRIST ltac:(simpl; auto)) as H0.
  pose proof (H INDEX_FINGER_MCP ltac:(simpl; auto)) as H5.
  pose proof (H PINKY_MCP ltac:(simpl; auto)) as H17.
  destruct (nth_error (landmark lm) WRIST) as [p0|] eqn:A0;
    destruct (nth_error (landmark lm') WRIST) as [q0|] eqn:B0; try discriminate.
  2:{ unfold get_hand_details, palm_points. rewrite !index_nth_error, A0, B0. reflexivity. }
  destruct (nth_error (landmark lm) INDEX_FINGER_MCP) as [p5|] eqn:A5;
    destruct (nth_error (landmark lm') INDEX_FINGER_MCP) as [q5|] eqn:B5; try discriminate.
  2:{ unfold get_hand_details, palm_points. rewrite !index_nth_error, A0, B0, A5, B5. reflexivity. }
  destruct (nth_error (landmark lm) PINKY_MCP) as [p17|] eqn:A17;
    destruct (nth_error (landmark lm') PINKY_MCP) as [q17|] eqn:B17; try discriminate.
  2:{ unfold get_hand_details, palm_points.
      rewrite !index_nth_error, A0, B0, A5, B5, A17, B17. reflexivity. }
  cbn [option_map] in H0, H5, H17.
  apply (get_hand_details_coordinates lm lm' w h p0 p5 p17 q0 q5 q17);
    try congruence;
    unfold palm_points; rewrite !index_nth_error;
    rewrite ?A0, ?B0, ?A5, ?B5, ?A17, ?B17; reflexivity.
Qed.

Lemma get_hand_details_reads_palm_only_witness :
  get_hand_details hand_120 640 480
  = get_hand_details
      {| landmark := map (fun p => {| x := x p; y := y p; z := f0_5 |})
                         (firstn 18 (landmark hand_120)) |} 640 480.
Proof.
  apply (get_hand_details_reads_palm_only hand_120 _ 640 480).
  intros i [<-|[<-|[<-|[]]]]; reflexivity.
Defined.

(** ** Missing landmarks *)

Lemma palm_points_length (lm : LandmarkList) :
  if (List.length (landmark lm) <? 18)%nat
  then palm_points lm = Raise IndexError
  else exists p0 p5 p17, palm_points lm = Ok [p0; p5; p17].
Proof.
  unfold palm_points. rewrite !index_nth_error.
  destruct (Nat.ltb_spec (List.length (landmark lm)) 18) as [L|L].
  - destruct (nth_error (landmark lm) WRIST) eqn:E0; [|reflexivity]. cbn [bind].
    destruct (nth_error (landmark lm) INDEX_FINGER_MCP) eqn:E5; [|reflexivity]. cbn [bind].
    destruct (nth_error (landmark lm) PINKY_MCP) eqn:E17; [|reflexivity].
    assert (N : nth_error (landmark lm) PINKY_MCP <> None) by (rewrite E17; discriminate).
    apply nth_error_Some in N. unfold PINKY_MCP in N. lia.
  - destruct (nth_error (landmark lm) WRIST) eqn:E0.
    2:{ apply nth_error_None in E0. unfold WRIST in E0. lia. }
    destruct (nth_error (landmark lm) INDEX_FINGER_MCP) eqn:E5.
    2:{ apply nth_error_None in E5. unfold INDEX_FINGER_MCP in E5. lia. }
    destruct (nth_error (landmark lm) PINKY_MCP) eqn:E17.
    2:{ apply nth_error_None in E17. unfold PINKY_MCP in E17. lia. }
    cbn [bind]. eauto.
Qed.

Lemma int_raises (a : num) (e : exn) : int a = Raise e -> e <> IndexError.
Proof.
  destruct a as [z|f]; [discriminate|]. destruct f; cbn [int int_of_float];
    intros H; inversion H; discriminate.
Qed.

(** X3.  [get_hand_details] raises [IndexError] exactly when the detection
    has fewer than 18 landmarks, so that one of the landmarks 0, 5 and 17 is
    missing. *)
Theorem get_hand_details_index_error (lm : LandmarkList) (w h : Z) :
  get_hand_details lm w h = Raise IndexError <-> (List.length (landmark lm) < 18)%nat.
Proof.
  pose proof (palm_points_length lm) as P.
  destruct (Nat.ltb_spec (List.length (landmark lm)) 18) as [L|L].
  - split; [intros _; exact L|intros _].
    unfold get_hand_details. rewrite P. reflexivity.
  - split; [|lia]. intros H. exfalso.
    destruct P as (p0 & p5 & p17 & P). unfold get_hand_details in H. rewrite P in H.
    cbn [bind] in H.
    destruct (x_coords_of [p0; p5; p17] w) as [xs|e] eqn:X.
    2:{ cbn [bind] in H. inversion H; subst.
        unfold x_coords_of in X. cbn [comprehension] in X.
        destruct (mul (Float (x p0)) (Int w)) eqn:M0;
          [|apply mul_raises in M0; inversion X; congruence].
        destruct (mul (Float (x p5)) (Int w)) eqn:M5;
          [|apply mul_raises in M5; inversion X; congruence].
        destruct (mul (Float (x p17)) (Int w)) eqn:M17;
          [|apply mul_raises in M17; inversion X; congruence].
        discriminate. }
    destruct (y_coords_of [p0; p5; p17] h) as [ys|e] eqn:Y.
    2:{ cbn [bind] in H. inversion H; subst.
        unfold y_coords_of in Y. cbn [comprehension] in Y.
        destruct (mul (Float (y p0)) (Int h)) eqn:M0;
          [|apply mul_raises in M0; inversion Y; congruence].
        destruct (mul (Float (y p5)) (Int h)) eqn:M5;
          [|apply mul_raises in M5; inversion Y; congruence].
        destruct (mul (Float (y p17)) (Int h)) eqn:M17;
          [|apply mul_raises in M17; inversion Y; congruence].
        discriminate. }
    apply coords3 in X. destruct X as (fw & _ & ->).
    apply coords3 in Y. destruct Y as (fh & _ & ->).
    cbn [bind] in H. rewrite !min_floats, !max_floats in H. cbn [bind int] in H.
    repeat match type of H with
           | bind (int_of_float ?v) _ = _ =>
               let E := fresh "E" in
               destruct (int_of_float v) eqn:E;
               [cbn [bind] in H
               |cbn [bind] in H; inversion H; subst;
                apply (int_raises (Float v) IndexError E); reflexivity]
           end.
    discriminate.
Qed.

(** ** Coordinates that are not numbers *)

Lemma fmul_nan (v : float) : fmul S754_nan v = S754_nan.
Proof. reflexivity. Qed.

Lemma is_nan_eq (v : float) : is_nan v = true -> v = S754_nan.
Proof. destruct v; try discriminate; reflexivity. Qed.

Lemma fmin_step_nan (cur : float) : fmin_step cur S754_nan = cur.
Proof. unfold fmin_step, flt. destruct cur; reflexivity. Qed.

Lemma fmax_step_nan (cur : float) : fmax_step cur S754_nan = cur.
Proof. unfold fmax_step, flt. destruct cur; reflexivity. Qed.

(** X4.  How [get_hand_details] treats an [x] that is not a number.  At the
    wrist, the first of the three points, it makes [min] return a NaN and
    the call raise [ValueError].  At the index-finger or pinky knuckle it is
    skipped without notice, because no comparison with a NaN holds: the
    horizontal extent returned is that of the other two points. *)
Theorem nan_coordinate (lm : LandmarkList) (w h : Z) (p0 p5 p17 : Landmark) (fw : float) :
  palm_points lm = Ok [p0; p5; p17] -> float_of_int w = Ok fw ->
  (is_nan (x p0) = true ->
   forall fh, float_of_int h = Ok fh -> get_hand_details lm w h = Raise ValueError) /\
  (forall pw x_min y_min x_max y_max,
     get_hand_details lm w h = Ok (pw, (x_min, y_min, x_max, y_max)) ->
     (is_nan (x p5) = true ->
      (m <- Py.min (map Float [fmul (x p0) fw; fmul (x p17) fw]) ;; int m) = Ok x_min /\
      (m <- Py.max (map Float [fmul (x p0) fw; fmul (x p17) fw]) ;; int m) = Ok x_max) /\
     (is_nan (x p17) = true ->
      (m <- Py.min (map Float [fmul (x p0) fw; fmul (x p5) fw]) ;; int m) = Ok x_min /\
      (m <- Py.max (map Float [fmul (x p0) fw; fmul (x p5) fw]) ;; int m) = Ok x_max)).
Proof.
  intros P Hw. split.
  - intros N fh Hh. apply is_nan_eq in N.
    unfold get_hand_details. rewrite P. cbn [bind].
    unfold x_coords_of, y_coords_of. cbn [comprehension mul to_float bind].
    rewrite Hw, Hh. cbn [bind]. rewrite N, fmul_nan.
    change [Float S754_nan; Float (fmul (x p5) fw); Float (fmul (x p17) fw)]
      with (map Float [S754_nan; fmul (x p5) fw; fmul (x p17) fw]).
    rewrite min_floats, Order.fold_fmin_nan. reflexivity.
  - intros pw x_min y_min x_max y_max R.
    destruct (get_hand_details_inv lm w h pw x_min y_min x_max y_max R)
      as (q0 & q5 & q17 & fw' & fh & Hq & Hfw & _ & HH).
    cbv zeta in HH. destruct HH as (_ & _ & Xlo & Xhi & _).
    assert (q0 = p0 /\ q5 = p5 /\ q17 = p17) by (rewrite P in Hq; inversion Hq; auto).
    destruct H as (-> & -> & ->).
    assert (fw' = fw) by congruence. subst fw'.
    rewrite min_floats in Xlo. rewrite max_floats in Xhi. cbn [fold_left] in Xlo, Xhi.
    split; intros N; apply is_nan_eq in N; rewrite N, fmul_nan in Xlo, Xhi;
      rewrite fmin_step_nan in Xlo; rewrite fmax_step_nan in Xhi;
      rewrite min_floats, max_floats; cbn [fold_left]; split; assumption.
Qed.

Lemma nan_coordinate_witness :
  (m <- Py.min (map Float [fmul f0_25 (fround_Z 640); fmul (dyadic 5 (-4)) (fround_Z 640)]) ;;
   int m) = Ok 160 /\
  (m <- Py.max (map Float [fmul f0_25 (fround_Z 640); fmul (dyadic 5 (-4)) (fround_Z 640)]) ;;
   int m) = Ok 200.
Proof.
  apply (proj1 (proj2 (nan_coordinate hand_nan_index 640 480
                         (point f0_25 (dyadic 3 (-2))) (point S754_nan f0_5)
                         (point (dyadic 5 (-4)) f0_5) (fround_Z 640)
                         eq_refl eq_refl)
                  40 160 240 200 360 ltac:(vm_compute; reflexivity))).
  reflexivity.
Defined.

(** ** Lines of the calibration file *)

Module Lines.

Lemma readline_LF (s rest : string) :
  no_newline s = true -> readline (s ++ LF ++ rest) = ((s ++ LF)%string, rest).
Proof.
  induction s as [|c s IH]; [reflexivity|]. cbn [append readline no_newline]. intros H.
  apply andb_true_iff in H. destruct H as [H Hs].
  apply andb_true_iff in H. destruct H as [H1 H2].
  apply negb_true_iff in H1, H2. rewrite H1, H2, (IH Hs). reflexivity.
Qed.

Lemma readline_CRLF (s rest : string) :
  no_newline s = true -> readline (s ++ CRLF ++ rest) = ((s ++ LF)%string, rest).
Proof.
  induction s as [|c s IH]; [reflexivity|]. cbn [append readline no_newline]. intros H.
  apply andb_true_iff in H. destruct H as [H Hs].
  apply andb_true_iff in H. destruct H as [H1 H2].
  apply negb_true_iff in H1, H2. rewrite H1, H2, (IH Hs). reflexivity.
Qed.

Lemma readline_line_end (s nl rest : string) :
  no_newline s = true -> line_end nl = true ->
  readline (s ++ nl ++ rest) = ((s ++ LF)%string, rest).
Proof.
  intros Hs Hn. unfold line_end in Hn. apply orb_true_iff in Hn.
  destruct Hn as [E|E]; apply String.eqb_eq in E; subst nl;
    [apply readline_LF|apply readline_CRLF]; exact Hs.
Qed.

Lemma rstrip_LF (s : string) : rstrip_with is_space (s ++ LF) = rstrip_with is_space s.
Proof.
  induction s as [|c s IH]; [reflexivity|].
  change (String c s ++ LF)%string with (String c (s ++ LF)).
  cbn [rstrip_with]. rewrite IH. reflexivity.
Qed.

Lemma strip_LF (s : string) : strip (s ++ LF) = strip s.
Proof.
  unfold strip. induction s as [|c s IH]; [reflexivity|].
  change (String c s ++ LF)%string with (String c (s ++ LF)).
  cbn [lstrip_with]. destruct (is_space c); [exact IH|].
  change (String c (s ++ LF)) with (String c s ++ LF)%string. apply rstrip_LF.
Qed.

End Lines.

(** X11.  The load path reads the first two lines of the calibration file
    and nothing else.  Each line may end in a line feed or in a carriage
    return and line feed, white space around the number is dropped, and
    whatever follows the second line is ignored. *)
Theorem read_calibration_two_lines (l1 nl1 l2 nl2 extra : string) :
  no_newline l1 = true -> line_end nl1 = true ->
  no_newline l2 = true -> line_end nl2 = true ->
  read_calibration (l1 ++ nl1 ++ l2 ++ nl2 ++ extra)
  = (focal_length <- float_of_string (strip l1) ;;
     known_width <- float_of_string (strip l2) ;;
     Ok (Float focal_length, Float known_width)).
Proof.
  intros H1 N1 H2 N2. rewrite read_calibration_lines.
  unfold first_line, second_line.
  rewrite (Lines.readline_line_end l1 nl1 _ H1 N1). cbn [fst snd].
  rewrite (Lines.readline_line_end l2 nl2 _ H2 N2). cbn [fst].
  rewrite !Lines.strip_LF. reflexivity.
Qed.

Lemma read_calibration_two_lines_witness :
  read_calibration ("  450.0 " ++ CRLF ++ "8.0" ++ LF ++ "# measured on Monday")
  = Ok (Float f450_0, Float f8_0).
Proof.
  rewrite (read_calibration_two_lines "  450.0 " CRLF "8.0" LF "# measured on Monday");
    reflexivity.
Defined.

(** ** What a capture shows *)

(** X8.  A capture uses the measurement that is on the screen: when an
    iteration of the capture loop ends the calibration, the frame it has
    just shown carries the bounding box and the pixel width of the
    detection, and the focal length is computed from that same pixel
    width. *)
Theorem capture_uses_displayed_width (kw : float) (ev : CamEvent) (w w' : World) (fl : num) :
  capture_step kw ev w = Break fl w' ->
  exists pw bbox,
    screen w' = screen w ++ [(CalibrationWindow,
                              [Rectangle bbox; PixelWidthText pw; PlaceHandText])] /\
    0 < pw /\ focal_length_of pw kw = Ok fl.
Proof.
  intros H. destruct ev as [| |h wd hands key]; try discriminate.
  cbn [capture_step] in H. unfold capture_request in H.
  destruct hands as [hl|].
  2:{ cbn [calibration_overlay] in H. destruct (Z.land key 255 =? ord_c); discriminate. }
  cbn [calibration_overlay] in H.
  destruct (get_hand_details hl wd h) as [[pw bbox]|e] eqn:Hd; [|discriminate].
  cbn [bind] in H.
  destruct (Z.land key 255 =? ord_c); [|discriminate].
  rewrite Hd in H.
  destruct (Z.gtb_spec pw 0) as [Hp|Hp]; [|discriminate].
  destruct (focal_length_of pw kw) as [f|e] eqn:Hf; [|discriminate].
  inversion H; subst. exists pw, bbox. repeat split; auto.
Qed.

Lemma capture_uses_displayed_width_witness :
  exists pw bbox,
    screen (step_world (capture_step f8_0 (Frame 480 640 (Some hand_120) 99) world_calibrating))
    = screen world_calibrating
      ++ [(CalibrationWindow, [Rectangle bbox; PixelWidthText pw; PlaceHandText])] /\
    0 < pw /\ focal_length_of pw f8_0 = Ok (Float f450_0).
Proof.
  apply (capture_uses_displayed_width f8_0 (Frame 480 640 (Some hand_120) 99) world_calibrating).
  vm_compute. reflexivity.
Defined.

(** ** Keys *)

Lemma land_255_mod (key : Z) : Z.land (key mod 256) 255 = Z.land key 255.
Proof.
  change 255 with (Z.ones 8). rewrite !Z.land_ones by lia.
  change (2 ^ 8) with 256. apply Z.mod_mod. lia.
Qed.

(** X16.  Both loops look at the low byte of the key code only
    ([cv2.waitKey(5) & 0xFF]): a key code and its remainder modulo 256 have
    the same effect, in the capture loop and in the runtime loop. *)
Theorem keys_act_by_low_byte (key h wd : Z) (hands : option LandmarkList) (w : World) :
  (forall kw,
     capture_step kw (Frame h wd hands key) w
     = capture_step kw (Frame h wd hands (key mod 256)) w) /\
  (forall fl kw,
     runtime_step fl kw (Frame h wd hands key) w
     = runtime_step fl kw (Frame h wd hands (key mod 256)) w).
Proof.
  split.
  - intros kw. cbn [capture_step]. unfold capture_request. rewrite land_255_mod. reflexivity.
  - intros fl kw. cbn [runtime_step]. rewrite land_255_mod. reflexivity.
Qed.

(** ** Runs that end *)

Lemma runtime_loop_pending (fl kw : num) (events : list CamEvent) (w w' : World) :
  runtime_loop fl kw events w = Pending w' -> existsb quits events = false.
Proof.
  revert w. induction events as [|ev rest IH]; intros w H; [reflexivity|].
  cbn [runtime_loop] in H. cbn [existsb].
  destruct ev as [| |h wd hands key]; cbn [runtime_step quits] in *.
  - discriminate.
  - eapply IH. exact H.
  - destruct (runtime_overlay fl kw hands wd h); [|discriminate].
    destruct (Z.land key 255 =? ord_q); [discriminate|]. eapply IH. exact H.
Qed.

Lemma capture_loop_pending (kw : float) (events : list CamEvent) (w w' : World) :
  capture_loop kw events w = Pending w' -> existsb captures events = false.
Proof.
  revert w. induction events as [|ev rest IH]; intros w H; [reflexivity|].
  cbn [capture_loop] in H. cbn [existsb].
  destruct ev as [| |h wd hands key]; cbn [capture_step captures] in *;
    try (eapply IH; exact H).
  destruct (calibration_overlay hands wd h); [|discriminate].
  unfold capture_request in H.
  destruct hands as [hl|]; [|destruct (Z.land key 255 =? ord_c); eapply IH; exact H].
  destruct (Z.land key 255 =? ord_c); [|eapply IH; exact H]. cbn [andb].
  destruct (get_hand_details hl wd h) as [[pw bb]|]; [|discriminate].
  destruct (pw >? 0); [|eapply IH; exact H].
  destruct (focal_length_of pw kw); discriminate.
Qed.

(** X17.  A session whose input and camera events suffice runs to its end.
    When the calibration data is obtained, the camera events to come are
    well formed and one of them quits, [main] returns, having printed
    "Program finished." last.  When a positive hand width is entered, the
    camera events are well formed and one of them is a successful capture,
    [calibrate] returns. *)
Theorem session_completes (w : World) :
  (forall a b w1,
     get_calibration_data w = Returned (a, b) w1 ->
     forallb well_formed_event (camera w) = true ->
     existsb quits (camera w1) = true ->
     exists w', main w = Returned tt w' /\
                stdout w' = stdout w1 ++ [StartingEstimation; ProgramFinished]) /\
  (forall bad good rest kw,
     stdin w = bad ++ good :: rest ->
     Forall (fun l => width_rejection l <> None) bad ->
     float_of_string good = Ok kw -> gt (Float kw) (Int 0) = true ->
     forallb well_formed_event (camera w) = true ->
     existsb captures (camera w) = true ->
     exists fl w', calibrate w = Returned (fl, Float kw) w').
Proof.
  split.
  - intros a b w1 G W Q. unfold main. rewrite G.
    pose proof (get_calibration_data_outcome w W) as O. rewrite G in O.
    cbn [calibration_outcome] in O. destruct O as [(f & k & -> & ->) C].
    pose proof (runtime_loop_no_raise f k (camera (print StartingEstimation w1))
                  (print StartingEstimation w1)) as R.
    pose proof (runtime_loop_pending (Float f) (Float k) (camera (print StartingEstimation w1))
                  (print StartingEstimation w1)) as Pd.
    destruct (runtime_loop_silent (Float f) (Float k) (camera (print StartingEstimation w1))
                (print StartingEstimation w1)) as (_ & S & _).
    cbn [stdout print] in S.
    destruct (runtime_loop (Float f) (Float k) _ _) as [[] w3|e3 w3|w3]; cbn [world_of] in S.
    + eexists. split; [reflexivity|]. cbn [stdout print]. rewrite S, <- app_assoc. reflexivity.
    + exfalso. exact (R w3 e3 C eq_refl).
    + specialize (Pd w3 eq_refl). cbn [camera print] in Pd. congruence.
  - intros bad good rest kw Hs F Hg Hp W Q. unfold calibrate.
    cbn [stdin print]. rewrite Hs.
    destruct (ask_hand_width_skips bad (good :: rest) (print StartingCalibration w) F)
      as (w1 & E & _ & _ & C1 & _).
    rewrite E. cbn [ask_hand_width]. rewrite Hg, Hp.
    match goal with
    | |- context [capture_loop kw ?evs ?w2] =>
        assert (Ec : evs = camera w) by (cbn [camera print set_stdin]; exact C1);
        assert (Wc : forallb well_formed_event evs = true) by (rewrite Ec; exact W);
        assert (Qc : existsb captures evs = true) by (rewrite Ec; exact Q);
        pose proof (capture_loop_no_raise kw evs w2 Wc Hp) as L;
        pose proof (capture_loop_pending kw evs w2) as Pd;
        destruct (capture_loop kw evs w2) as [fl w3|e3 w3|w3]
    end.
    + eauto.
    + contradiction.
    + specialize (Pd w3 eq_refl). congruence.
Qed.

Lemma session_completes_witness :
  (exists w', main world_reusing = Returned tt w' /\
              stdout w' = stdout (world_of (get_calibration_data world_reusing))
                          ++ [StartingEstimation; ProgramFinished]) /\
  (exists fl w', calibrate world_calibrating = Returned (fl, Float f8_0) w').
Proof.
  split.
  - apply (proj1 (session_completes world_reusing)
             (PyNum (Float f450_0)) (PyNum (Float f8_0))
             (world_of (get_calibration_data world_reusing)));
      vm_compute; reflexivity.
  - apply (proj2 (session_completes world_calibrating) [] "8.0"%string [] f8_0);
      try (vm_compute; reflexivity). constructor.
Defined.

(** ** A wider palm is not farther *)

Module Monotone.
Import Rounding Order Exact Bounds.

Lemma rnd_ge (A B N : Z) : 0 <= A -> 0 < B -> N * B <= A -> N <= rnd A B.
Proof.
  intros HA HB H. unfold rnd.
  pose proof (Z.div_mod A B ltac:(lia)) as E.
  pose proof (Z.mod_pos_bound A B HB) as Hr.
  assert (N <= A / B) by (apply Z.div_le_lower_bound; lia).
  destruct (round_nearest_even_cases (A / B) (classify (A mod B) B)); lia.
Qed.

(** Rounding to the nearest integer is monotone on fractions. *)
Lemma rnd_mono (A B A' B' : Z) :
  0 <= A -> 0 < B -> 0 <= A' -> 0 < B' -> A * B' <= A' * B -> rnd A B <= rnd A' B'.
Proof.
  intros HA HB HA' HB' H. unfold rnd, classify.
  pose proof (Z.div_mod A B ltac:(lia)) as E.
  pose proof (Z.mod_pos_bound A B HB) as Hr.
  pose proof (Z.div_mod A' B' ltac:(lia)) as E'.
  pose proof (Z.mod_pos_bound A' B' HB') as Hr'.
  set (q := A / B) in *. set (r := A mod B) in *.
  set (q' := A' / B') in *. set (r' := A' mod B') in *.
  assert (Hq : q <= q').
  { destruct (Z_le_gt_dec q q'); [assumption|exfalso].
    assert (q' + 1 <= q) by lia.
    assert (A' < (q' + 1) * B') by lia.
    assert ((q' + 1) * B <= A) by nia.
    assert (A' * B < (q' + 1) * B' * B) by nia.
    assert ((q' + 1) * B * B' <= A * B') by nia. nia. }
  destruct (Z.eq_dec q q') as [Eq|Nq].
  - rewrite <- Eq in *.
    assert (Hrr : r * B' <= r' * B) by nia.
    destruct (Z.eqb_spec r 0) as [R0|R0]; destruct (Z.eqb_spec r' 0) as [R0'|R0'];
      cbn [round_nearest_even].
    + lia.
    + destruct (2 * r' ?= B'); try destruct (Z.even q); lia.
    + exfalso. nia.
    + destruct (Z.compare_spec (2 * r) B) as [C|C|C];
        destruct (Z.compare_spec (2 * r') B') as [C'|C'|C'];
        try destruct (Z.even q); try lia; exfalso; nia.
  - assert (q + 1 <= q') by lia.
    destruct (round_nearest_even_cases q (if r =? 0 then loc_Exact else loc_Inexact (2 * r ?= B)));
      destruct (round_nearest_even_cases q'
                  (if r' =? 0 then loc_Exact else loc_Inexact (2 * r' ?= B'))); lia.
Qed.

Lemma div_core_general (m1 m2 : positive) (e1 e2 : Z) :
  let e' := Z.min (fexp prec emax (Zdigits2 (Zpos m1) + e1 - (Zdigits2 (Zpos m2) + e2)))
                  (e1 - e2) in
  let A := Zpos m1 * 2 ^ (e1 - e2 - e') in
  SFdiv_core_binary prec emax (Zpos m1) e1 (Zpos m2) e2
  = (A / Zpos m2, e', classify (A mod Zpos m2) (Zpos m2)).
Proof.
  cbv zeta. unfold SFdiv_core_binary. cbv zeta.
  set (e' := Z.min _ (e1 - e2)).
  assert (He : 0 <= e1 - e2 - e') by (unfold e'; lia).
  set (m' := match e1 - e2 - e' with
             | Z0 => Zpos m1 | Zpos _ => Z.shiftl (Zpos m1) (e1 - e2 - e') | Zneg _ => 0 end).
  assert (Em : m' = Zpos m1 * 2 ^ (e1 - e2 - e')).
  { unfold m'. destruct (e1 - e2 - e') as [|j|j] eqn:Ej; [simpl; lia| |lia].
    apply Z.shiftl_mul_pow2. lia. }
  rewrite <- Em.
  assert (Pm : 0 <= m') by (rewrite Em; pose proof (pow2_pos (e1 - e2 - e') He); nia).
  pose proof (Z.mod_pos_bound m' (Zpos m2) ltac:(lia)) as Hr.
  unfold Z.div, Z.modulo in *. destruct (Z.div_eucl m' (Zpos m2)) as [q r].
  rewrite new_location_classify by (lia || assumption). reflexivity.
Qed.

(** A quotient of two positive finite floats, as a rounded fraction. *)
Lemma fdiv_rounded (m1 m2 : positive) (e1 e2 : Z) :
  let e' := Z.min (fexp prec emax (Zdigits2 (Zpos m1) + e1 - (Zdigits2 (Zpos m2) + e2)))
                  (e1 - e2) in
  let A := Zpos m1 * 2 ^ (e1 - e2 - e') in
  fdiv (S754_finite false m1 e1) (S754_finite false m2 e2) = rounded A (Zpos m2) e' /\
  e' <= fexp prec emax (Zdigits2 (A / Zpos m2) + e').
Proof.
  cbv zeta. unfold fdiv, SFdiv.
  pose proof (Canonical.div_core_aligned m1 m2 e1 e2) as Al.
  pose proof (div_core_general m1 m2 e1 e2) as G. cbv zeta in G. rewrite G in Al |- *.
  destruct Al as [Hq Hal]. split; [|exact Hal].
  set (e' := Z.min _ (e1 - e2)) in *.
  assert (He : 0 <= e1 - e2 - e') by (unfold e'; lia).
  pose proof (pow2_pos (e1 - e2 - e') He).
  cbn [xorb]. unfold rounded.
  apply binary_round_aux_rounds; [nia|lia|reflexivity|reflexivity].
Qed.

(** The parts of a rounded fraction: an exponent of at least -1074 and a
    mantissa of at most [2^53], which is at least [2^52] unless the exponent
    is -1074. *)
Lemma rounded_parts (A B ex : Z) :
  0 <= A -> 0 < B -> ex <= fexp prec emax (Zdigits2 (A / B) + ex) ->
  let e1 := ex + shift_of (A / B) ex in
  let mr := rnd A (B * 2 ^ shift_of (A / B) ex) in
  e1 = Z.max (Zdigits2 (A / B) + ex - 53) (-1074) /\
  0 <= mr <= 2 ^ 53 /\ (-1074 < e1 -> 2 ^ 52 <= mr).
Proof.
  intros HA HB Hal. cbv zeta.
  pose proof (Z.div_mod A B ltac:(lia)) as E.
  pose proof (Z.mod_pos_bound A B HB) as Hr.
  pose proof (Z.div_pos A B HA HB) as Hq.
  set (q := A / B) in *.
  rewrite fexp_val in Hal.
  assert (S1 : shift_of q ex = Z.max (Zdigits2 q + ex - 53) (-1074) - ex)
    by (unfold shift_of; rewrite fexp_val; lia).
  pose proof (shift_of_nonneg q ex) as Hs.
  pose proof (pow2_pos (shift_of q ex) Hs) as Ps.
  set (sh := shift_of q ex) in *.
  assert (T53 : 2 ^ 53 = 2 * 2 ^ 52) by reflexivity.
  split; [lia|]. split; [split|].
  - apply rnd_nonneg; nia.
  - destruct (Z.eq_dec q 0) as [Q0|Q0].
    + apply rnd_le; [lia|nia|]. rewrite Q0 in E. nia.
    + pose proof (Zdigits2_bounds q ltac:(lia)) as [Lq Uq].
      pose proof (Zdigits2_pos q ltac:(lia)) as Dq.
      destruct (Z_le_gt_dec sh (Zdigits2 q)) as [Le|Gt].
      * assert (Hd : 0 <= Zdigits2 q - sh <= 53) by lia.
        pose proof (pow2_le (Zdigits2 q - sh) 53 Hd) as P1.
        transitivity (2 ^ (Zdigits2 q - sh)); [|exact P1].
        apply rnd_le; [lia|nia|].
        assert (Sp : 2 ^ Zdigits2 q = 2 ^ (Zdigits2 q - sh) * 2 ^ sh).
        { rewrite <- Z.pow_add_r by lia. f_equal. lia. }
        assert (A < 2 ^ Zdigits2 q * B) by nia. rewrite Sp in H. nia.
      * pose proof (pow2_le (Zdigits2 q) sh ltac:(lia)) as P1.
        apply rnd_le; [lia|nia|]. nia.
  - intros N.
    assert (Q0 : q <> 0) by (intros Z0; rewrite Z0 in *; simpl (Zdigits2 0) in *; lia).
    pose proof (Zdigits2_bounds q ltac:(lia)) as [Lq Uq].
    assert (Sh : sh = Zdigits2 q - 53) by lia.
    apply rnd_ge; [lia|nia|].
    assert (Sp : 2 ^ (Zdigits2 q - 1) = 2 ^ 52 * 2 ^ sh).
    { rewrite <- Z.pow_add_r by lia. f_equal. lia. }
    rewrite Sp in Lq. nia.
Qed.

(** The exponents of two rounded fractions are ordered as the fractions. *)
Lemma rounded_exponents (A B ex A' B' ex' c : Z) :
  0 <= A -> 0 < B -> 0 <= A' -> 0 < B' -> c <= ex -> c <= ex' ->
  ex <= fexp prec emax (Zdigits2 (A / B) + ex) ->
  A * B' * 2 ^ (ex - c) <= A' * B * 2 ^ (ex' - c) ->
  Z.max (Zdigits2 (A / B) + ex - 53) (-1074) <= Z.max (Zdigits2 (A' / B') + ex' - 53) (-1074).
Proof.
  intros HA HB HA' HB' Hc Hc' Hal H.
  pose proof (Z.div_mod A B ltac:(lia)) as E.
  pose proof (Z.mod_pos_bound A B HB) as Hr.
  pose proof (Z.div_pos A B HA HB) as Hq.
  pose proof (Z.div_mod A' B' ltac:(lia)) as E'.
  pose proof (Z.mod_pos_bound A' B' HB') as Hr'.
  pose proof (Z.div_pos A' B' HA' HB') as Hq'.
  set (q := A / B) in *. set (q' := A' / B') in *.
  rewrite fexp_val in Hal.
  destruct (Z.eq_dec q 0) as [Q0|Q0].
  { rewrite Q0 in *. simpl (Zdigits2 0) in *. lia. }
  pose proof (Zdigits2_bounds q ltac:(lia)) as [Lq Uq].
  pose proof (Zdigits2_pos q ltac:(lia)) as Dq.
  pose proof (Zdigits2_nonneg q') as Dq'.
  assert (Uq' : q' + 1 <= 2 ^ Zdigits2 q').
  { destruct (Z.eq_dec q' 0) as [Z0|Z0]; [rewrite Z0; simpl; lia|].
    pose proof (Zdigits2_bounds q' ltac:(lia)). lia. }
  pose proof (pow2_pos (ex - c) ltac:(lia)) as P1.
  pose proof (pow2_pos (ex' - c) ltac:(lia)) as P2.
  assert (K : q * 2 ^ (ex - c) < (q' + 1) * 2 ^ (ex' - c)).
  { assert (K1 : q * B * B' * 2 ^ (ex - c) <= A * B' * 2 ^ (ex - c)).
    { apply Z.mul_le_mono_nonneg_r; [lia|]. apply Z.mul_le_mono_nonneg_r; lia. }
    assert (K2 : A' * B * 2 ^ (ex' - c) < (q' + 1) * B' * B * 2 ^ (ex' - c)).
    { apply Z.mul_lt_mono_pos_r; [lia|].
      replace ((q' + 1) * B' * B) with ((q' + 1) * B' * B) by ring.
      replace (A' * B) with (A' * B) by ring.
      apply Z.mul_lt_mono_pos_r; lia. }
    assert (K3 : q * 2 ^ (ex - c) * (B * B') < (q' + 1) * 2 ^ (ex' - c) * (B * B')).
    { replace (q * 2 ^ (ex - c) * (B * B')) with (q * B * B' * 2 ^ (ex - c)) by ring.
      replace ((q' + 1) * 2 ^ (ex' - c) * (B * B'))
        with ((q' + 1) * B' * B * 2 ^ (ex' - c)) by ring. lia. }
    apply Z.mul_lt_mono_pos_r in K3; [exact K3|]. nia. }
  assert (K4 : 2 ^ (Zdigits2 q - 1 + (ex - c)) < 2 ^ (Zdigits2 q' + (ex' - c))).
  { rewrite !Z.pow_add_r by lia.
    eapply Z.le_lt_trans; [|eapply Z.lt_le_trans; [exact K|]].
    - apply Z.mul_le_mono_nonneg_r; lia.
    - apply Z.mul_le_mono_nonneg_r; lia. }
  apply Z.pow_lt_mono_r_iff in K4; lia.
Qed.

(** ... and so are their mantissas, brought to the smaller exponent. *)
Lemma rounded_mantissas (A B ex A' B' ex' c : Z) :
  0 <= A -> 0 < B -> 0 <= A' -> 0 < B' -> c <= ex -> c <= ex' ->
  ex <= fexp prec emax (Zdigits2 (A / B) + ex) ->
  ex' <= fexp prec emax (Zdigits2 (A' / B') + ex') ->
  A * B' * 2 ^ (ex - c) <= A' * B * 2 ^ (ex' - c) ->
  let e1 := ex + shift_of (A / B) ex in
  let e1' := ex' + shift_of (A' / B') ex' in
  e1 <= e1' /\
  rnd A (B * 2 ^ shift_of (A / B) ex)
  <= rnd A' (B' * 2 ^ shift_of (A' / B') ex') * 2 ^ (e1' - e1).
Proof.
  intros HA HB HA' HB' Hc Hc' Hal Hal' H. cbv zeta.
  destruct (rounded_parts A B ex HA HB Hal) as (E1 & [M0 M1] & M2).
  destruct (rounded_parts A' B' ex' HA' HB' Hal') as (E1' & [M0' M1'] & M2').
  pose proof (rounded_exponents A B ex A' B' ex' c HA HB HA' HB' Hc Hc' Hal H) as EE.
  pose proof (shift_of_nonneg (A / B) ex) as Hs.
  pose proof (shift_of_nonneg (A' / B') ex') as Hs'.
  set (sh := shift_of (A / B) ex) in *. set (sh' := shift_of (A' / B') ex') in *.
  set (mr := rnd A (B * 2 ^ sh)) in *. set (mr' := rnd A' (B' * 2 ^ sh')) in *.
  split; [lia|].
  destruct (Z.eq_dec (ex + sh) (ex' + sh')) as [Eq|Ne].
  - rewrite <- Eq, Z.sub_diag, Z.pow_0_r, Z.mul_1_r.
    pose proof (pow2_pos sh Hs) as Ps. pose proof (pow2_pos sh' Hs') as Ps'.
    apply rnd_mono; [exact HA|nia|exact HA'|nia|].
    (* both sides of [H], times [2^(e1 - max ex ex')] *)
    set (c0 := Z.min ex ex').
    assert (H0 : A * B' * 2 ^ (ex - c0) <= A' * B * 2 ^ (ex' - c0)).
    { pose proof (pow2_pos (c0 - c) ltac:(unfold c0; lia)) as Pc.
      apply (Z.mul_le_mono_pos_r _ _ (2 ^ (c0 - c)) Pc).
      rewrite <- !Z.mul_assoc, <- !Z.pow_add_r by (unfold c0; lia).
      replace (ex - c0 + (c0 - c)) with (ex - c) by lia.
      replace (ex' - c0 + (c0 - c)) with (ex' - c) by lia.
      rewrite !Z.mul_assoc. exact H. }
    set (d := ex + sh - Z.max ex ex').
    assert (Hd : 0 <= d) by (unfold d; lia).
    pose proof (pow2_pos d Hd) as Pd.
    assert (X1 : 2 ^ sh' = 2 ^ (ex - c0) * 2 ^ d).
    { rewrite <- Z.pow_add_r by (unfold c0; lia). f_equal. unfold d, c0. lia. }
    assert (X2 : 2 ^ sh = 2 ^ (ex' - c0) * 2 ^ d).
    { rewrite <- Z.pow_add_r by (unfold c0; lia). f_equal. unfold d, c0. lia. }
    rewrite X1, X2.
    replace (A * (B' * (2 ^ (ex - c0) * 2 ^ d))) with (A * B' * 2 ^ (ex - c0) * 2 ^ d) by ring.
    replace (A' * (B * (2 ^ (ex' - c0) * 2 ^ d))) with (A' * B * 2 ^ (ex' - c0) * 2 ^ d) by ring.
    apply Z.mul_le_mono_nonneg_r; lia.
  - assert (L : 1 <= ex' + sh' - (ex + sh)) by lia.
    pose proof (pow2_le 1 (ex' + sh' - (ex + sh)) ltac:(lia)) as P1.
    change (2 ^ 1) with 2 in P1.
    assert (T53 : 2 ^ 53 = 2 * 2 ^ 52) by reflexivity.
    specialize (M2' ltac:(lia)).
    transitivity (2 ^ 53); [lia|]. rewrite T53, (Z.mul_comm 2). apply Z.mul_le_mono_nonneg; lia.
Qed.

(** The float a rounded mantissa renormalises to: its value is kept unless
    it leaves the range. *)
Lemma finish_shape (mr e1 : Z) :
  0 <= mr <= 2 ^ 53 -> -1074 <= e1 -> (-1074 < e1 -> 2 ^ 52 <= mr) ->
  (mr = 0 /\ finish false mr e1 = S754_zero false) \/
  (0 < mr /\ (971 < e1 \/ (e1 = 971 /\ mr = 2 ^ 53)) /\
   finish false mr e1 = S754_infinity false) \/
  (0 < mr /\ (e1 < 971 \/ (e1 = 971 /\ mr < 2 ^ 53)) /\
   exists p e, finish false mr e1 = S754_finite false p e /\ e1 <= e /\
               Zpos p * 2 ^ (e - e1) = mr).
Proof.
  intros [H0 H1] He Hn. unfold finish.
  assert (T53 : 2 ^ 53 = 9007199254740992) by reflexivity.
  assert (T52 : 2 ^ 52 = 4503599627370496) by reflexivity.
  destruct (Z.eq_dec mr 0) as [->|N0].
  { left. split; [reflexivity|].
    rewrite Z.div_0_l by (pose proof (pow2_pos (shift_of 0 e1) (shift_of_nonneg _ _)); lia).
    reflexivity. }
  right.
  assert (Hp : 0 < mr) by lia.
  pose proof (Zdigits2_bounds mr Hp) as [Lm Um].
  pose proof (Zdigits2_pos mr Hp) as Dm.
  destruct (Z.eq_dec mr (2 ^ 53)) as [E53|N53].
  - assert (Dg : Zdigits2 mr = 54) by (rewrite E53; reflexivity).
    assert (Sh : shift_of mr e1 = 1) by (unfold shift_of; rewrite fexp_val, Dg; lia).
    rewrite Sh. rewrite E53. change (2 ^ 53 / 2 ^ 1) with (Zpos 4503599627370496).
    destruct (Z.leb_spec (e1 + 1) 971) as [L|L].
    + right. split; [lia|]. split; [lia|].
      exists 4503599627370496%positive, (e1 + 1). split; [reflexivity|]. split; [lia|].
      replace (e1 + 1 - e1) with 1 by lia. reflexivity.
    + left. split; [lia|]. split; [lia|]. reflexivity.
  - assert (Dg : Zdigits2 mr <= 53) by (apply Zdigits2_upper; lia).
    assert (Dl : -1074 < e1 -> Zdigits2 mr = 53).
    { intros G. specialize (Hn G). apply Zdigits2_unique; [lia|]. split; [exact Hn|lia]. }
    assert (Sh : shift_of mr e1 = 0) by (unfold shift_of; rewrite fexp_val; lia).
    rewrite Sh, Z.pow_0_r, Z.div_1_r, Z.add_0_r.
    destruct mr as [|p|p]; try lia.
    destruct (Z.leb_spec e1 971) as [L|L].
    + right. split; [lia|]. split; [lia|].
      exists p, e1. split; [reflexivity|]. split; [lia|].
      rewrite Z.sub_diag, Z.pow_0_r. lia.
    + left. split; [lia|]. split; [lia|]. reflexivity.
Qed.

(** Rounding a quotient is monotone. *)
Lemma rounded_mono (A B ex A' B' ex' c : Z) :
  0 <= A -> 0 < B -> 0 <= A' -> 0 < B' -> c <= ex -> c <= ex' ->
  ex <= fexp prec emax (Zdigits2 (A / B) + ex) ->
  ex' <= fexp prec emax (Zdigits2 (A' / B') + ex') ->
  A * B' * 2 ^ (ex - c) <= A' * B * 2 ^ (ex' - c) ->
  fle (rounded A B ex) (rounded A' B' ex') = true.
Proof.
  intros HA HB HA' HB' Hc Hc' Hal Hal' H. unfold rounded.
  destruct (rounded_parts A B ex HA HB Hal) as (E1 & M01 & M2).
  destruct (rounded_parts A' B' ex' HA' HB' Hal') as (E1' & M01' & M2').
  destruct (rounded_mantissas A B ex A' B' ex' c HA HB HA' HB' Hc Hc' Hal Hal' H) as [EE MM].
  set (e1 := ex + shift_of (A / B) ex) in *.
  set (e1' := ex' + shift_of (A' / B') ex') in *.
  set (mr := rnd A (B * 2 ^ shift_of (A / B) ex)) in *.
  set (mr' := rnd A' (B' * 2 ^ shift_of (A' / B') ex')) in *.
  clearbody e1 e1' mr mr'.
  pose proof (pow2_pos (e1' - e1) ltac:(lia)) as Pd.
  destruct (finish_shape mr e1 M01 ltac:(lia) M2)
    as [[Z F]|[(P & I & F)|(P & I & p & e & F & Le & V)]];
    destruct (finish_shape mr' e1' M01' ltac:(lia) M2')
      as [[Z' F']|[(P' & I' & F')|(P' & I' & p' & e' & F' & Le' & V')]];
    rewrite F, F'; try reflexivity.
  - exfalso. rewrite Z' in MM. lia.
  - exfalso.
    destruct I as [I|[I1 I2]]; [lia|].
    destruct I' as [I'|[I1' I2']]; [lia|].
    assert (X : e1' - e1 = 0) by lia. rewrite X, Z.pow_0_r in MM. lia.
  - exfalso. rewrite Z' in MM. lia.
  - apply (fle_key e1); try reflexivity; cbn [expo]; try lia.
    right. split; [reflexivity|]. cbn [sval cond_Zopp].
    rewrite V.
    replace (e' - e1) with ((e' - e1') + (e1' - e1)) by lia.
    rewrite Z.pow_add_r by lia. rewrite Z.mul_assoc, V'. exact MM.
Qed.

(** The comparison with an integer, at any common alignment. *)
Lemma fcompare_Z_key (c z : Z) (x : float) :
  is_nan x = false -> c <= expo x -> c <= 0 ->
  fcompare_Z x z
  = Some (if cls x =? 0 then Z.compare (sval c x) (z * 2 ^ (- c)) else Z.compare (cls x) 0).
Proof.
  intros Nx Hx Hc. pose proof (pow2_pos (- c) ltac:(lia)) as Pc.
  destruct x as [s|s| |s m e]; try discriminate; cbn [expo] in Hx.
  - cbn [fcompare_Z cls sval]. simpl (0 =? 0). cbv iota. f_equal.
    destruct (Z.compare_spec 0 z) as [E|E|E]; symmetry;
      [apply Z.compare_eq_iff|apply Z.compare_lt_iff|apply Z.compare_gt_iff]; nia.
  - destruct s; reflexivity.
  - rewrite fcompare_Z_sval. cbn [cls]. simpl (0 =? 0). cbv iota. f_equal.
    set (c0 := Z.min e 0). cbn [sval].
    pose proof (pow2_pos (c0 - c) ltac:(unfold c0; lia)) as Pd.
    assert (X1 : cond_Zopp s (Zpos m * 2 ^ (e - c))
                 = cond_Zopp s (Zpos m * 2 ^ (e - c0)) * 2 ^ (c0 - c)).
    { rewrite cond_Zopp_mul, <- Z.mul_assoc, <- Z.pow_add_r by (unfold c0; lia).
      do 3 f_equal. lia. }
    assert (X2 : z * 2 ^ (- c) = z * 2 ^ (- c0) * 2 ^ (c0 - c)).
    { rewrite <- Z.mul_assoc, <- Z.pow_add_r by (unfold c0; lia). do 2 f_equal. lia. }
    rewrite X1, X2. apply Zmult_compare_compat_r. lia.
Qed.

(** A float below an integer bounds every smaller float below it. *)
Lemma lt_int_fle (x y : float) (z : Z) :
  fle x y = true -> lt (Float y) (Int z) = true -> lt (Float x) (Int z) = true.
Proof.
  intros H L. destruct (fle_not_nan _ _ H) as [Nx Ny].
  set (c := Z.min 0 (Z.min (expo x) (expo y))).
  apply (fle_key c) in H; try assumption; try (unfold c; lia).
  unfold lt in *. cbn [compare] in *.
  rewrite (fcompare_Z_key c) in L |- * by (assumption || (unfold c; lia)).
  assert (Cx : -1 <= cls x <= 1) by (destruct x as [|[]| |]; simpl; lia).
  assert (Cy : -1 <= cls y <= 1) by (destruct y as [|[]| |]; simpl; lia).
  destruct (Z.eqb_spec (cls y) 0) as [Ey|Ey]; destruct (Z.eqb_spec (cls x) 0) as [Ex|Ex].
  - destruct (Z.compare_spec (sval c y) (z * 2 ^ (- c))) as [C|C|C]; try discriminate.
    assert (C' : sval c x < z * 2 ^ (- c)) by lia.
    apply Z.compare_lt_iff in C'. rewrite C'. reflexivity.
  - assert (C' : cls x < 0) by lia. apply Z.compare_lt_iff in C'. rewrite C'. reflexivity.
  - destruct (Z.compare_spec (cls y) 0) as [C|C|C]; try discriminate. lia.
  - destruct (Z.compare_spec (cls y) 0) as [C|C|C]; try discriminate.
    assert (C' : cls x < 0) by lia. apply Z.compare_lt_iff in C'. rewrite C'. reflexivity.
Qed.

(** Dividing one non-negative float by a larger integer below [2^53] does
    not give a larger quotient. *)
Lemma fdiv_antitone (p : float) (pw pw' : Z) :
  has_sign false p -> 0 < pw <= pw' -> pw' < 2 ^ 53 ->
  fle (fdiv p (fround_Z pw')) (fdiv p (fround_Z pw)) = true.
Proof.
  intros Sp Hp Hp'.
  destruct (Pixels.fround_Z_small pw ltac:(lia)) as (mw & ew & -> & Hew & Emw).
  destruct (Pixels.fround_Z_small pw' ltac:(lia)) as (mw' & ew' & -> & Hew' & Emw').
  destruct p as [s|s| |s mp ep]; cbn [has_sign] in Sp; try contradiction; subst s;
    try reflexivity.
  destruct (fdiv_rounded mp mw ep ew) as [-> Al].
  destruct (fdiv_rounded mp mw' ep ew') as [-> Al'].
  set (e := Z.min (fexp prec emax (Zdigits2 (Zpos mp) + ep - (Zdigits2 (Zpos mw) + ew)))
                  (ep - ew)) in *.
  set (e' := Z.min (fexp prec emax (Zdigits2 (Zpos mp) + ep - (Zdigits2 (Zpos mw') + ew')))
                   (ep - ew')) in *.
  assert (He : e <= ep - ew) by (unfold e; lia).
  assert (He' : e' <= ep - ew') by (unfold e'; lia).
  clearbody e e'.
  set (c := Z.min e e').
  pose proof (pow2_pos (ep - ew - e) ltac:(lia)) as P1.
  pose proof (pow2_pos (ep - ew' - e') ltac:(lia)) as P2.
  apply (rounded_mono _ _ _ _ _ _ c); try assumption; try (unfold c; lia); try nia.
  rewrite Emw, Emw'.
  set (g := ep - ew - ew' - c).
  assert (Hg : 0 <= g) by (unfold g, c; lia).
  pose proof (pow2_pos g Hg) as Pg.
  assert (X1 : Zpos mp * 2 ^ (ep - ew' - e') * (pw * 2 ^ (- ew)) * 2 ^ (e' - c)
               = Zpos mp * pw * 2 ^ g).
  { replace (Zpos mp * 2 ^ (ep - ew' - e') * (pw * 2 ^ (- ew)) * 2 ^ (e' - c))
      with (Zpos mp * pw * (2 ^ (ep - ew' - e') * 2 ^ (- ew) * 2 ^ (e' - c))) by ring.
    rewrite <- !Z.pow_add_r by (unfold c; lia). do 2 f_equal. unfold g. lia. }
  assert (X2 : Zpos mp * 2 ^ (ep - ew - e) * (pw' * 2 ^ (- ew')) * 2 ^ (e - c)
               = Zpos mp * pw' * 2 ^ g).
  { replace (Zpos mp * 2 ^ (ep - ew - e) * (pw' * 2 ^ (- ew')) * 2 ^ (e - c))
      with (Zpos mp * pw' * (2 ^ (ep - ew - e) * 2 ^ (- ew') * 2 ^ (e - c))) by ring.
    rewrite <- !Z.pow_add_r by (unfold c; lia). do 2 f_equal. unfold g. lia. }
  rewrite X1, X2. apply Z.mul_le_mono_nonneg_r; [lia|].
  apply Z.mul_le_mono_nonneg_l; lia.
Qed.

End Monotone.

(** X18.  A wider palm is never estimated farther away: for a hand width and
    a focal length above 0 and pixel widths [0 < pw <= pw' < 2^53],
    [estimate_distance] returns floats [d] for [pw] and [d'] for [pw'] with
    [d' <= d]; so once the distance is below an integer threshold (60 for the
    warning of [main]), it stays below it for every wider palm. *)
Theorem wider_palm_not_farther (k f : float) (pw pw' t : Z) :
  gt (Float k) (Int 0) = true -> gt (Float f) (Int 0) = true ->
  0 < pw <= pw' -> pw' < 2 ^ 53 ->
  exists d d',
    estimate_distance (Float k) (Float f) (Int pw) = Ok (Float d) /\
    estimate_distance (Float k) (Float f) (Int pw') = Ok (Float d') /\
    fle d' d = true /\
    (lt (Float d) (Int t) = true -> lt (Float d') (Int t) = true).
Proof.
  intros Gk Gf Hp Hp'.
  assert (B : 2 ^ 53 < 2 ^ 1023) by exact pow2_53_1023.
  rewrite !estimate_distance_returns by lia.
  do 2 eexists. split; [reflexivity|]. split; [reflexivity|].
  assert (P : has_sign false (fmul k f)).
  { destruct (gt_zero_cases k Gk) as [->|(mk & ek & ->)];
      destruct (gt_zero_cases f Gf) as [->|(mf & ef & ->)]; try reflexivity.
    destruct (Rounding.fmul_finite false false mk mf ek ef) as (_ & S & _). exact S. }
  pose proof (Monotone.fdiv_antitone (fmul k f) pw pw' P Hp Hp') as M.
  split; [exact M|]. apply Monotone.lt_int_fle. exact M.
Qed.

Lemma wider_palm_not_farther_witness :
  exists d d',
    estimate_distance (Float f8_0) (Float f450_0) (Int 60) = Ok (Float d) /\
    estimate_distance (Float f8_0) (Float f450_0) (Int 100) = Ok (Float d') /\
    fle d' d = true /\
    (lt (Float d) (Int 60) = true -> lt (Float d') (Int 60) = true).
Proof.
  apply (wider_palm_not_farther f8_0 f450_0 60 100 60);
    [reflexivity|reflexivity|lia|reflexivity].
Defined.

(** ** The calibration pose *)

Module Rational.
Import QArith Qpower Lqa.
Import Rounding Order Exact Bounds Monotone.
Local Open Scope Z_scope.

Lemma Q2_pos (e : Z) : (0 < Q2 e)%Q.
Proof. apply Qpower_0_lt. reflexivity. Qed.

Lemma Q2_add (a b : Z) : (Q2 (a + b) == Q2 a * Q2 b)%Q.
Proof. apply Qpower_plus. discriminate. Qed.

Lemma Q2_inject (n : Z) : 0 <= n -> (inject_Z (2 ^ n) == Q2 n)%Q.
Proof. intros H. apply Zpower_Qpower. exact H. Qed.

Lemma Q2_lt_inv (a b : Z) : (Q2 a < Q2 b)%Q -> a < b.
Proof. intros H. apply (Qpower_lt_compat_l_inv 2); [exact H|reflexivity]. Qed.

Lemma Q2_le (a b : Z) : a <= b -> (Q2 a <= Q2 b)%Q.
Proof. intros H. apply Qpower_le_compat_l; [exact H|discriminate]. Qed.

Lemma Q2_lt (a b : Z) : a < b -> (Q2 a < Q2 b)%Q.
Proof. intros H. apply Qpower_lt_compat_l; [exact H|reflexivity]. Qed.

(** A shift of the mantissa is a shift of the exponent. *)
Lemma inject_shift (m n e : Z) :
  0 <= n -> (inject_Z (m * 2 ^ n) * Q2 e == inject_Z m * Q2 (e + n))%Q.
Proof.
  intros H. rewrite inject_Z_mult, (Q2_inject n H), Q2_add. ring.
Qed.

(** [rnd] is within a half of the fraction. *)
Lemma rnd_half (A D : Z) :
  0 <= A -> 0 < D -> (2 * rnd A D - 1) * D <= 2 * A <= (2 * rnd A D + 1) * D.
Proof.
  intros HA HD. unfold rnd, classify.
  pose proof (Z.div_mod A D ltac:(lia)) as E.
  pose proof (Z.mod_pos_bound A D HD) as Hr.
  set (q := A / D) in *. set (r := A mod D) in *.
  destruct (Z.eqb_spec r 0) as [R0|R0]; cbn [round_nearest_even].
  - nia.
  - destruct (Z.compare_spec (2 * r) D) as [C|C|C].
    + destruct (Z.even q); nia.
    + nia.
    + nia.
Qed.


(** A mantissa of 53 bits, or [2^53], below the largest exponent
    renormalises to a float of the same value with a 53-bit mantissa. *)
Lemma finish_normal (mr e1 : Z) :
  2 ^ 52 <= mr <= 2 ^ 53 -> -1074 <= e1 < 971 ->
  exists p e, finish false mr e1 = S754_finite false p e /\ e1 <= e /\
              Zpos p * 2 ^ (e - e1) = mr /\ 2 ^ 52 <= Zpos p < 2 ^ 53.
Proof.
  intros [H0 H1] He. unfold finish.
  assert (T53 : 2 ^ 53 = 9007199254740992) by reflexivity.
  assert (T52 : 2 ^ 52 = 4503599627370496) by reflexivity.
  destruct (Z.eq_dec mr (2 ^ 53)) as [E53|N53].
  - assert (Dg : Zdigits2 mr = 54) by (rewrite E53; reflexivity).
    assert (Sh : shift_of mr e1 = 1) by (unfold shift_of; rewrite fexp_val, Dg; lia).
    rewrite Sh. rewrite E53. change (2 ^ 53 / 2 ^ 1) with (Zpos 4503599627370496).
    destruct (Z.leb_spec (e1 + 1) 971) as [L|L]; [|lia].
    exists 4503599627370496%positive, (e1 + 1). split; [reflexivity|]. split; [lia|].
    replace (e1 + 1 - e1) with 1 by lia. split; [reflexivity|lia].
  - assert (Dg : Zdigits2 mr = 53) by (apply Zdigits2_unique; lia).
    assert (Sh : shift_of mr e1 = 0) by (unfold shift_of; rewrite fexp_val; lia).
    rewrite Sh, Z.pow_0_r, Z.div_1_r, Z.add_0_r.
    destruct mr as [|p|p]; try lia.
    destruct (Z.leb_spec e1 971) as [L|L]; [|lia].
    exists p, e1. split; [reflexivity|]. split; [lia|].
    rewrite Z.sub_diag, Z.pow_0_r. lia.
Qed.

(** The binade of a quotient that is not tiny, read off its integer part. *)
Lemma quotient_bounds (A B ex : Z) :
  0 < A -> 0 < B -> ex <= fexp prec emax (Zdigits2 (A / B) + ex) ->
  (Q2 (-1074) <= inject_Z A / inject_Z B * Q2 ex)%Q ->
  0 < A / B /\
  (Q2 (Zdigits2 (A / B) - 1 + ex) <= inject_Z A / inject_Z B * Q2 ex)%Q /\
  (inject_Z A / inject_Z B * Q2 ex < Q2 (Zdigits2 (A / B) + ex))%Q.
Proof.
  intros HA HB Hal Lo.
  pose proof (Z.div_mod A B ltac:(lia)) as E.
  pose proof (Z.mod_pos_bound A B HB) as Hr.
  pose proof (Z.div_pos A B ltac:(lia) HB) as Hq.
  set (q := A / B) in *.
  set (a := inject_Z A) in *. set (b := inject_Z B) in *.
  assert (Pb : (0 < b)%Q) by (unfold b; rewrite <- (Zlt_Qlt 0); lia).
  pose proof (Q2_pos ex) as Pex.
  assert (Q1 : (inject_Z q * Q2 ex <= a / b * Q2 ex)%Q).
  { apply Qmult_le_compat_r; [|apply Qlt_le_weak; exact Pex].
    apply Qle_shift_div_l; [exact Pb|]. unfold a, b.
    rewrite <- inject_Z_mult, <- Zle_Qle. lia. }
  assert (Q2' : (a / b * Q2 ex < inject_Z (q + 1) * Q2 ex)%Q).
  { apply Qmult_lt_compat_r; [exact Pex|].
    apply Qlt_shift_div_r; [exact Pb|]. unfold a, b.
    rewrite <- inject_Z_mult, <- Zlt_Qlt. lia. }
  rewrite fexp_val in Hal.
  assert (Q0 : q <> 0).
  { intros Z0. rewrite Z0 in *. simpl (Zdigits2 0) in Hal.
    assert (ex <= -1074) by lia.
    pose proof (Q2_le ex (-1074) ltac:(lia)) as L1.
    change (inject_Z (0 + 1)) with 1%Q in Q2'. rewrite Qmult_1_l in Q2'.
    apply (Qlt_irrefl (Q2 ex)).
    eapply Qle_lt_trans; [exact L1|]. eapply Qle_lt_trans; [exact Lo|]. exact Q2'. }
  pose proof (Zdigits2_bounds q ltac:(lia)) as [Lq Uq].
  pose proof (Zdigits2_pos q ltac:(lia)) as Dq.
  split; [lia|]. split.
  - eapply Qle_trans; [|exact Q1].
    rewrite Q2_add. apply Qmult_le_compat_r; [|apply Qlt_le_weak; exact Pex].
    rewrite <- Q2_inject by lia. rewrite <- Zle_Qle. exact Lq.
  - eapply Qlt_le_trans; [exact Q2'|].
    rewrite Q2_add. apply Qmult_le_compat_r; [|apply Qlt_le_weak; exact Pex].
    rewrite <- Q2_inject by lia. rewrite <- Zle_Qle. lia.
Qed.

(** The exponent at which a quotient of the binade [2^(k-1) <= T < 2^k] is
    rounded. *)
Lemma quotient_binade (A B ex k : Z) :
  0 < A -> 0 < B -> ex <= fexp prec emax (Zdigits2 (A / B) + ex) -> -1021 <= k ->
  (Q2 (k - 1) <= inject_Z A / inject_Z B * Q2 ex)%Q ->
  (inject_Z A / inject_Z B * Q2 ex < Q2 k)%Q ->
  shift_of (A / B) ex = k - 53 - ex /\ 0 <= k - 53 - ex.
Proof.
  intros HA HB Hal Hk Lo Hi.
  assert (Lo' : (Q2 (-1074) <= inject_Z A / inject_Z B * Q2 ex)%Q).
  { eapply Qle_trans; [|exact Lo]. apply Q2_le. lia. }
  destruct (quotient_bounds A B ex HA HB Hal Lo') as (Hq & L & U).
  assert (G1 : Zdigits2 (A / B) - 1 + ex < k).
  { apply Q2_lt_inv. eapply Qle_lt_trans; [exact L|exact Hi]. }
  assert (G2 : k - 1 < Zdigits2 (A / B) + ex).
  { apply Q2_lt_inv. eapply Qle_lt_trans; [exact Lo|exact U]. }
  rewrite fexp_val in Hal. unfold shift_of. rewrite fexp_val. lia.
Qed.

(** A quotient in the normal range of binary64 is rounded with a relative
    error of at most [2^-53]. *)
Lemma rounded_rel (A B ex : Z) :
  0 < A -> 0 < B -> ex <= fexp prec emax (Zdigits2 (A / B) + ex) ->
  (Q2 (-1021) <= inject_Z A / inject_Z B * Q2 ex)%Q ->
  (inject_Z A / inject_Z B * Q2 ex < Q2 1023)%Q ->
  exists p e, rounded A B ex = S754_finite false p e /\ 2 ^ 52 <= Zpos p /\
    ((1 - unit_roundoff) * (inject_Z A / inject_Z B * Q2 ex) <= Qvalue p e)%Q /\
    (Qvalue p e <= (1 + unit_roundoff) * (inject_Z A / inject_Z B * Q2 ex))%Q.
Proof.
  intros HA HB Hal Lo Hi.
  assert (Lo' : (Q2 (-1074) <= inject_Z A / inject_Z B * Q2 ex)%Q).
  { eapply Qle_trans; [|exact Lo]. apply Q2_le. lia. }
  destruct (quotient_bounds A B ex HA HB Hal Lo') as (Hq & L & U).
  pose proof (Z.div_mod A B ltac:(lia)) as E.
  pose proof (Z.mod_pos_bound A B HB) as Hr.
  destruct (rounded_parts A B ex ltac:(lia) HB Hal) as (E1 & M01 & M2).
  unfold rounded.
  pose proof (shift_of_nonneg (A / B) ex) as Hs.
  set (q := A / B) in *. set (sh := shift_of q ex) in *.
  set (mr := rnd A (B * 2 ^ sh)) in *.
  set (a := inject_Z A) in *. set (b := inject_Z B) in *.
  assert (Pb : (0 < b)%Q) by (unfold b; rewrite <- (Zlt_Qlt 0); lia).
  pose proof (Zdigits2_bounds q ltac:(lia)) as [Lq Uq].
  set (dg := Zdigits2 q) in *.
  assert (G1 : dg + ex <= 1023).
  { assert (X : dg - 1 + ex < 1023)
      by (apply Q2_lt_inv; eapply Qle_lt_trans; [exact L|exact Hi]). lia. }
  assert (G2 : -1021 < dg + ex).
  { apply Q2_lt_inv. eapply Qle_lt_trans; [exact Lo|exact U]. }
  rewrite fexp_val in Hal.
  assert (Sh : sh = dg - 53) by lia.
  specialize (M2 ltac:(lia)).
  destruct (finish_normal mr (ex + sh) ltac:(lia) ltac:(lia)) as (p & e & F & Le & V & Pp).
  exists p, e. split; [exact F|]. split; [lia|].
  (* the value of the result and the rounded fraction *)
  pose proof (pow2_pos sh Hs) as Ps.
  assert (T52 : 2 ^ 52 = 4503599627370496) by reflexivity.
  assert (T53 : 2 ^ 53 = 9007199254740992) by reflexivity.
  assert (HD : 0 < B * 2 ^ sh) by nia.
  pose proof (rnd_half A (B * 2 ^ sh) ltac:(lia) HD) as [H1 H2]. fold mr in H1, H2.
  assert (HA52 : 2 ^ 52 * (B * 2 ^ sh) <= A).
  { assert (X : 2 ^ (dg - 1) = 2 ^ 52 * 2 ^ sh).
    { rewrite <- Z.pow_add_r by lia. f_equal. lia. }
    rewrite X in Lq. nia. }
  set (D := B * 2 ^ sh) in *. set (X := mr * D).
  assert (L1 : 9007199254740992 * A <= A + 9007199254740992 * X) by (unfold X; lia).
  assert (L2 : 9007199254740992 * X <= A + 9007199254740992 * A) by (unfold X; lia).
  assert (EV : (Qvalue p e == inject_Z mr * Q2 (ex + sh))%Q).
  { unfold Qvalue. rewrite <- V. rewrite inject_shift by lia.
    replace (ex + sh + (e - (ex + sh))) with e by lia. reflexivity. }
  assert (ET : (a / b * Q2 ex == a / inject_Z D * Q2 (ex + sh))%Q).
  { unfold D. rewrite inject_Z_mult, (Q2_inject sh Hs), Q2_add. fold b.
    pose proof (Q2_pos sh). field. split; intros C; rewrite C in *;
      [apply (Qlt_irrefl 0); assumption|apply (Qlt_irrefl 0); assumption]. }
  assert (PD : (0 < inject_Z D)%Q) by (rewrite <- (Zlt_Qlt 0); lia).
  pose proof (Q2_pos (ex + sh)) as Pe1.
  rewrite Zle_Qle in L1, L2. unfold X in L1, L2.
  rewrite !inject_Z_plus, !inject_Z_mult in L1, L2. fold a in L1, L2.
  rewrite EV, ET.
  set (dd := inject_Z D) in *. set (m := inject_Z mr) in *.
  change (inject_Z 9007199254740992) with (9007199254740992%Q) in L1, L2.
  split.
  - rewrite Qmult_assoc. apply Qmult_le_compat_r; [|apply Qlt_le_weak; exact Pe1].
    unfold Qdiv. rewrite Qmult_assoc. apply Qle_shift_div_r; [exact PD|].
    unfold unit_roundoff. lra.
  - rewrite Qmult_assoc. apply Qmult_le_compat_r; [|apply Qlt_le_weak; exact Pe1].
    unfold Qdiv. rewrite Qmult_assoc. apply Qle_shift_div_l; [exact PD|].
    unfold unit_roundoff. lra.
Qed.

Lemma Qvalue_pos (m : positive) (e : Z) : (0 < Qvalue m e)%Q.
Proof.
  unfold Qvalue. apply Qmult_lt_0_compat; [|apply Q2_pos].
  rewrite <- (Zlt_Qlt 0). lia.
Qed.

Lemma Q2_neq (e : Z) : ~ (Q2 e == 0)%Q.
Proof. intros C. pose proof (Q2_pos e) as P. rewrite C in P. exact (Qlt_irrefl 0 P). Qed.

Lemma inject_pos_neq (m : positive) : ~ (inject_Z (Zpos m) == 0)%Q.
Proof.
  intros C. assert (P : (0 < inject_Z (Zpos m))%Q) by (rewrite <- (Zlt_Qlt 0); lia).
  rewrite C in P. exact (Qlt_irrefl 0 P).
Qed.

(** The fraction a quotient of floats is computed from has the value of the
    quotient. *)
Lemma fdiv_target (m1 m2 : positive) (e1 e2 e' : Z) :
  e' <= e1 - e2 ->
  (inject_Z (Zpos m1 * 2 ^ (e1 - e2 - e')) / inject_Z (Zpos m2) * Q2 e'
   == Qvalue m1 e1 / Qvalue m2 e2)%Q.
Proof.
  intros H. unfold Qvalue.
  rewrite inject_Z_mult, Q2_inject by lia.
  replace e1 with ((e1 - e2 - e') + e' + e2) at 2 by lia.
  rewrite !Q2_add.
  pose proof (Q2_neq e2). pose proof (inject_pos_neq m2).
  field. split; assumption.
Qed.

(** A quotient of positive floats in the normal range has a relative error
    of at most [2^-53]. *)
Lemma fdiv_rel (m1 m2 : positive) (e1 e2 : Z) :
  (Q2 (-1021) <= Qvalue m1 e1 / Qvalue m2 e2)%Q ->
  (Qvalue m1 e1 / Qvalue m2 e2 < Q2 1023)%Q ->
  exists p e,
    fdiv (S754_finite false m1 e1) (S754_finite false m2 e2) = S754_finite false p e /\
    2 ^ 52 <= Zpos p /\
    ((1 - unit_roundoff) * (Qvalue m1 e1 / Qvalue m2 e2) <= Qvalue p e)%Q /\
    (Qvalue p e <= (1 + unit_roundoff) * (Qvalue m1 e1 / Qvalue m2 e2))%Q.
Proof.
  intros Lo Hi.
  destruct (fdiv_rounded m1 m2 e1 e2) as [-> Al].
  set (e' := Z.min (fexp prec emax (Zdigits2 (Zpos m1) + e1 - (Zdigits2 (Zpos m2) + e2)))
                   (e1 - e2)) in *.
  assert (He : e' <= e1 - e2) by (unfold e'; lia).
  clearbody e'.
  pose proof (fdiv_target m1 m2 e1 e2 e' He) as ET.
  pose proof (pow2_pos (e1 - e2 - e') ltac:(lia)) as P1.
  destruct (rounded_rel (Zpos m1 * 2 ^ (e1 - e2 - e')) (Zpos m2) e') as (p & e & F & P & B1 & B2);
    [nia|lia|exact Al|rewrite ET; exact Lo|rewrite ET; exact Hi|].
  rewrite ET in B1, B2. exists p, e. auto.
Qed.

Lemma fmul_rounded (m1 m2 : positive) (e1 e2 : Z) :
  fmul (S754_finite false m1 e1) (S754_finite false m2 e2)
  = rounded (Zpos m1 * Zpos m2) 1 (e1 + e2).
Proof.
  unfold fmul, SFmul, rounded. cbn [xorb]. rewrite Z.div_1_r.
  apply binary_round_aux_rounds; [lia|lia|rewrite Z.div_1_r; reflexivity|].
  rewrite Z.mod_1_r. reflexivity.
Qed.

Lemma product_aligned (A ex : Z) :
  2 ^ 52 <= A -> ex <= fexp prec emax (Zdigits2 (A / 1) + ex).
Proof.
  intros H. rewrite Z.div_1_r, fexp_val.
  assert (T52 : 2 ^ 52 = 4503599627370496) by reflexivity.
  pose proof (Zdigits2_lower A 53 ltac:(lia) ltac:(exact H)). lia.
Qed.

(** A product of positive floats in the normal range, one of them with a
    53-bit mantissa, has a relative error of at most [2^-53]. *)
Lemma fmul_rel (m1 m2 : positive) (e1 e2 : Z) :
  2 ^ 52 <= Zpos m2 ->
  (Q2 (-1021) <= Qvalue m1 e1 * Qvalue m2 e2)%Q ->
  (Qvalue m1 e1 * Qvalue m2 e2 < Q2 1023)%Q ->
  exists p e,
    fmul (S754_finite false m1 e1) (S754_finite false m2 e2) = S754_finite false p e /\
    ((1 - unit_roundoff) * (Qvalue m1 e1 * Qvalue m2 e2) <= Qvalue p e)%Q /\
    (Qvalue p e <= (1 + unit_roundoff) * (Qvalue m1 e1 * Qvalue m2 e2))%Q.
Proof.
  intros H52 Lo Hi. rewrite fmul_rounded.
  assert (ET : (inject_Z (Zpos m1 * Zpos m2) / inject_Z 1 * Q2 (e1 + e2)
                == Qvalue m1 e1 * Qvalue m2 e2)%Q).
  { unfold Qvalue. rewrite inject_Z_mult, Q2_add. change (inject_Z 1) with 1%Q. field. }
  assert (HA : 2 ^ 52 <= Zpos m1 * Zpos m2) by nia.
  destruct (rounded_rel (Zpos m1 * Zpos m2) 1 (e1 + e2)) as (p & e & F & _ & B1 & B2);
    [lia|lia|exact (product_aligned _ _ HA)|rewrite ET; exact Lo|rewrite ET; exact Hi|].
  rewrite ET in B1, B2. exists p, e. auto.
Qed.

(** [pixel_width * 30.0] is exact for a pixel width below [2^48]. *)
Lemma width_times_30 (pw : Z) :
  0 < pw < 2 ^ 48 ->
  exists m e, fmul (fround_Z pw) f30_0 = S754_finite false m e /\
              (Qvalue m e == inject_Z (30 * pw))%Q.
Proof.
  intros Hp.
  assert (T48 : 2 ^ 48 = 281474976710656) by reflexivity.
  assert (T53 : 2 ^ 53 = 9007199254740992) by reflexivity.
  assert (T52 : 2 ^ 52 = 4503599627370496) by reflexivity.
  destruct (Pixels.fround_Z_small pw ltac:(lia)) as (mw & ew & -> & Hew & Emw).
  destruct (Pixels.fround_Z_small (30 * pw) ltac:(lia)) as (M & E & F & HE & EM).
  pose proof (Canonical.binary_normalize_valid (30 * pw)) as V.
  fold (fround_Z (30 * pw)) in V. rewrite F in V.
  change f30_0 with (S754_finite false 8444249301319680 (-48)).
  rewrite fmul_rounded. unfold rounded.
  exists M, E. split.
  - pose proof (pow2_pos (- ew) ltac:(lia)) as Pw.
    set (A := Zpos mw * 8444249301319680).
    assert (HA : 2 ^ 52 <= A) by (unfold A; nia).
    set (ex := ew + -48).
    set (c := Z.min ex E).
    assert (X1 : 2 ^ (- ew) * 2 ^ 48 * 2 ^ (ex - c) = 2 ^ (- c)).
    { rewrite <- !Z.pow_add_r by (unfold c, ex; lia). f_equal. unfold ex. lia. }
    assert (X2 : 2 ^ (- E) * 2 ^ (E - c) = 2 ^ (- c)).
    { rewrite <- !Z.pow_add_r by (unfold c, ex; lia). f_equal. lia. }
    assert (Key : A * 2 ^ (ex - c) = Zpos M * 2 ^ (E - c)).
    { unfold A. rewrite Emw, EM.
      change 8444249301319680 with (30 * 2 ^ 48).
      replace (pw * 2 ^ (- ew) * (30 * 2 ^ 48) * 2 ^ (ex - c))
        with (30 * pw * (2 ^ (- ew) * 2 ^ 48 * 2 ^ (ex - c))) by ring.
      replace (30 * pw * 2 ^ (- E) * 2 ^ (E - c))
        with (30 * pw * (2 ^ (- E) * 2 ^ (E - c))) by ring.
      rewrite X1, X2. reflexivity. }
    pose proof (pow2_pos (E - c) ltac:(unfold c; lia)) as Pc.
    apply (finish_rnd_canonical false M E A 1 ex (A / 1)); try assumption;
      try reflexivity; try lia.
    + rewrite Z.div_1_r. lia.
    + apply product_aligned. exact HA.
    + fold c. set (P := 2 ^ (E - c)) in *. set (Q := 2 ^ (ex - c)) in *.
      replace (2 * A * Q) with (2 * (A * Q)) by ring. rewrite Key. nia.
  - unfold Qvalue. rewrite EM, inject_shift by lia.
    replace (E + - E) with 0 by lia. change (Q2 0) with 1%Q. ring.
Qed.

End Rational.

Module Pose.
Import QArith Qpower Lqa.
Import Rounding Order Exact Bounds Monotone Rational.
Local Open Scope Z_scope.

Lemma fle_Qvalue (m1 m2 : positive) (e1 e2 : Z) :
  fle (S754_finite false m1 e1) (S754_finite false m2 e2) = true ->
  (Qvalue m1 e1 <= Qvalue m2 e2)%Q.
Proof.
  intros H. set (c := Z.min e1 e2).
  apply (fle_key c) in H; try reflexivity; cbn [expo]; try (unfold c; lia).
  destruct H as [H|[_ H]]; [cbn [cls] in H; lia|]. cbn [sval cond_Zopp] in H.
  assert (E : forall m e, c <= e ->
            (Qvalue m e == inject_Z (Zpos m * 2 ^ (e - c)) * Q2 c)%Q).
  { intros m e He. unfold Qvalue. rewrite inject_shift by lia.
    replace (c + (e - c)) with e by lia. reflexivity. }
  rewrite (E m1 e1), (E m2 e2) by (unfold c; lia).
  apply Qmult_le_compat_r; [|apply Qlt_le_weak, Q2_pos].
  rewrite <- Zle_Qle. exact H.
Qed.

Lemma ordinary_cases (kw : float) :
  ordinary kw = true ->
  exists mk ek, kw = S754_finite false mk ek /\
                (Q2 (-900) <= Qvalue mk ek)%Q /\ (Qvalue mk ek <= Q2 900)%Q.
Proof.
  unfold ordinary. intros H. apply andb_true_iff in H. destruct H as [H1 H2].
  destruct kw as [s|s| |s mk ek]; try discriminate.
  - destruct s; discriminate.
  - destruct s; [discriminate|].
    exists mk, ek. split; [reflexivity|].
    apply fle_Qvalue in H1, H2.
    assert (E1 : (Qvalue 4503599627370496 (-952) == Q2 (-900))%Q).
    { unfold Qvalue. change (Zpos 4503599627370496) with (2 ^ 52).
      rewrite Q2_inject by lia. rewrite <- Q2_add. reflexivity. }
    assert (E2 : (Qvalue 4503599627370496 848 == Q2 900)%Q).
    { unfold Qvalue. change (Zpos 4503599627370496) with (2 ^ 52).
      rewrite Q2_inject by lia. rewrite <- Q2_add. reflexivity. }
    rewrite E1 in H1. rewrite E2 in H2. split; assumption.
Qed.

Lemma focal_length_of_fdiv (pw : Z) (kw : float) :
  0 < pw < 2 ^ 1023 -> is_zero kw = false ->
  focal_length_of pw kw = Ok (Float (fdiv (fmul (fround_Z pw) f30_0) kw)).
Proof.
  intros Hp Z. unfold focal_length_of.
  cbn [mul KNOWN_DISTANCE_FOR_CALIBRATION to_float bind].
  rewrite float_of_int_finite by lia. cbn [bind truediv to_float]. rewrite Z. reflexivity.
Qed.


Lemma Q2_consts :
  (Q2 0 == 1)%Q /\ (Q2 4 == 16)%Q /\ (Q2 5 == 32)%Q /\ (Q2 48 == 281474976710656)%Q /\
  (Q2 53 == 9007199254740992)%Q.
Proof. repeat split; reflexivity. Qed.

(** The fraction [a / b] times [b]. *)
Lemma Qdiv_mul (a b : Q) : (0 < b)%Q -> (a / b * b == a)%Q.
Proof. intros H. field. intros C. rewrite C in H. exact (Qlt_irrefl 0 H). Qed.

(** The three roundings between the calibration and the estimate at the
    calibration pose: the focal length, its product with the hand width, and
    the quotient by the pixel width. *)
Lemma pose_quotient (mk : positive) (ek pw : Z) :
  (Q2 (-900) <= Qvalue mk ek)%Q -> (Qvalue mk ek <= Q2 900)%Q -> 0 < pw < 2 ^ 48 ->
  exists mp ep mw ew,
    fmul (S754_finite false mk ek)
         (fdiv (fmul (fround_Z pw) f30_0) (S754_finite false mk ek))
    = S754_finite false mp ep /\
    fround_Z pw = S754_finite false mw ew /\
    (30 * ((1 - unit_roundoff) * (1 - unit_roundoff)) <= Qvalue mp ep / Qvalue mw ew)%Q /\
    (Qvalue mp ep / Qvalue mw ew <= 30 * ((1 + unit_roundoff) * (1 + unit_roundoff)))%Q.
Proof.
  intros KL KH Hp.
  assert (T48 : 2 ^ 48 = 281474976710656) by reflexivity.
  destruct Q2_consts as (C0 & C4 & C5 & C48 & C53).
  destruct (width_times_30 pw Hp) as (m & e & -> & EC).
  set (K := Qvalue mk ek) in *. set (C := Qvalue m e) in *.
  set (W := inject_Z pw).
  assert (PW : (1 <= W)%Q) by (unfold W; rewrite <- (Zle_Qle 1); lia).
  assert (EC' : (C == 30 * W)%Q) by (rewrite EC, inject_Z_mult; reflexivity).
  assert (CH : (C < 9007199254740992)%Q).
  { assert (Hz : 30 * pw < 9007199254740992) by lia.
    rewrite Zlt_Qlt in Hz. rewrite <- EC in Hz. exact Hz. }
  assert (PK : (0 < K)%Q) by apply Qvalue_pos.
  assert (KD : (C / K * K == C)%Q) by (apply Qdiv_mul; exact PK).
  (* the focal length *)
  assert (X1 : (Q2 (-1021) * Q2 900 == Q2 (-121))%Q) by (rewrite <- Q2_add; reflexivity).
  assert (X2 : (Q2 1023 * Q2 (-900) == Q2 123)%Q) by (rewrite <- Q2_add; reflexivity).
  pose proof (Q2_le (-121) 0 ltac:(lia)) as X3. rewrite C0 in X3.
  pose proof (Q2_le 53 123 ltac:(lia)) as X4. rewrite C53 in X4.
  pose proof (Q2_pos (-1021)) as P1021. pose proof (Q2_pos 1023) as P1023.
  destruct (fdiv_rel m mk e ek) as (mf & ef & -> & F52 & FL & FH).
  { fold C K. apply Qle_shift_div_l; [exact PK|].
    apply Qle_trans with (Q2 (-1021) * Q2 900)%Q.
    - apply Qmult_le_l; assumption.
    - rewrite X1. lra. }
  { fold C K. apply Qlt_shift_div_r; [exact PK|].
    apply Qlt_le_trans with (Q2 1023 * Q2 (-900))%Q.
    - rewrite X2. lra.
    - apply Qmult_le_l; assumption. }
  fold C K in FL, FH. set (F := Qvalue mf ef) in *.
  (* its product with the hand width *)
  assert (KFL : ((1 - unit_roundoff) * C <= K * F)%Q).
  { rewrite <- KD at 1. rewrite Qmult_assoc, (Qmult_comm K).
    apply Qmult_le_compat_r; [exact FL|apply Qlt_le_weak; exact PK]. }
  assert (KFH : (K * F <= (1 + unit_roundoff) * C)%Q).
  { rewrite <- KD at 1. rewrite Qmult_assoc, (Qmult_comm K).
    apply Qmult_le_compat_r; [exact FH|apply Qlt_le_weak; exact PK]. }
  pose proof (Q2_le (-1021) 0 ltac:(lia)) as X5. rewrite C0 in X5.
  pose proof (Q2_le 54 1023 ltac:(lia)) as X6.
  assert (C54 : (Q2 54 == 18014398509481984)%Q) by reflexivity. rewrite C54 in X6.
  destruct (fmul_rel mk mf ek ef F52) as (mp & ep & -> & PL & PH).
  { fold K F. unfold unit_roundoff in *. lra. }
  { fold K F. unfold unit_roundoff in *. lra. }
  fold K F in PL, PH. set (P := Qvalue mp ep) in *.
  (* the quotient by the pixel width *)
  destruct (Pixels.fround_Z_small pw ltac:(lia)) as (mw & ew & FW & Hew & Emw).
  exists mp, ep, mw, ew. split; [reflexivity|]. split; [exact FW|].
  assert (EW : (Qvalue mw ew == W)%Q).
  { unfold Qvalue. rewrite Emw, inject_shift by lia.
    replace (ew + - ew) with 0 by lia. rewrite C0. fold W. ring. }
  rewrite EW.
  assert (PW0 : (0 < W)%Q) by lra.
  split.
  - apply Qle_shift_div_l; [exact PW0|]. fold P. unfold unit_roundoff in *. lra.
  - apply Qle_shift_div_r; [exact PW0|]. fold P. unfold unit_roundoff in *. lra.
Qed.


(** A quotient within [2^-47] of 30, rounded: 30.0 within two units in the
    last place. *)
Lemma quotient_near_30 (mp mw : positive) (ep ew : Z) :
  (30 * ((1 - unit_roundoff) * (1 - unit_roundoff)) <= Qvalue mp ep / Qvalue mw ew)%Q ->
  (Qvalue mp ep / Qvalue mw ew <= 30 * ((1 + unit_roundoff) * (1 + unit_roundoff)))%Q ->
  exists m, fdiv (S754_finite false mp ep) (S754_finite false mw ew)
            = S754_finite false m (-48) /\
            30 * 2 ^ 48 - 2 <= Zpos m <= 30 * 2 ^ 48 + 2.
Proof.
  intros TL TH.
  destruct Q2_consts as (C0 & C4 & C5 & C48 & C53).
  destruct (fdiv_rounded mp mw ep ew) as [-> Al].
  set (e' := Z.min (fexp prec emax (Zdigits2 (Zpos mp) + ep - (Zdigits2 (Zpos mw) + ew)))
                   (ep - ew)) in *.
  assert (He : e' <= ep - ew) by (unfold e'; lia).
  clearbody e'.
  pose proof (fdiv_target mp mw ep ew e' He) as ET.
  pose proof (pow2_pos (ep - ew - e') ltac:(lia)) as P1.
  set (A := Zpos mp * 2 ^ (ep - ew - e')) in *.
  assert (HA : 0 < A) by (unfold A; nia).
  rewrite <- ET in TL, TH.
  set (T := (inject_Z A / inject_Z (Zpos mw) * Q2 e')%Q) in *.
  destruct (quotient_binade A (Zpos mw) e' 5 HA ltac:(lia) Al ltac:(lia)) as [Sh Hs].
  { fold T. change (5 - 1) with 4. rewrite C4. unfold unit_roundoff in *. lra. }
  { fold T. rewrite C5. unfold unit_roundoff in *. lra. }
  unfold rounded. rewrite Sh.
  replace (e' + (5 - 53 - e')) with (-48) by lia.
  set (sh := 5 - 53 - e') in *.
  pose proof (pow2_pos sh Hs) as Ps.
  set (D := Zpos mw * 2 ^ sh).
  assert (HD : 0 < D) by (unfold D; nia).
  set (a := inject_Z A) in *. set (dd := inject_Z D).
  assert (PD : (0 < dd)%Q) by (unfold dd; rewrite <- (Zlt_Qlt 0); lia).
  (* the fraction that is rounded *)
  assert (ER : (a / dd == T * 281474976710656)%Q).
  { unfold T, dd, D. rewrite inject_Z_mult, (Q2_inject sh Hs), <- C48.
    assert (X : (Q2 e' * Q2 48 * Q2 sh == 1)%Q).
    { rewrite <- !Q2_add. replace (e' + 48 + sh) with 0 by (unfold sh; lia). exact C0. }
    pose proof (Q2_neq sh). pose proof (inject_pos_neq mw).
    assert (Y : (a / inject_Z (Zpos mw) * Q2 e' * Q2 48
                 == a / (inject_Z (Zpos mw) * Q2 sh) * (Q2 e' * Q2 48 * Q2 sh))%Q)
      by (field; split; assumption).
    rewrite Y, X. ring. }
  assert (EA : (a == a / dd * dd)%Q) by (symmetry; apply Qdiv_mul; exact PD).
  set (N := 30 * 2 ^ 48).
  assert (TN : N = 8444249301319680) by reflexivity.
  assert (L : (N - 2) * D <= A).
  { rewrite Zle_Qle, inject_Z_mult. fold a dd. rewrite EA.
    apply Qmult_le_compat_r; [|apply Qlt_le_weak; exact PD].
    rewrite ER, TN. change (inject_Z (8444249301319680 - 2)) with 8444249301319678%Q.
    unfold unit_roundoff in *. lra. }
  assert (U : A <= (N + 2) * D).
  { rewrite Zle_Qle, inject_Z_mult. fold a dd. rewrite EA.
    apply Qmult_le_compat_r; [|apply Qlt_le_weak; exact PD].
    rewrite ER, TN. change (inject_Z (8444249301319680 + 2)) with 8444249301319682%Q.
    unfold unit_roundoff in *. lra. }
  pose proof (rnd_ge A D (N - 2) ltac:(lia) HD L) as ML.
  pose proof (rnd_le A D (N + 2) ltac:(lia) HD U) as MU.
  fold D. set (mr := rnd A D) in *.
  assert (T52 : 2 ^ 52 = 4503599627370496) by reflexivity.
  assert (T53 : 2 ^ 53 = 9007199254740992) by reflexivity.
  assert (Dg : Zdigits2 mr = 53) by (apply Zdigits2_unique; lia).
  unfold finish.
  assert (S0 : shift_of mr (-48) = 0) by (unfold shift_of; rewrite fexp_val, Dg; lia).
  rewrite S0, Z.pow_0_r, Z.div_1_r.
  destruct mr as [|p|p]; try lia.
  exists p. split; [reflexivity|]. fold N. lia.
Qed.

End Pose.

(** X19.  Estimating at the calibration pose gives the calibration distance
    back.  For a hand width between [2^-900] and [2^900] and a pixel width
    [0 < pw < 2^48], [calibrate] computes a focal length [fl] from [pw], and
    [estimate_distance] for the same hand width, [fl] and [pw] returns
    [KNOWN_DISTANCE_FOR_CALIBRATION = 30.0] within two units in the last
    place: a float [m * 2^-48] with [|m - 30 * 2^48| <= 2].  As this is below
    60, the frame carries the warning of [main]. *)
Theorem calibration_pose_distance (kw : float) (pw : Z) :
  ordinary kw = true -> 0 < pw < 2 ^ 48 ->
  exists fl m,
    focal_length_of pw kw = Ok (Float fl) /\
    estimate_distance (Float kw) (Float fl) (Int pw) = Ok (Float (S754_finite false m (-48))) /\
    30 * 2 ^ 48 - 2 <= Zpos m <= 30 * 2 ^ 48 + 2 /\
    lt (Float (S754_finite false m (-48))) (Int 60) = true.
Proof.
  intros Ho Hp.
  assert (B : 2 ^ 48 < 2 ^ 1023) by (apply Z.pow_lt_mono_r; lia).
  destruct (Pose.ordinary_cases kw Ho) as (mk & ek & -> & KL & KH).
  rewrite Pose.focal_length_of_fdiv by (reflexivity || lia).
  eexists. 
  destruct (Pose.pose_quotient mk ek pw KL KH Hp) as (mp & ep & mw & ew & EP & EW & TL & TH).
  destruct (Pose.quotient_near_30 mp mw ep ew TL TH) as (m & Ed & Bm).
  exists m. split; [reflexivity|].
  rewrite estimate_distance_returns by lia. rewrite EP, EW, Ed.
  split; [reflexivity|]. split; [exact Bm|].
  unfold lt. cbn [compare fcompare_Z cond_Zopp].
  change (Z.min (-48) 0) with (-48). change (-48 - -48) with 0. change (0 - -48) with 48.
  assert (T48 : 2 ^ 48 = 281474976710656) by reflexivity. rewrite T48 in *.
  rewrite Z.pow_0_r, Z.mul_1_r.
  assert (C : Zpos m < 60 * 281474976710656) by lia.
  apply Z.compare_lt_iff in C. rewrite C. reflexivity.
Qed.

Lemma calibration_pose_distance_witness :
  exists fl m,
    focal_length_of 120 f8_0 = Ok (Float fl) /\
    estimate_distance (Float f8_0) (Float fl) (Int 120)
    = Ok (Float (S754_finite false m (-48))) /\
    30 * 2 ^ 48 - 2 <= Zpos m <= 30 * 2 ^ 48 + 2 /\
    lt (Float (S754_finite false m (-48))) (Int 60) = true.
Proof.
  apply (calibration_pose_distance f8_0 120); [reflexivity|].
  split; [lia|reflexivity].
Defined.
